(* ===== verification/_CoqProject ===== *)
-Q . S2P
Prelude.v
Fair.v
F64.v
KdUtil.v
Clients.v
Workload.v
Kube.v
Handler.v
Backend.v
Metric.v
Decider.v
Scaler.v
Autoscaler.v
Dispatcher.v
FairReconcile.v
Ksvc.v
Dispatch.v
FairDispatch.v
Gateway.v
Pipeline.v
FairPipeline.v
ColdStart.v
Activation.v
Replay.v
Kubelet.v
KubeletMain.v
KubeletRun.v
PodLife.v
FairKubelet.v
EndToEnd.v
Monitor.v
Bench.v
TraceMain.v
FairTrace.v
