(* ===== verification/Prelude.v ===== *)
(** * Verification of the Kubedirect benchmark

    The repository drives serverless workloads on Kubernetes and measures how
    fast they scale.  A client replays a trace of invocations against a
    gateway, the gateway relays requests to one dispatcher per target and tells
    an autoscaler about them, the dispatcher hands each request to a backend
    executor of a ready pod, the autoscaler scales deployments, and a custom
    kubelet makes the pods ready after a delay.  This development models that
    path from the Go sources, function by function, and the microbenchmarks of
    single components beside it, and proves what makes each part correct, and
    the path as a whole.

    ** The parts, and how they interact

    - [F64]: Go's float64 as IEEE binary64 ([SpecFloat] at 53, 1024), with the
      functions of package math and the conversions the program uses.  No
      real numbers: the theorems bound and order floats through integers.
    - [KdUtil]: the concurrent map of the Kubedirect submodule, as a class of
      operations with laws and an instance on gmap.
    - [Clients] (pkg/util): ctrl.go and log.go, the clients with raised rate
      limits that are made or end the process, and the logger.
    - [Workload] (pkg/workload): [Selection] is selection.go, [Types] is
      types.go, [Conversion] is conversion.go.
    - [Kube]: the Kubernetes objects the program reads (pods and their
      statuses), the answers of the API server, and the classes of the
      Kubedirect submodule's predicates and of the polling library.
    - [Handler] (pkg/workload/handler): handler.go and server.go, what a
      function pod does with a request, and its server as cmd/workload/knative
      starts it.
    - [Backend] (pkg/backend): timeouts, the choice of executor, the fake and
      the gRPC executor.  [Backend.Pool] is the connection pool of grpc.go as a
      labelled transition system, one label per channel operation.
    - [Metric] (pkg/autoscaler/metric): stats.go and collector.go.
      [Metric.Weighted] is the exact time-weighted average they implement.
    - [Decider] (pkg/autoscaler/decider): kpa.go.  [Decider.Rule] is the
      integer scaling rule that the float computation implements.
    - [Scaler] (pkg/autoscaler/scaler): deployment.go, against the class
      [Client] of the manager's client with its laws, which say what a write
      leaves at the API server and nothing of the reads after it, since they
      come from a cache; the class [Scaler] is what the scaler promises to the
      autoscaler.
    - [Autoscaler] (pkg/autoscaler): interface.go, [Knative] is kpa.go and
      [OneTime] is onetime.go.  It uses deciders through the class [Decider]
      and scalers through the class [Scaler].
    - [Dispatcher] (pkg/gateway/dispatcher): pod.go as a labelled transition
      system (the run loop, the dispatch goroutines, the token channel, the
      goroutines of a reconciliation); [Ksvc] is ksvc.go in the same form.
    - [Dispatch]: the class [RequestDispatcher] of what a gateway needs of a
      dispatcher, with its laws (conservation, progress, one target), and the
      two dispatchers as its instances.  [FairDispatch] adds the class
      [FairDispatcher]: the tasks of a dispatcher's goroutines, and the law
      that every request it receives comes to be answered if they are
      scheduled fairly.
    - [Gateway] (pkg/gateway): interface.go as a labelled transition system of
      relays, [K8s] is k8s.go, which composes autoscaler and dispatcher, and
      [KnativeGateway] is knative.go.  [K8s.Start] and the goroutine of the
      autoscaler that it starts, [K8s.autoscaler_Run], are two definitions:
      between them the autoscaler's callbacks panic ([k8s_setup]).
    - [Pipeline]: gateway relays, dispatchers known through [Dispatch], the
      autoscaler and the end of their context as one transition system, in
      which the gateway's internal buffers are the dispatchers' request and
      response channels.  [K8sRun] is the pipeline of the gateway that k8s.go
      starts, with its autoscaler, the API server and the clock; [KnativeRun]
      that of knative.go.
    - [Fair]: infinite behaviours of a transition system, weak and strong
      fairness, the rules that derive from them that something happens, and
      what a component does in a behaviour of the whole.  [FairReconcile],
      [FairPipeline], [FairTrace] and [FairKubelet] apply it to the
      reconciliations of a pod dispatcher, to the running gateways, to the
      trace experiment and to the running custom kubelet.
    - [ColdStart] and [Activation]: scaling from zero in the running
      Kubernetes gateway, from a request that waits without an endpoint,
      through the autoscaler it sets in motion and the pod event that
      Reconcile is called for, to the response.
    - [Replay] (pkg/replay): worker.go and client.go.
    - [TraceMain] (experiments/trace): main.go, its flags, the set-up of
      gateway and client, and a run of the whole process as a transition
      system over [Pipeline]: senders, receiver and writer of the client, the
      main goroutine, a signal, and Close.
    - [Kubelet] (cmd/kubelet): kubelet.go, kubedirect.go and the server that
      main.go starts: the custom kubelet's event handlers, synchronisation,
      RPC handlers and statuses.  [KubeletMain] is the process around it
      (ListenAndServe, worker loops, node events, flags) and what becomes of a
      pod that is not ready.
    - [KubeletRun]: the running custom kubelet as a transition system: its
      handlers and 64 workers around the work queue, which is a class
      ([WorkQueue]) with client-go's documented behaviour as its laws.
    - [PodLife]: the life of a pod that is bound to the kubelet by RPC, from
      BindPod over its exposure at the API server to its readiness.
    - [EndToEnd]: the running gateway and the custom kubelet as one transition
      system, which meet at the API server: the statuses the kubelet writes are
      those the gateway's controller reads.
    - [Monitor] (experiments/microbench): [E2E] is the end-to-end benchmark
      (e2e/common.go) and [KubeletBench] the kubelet benchmark
      (breakdown/kubelet/monitor.go and client.go), each a readiness monitor
      and a run of the driver as a transition system.
    - [Bench] (experiments/microbench/breakdown): the drivers of the
      deployment controller, the autoscaler, and the endpoints, ReplicaSet
      and scheduler controllers: handshakes, address listers, checks of the
      targets, requests and reports, and all the benchmarks' command lines.

    This file has what they share: results of Go functions, machine integers,
    times, runs of transition systems, strings, counting and sums over maps.

    ** How Go is modelled

    - A function that can fail returns [res]: [Ok], [Err] for an error value,
      [Panic], or [Fatal] for an exit of the process.  A nil dereference, an
      index out of range, a division by zero and a negative [make] are panics.
    - int and int64 are integers reduced by [int64], int32 by [int32]; times
      are nanoseconds, with 0 for Go's zero time, and durations saturate as
      time.Sub does ([time_sub]).
    - Every reading of a clock, random number or answer of the outside is an
      argument, in the order in which the code takes it, so a theorem for all
      arguments is one for all clocks and answers.
    - A component whose goroutines interleave is a function [step] from a state
      and a label to the next state, if the label can happen; [run] follows a
      list of labels, and the theorems hold for every run.  Channels of the
      unbounded kind (golang.design/x/chann) are lists, received from the
      front; a mutex-protected operation is one step.  What a reader still gets
      of an unbounded channel after its close is a parameter for each channel
      that is closed ([kept_in], [kept_out] and [kept_writer] of [TraceMain]):
      the gateway's requests and responses, and the responses that the client
      passes to its writer.
    - Loops are folds or structural recursions; there is no fuel.  That
      processes get to their end is stated as such, in two forms.  From every
      state there is a run that ends well ([requests_answered_once] has for
      every unanswered request steps that answer it, [reconcile_converges] a
      step that brings the end nearer, [pool_capacity_and_progress] a step for
      every stuck execution).  And every fair behaviour ends well: a behaviour
      is a function from moments to states and optional labels ([Fair]), a
      task is a set of labels, and a task that stays enabled (weak fairness),
      or is enabled again and again (strong fairness, only for the timeout of
      a dispatch that tokens of removed endpoints may disturb), is taken.
      Each such theorem also gives, or its witness builds, fair behaviours
      from the runs it is about.
    - Code that is not in the repository is a class or a parameter with its
      documented behaviour as laws or hypotheses: the concurrent map
      ([SharedMap]), knative's time buckets and windows, the API client
      ([Client]), listers, the work queue ([WorkQueue]), the pod predicates of
      Kubedirect ([Kubedirect]), the trace loader's functions.  Every theorem
      that depends on one is applied to a concrete instance by its witness
      (the [Demo] modules).

    ** What the theorems show

    - The composed path: in every interleaving of clients, relays,
      dispatchers, autoscaler and cluster a request is in flight or answered
      exactly as often as it was sent, and all requests can be answered while
      the context lasts ([k8s_conserves_and_answers]); the state stays well
      formed, so that no callback panics ([k8s_stays_well_formed]); the trace
      experiment can end from every moment with every invocation sent,
      answered and written ([trace_can_complete]), and its shutdown is
      characterised with and without a signal, up to the responses that wait
      for the writer when its channel is closed ([trace_run_shutdown]).  The
      same holds of the Knative gateway ([knative_conserves_and_answers],
      [knative_trace_can_complete]).
    - What is bound to happen: in every fair behaviour of a running gateway
      each request is answered, once if its id is sent once, although no pod
      need be ready ([k8s_fairly_answers], [knative_fairly_answers]); each
      reconciliation returns with the endpoints of the ready pods
      ([reconcile_ends_fairly]); and every fair run of the trace experiment
      ends with the file of the responses received, less what the closed
      channel of the writer drops, all invocations sent and, if the grace
      period suffices, all answered ([trace_run_ends],
      [knative_trace_run_ends]).
      The custom kubelet makes every pod ready that the informer delivers and
      the API server shows as not ready ([pod_fairly_made_ready]).
    - Scaling from zero: a request that waits in a dispatcher has set the
      autoscaler of its target in motion, whose scaling call changes the count
      or has read it as the wanted one; and once the cluster has a ready pod
      there is a run of the system in which the request is answered
      successfully, without a timeout
      ([first_request_scaled_and_served], [cold_start_served]); with the
      kubelet in the system, from the pod's event to the kubelet over its
      ready delay to the response ([kubelet_pod_serves_request]).
    - Requests: the gateway's relays are FIFO per target and call the
      autoscaler exactly once per request and response
      ([gateway_relays_once_in_order]); the dispatcher answers each request
      exactly once ([requests_answered_once]), never loses the token of a live
      endpoint ([live_endpoint_has_token]), ends every reconciliation with
      exactly the ready endpoints ([reconcile_converges]); concurrency of
      endpoints and of connections is bounded ([service_concurrency],
      [pool_capacity_and_progress]); closing the pool never returns and can
      strand an execution ([close_never_returns], [closed_pool_strands]);
      executors answer on every branch
      ([executors_answer_request], [timeout_exact], [kn_dispatcher_contract]).
    - Scaling: the collector counts exactly and its floats implement the
      time-weighted average ([collector_counts_exactly],
      [report_is_time_weighted_average]); the decider implements the integer
      rule, never scales down in panic mode and scales from zero
      ([kpa_implements_rule], [panic_never_scales_down],
      [scale_from_zero_at_least_one]); workers apply its answers
      ([worker_applies_decision], [worker_error_policy],
      [one_ticker_per_target], [one_time_scales_once],
      [knative_autoscaler_construction]) through the scaler ([scale_exact]).
    - Set-up and errors: [k8s_setup], [trace_flags],
      [list_error_removes_endpoints], [new_backend_cases],
      [start_server_configuration].
    - Replay: every invocation whose timer fires is sent exactly once and not
      early, nothing else is sent, and the output has the right counters ([replay_sends_each_once],
      [request_not_early], [write_output]); traces and keys are translated
      faithfully ([translate_function_spec], [key_roundtrip],
      [trace_selection_agrees]).
    - Kubelet: readiness is written after the delay, only for pods that need
      it, through a client that a handshake made ([ready_delay_respected],
      [marks_only_unready_pods], [client_needs_handshake],
      [bind_pod_idempotent], [simulated_status_complete]); a pod that is not
      ready is asked for again until it is ([unready_pod_not_forgotten]), and
      one that is bound by RPC goes all the way ([bound_pod_becomes_ready]);
      nothing starts before the caches are synced and the address is published
      ([kubelet_startup]).
    - Microbenchmarks: the drivers wait for exactly the expected pods and
      report the stated percentile of their times ([e2e_waits_for_all],
      [kubelet_bench_exact]); handshakes on every branch, and what the drivers
      of the controllers and of the scheduler check, request and count
      ([handshake_echoes_epoch], [drivers_check_and_count]).

    ** Bounds

    Float theorems state the ranges they need: counts below 2^20 pods and
    requests and 2^30 seconds where sums and products must be exact, fewer
    than 2^52 events for exact counters, fewer than 2^53 invocations of a
    trace.  Widths are Go's; nothing else is bounded.

    ** What is not modelled, and the plan

    Generated protobuf code, the parsing of flags, log output, and the inside
    of managers, informers and servers are left out: their answers are
    arguments.  The registration of the microbenchmarks' monitors with a
    manager is modelled as the events it delivers.  The scheduler and the controllers of the
    cluster, which turn a replica count into pods on nodes, are outside the
    repository.  Fairness is assumed of the goroutines and of Go's select, the
    ends of executions and the clock of the timeouts; that a probability or a
    real time bounds them is not stated.

    That executions end is an assumption about the backend, in [Dispatcher] a
    step that is always possible: the connection pool is not composed with the
    dispatcher.  It fails for a request that is executed on an endpoint which a
    reconciliation removes at the same time: the pool's receive after a dial
    has no context, and the goroutine that closes the executor takes the
    connections away ([closed_pool_strands]).  Knative's executors are never
    closed.

    A synchronisation of the kubelet, [SyncPod], is one step with respect to
    its event handlers, although 64 workers run beside them: a pod that is
    deleted between a worker's look at its ready timer and its write of the
    status has its timer removed before the write, in the model after it.  The
    delay between the start of the timer and the write is the same, and so are
    the pods and the statuses written.

    The theorems about a running gateway and a trace experiment start when the
    goroutine of the autoscaler has begun; main.go sleeps five seconds between
    the start of the gateway and that of the client, and has no other
    guarantee of it.  A behaviour of the custom kubelet is
    one without a panic of a worker, which [client_needs_handshake]
    characterises; what the API server and the lister answer in it is assumed
    of the pod in question only.
*)
From Stdlib Require Export ZArith Lia.
From stdpp Require Export numbers strings pretty gmap list.

#[global] Open Scope Z_scope.

(** * Results of Go functions

    A Go call ends in one of four ways: it returns values with a nil error
    ([Ok]), it returns a non-nil error ([Err]), it panics ([Panic]), or it
    terminates the process through [klog.Fatal] ([Fatal]). *)
Inductive res (A : Type) : Type :=
| Ok (a : A)
| Err (msg : string)
| Panic (msg : string)
| Fatal (msg : string).
Arguments Ok {A} a.
Arguments Err {A} msg.
Arguments Panic {A} msg.
Arguments Fatal {A} msg.

#[export] Instance res_ret : MRet res := fun A a => Ok a.
#[export] Instance res_bind : MBind res := fun A B f m =>
  match m with
  | Ok a => f a
  | Err e => Err e
  | Panic e => Panic e
  | Fatal e => Fatal e
  end.
#[export] Instance res_fmap : FMap res := fun A B f m =>
  match m with
  | Ok a => Ok (f a)
  | Err e => Err e
  | Panic e => Panic e
  | Fatal e => Fatal e
  end.

(** [fmt.Errorf("...: %v", err)]: only the error case is rewritten. *)
Definition wrap_err {A} (prefix : string) (m : res A) : res A :=
  match m with
  | Err e => Err (prefix +:+ e)
  | _ => m
  end.
(** [if err := ...; err != nil { klog.Fatalf(...) }] *)
Definition or_fatal {A} (prefix : string) (r : res A) : res A :=
  match r with Err m => Fatal (prefix +:+ m) | _ => r end.

Definition is_ok {A} (m : res A) : bool :=
  match m with Ok _ => true | _ => false end.

#[export] Instance Ok_inj {A} : Inj (=) (=) (@Ok A).
Proof. by intros a b [= ->]. Qed.
Lemma or_fatal_ok {A} prefix (r : res A) x : or_fatal prefix r = Ok x -> r = Ok x.
Proof. by destruct r. Qed.
Lemma res_bind_ok {A B} (m : res A) (f : A -> res B) b :
  (m ≫= f) = Ok b -> exists a, m = Ok a /\ f a = Ok b.
Proof. destruct m; simpl; naive_solver. Qed.

(** A left-to-right loop whose body may fail. *)
Fixpoint res_foldl {A B} (f : B -> A -> res B) (b : B) (l : list A) : res B :=
  match l with
  | [] => Ok b
  | a :: l' => b' ← f b a; res_foldl f b' l'
  end.

Lemma res_foldl_invariant {A B} (f : B -> A -> res B) (P : B -> Prop) l b b' :
  (forall b a b', a ∈ l -> P b -> f b a = Ok b' -> P b') -> P b -> res_foldl f b l = Ok b' -> P b'.
Proof.
  revert b. induction l as [|a l IH]; intros b Hs Hb Hr; cbn [res_foldl] in Hr; [by simplify_eq|].
  apply res_bind_ok in Hr as (b1 & H1 & Hr). apply (IH b1); [intros b2 a2 b3 Ha; apply Hs; by right| |done].
  by apply (Hs b a b1); [left| |].
Qed.
Lemma res_foldl_app {A B} (f : B -> A -> res B) b l1 l2 :
  res_foldl f b (l1 ++ l2) = (res_foldl f b l1 ≫= fun b' => res_foldl f b' l2).
Proof. revert b. induction l1 as [|a l1 IH]; intros b; [done|]. simpl. by destruct (f b a); simpl. Qed.

(** * Machine integers *)
Section Width.
Variable w : Z.
(** Two's complement value of the low [w] bits. *)
Definition swrap (z : Z) : Z := (z + 2 ^ (w - 1)) mod 2 ^ w - 2 ^ (w - 1).
Definition uwrap (z : Z) : Z := z mod 2 ^ w.
Definition in_srange (z : Z) : Prop := - 2 ^ (w - 1) <= z < 2 ^ (w - 1).

Hypothesis w_pos : 0 < w.

Lemma pow_half : 2 ^ w = 2 * 2 ^ (w - 1).
Proof. rewrite <- Z.pow_succ_r by lia. f_equal. lia. Qed.

Lemma swrap_range z : in_srange (swrap z).
Proof.
  unfold in_srange, swrap. pose proof pow_half. pose proof (Z.pow_pos_nonneg 2 (w - 1)).
  pose proof (Z.mod_pos_bound (z + 2 ^ (w - 1)) (2 ^ w)). lia.
Qed.

Lemma swrap_id z : in_srange z -> swrap z = z.
Proof.
  unfold in_srange, swrap. intros H. pose proof pow_half.
  rewrite Z.mod_small by lia. lia.
Qed.

Lemma swrap_idemp z : swrap (swrap z) = swrap z.
Proof. apply swrap_id, swrap_range. Qed.

Lemma uwrap_range z : 0 <= uwrap z < 2 ^ w.
Proof. unfold uwrap. apply Z.mod_pos_bound. apply Z.pow_pos_nonneg; lia. Qed.

Lemma uwrap_id z : 0 <= z < 2 ^ w -> uwrap z = z.
Proof. intros H. unfold uwrap. by apply Z.mod_small. Qed.
End Width.

Definition int32 (z : Z) : Z := swrap 32 z.
Definition int64 (z : Z) : Z := swrap 64 z.
Definition uint32 (z : Z) : Z := uwrap 32 z.
Definition minInt64 : Z := - 2 ^ 63.
Definition maxInt64 : Z := 2 ^ 63 - 1.

Lemma int32_id z : - 2 ^ 31 <= z < 2 ^ 31 -> int32 z = z.
Proof. intros H. apply swrap_id; [lia|]. exact H. Qed.
Lemma int64_id z : - 2 ^ 63 <= z < 2 ^ 63 -> int64 z = z.
Proof. intros H. apply swrap_id; [lia|]. exact H. Qed.
Lemma int32_range z : - 2 ^ 31 <= int32 z < 2 ^ 31.
Proof. apply (swrap_range 32). lia. Qed.
Lemma int64_range z : - 2 ^ 63 <= int64 z < 2 ^ 63.
Proof. apply (swrap_range 64). lia. Qed.
Lemma uint32_range z : 0 <= uint32 z < 2 ^ 32.
Proof. apply (uwrap_range 32). lia. Qed.

(** * time.Time and time.Duration

    A [time.Time] is its distance in nanoseconds from Go's zero time, so that
    [IsZero] is equality with 0; a [time.Duration] is an int64 number of
    nanoseconds. *)
Definition time := Z.
Definition duration := Z.
Definition Nanosecond : duration := 1.
Definition Microsecond : duration := 1000.
Definition Millisecond : duration := 1000000.
Definition Second : duration := 1000000000.
Definition zero_time : time := 0.
Definition time_is_zero (t : time) : bool := Z.eqb t 0.
Definition time_add (t : time) (d : duration) : time := t + d.
(** [t.Sub(u)] saturates at the ends of the Duration range. *)
Definition time_sub (t u : time) : duration := Z.max minInt64 (Z.min maxInt64 (t - u)).
Definition time_before (t u : time) : bool := Z.ltb t u.
(** [d.Milliseconds()], [d.Microseconds()]: truncated integer division. *)
Definition dur_milliseconds (d : duration) : Z := Z.quot d Millisecond.
Definition dur_microseconds (d : duration) : Z := Z.quot d Microsecond.

Lemma time_sub_range t u : - 2 ^ 63 <= time_sub t u < 2 ^ 63.
Proof. unfold time_sub, minInt64, maxInt64. lia. Qed.
Lemma time_sub_pos t u : 0 < time_sub t u <-> u < t.
Proof. unfold time_sub, minInt64, maxInt64. lia. Qed.
Lemma time_sub_exact t u : - 2 ^ 63 <= t - u < 2 ^ 63 -> time_sub t u = t - u.
Proof. unfold time_sub, minInt64, maxInt64. lia. Qed.

(** * Labelled transition systems given by a partial step function *)
Section Steps.
Context {S L : Type} (step : S -> L -> option S).

Fixpoint run (s : S) (ls : list L) : option S :=
  match ls with
  | [] => Some s
  | l :: ls' => s' ← step s l; run s' ls'
  end.

Inductive reachable (init : S -> Prop) : S -> Prop :=
| reach_init s : init s -> reachable init s
| reach_step s l s' : reachable init s -> step s l = Some s' -> reachable init s'.

Lemma run_app s ls1 ls2 : run s (ls1 ++ ls2) = (run s ls1 ≫= fun s' => run s' ls2).
Proof. revert s. induction ls1 as [|l ls1 IH]; intros s; [done|]. simpl. by destruct (step s l); simpl. Qed.

Lemma run_invariant (P : S -> Prop) :
  (forall s l s', P s -> step s l = Some s' -> P s') ->
  forall ls s s', P s -> run s ls = Some s' -> P s'.
Proof.
  intros Hstep ls. induction ls as [|l ls IH]; simpl; intros s s' Hs Hrun; simplify_eq; [done|].
  destruct (step s l) as [s1|] eqn:E; simplify_eq/=. eauto.
Qed.

Lemma reachable_invariant (init P : S -> Prop) :
  (forall s, init s -> P s) ->
  (forall s l s', P s -> step s l = Some s' -> P s') ->
  forall s, reachable init s -> P s.
Proof. intros Hi Hs s Hr. induction Hr; eauto. Qed.

Lemma run_reachable (init : S -> Prop) s ls s' :
  reachable init s -> run s ls = Some s' -> reachable init s'.
Proof.
  revert s. induction ls as [|l ls IH]; simpl; intros s Hs Hrun; simplify_eq; [done|].
  destruct (step s l) as [s1|] eqn:E; simplify_eq/=. eauto using reach_step.
Qed.
End Steps.

(** What an observer sees along a run: [obs s l] at each step [l] from [s]. *)
Section Traces.
Context {S L O : Type} (step : S -> L -> option S) (obs : S -> L -> list O).

Fixpoint trace (s : S) (ls : list L) : list O :=
  match ls with
  | [] => []
  | l :: ls' => match step s l with Some s' => obs s l ++ trace s' ls' | None => [] end
  end.

Lemma trace_invariant (P : S -> list O -> Prop) :
  (forall s h l s', P s h -> step s l = Some s' -> P s' (h ++ obs s l)) ->
  forall ls s h s', P s h -> run step s ls = Some s' -> P s' (h ++ trace s ls).
Proof.
  intros Hstep ls. induction ls as [|l ls IH]; simpl; intros s h s' Hs Hrun.
  - simplify_eq. by rewrite app_nil_r.
  - destruct (step s l) as [s1|] eqn:E; simplify_eq/=. rewrite app_assoc. eauto.
Qed.

Lemma trace_app s ls ls' s' : run step s ls = Some s' -> trace s (ls ++ ls') = trace s ls ++ trace s' ls'.
Proof.
  revert s. induction ls as [|l ls IH]; intros s Hr; [by simplify_eq/=|]. cbn [run] in Hr. simpl.
  destruct (step s l) as [s1|] eqn:E; [|done]. rewrite (IH s1) by exact Hr. by rewrite (assoc_L (++)).
Qed.
End Traces.

(** * Strings *)

(** [strings.Contains]. *)
Fixpoint str_contains (sub s : string) : bool :=
  String.prefix sub s ||
  match s with
  | EmptyString => false
  | String _ s' => str_contains sub s'
  end.

Lemma str_app_cons a (s t : string) : String a s +:+ t = String a (s +:+ t).
Proof. done. Qed.

Lemma prefix_app (sub s t : string) :
  String.prefix sub s = true -> String.prefix sub (s +:+ t) = true.
Proof.
  revert s. induction sub as [|a sub IH]; intros s; [by destruct (s +:+ t)|].
  destruct s as [|b s]; [done|]. simpl. destruct (Ascii.ascii_dec a b); [apply IH|done].
Qed.

Lemma str_contains_app_l sub s t : str_contains sub t = true -> str_contains sub (s +:+ t) = true.
Proof.
  intros H. induction s as [|a s IH]; [done|]. simpl.
  apply orb_true_iff. by right.
Qed.

Lemma str_contains_app_r sub s t : str_contains sub s = true -> str_contains sub (s +:+ t) = true.
Proof.
  induction s as [|a s IH]; intros H.
  - destruct sub as [|b sub]; [by destruct t|discriminate H].
  - cbn [str_contains] in H. apply orb_true_iff in H as [H|H]; simpl; apply orb_true_iff.
    + left. exact (prefix_app _ _ t H).
    + right. by apply IH.
Qed.

(** [strings.TrimPrefix]. *)
Fixpoint trim_prefix (p s : string) : option string :=
  match p, s with
  | EmptyString, _ => Some s
  | String a p', String b s' => if Ascii.ascii_dec a b then trim_prefix p' s' else None
  | String _ _, EmptyString => None
  end.
Definition strings_TrimPrefix (s p : string) : string := default s (trim_prefix p s).

(** [strings.Split(s, sep)] for a one-character separator. *)
Fixpoint split_on (c : Ascii.ascii) (s : string) : list string :=
  match s with
  | EmptyString => [EmptyString]
  | String a s' =>
      if Ascii.ascii_dec a c then EmptyString :: split_on c s'
      else match split_on c s' with
           | [] => [String a EmptyString]
           | w :: ws => String a w :: ws
           end
  end.

Fixpoint str_has (c : Ascii.ascii) (s : string) : bool :=
  match s with
  | EmptyString => false
  | String a s' => bool_decide (a = c) || str_has c s'
  end.

Lemma str_app_empty_r (s : string) : s +:+ EmptyString = s.
Proof. induction s as [|a s IH]; [done|]. rewrite ?str_app_cons. by f_equal. Qed.

Lemma str_app_assoc (a b c : string) : (a +:+ b) +:+ c = a +:+ (b +:+ c).
Proof. induction a as [|x a IH]; [done|]. rewrite ?str_app_cons. by f_equal. Qed.

Lemma split_on_none c s : str_has c s = false -> split_on c s = [s].
Proof.
  induction s as [|a s IH]; simpl; [done|]. intros [Ha Hs]%orb_false_iff.
  apply bool_decide_eq_false in Ha. destruct (Ascii.ascii_dec a c); [done|]. by rewrite IH.
Qed.

Lemma split_on_app c s t :
  str_has c s = false -> split_on c (s +:+ String c t) = s :: split_on c t.
Proof.
  induction s as [|a s IH]; simpl.
  - intros _. by destruct (Ascii.ascii_dec c c).
  - intros [Ha Hs]%orb_false_iff. apply bool_decide_eq_false in Ha.
    destruct (Ascii.ascii_dec a c); [done|]. by rewrite IH.
Qed.

Lemma str_app_inj_l (s t u : string) : s +:+ t = s +:+ u -> t = u.
Proof. induction s as [|a s IH]; simpl; [done|]. intros [= H]. by apply IH. Qed.

(** * Lists *)
Lemma forallb_decide {A} (P : A -> Prop) `{!forall x, Decision (P x)} (l : list A) :
  forallb (fun x => bool_decide (P x)) l = true <-> Forall P l.
Proof.
  induction l as [|x l IH]; simpl; [done|].
  rewrite andb_true_iff, IH, Forall_cons. destruct (bool_decide_reflect (P x)); naive_solver.
Qed.

(** ** Counting occurrences *)
Section Counting.
Context {A : Type} `{!EqDecision A}.

Definition count (x : A) (l : list A) : nat := length (filter (.= x) l).

Lemma count_app x l1 l2 : count x (l1 ++ l2) = (count x l1 + count x l2)%nat.
Proof. unfold count. by rewrite filter_app, length_app. Qed.
Lemma count_cons x y l : count x (y :: l) = ((if decide (x = y) then 1 else 0) + count x l)%nat.
Proof. unfold count. rewrite filter_cons. repeat case_decide; simpl; naive_solver. Qed.
Lemma count_replicate x y n : count x (replicate n y) = (if decide (x = y) then n else 0)%nat.
Proof.
  induction n as [|n IH]; simpl; [by case_decide|]. rewrite count_cons, IH. case_decide; lia.
Qed.

(** The list without its first occurrence of [x]. *)
Fixpoint remove_one (x : A) (l : list A) : option (list A) :=
  match l with
  | [] => None
  | y :: l' => if decide (x = y) then Some l' else cons y <$> remove_one x l'
  end.
Lemma remove_one_count x l l' y : remove_one x l = Some l' ->
  count y l = ((if decide (y = x) then 1 else 0) + count y l')%nat.
Proof.
  revert l'. induction l as [|z l IH]; intros l' H; [done|]. simpl in H. rewrite count_cons.
  case_decide as Hx; simplify_eq; [done|].
  destruct (remove_one x l) as [l1|] eqn:E; simplify_eq/=. rewrite count_cons, (IH l1) by done. lia.
Qed.
Lemma remove_one_is_Some x l : x ∈ l -> is_Some (remove_one x l).
Proof.
  induction l as [|z l IH]; simpl; [by intros []%elem_of_nil|].
  intros [->|H]%elem_of_cons; [by rewrite decide_True|]. case_decide; [done|].
  destruct (IH H) as [l' ->]. simpl. done.
Qed.
End Counting.

(** ** Sums over a finite map *)
Section MapSum.
Context {K A : Type} `{Countable K} (f : A -> nat).

Definition msum (m : gmap K A) : nat := map_fold (fun _ a n => (f a + n)%nat) 0%nat m.

Lemma msum_empty : msum ∅ = 0%nat.
Proof. apply map_fold_empty. Qed.
Lemma msum_insert_new m t p : m !! t = None -> msum (<[t := p]> m) = (f p + msum m)%nat.
Proof. intros Hm. unfold msum. rewrite map_fold_insert_L; [done| |done]. intros. lia. Qed.
Lemma msum_delete m t q : m !! t = Some q -> msum m = (f q + msum (delete t m))%nat.
Proof.
  intros Hm. rewrite <- (insert_id m t q Hm) at 1. rewrite <- (insert_delete_eq m t q).
  by rewrite msum_insert_new by apply lookup_delete_eq.
Qed.
Lemma msum_insert m t p q : m !! t = Some q -> (msum (<[t := p]> m) + f q = f p + msum m)%nat.
Proof.
  intros Hm. rewrite (msum_delete m t q Hm), <- (insert_delete_eq m t p).
  rewrite msum_insert_new by apply lookup_delete_eq. lia.
Qed.
Lemma msum_pos m : (0 < msum m)%nat -> exists t p, m !! t = Some p /\ (0 < f p)%nat.
Proof.
  induction m as [|t p m Hm IH] using map_ind; [by rewrite msum_empty; lia|].
  rewrite msum_insert_new by done. intros Hp. destruct (f p) eqn:E.
  - destruct IH as (t' & p' & Hl & Hp'); [lia|]. exists t', p'.
    rewrite lookup_insert_ne; [done|]. intros ->. congruence.
  - exists t, p. rewrite lookup_insert_eq, E. split; [done|lia].
Qed.
Lemma msum_zero m : (forall t p, m !! t = Some p -> f p = 0%nat) -> msum m = 0%nat.
Proof.
  intros Hz. destruct (decide (msum m = 0%nat)) as [|Hn]; [done|].
  destruct (msum_pos m) as (t & p & Hp & Hf); [lia|]. rewrite (Hz t p Hp) in Hf. lia.
Qed.
Lemma msum_ge m t p : m !! t = Some p -> (f p <= msum m)%nat.
Proof. intros Hm. rewrite (msum_delete m t p Hm). lia. Qed.
End MapSum.

Lemma msum_mono {K A} `{Countable K} (f g : A -> nat) (m : gmap K A) :
  (forall a, (f a <= g a)%nat) -> (msum f m <= msum g m)%nat.
Proof.
  intros Hfg. induction m as [|t p m Hm IH] using map_ind; [done|].
  rewrite !msum_insert_new by done. specialize (Hfg p). lia.
Qed.

(** The elements of a map of collections. *)
Lemma msum_concat {K A B} `{Countable K} (g : A -> list B) (m : gmap K A) :
  length (concat ((fun x => g (snd x)) <$> map_to_list m)) = msum (fun a => length (g a)) m.
Proof.
  unfold msum. rewrite map_fold_foldr. induction (map_to_list m) as [|[k a] l IH]; [done|].
  simpl. rewrite length_app. f_equal. exact IH.
Qed.

Lemma filter_all_false {A} (P : A -> Prop) `{!forall x, Decision (P x)} (l : list A) :
  Forall (fun x => ~ P x) l -> filter P l = [].
Proof. induction 1 as [|x l Hx _ IH]; [done|]. by rewrite filter_cons_False. Qed.

(** * Tactics of the development *)

(** Case analysis on the discriminee of an [option] or [res] bind or match in
    a hypothesis that equates a handler's result with a value. *)
Ltac inv_step H :=
  repeat (progress (simplify_eq/=) ||
          match type of H with
          | context [match ?x with _ => _ end] => destruct x eqn:?
          end).

(** An insertion or deletion at a key that is in a map moves a sum over the
    map by one term: the facts are brought in and the sums generalized. *)
Ltac move_sum :=
  repeat match goal with
  | H : ?m !! ?t = Some ?q |- context [msum ?f (<[?t := ?p]> ?m)] =>
      let X := fresh in pose proof (msum_insert f m t p q H) as X; simpl in X;
      generalize dependent (msum f (<[t := p]> m)); intros
  | H : ?m !! ?t = Some ?q |- context [msum ?f (delete ?t ?m)] =>
      let X := fresh in pose proof (msum_delete f m t q H) as X; simpl in X;
      generalize dependent (msum f (delete t m)); intros
  end.

Create HintDb kd.
#[export] Hint Resolve int32_range int64_range uint32_range time_sub_range : kd.
Create Rewrite HintDb kdrw.
#[export] Hint Rewrite @res_foldl_app @run_app str_app_assoc str_app_empty_r : kdrw.
