(* ===== verification/Fair.v ===== *)
(** Infinite behaviours of labelled transition systems, their fairness, and
    the rules that derive from it that something happens in every fair
    behaviour: what the liveness theorems of the gateway are proved with. *)
From S2P Require Import Prelude.

(** * Behaviours

    A behaviour is an infinite sequence of states; between two of them there
    is a step or nothing happens. *)
Section Behaviours.
Context {S L : Type} (step : S -> L -> option S).

Record behaviour := mkBehaviour {
  state_at : nat -> S;
  label_at : nat -> option L;
  behaviour_steps n : match label_at n with
                      | Some l => step (state_at n) l = Some (state_at (Datatypes.S n))
                      | None => state_at (Datatypes.S n) = state_at n
                      end
}.
Implicit Types b : behaviour.

(** A task is a set of labels.  It is enabled when one of them can happen. *)
Definition enabled (T : L -> Prop) (s : S) : Prop := exists l s', T l /\ step s l = Some s'.
Definition taken (T : L -> Prop) b (n : nat) : Prop := exists l, label_at b n = Some l /\ T l.

(** Weak fairness: again and again the task is disabled or taken, so one that
    stays enabled is taken.  Strong fairness: a task that is not taken any
    more is disabled from some point on, so one that is enabled again and
    again is taken. *)
Definition weakly_fair (T : L -> Prop) b : Prop :=
  forall n, exists m, (n <= m)%nat /\ (~ enabled T (state_at b m) \/ taken T b m).
Definition strongly_fair (T : L -> Prop) b : Prop :=
  forall n, (exists m, (n <= m)%nat /\ taken T b m) \/
            (exists m, (n <= m)%nat /\ forall k, (m <= k)%nat -> ~ enabled T (state_at b k)).

Lemma strongly_weakly_fair T b : strongly_fair T b -> weakly_fair T b.
Proof. intros H n. destruct (H n) as [(m & Hm & Ht)|(m & Hm & Hd)]; exists m; auto. Qed.

Lemma behaviour_step b n l : label_at b n = Some l -> step (state_at b n) l = Some (state_at b (Datatypes.S n)).
Proof. intros H. pose proof (behaviour_steps b n) as Hs. by rewrite H in Hs. Qed.
Lemma behaviour_stutter b n : label_at b n = None -> state_at b (Datatypes.S n) = state_at b n.
Proof. intros H. pose proof (behaviour_steps b n) as Hs. by rewrite H in Hs. Qed.

(** An invariant of the steps that a behaviour takes. *)
Lemma behaviour_invariant (P : S -> Prop) b :
  (forall n l s', label_at b n = Some l -> P (state_at b n) -> step (state_at b n) l = Some s' -> P s') ->
  P (state_at b 0) -> forall n, P (state_at b n).
Proof.
  intros Hs H0 n. induction n as [|n IH]; [done|]. destruct (label_at b n) as [l|] eqn:E.
  - apply (Hs n l); [done..|]. by apply behaviour_step.
  - by rewrite (behaviour_stutter b n E).
Qed.

(** ** A run, followed by nothing *)
Definition run_states (s : S) (ls : list L) (n : nat) : S := default s (run step s (take n ls)).
Lemma run_states_step s ls p n : run step s ls = Some p ->
  match ls !! n with
  | Some l => step (run_states s ls n) l = Some (run_states s ls (Datatypes.S n))
  | None => run_states s ls (Datatypes.S n) = run_states s ls n
  end.
Proof.
  intros Hr. unfold run_states. destruct (ls !! n) as [l|] eqn:E.
  - rewrite <- (take_drop_middle ls n l E), run_app in Hr. rewrite (take_S_r ls n l E), run_app.
    destruct (run step s (take n ls)) as [s1|]; [|done]. simpl in Hr |- *. by destruct (step s1 l).
  - apply lookup_ge_None in E. by rewrite !take_ge by lia.
Qed.
Definition finite_behaviour (s : S) (ls : list L) (p : S) (H : run step s ls = Some p) : behaviour :=
  mkBehaviour (run_states s ls) (fun n => ls !! n) (fun n => run_states_step s ls p n H).

Lemma finite_behaviour_end s ls p H n : (length ls <= n)%nat -> state_at (finite_behaviour s ls p H) n = p.
Proof. intros Hn. simpl. unfold run_states. by rewrite take_ge, H. Qed.
Lemma finite_behaviour_start s ls p H : state_at (finite_behaviour s ls p H) 0 = s.
Proof. simpl. unfold run_states. by rewrite take_0. Qed.
(** It is fair to every task that is disabled where it ends. *)
Lemma finite_strongly_fair T s ls p H : ~ enabled T p -> strongly_fair T (finite_behaviour s ls p H).
Proof.
  intros Hd n. right. exists (max n (length ls)). split; [lia|]. intros k Hk.
  rewrite finite_behaviour_end by lia. exact Hd.
Qed.
Lemma finite_weakly_fair T s ls p H : ~ enabled T p -> weakly_fair T (finite_behaviour s ls p H).
Proof. intros Hd. by apply strongly_weakly_fair, finite_strongly_fair. Qed.

(** ** A run, followed by a behaviour *)
Section Prepend.
Context (s : S) (ls : list L) (tail : behaviour) (H : run step s ls = Some (state_at tail 0)).
Definition prepend_state (n : nat) : S :=
  if decide (n < length ls)%nat then run_states s ls n else state_at tail (n - length ls).
Definition prepend_label (n : nat) : option L :=
  if decide (n < length ls)%nat then ls !! n else label_at tail (n - length ls).
Lemma prepend_steps n : match prepend_label n with
  | Some l => step (prepend_state n) l = Some (prepend_state (Datatypes.S n))
  | None => prepend_state (Datatypes.S n) = prepend_state n
  end.
Proof.
  unfold prepend_label. assert (prepend_state (Datatypes.S n) =
    if decide (n < length ls)%nat then run_states s ls (Datatypes.S n) else state_at tail (Datatypes.S (n - length ls))) as ->.
  { unfold prepend_state. repeat case_decide; try lia; [done| |f_equal; lia].
    unfold run_states. rewrite take_ge, H by lia. simpl. f_equal. lia. }
  unfold prepend_state. case_decide; [apply (run_states_step s ls _ n H)|apply behaviour_steps].
Qed.
Definition prepend : behaviour := mkBehaviour prepend_state prepend_label prepend_steps.
Lemma prepend_start : state_at prepend 0 = s.
Proof.
  simpl. unfold prepend_state. case_decide as Hd; [unfold run_states; by rewrite take_0|].
  pose proof H as Hr. rewrite (nil_length_inv ls) in Hr by lia. injection Hr as ->. done.
Qed.
Lemma prepend_tail n : (length ls <= n)%nat ->
  state_at prepend n = state_at tail (n - length ls) /\ label_at prepend n = label_at tail (n - length ls).
Proof. intros Hn. simpl. unfold prepend_state, prepend_label. by rewrite !decide_False by lia. Qed.
(** Tasks that the tail never enables are treated fairly. *)
Lemma prepend_strongly_fair T : (forall n, ~ enabled T (state_at tail n)) -> strongly_fair T prepend.
Proof.
  intros Hd n. right. exists (max n (length ls)). split; [lia|]. intros k Hk.
  destruct (prepend_tail k ltac:(lia)) as [-> _]. apply Hd.
Qed.
End Prepend.

(** ** What happened before a moment *)
Fixpoint labels_before b (n : nat) : list L :=
  match n with
  | O => []
  | Datatypes.S n => labels_before b n ++ match label_at b n with Some l => [l] | None => [] end
  end.
Lemma labels_before_run b n : run step (state_at b 0) (labels_before b n) = Some (state_at b n).
Proof.
  induction n as [|n IH]; [done|]. simpl. rewrite run_app, IH. simpl.
  destruct (label_at b n) as [l|] eqn:E; simpl; [|by rewrite (behaviour_stutter b n E)].
  by rewrite (behaviour_step b n l E).
Qed.
Definition history {O} (obs : S -> L -> list O) b (n : nat) : list O := trace step obs (state_at b 0) (labels_before b n).
Lemma history_next {O} (obs : S -> L -> list O) b n : history obs b (Datatypes.S n) =
  history obs b n ++ match label_at b n with Some l => obs (state_at b n) l | None => [] end.
Proof.
  unfold history. simpl. rewrite (trace_app step obs _ _ _ _ (labels_before_run b n)). f_equal.
  destruct (label_at b n) as [l|] eqn:E; [|done]. simpl. by rewrite (behaviour_step b n l E), app_nil_r.
Qed.

(** * What leads to what *)
Section Leads.
Context (b : behaviour).
Implicit Types P Q : nat -> Prop.

Definition leads P Q : Prop := forall n, P n -> exists m, (n <= m)%nat /\ Q m.

Lemma leads_refl P : leads P P.
Proof. intros n H. by exists n. Qed.
Lemma leads_trans P Q R : leads P Q -> leads Q R -> leads P R.
Proof.
  intros H1 H2 n Hn. destruct (H1 n Hn) as (m & Hm & HQ). destruct (H2 m HQ) as (k & Hk & HR).
  exists k. split; [lia|done].
Qed.
Lemma leads_impl P Q : (forall n, P n -> Q n) -> leads P Q.
Proof. intros H n Hn. exists n. auto. Qed.
Lemma leads_or P Q R : leads P R -> leads Q R -> leads (fun n => P n \/ Q n) R.
Proof. intros H1 H2 n [H|H]; auto. Qed.
Lemma leads_exists {X} (P : X -> nat -> Prop) Q : (forall x, leads (P x) Q) -> leads (fun n => exists x, P x n) Q.
Proof. intros H n [x Hx]. by apply (H x). Qed.
(** A rank that goes down until there is [Q]. *)
Lemma leads_rank (P : nat -> nat -> Prop) Q :
  (forall k, leads (P k) (fun n => Q n \/ exists j, (j < k)%nat /\ P j n)) -> forall k, leads (P k) Q.
Proof.
  intros H k. induction (lt_wf k) as [k _ IH]. eapply leads_trans; [apply H|].
  apply leads_or; [apply leads_refl|]. apply leads_exists. intros j n [Hj Hn]. by apply (IH j).
Qed.

(** [P] lasts until [Q]. *)
Lemma until P Q n m : (forall k, P k -> P (Datatypes.S k) \/ Q (Datatypes.S k)) -> P n -> (n <= m)%nat ->
  P m \/ exists k, (n <= k)%nat /\ Q k.
Proof.
  intros Hs Hn Hm. induction Hm as [|m Hm IH]; [by left|]. destruct IH as [H|H]; [|by right].
  destruct (Hs m H) as [H'|H']; [by left|]. right. exists (Datatypes.S m). split; [lia|done].
Qed.

(** The rule of weak fairness: [P] lasts until [Q], the task is enabled as
    long as [P] lasts, and taking it establishes [Q]. *)
Lemma weak_leads T P Q : weakly_fair T b ->
  (forall k, P k -> P (Datatypes.S k) \/ Q (Datatypes.S k)) ->
  (forall k, P k -> enabled T (state_at b k)) ->
  (forall k l, P k -> label_at b k = Some l -> T l -> Q (Datatypes.S k)) -> leads P Q.
Proof.
  intros Hf Hs He Ht n Hn. destruct (Hf n) as (m & Hm & H).
  destruct (until P Q n m Hs Hn Hm) as [HP|HQ]; [|exact HQ].
  destruct H as [H|(l & Hl & Hin)]; [by destruct H; apply He|].
  exists (Datatypes.S m). split; [lia|]. by apply (Ht m l).
Qed.

(** The rule of strong fairness: while [P] lasts the task need only be enabled
    again and again. *)
Lemma strong_leads T P Q : strongly_fair T b ->
  (forall k, P k -> P (Datatypes.S k) \/ Q (Datatypes.S k)) ->
  leads P (fun k => Q k \/ enabled T (state_at b k)) ->
  (forall k l, P k -> label_at b k = Some l -> T l -> Q (Datatypes.S k)) -> leads P Q.
Proof.
  intros Hf Hs He Ht n Hn. destruct (Hf n) as [(m & Hm & l & Hl & Hin)|(m & Hm & Hd)].
  - destruct (until P Q n m Hs Hn Hm) as [HP|HQ]; [|exact HQ].
    exists (Datatypes.S m). split; [lia|]. by apply (Ht m l).
  - destruct (until P Q n m Hs Hn Hm) as [HP|HQ]; [|exact HQ].
    destruct (He m HP) as (k & Hk & [HQ|HE]); [exists k; split; [lia|done]|]. by destruct (Hd k Hk).
Qed.

(** A FIFO queue whose front a task takes: every element of it gets to the
    front and is taken.  [E] is what the task's fairness asks for. *)
Lemma queue_leads_by {X} (q : S -> list X) (T : L -> Prop) (Next : X -> nat -> Prop) (E : nat -> Prop) :
  (forall P Q, (forall k, P k -> P (Datatypes.S k) \/ Q (Datatypes.S k)) -> (forall k, P k -> E k) ->
     (forall k l, P k -> label_at b k = Some l -> T l -> Q (Datatypes.S k)) -> leads P Q) ->
  (forall k l, label_at b k = Some l ->
     ~ T l /\ q (state_at b k) `prefix_of` q (state_at b (Datatypes.S k)) \/
     exists x rest, q (state_at b k) = x :: rest /\ rest `prefix_of` q (state_at b (Datatypes.S k)) /\ Next x (Datatypes.S k)) ->
  (forall k, q (state_at b k) <> [] -> E k) ->
  forall x, leads (fun k => x ∈ q (state_at b k)) (Next x).
Proof.
  intros Hrule Hs He x.
  assert (forall j, leads (fun k => q (state_at b k) !! j = Some x) (Next x)) as Hj.
  { apply leads_rank. intros j.
    assert (forall k l, q (state_at b k) !! j = Some x -> label_at b k = Some l ->
      ~ T l /\ q (state_at b (Datatypes.S k)) !! j = Some x \/
      (Next x (Datatypes.S k) \/ exists j', (j' < j)%nat /\ q (state_at b (Datatypes.S k)) !! j' = Some x)) as Hstep.
    { intros k l Hx Hl. destruct (Hs k l Hl) as [[Hn Hp]|(y & rest & Hq & Hp & Hy)].
      - left. split; [done|]. by eapply prefix_lookup_Some.
      - right. rewrite Hq in Hx. destruct j as [|j]; [simplify_eq/=; by left|]. right. exists j. split; [lia|].
        by eapply prefix_lookup_Some. }
    apply Hrule.
    - intros k Hx. destruct (label_at b k) as [l|] eqn:Hl; [destruct (Hstep k l Hx Hl) as [[_ H]|H]; auto|].
      left. by rewrite (behaviour_stutter b k Hl).
    - intros k Hx. apply He. by intros Hq; rewrite Hq in Hx.
    - intros k l Hx Hl Hin. destruct (Hstep k l Hx Hl) as [[Hn _]|H]; [by destruct Hn|done]. }
  intros n [j Hx]%list_elem_of_lookup. by apply (Hj j).
Qed.
Lemma queue_leads {X} (q : S -> list X) (T : L -> Prop) (Next : X -> nat -> Prop) : weakly_fair T b ->
  (forall k l, label_at b k = Some l ->
     ~ T l /\ q (state_at b k) `prefix_of` q (state_at b (Datatypes.S k)) \/
     exists x rest, q (state_at b k) = x :: rest /\ rest `prefix_of` q (state_at b (Datatypes.S k)) /\ Next x (Datatypes.S k)) ->
  (forall k, q (state_at b k) <> [] -> enabled T (state_at b k)) ->
  forall x, leads (fun k => x ∈ q (state_at b k)) (Next x).
Proof. intros Hf. apply queue_leads_by. intros P Q. by apply weak_leads. Qed.
(** With strong fairness the front need only be taken again and again. *)
Lemma strong_queue_leads {X} (q : S -> list X) (T : L -> Prop) (Next : X -> nat -> Prop) : strongly_fair T b ->
  (forall k l, label_at b k = Some l ->
     ~ T l /\ q (state_at b k) `prefix_of` q (state_at b (Datatypes.S k)) \/
     exists x rest, q (state_at b k) = x :: rest /\ rest `prefix_of` q (state_at b (Datatypes.S k)) /\ Next x (Datatypes.S k)) ->
  leads (fun k => q (state_at b k) <> []) (fun k => enabled T (state_at b k)) ->
  forall x, leads (fun k => x ∈ q (state_at b k)) (Next x).
Proof.
  intros Hf Hs He. apply (queue_leads_by q T Next (fun k => exists m, (k <= m)%nat /\ enabled T (state_at b m))); [|done|exact He].
  intros P Q Hp HE Ht. apply (strong_leads T); [done|done| |done]. intros k Hk. destruct (HE k Hk) as (m & Hm & Hen). eauto.
Qed.
End Leads.
End Behaviours.
Arguments behaviour {S L} step.
Arguments mkBehaviour {S L step} _ _ _.
Arguments state_at {S L step} b n.
Arguments label_at {S L step} b n.

(** * What one component does in a behaviour of the whole *)
Section Projection.
Context {S L S' L' : Type} (step : S -> L -> option S) (step' : S' -> L' -> option S').
Context (b : behaviour step) (f : S -> S') (h : S -> L -> option L').
Hypothesis projects : forall n l s', label_at b n = Some l -> step (state_at b n) l = Some s' ->
  match h (state_at b n) l with
  | Some l' => step' (f (state_at b n)) l' = Some (f s')
  | None => f s' = f (state_at b n)
  end.

Definition project_label (n : nat) : option L' := l ← label_at b n; h (state_at b n) l.
Lemma project_steps n : match project_label n with
  | Some l => step' (f (state_at b n)) l = Some (f (state_at b (Datatypes.S n)))
  | None => f (state_at b (Datatypes.S n)) = f (state_at b n)
  end.
Proof.
  unfold project_label. destruct (label_at b n) as [l|] eqn:E; simpl.
  - apply (projects n l); [done|]. by apply behaviour_step.
  - by rewrite (behaviour_stutter _ b n E).
Qed.
Definition project : behaviour step' :=
  mkBehaviour (fun n => f (state_at b n)) project_label project_steps.

(** Fairness of the whole to a task of the component is fairness of the
    component, if the whole can take it whenever the component can and only
    takes it in a step of the component. *)
Context (T : L -> Prop) (T' : L' -> Prop).
Hypothesis enables : forall n, enabled step' T' (f (state_at b n)) -> enabled step T (state_at b n).
Hypothesis takes : forall n l, label_at b n = Some l -> T l -> exists l', h (state_at b n) l = Some l' /\ T' l'.

Lemma project_taken n : taken step T b n -> taken step' T' project n.
Proof.
  intros (l & Hl & Hin). destruct (takes n l Hl Hin) as (l' & Hl' & Hin'). exists l'. split; [|done].
  simpl. unfold project_label. by rewrite Hl.
Qed.
Lemma project_weakly_fair : weakly_fair step T b -> weakly_fair step' T' project.
Proof.
  intros H n. destruct (H n) as (m & Hm & [Hd|Ht]); exists m; (split; [done|]).
  - left. intros He. by apply Hd, enables.
  - right. by apply project_taken.
Qed.
Lemma project_strongly_fair : strongly_fair step T b -> strongly_fair step' T' project.
Proof.
  intros H n. destruct (H n) as [(m & Hm & Ht)|(m & Hm & Hd)]; [left|right]; exists m; (split; [done|]).
  - by apply project_taken.
  - intros k Hk He. by apply (Hd k Hk), enables.
Qed.
End Projection.
