(* ===== verification/F64.v ===== *)
(** Binary64 arithmetic as Go's float64 has it: the IEEE 754 operations of the
    Standard Library's [SpecFloat] at precision 53 and maximal exponent 1024,
    the functions of package [math] the program calls, the conversions between
    float64 and int64, and the facts about them the components share: validity
    of results, the order of valid floats as the order of integers, exactness
    on small integers, monotonicity of the conversion to int. *)
From Stdlib Require Export SpecFloat.
From S2P Require Import Prelude.

Abbreviation f64 := spec_float.

Definition fadd : f64 -> f64 -> f64 := SFadd 53 1024.
Definition fsub : f64 -> f64 -> f64 := SFsub 53 1024.
Definition fmul : f64 -> f64 -> f64 := SFmul 53 1024.
Definition fdiv : f64 -> f64 -> f64 := SFdiv 53 1024.
Definition fneg : f64 -> f64 := SFopp.
Definition feq : f64 -> f64 -> bool := SFeqb.
Definition flt : f64 -> f64 -> bool := SFltb.
Definition fle : f64 -> f64 -> bool := SFleb.
Definition fzero : f64 := S754_zero false.
Definition is_nan (x : f64) : bool := match x with S754_nan => true | _ => false end.
Definition is_pinf (x : f64) : bool := match x with S754_infinity false => true | _ => false end.
Definition is_ninf (x : f64) : bool := match x with S754_infinity true => true | _ => false end.
Definition is_finite (x : f64) : bool :=
  match x with S754_zero _ | S754_finite _ _ _ => true | _ => false end.
Definition fsignbit (x : f64) : bool :=
  match x with S754_zero s | S754_infinity s | S754_finite s _ _ => s | S754_nan => false end.

(** Conversion of an integer, and of a decimal literal [n / 10^d]. *)
Definition of_Z (z : Z) : f64 := binary_normalize 53 1024 z 0 false.
Definition of_ratio (n d : Z) : f64 := fdiv (of_Z n) (of_Z d).

(** [math.Max] and [math.Min], in the order of their special cases. *)
Definition fmax (x y : f64) : f64 :=
  if is_pinf x || is_pinf y then S754_infinity false
  else if is_nan x || is_nan y then S754_nan
  else if feq x fzero && feq x y then (if fsignbit x then y else x)
  else if flt y x then x else y.
Definition fmin (x y : f64) : f64 :=
  if is_ninf x || is_ninf y then S754_infinity true
  else if is_nan x || is_nan y then S754_nan
  else if feq x fzero && feq x y then (if fsignbit x then x else y)
  else if flt x y then x else y.

(** [math.Floor] and [math.Ceil] ([Ceil(x)] is [-Floor(-x)]). *)
Definition ffloor (x : f64) : f64 :=
  match x with
  | S754_finite s m e =>
      if 0 <=? e then x
      else
        let q := Z.pos m / 2 ^ (- e) in
        let r := Z.pos m mod 2 ^ (- e) in
        if s then fneg (of_Z (if r =? 0 then q else q + 1)) else of_Z q
  | _ => x
  end.
Definition fceil (x : f64) : f64 := fneg (ffloor (fneg x)).

(** Truncation toward zero of a finite value. *)
Definition ftrunc (x : f64) : option Z :=
  match x with
  | S754_zero _ => Some 0
  | S754_finite s m e =>
      let a := if 0 <=? e then Z.pos m * 2 ^ e else Z.pos m / 2 ^ (- e) in
      Some (if s then - a else a)
  | _ => None
  end.

(** [int64(x)], hence [int(x)] and [time.Duration(x)]: truncation toward zero;
    Go leaves the value implementation-dependent when it does not fit, and
    amd64 (CVTTSD2SQ) then gives the smallest int64. *)
Definition f2i (x : f64) : Z :=
  match ftrunc x with
  | Some z => if (minInt64 <=? z) && (z <=? maxInt64) then z else minInt64
  | None => minInt64
  end.

(** [d.Seconds()] of package time. *)
Definition dur_seconds (d : duration) : f64 :=
  fadd (of_Z (Z.quot d Second)) (fdiv (of_Z (Z.rem d Second)) (of_Z 1000000000)).

(** * Validity and values

    A float is valid when its mantissa is canonical for its exponent; every
    value the hardware holds is.  The value of a finite float is an integer
    multiple of 2^-1074: [fz] is that integer. *)
Definition fvalid (x : f64) : bool := valid_binary 53 1024 x.
Definition fz (x : f64) : Z :=
  match x with
  | S754_finite s m e => if s then - (Z.pos m * 2 ^ (e + 1074)) else Z.pos m * 2 ^ (e + 1074)
  | _ => 0
  end.

#[global] Arguments of_Z _ : simpl never.
#[global] Arguments fadd _ _ : simpl never.
#[global] Arguments fsub _ _ : simpl never.
#[global] Arguments fmul _ _ : simpl never.
#[global] Arguments fdiv _ _ : simpl never.
#[global] Arguments ffloor _ : simpl never.
#[global] Arguments fceil _ : simpl never.
#[global] Arguments f2i _ : simpl never.
#[global] Arguments dur_seconds _ : simpl never.

Example of_Z_29 : of_Z 29 = S754_finite false 8162774324609024 (-48).
Proof. reflexivity. Qed.
Example trunc_29_percent : f2i (fmul (fdiv (of_Z 29) (of_Z 100)) (of_Z 100)) = 28.
Proof. reflexivity. Qed.
Example ceil_half : fceil (of_ratio 1 2) = of_Z 1.
Proof. reflexivity. Qed.
Example ceil_neg : f2i (fceil (of_ratio (-3) 2)) = -1.
Proof. reflexivity. Qed.

(** ** Digits *)
Lemma digits2_pos_bounds p :
  2 ^ (Z.pos (digits2_pos p) - 1) <= Z.pos p < 2 ^ Z.pos (digits2_pos p).
Proof.
  induction p as [p IH|p IH|]; simpl digits2_pos.
  1,2: rewrite Pos2Z.inj_succ;
    replace (Z.succ (Z.pos (digits2_pos p)) - 1) with (Z.succ (Z.pos (digits2_pos p) - 1)) by lia;
    rewrite !Z.pow_succ_r by lia; lia.
  simpl. lia.
Qed.

Lemma Zdigits2_bounds m : 0 < m -> 2 ^ (Zdigits2 m - 1) <= m < 2 ^ Zdigits2 m.
Proof. destruct m as [|p|p]; simpl; [lia| |lia]. intros _. apply digits2_pos_bounds. Qed.

Lemma Zdigits2_pos m : 0 < m -> 0 < Zdigits2 m.
Proof. destruct m; simpl; lia. Qed.

Lemma Zdigits2_nonneg m : 0 <= Zdigits2 m.
Proof. destruct m; simpl; lia. Qed.

(** The digit count is the only [d] with [2^(d-1) <= m < 2^d]. *)
Lemma Zdigits2_unique m d : 0 < m -> 2 ^ (d - 1) <= m < 2 ^ d -> Zdigits2 m = d.
Proof.
  intros Hm Hd. pose proof (Zdigits2_bounds m Hm). pose proof (Zdigits2_pos m Hm).
  destruct (Z.lt_trichotomy (Zdigits2 m) d) as [H1|[H1|H1]]; [|done|].
  - pose proof (Z.pow_le_mono_r 2 (Zdigits2 m) (d - 1)). lia.
  - destruct (Z.le_gt_cases d 0) as [Hneg|Hpos].
    + destruct (Z.eq_dec d 0) as [->|]; [lia|]. rewrite (Z.pow_neg_r 2 d) in Hd by lia. lia.
    + pose proof (Z.pow_le_mono_r 2 d (Zdigits2 m - 1)). lia.
Qed.

Lemma Zdigits2_mono m n : 0 <= m <= n -> Zdigits2 m <= Zdigits2 n.
Proof.
  intros H. destruct (Z.eq_dec m 0) as [->|Hm]; [apply Zdigits2_nonneg|].
  pose proof (Zdigits2_bounds m). pose proof (Zdigits2_bounds n).
  destruct (Z.le_gt_cases (Zdigits2 m) (Zdigits2 n)) as [|Hgt]; [done|].
  pose proof (Z.pow_le_mono_r 2 (Zdigits2 n) (Zdigits2 m - 1)).
  pose proof (Zdigits2_nonneg n). lia.
Qed.

Lemma Zdigits2_shift m k : 0 < m -> 0 <= k -> Zdigits2 (m * 2 ^ k) = Zdigits2 m + k.
Proof.
  intros Hm Hk. pose proof (Zdigits2_bounds m Hm). pose proof (Z.pow_pos_nonneg 2 k).
  pose proof (Zdigits2_pos m Hm).
  apply Zdigits2_unique; [lia|].
  replace (Zdigits2 m + k - 1) with (Zdigits2 m - 1 + k) by lia.
  rewrite !Z.pow_add_r by lia. nia.
Qed.

Lemma Zdigits2_div m k : 0 <= k < Zdigits2 m -> 0 < m -> Zdigits2 (m / 2 ^ k) = Zdigits2 m - k.
Proof.
  intros Hk Hm. pose proof (Zdigits2_bounds m Hm). pose proof (Z.pow_pos_nonneg 2 k).
  assert (2 ^ (Zdigits2 m - k - 1) <= m / 2 ^ k).
  { apply Z.div_le_lower_bound; [lia|]. rewrite <- Z.pow_add_r by lia.
    replace (k + (Zdigits2 m - k - 1)) with (Zdigits2 m - 1) by lia. lia. }
  apply Zdigits2_unique.
  - pose proof (Z.pow_pos_nonneg 2 (Zdigits2 m - k - 1)). lia.
  - split; [done|]. apply Z.div_lt_upper_bound; [lia|]. rewrite <- Z.pow_add_r by lia.
    replace (k + (Zdigits2 m - k)) with (Zdigits2 m) by lia. lia.
Qed.

(** [fexp] at binary64. *)
Lemma fexp64 e : fexp 53 1024 e = Z.max (e - 53) (-1074).
Proof. reflexivity. Qed.

Lemma fvalid_finite s m e :
  fvalid (S754_finite s m e) = true <->
  Z.max (Zdigits2 (Z.pos m) + e - 53) (-1074) = e /\ e <= 971.
Proof.
  unfold fvalid, valid_binary, bounded, canonical_mantissa. rewrite fexp64.
  rewrite andb_true_iff, Z.eqb_eq, Z.leb_le. simpl Zdigits2. lia.
Qed.

(** ** Order: comparison of valid finite floats is comparison of their values *)
Lemma fz_pos_lt m1 e1 m2 e2 :
  fvalid (S754_finite false m1 e1) = true -> fvalid (S754_finite false m2 e2) = true ->
  e1 < e2 -> Z.pos m1 * 2 ^ (e1 + 1074) < Z.pos m2 * 2 ^ (e2 + 1074).
Proof.
  intros [H1 _]%fvalid_finite [H2 _]%fvalid_finite Hlt.
  pose proof (Zdigits2_bounds (Z.pos m1)) as B1. pose proof (Zdigits2_bounds (Z.pos m2)) as B2.
  assert (Zdigits2 (Z.pos m2) = 53) as D2 by lia. assert (Zdigits2 (Z.pos m1) <= 53) by lia.
  assert (2 ^ Zdigits2 (Z.pos m1) <= 2 ^ 53) by (apply Z.pow_le_mono_r; lia).
  replace (e2 + 1074) with ((e2 - e1 - 1) + 1 + (e1 + 1074)) by lia.
  rewrite (Z.pow_add_r 2 (e2 - e1 - 1 + 1)), (Z.pow_add_r 2 (e2 - e1 - 1) 1) by lia.
  assert (0 < 2 ^ (e2 - e1 - 1)) by (apply Z.pow_pos_nonneg; lia).
  assert (0 < 2 ^ (e1 + 1074)) by (apply Z.pow_pos_nonneg; lia).
  rewrite D2 in B2. change (2 ^ (53 - 1)) with (2 ^ 52) in B2. change (2 ^ 53) with (2 * 2 ^ 52) in *.
  assert (Z.pos m1 < 2 * Z.pos m2) by lia. change (2 ^ 1) with 2.
  set (B := 2 ^ (e2 - e1 - 1)) in *. set (A := 2 ^ (e1 + 1074)) in *.
  assert (2 * Z.pos m2 <= Z.pos m2 * (B * 2)) by nia. rewrite Z.mul_assoc. nia.
Qed.

Lemma Zcompare_mul_pos p a b : 0 < p -> (a * p ?= b * p) = (a ?= b).
Proof. intros Hp. destruct (Z.compare_spec a b); [subst; apply Z.compare_refl|apply Z.compare_lt_iff|apply Z.compare_gt_iff]; nia. Qed.

Lemma SFcompare_pos m1 e1 m2 e2 :
  fvalid (S754_finite false m1 e1) = true -> fvalid (S754_finite false m2 e2) = true ->
  match e1 ?= e2 with Lt => Lt | Gt => Gt | Eq => Pos.compare_cont Eq m1 m2 end
  = (Z.pos m1 * 2 ^ (e1 + 1074) ?= Z.pos m2 * 2 ^ (e2 + 1074)).
Proof.
  intros H1 H2. destruct (Z.compare_spec e1 e2) as [->|Hlt|Hlt].
  - apply fvalid_finite in H1. rewrite Zcompare_mul_pos by (apply Z.pow_pos_nonneg; lia). done.
  - symmetry. apply Z.compare_lt_iff. by apply fz_pos_lt.
  - symmetry. apply Z.compare_gt_iff. by apply fz_pos_lt.
Qed.

Lemma fcompare_spec x y :
  fvalid x = true -> fvalid y = true -> is_finite x = true -> is_finite y = true ->
  SFcompare x y = Some (fz x ?= fz y).
Proof.
  assert (forall m e, fvalid (S754_finite false m e) = true -> 0 < Z.pos m * 2 ^ (e + 1074)) as Hp.
  { intros m e [? ?]%fvalid_finite. pose proof (Z.pow_pos_nonneg 2 (e + 1074)). nia. }
  destruct x as [sx| | |sx mx ex], y as [sy| | |sy my ey]; try done; intros Hx Hy _ _; unfold fz.
  - apply Hp in Hy. destruct sy; unfold SFcompare; f_equal;
      symmetry; [apply Z.compare_gt_iff|apply Z.compare_lt_iff]; lia.
  - apply Hp in Hx. destruct sx; unfold SFcompare; f_equal;
      symmetry; [apply Z.compare_lt_iff|apply Z.compare_gt_iff]; lia.
  - pose proof (Hp _ _ Hx). pose proof (Hp _ _ Hy). pose proof (SFcompare_pos _ _ _ _ Hx Hy) as Hc.
    destruct sx, sy; unfold SFcompare; f_equal.
    + rewrite Z.compare_opp, (Z.compare_antisym (Z.pos mx * _)), <- Hc. by destruct (ex ?= ey).
    + symmetry. apply Z.compare_lt_iff. lia.
    + symmetry. apply Z.compare_gt_iff. lia.
    + done.
Qed.

Section order.
Context (x y : f64) (Hx : fvalid x = true) (Hy : fvalid y = true).
Context (Fx : is_finite x = true) (Fy : is_finite y = true).

Lemma fle_spec : fle x y = true <-> fz x <= fz y.
Proof.
  unfold fle, SFleb. rewrite fcompare_spec by done.
  destruct (Z.compare_spec (fz x) (fz y)); split; (lia || done).
Qed.
Lemma flt_spec : flt x y = true <-> fz x < fz y.
Proof.
  unfold flt, SFltb. rewrite fcompare_spec by done.
  destruct (Z.compare_spec (fz x) (fz y)); split; (lia || done).
Qed.
Lemma feq_spec : feq x y = true <-> fz x = fz y.
Proof.
  unfold feq, SFeqb. rewrite fcompare_spec by done.
  destruct (Z.compare_spec (fz x) (fz y)); split; (lia || done).
Qed.
End order.

(** ** Rounding: right shifts, validity of every result *)
Lemma iter_pos_nat {A} (f : A -> A) p x : SpecFloat.iter_pos f p x = Nat.iter (Pos.to_nat p) f x.
Proof.
  revert x. induction p as [p IH|p IH|]; intros x; simpl SpecFloat.iter_pos; [| |done].
  - rewrite !IH, <- Nat.iter_add, Pos2Nat.inj_xI, <- Nat.iter_succ_r. f_equal. lia.
  - rewrite !IH, <- Nat.iter_add, Pos2Nat.inj_xO. f_equal. lia.
Qed.

Lemma shr_1_m mrs : 0 <= shr_m mrs -> shr_m (shr_1 mrs) = shr_m mrs / 2.
Proof.
  destruct mrs as [m r s]. simpl. intros Hm. destruct m as [|[p|p|]|p]; simpl; try done.
  - apply (Z.div_unique_pos _ _ _ 1); lia.
  - apply (Z.div_unique_pos _ _ _ 0); lia.
Qed.

Lemma iter_shr_m n mrs : 0 <= shr_m mrs ->
  shr_m (Nat.iter n shr_1 mrs) = shr_m mrs / 2 ^ Z.of_nat n.
Proof.
  intros Hm. induction n as [|n IH]; [by rewrite Z.div_1_r|].
  rewrite Nat.iter_succ, shr_1_m, IH, Nat2Z.inj_succ, Z.pow_succ_r, (Z.mul_comm 2) by
    (rewrite ?IH; try apply Z.div_pos; lia).
  rewrite Z.div_div; lia.
Qed.

Lemma iter_shr_exact n m : 0 < m ->
  Nat.iter n shr_1 (Build_shr_record (m * 2 ^ Z.of_nat n) false false) = Build_shr_record m false false.
Proof.
  intros Hm. induction n as [|n IH]; [by rewrite Z.mul_1_r|].
  rewrite Nat.iter_succ_r, <- IH at 1. f_equal.
  rewrite Nat2Z.inj_succ, Z.pow_succ_r by lia.
  assert (0 < m * 2 ^ Z.of_nat n) by (apply Z.mul_pos_pos; lia).
  replace (m * (2 * 2 ^ Z.of_nat n)) with (2 * (m * 2 ^ Z.of_nat n)) by lia.
  by destruct (m * 2 ^ Z.of_nat n).
Qed.

Lemma shr_record_of_loc_m m l : shr_m (shr_record_of_loc m l) = m.
Proof. by destruct l as [|[]]. Qed.

(** The shift amount of [shr_fexp]. *)
Definition shift_amount (m e : Z) : Z := Z.max 0 (fexp 53 1024 (Zdigits2 m + e) - e).

Lemma shr_fexp_spec m e l : 0 <= m ->
  shr_m (fst (shr_fexp 53 1024 m e l)) = m / 2 ^ shift_amount m e /\
  snd (shr_fexp 53 1024 m e l) = e + shift_amount m e.
Proof.
  intros Hm. unfold shr_fexp, shr, shift_amount.
  destruct (fexp 53 1024 (Zdigits2 m + e) - e) as [|p|p] eqn:E; simpl fst; simpl snd.
  1,3: rewrite shr_record_of_loc_m, Z.max_l, Z.div_1_r by lia; lia.
  rewrite iter_pos_nat, iter_shr_m, shr_record_of_loc_m by (rewrite shr_record_of_loc_m; lia).
  rewrite positive_nat_Z, Z.max_r by lia. done.
Qed.

Lemma shr_fexp_exact q k e : 0 < q -> 0 <= k -> shift_amount (q * 2 ^ k) e = k ->
  shr_fexp 53 1024 (q * 2 ^ k) e loc_Exact = (Build_shr_record q false false, e + k).
Proof.
  intros Hq Hk. unfold shift_amount, shr_fexp, shr.
  destruct (fexp 53 1024 (Zdigits2 (q * 2 ^ k) + e) - e) as [|p|p] eqn:E; intros Hs.
  1,3: assert (k = 0) as -> by lia; rewrite Z.mul_1_r, Z.add_0_r; done.
  rewrite Z.max_r in Hs by lia. subst k. simpl shr_record_of_loc.
  by rewrite iter_pos_nat, <- (positive_nat_Z p), iter_shr_exact.
Qed.

Lemma round_nearest_even_bound m l : m <= round_nearest_even m l <= m + 1.
Proof. unfold round_nearest_even. destruct l as [|[]]; try destruct (Z.even m); lia. Qed.

(** After the first shift the exponent is the one of the mantissa, or the
    mantissa vanished at the smallest exponent. *)
Lemma shift_canonical m e : 0 <= m -> e <= fexp 53 1024 (Zdigits2 m + e) ->
  let m' := m / 2 ^ shift_amount m e in
  let e' := e + shift_amount m e in
  0 <= m' /\ fexp 53 1024 (Zdigits2 m' + e') = e'.
Proof.
  intros Hm He m' e'. subst m' e'. unfold shift_amount. rewrite Z.max_r by lia.
  replace (e + (fexp 53 1024 (Zdigits2 m + e) - e)) with (fexp 53 1024 (Zdigits2 m + e)) by lia.
  set (k := fexp 53 1024 (Zdigits2 m + e) - e) in *.
  assert (0 < 2 ^ k) by (apply Z.pow_pos_nonneg; lia).
  split; [apply Z.div_pos; lia|]. pose proof (Zdigits2_nonneg m).
  destruct (Z.eq_dec m 0) as [->|Hm0].
  { rewrite Z.div_0_l by lia. subst k. rewrite !fexp64 in *. simpl Zdigits2 in *. lia. }
  destruct (Z.lt_ge_cases k (Zdigits2 m)) as [Hk|Hk].
  - rewrite Zdigits2_div by lia. subst k. rewrite !fexp64 in *. lia.
  - rewrite Z.div_small.
    + subst k. rewrite !fexp64 in *. simpl Zdigits2. lia.
    + pose proof (Zdigits2_bounds m). pose proof (Z.pow_le_mono_r 2 (Zdigits2 m) k). lia.
Qed.

Lemma binary_round_aux_valid s m e l :
  0 <= m -> e <= fexp 53 1024 (Zdigits2 m + e) ->
  fvalid (binary_round_aux 53 1024 s m e l) = true.
Proof.
  intros Hm He. unfold binary_round_aux.
  destruct (shr_fexp 53 1024 m e l) as [mrs' e'] eqn:E1.
  destruct (shr_fexp_spec m e l Hm) as [S1 S2]. rewrite E1 in S1, S2. simpl in S1, S2.
  destruct (shift_canonical m e Hm He) as [C1 C2]. rewrite <- S1, <- S2 in *.
  set (m2 := round_nearest_even (shr_m mrs') (loc_of_shr_record mrs')).
  pose proof (round_nearest_even_bound (shr_m mrs') (loc_of_shr_record mrs')) as Hb. fold m2 in Hb.
  assert (0 <= m2) as Hm2 by lia.
  assert (e' <= fexp 53 1024 (Zdigits2 m2 + e')) as He2.
  { pose proof (Zdigits2_mono (shr_m mrs') m2). rewrite !fexp64 in *. lia. }
  destruct (shr_fexp 53 1024 m2 e' loc_Exact) as [mrs'' e''] eqn:E2.
  destruct (shr_fexp_spec m2 e' loc_Exact Hm2) as [T1 T2]. rewrite E2 in T1, T2. simpl in T1, T2.
  destruct (shift_canonical m2 e' Hm2 He2) as [D1 D2]. rewrite <- T1, <- T2 in *.
  destruct (shr_m mrs'') as [|p|p] eqn:Ep; [done| |lia].
  destruct (Z.leb_spec e'' (1024 - 53)); [|done].
  apply fvalid_finite. rewrite fexp64 in D2. lia.
Qed.

Lemma shl_align_spec p e e' :
  let '(p', e2) := shl_align p e e' in
  e2 = Z.min e e' /\ Z.pos p' = Z.pos p * 2 ^ (e - e2).
Proof.
  unfold shl_align. destruct (e' - e) as [|d|d] eqn:E.
  1,2: rewrite Z.min_l, Z.sub_diag, Z.mul_1_r by lia; done.
  split; [lia|].
  assert (forall n q, Z.pos (Pos.iter xO q n) = Z.pos q * 2 ^ Z.pos n) as H.
  { intros n q. induction n as [|n IH] using Pos.peano_ind; [simpl; lia|].
    rewrite Pos.iter_succ, Pos2Z.inj_xO, IH, Pos2Z.inj_succ, Z.pow_succ_r by lia. lia. }
  rewrite H. f_equal. f_equal. lia.
Qed.

Lemma binary_round_valid s p e : fvalid (binary_round 53 1024 s p e) = true.
Proof.
  unfold binary_round.
  pose proof (shl_align_spec p e (fexp 53 1024 (Z.pos (digits2_pos p) + e))) as H.
  destruct (shl_align _ _ _) as [p' e'] eqn:E. destruct H as [He Hp].
  apply binary_round_aux_valid; [lia|].
  rewrite Hp, Zdigits2_shift by lia. simpl (Zdigits2 (Z.pos p)).
  replace (Z.pos (digits2_pos p) + (e - e') + e') with (Z.pos (digits2_pos p) + e) by lia. lia.
Qed.

Lemma binary_normalize_valid z e s : fvalid (binary_normalize 53 1024 z e s) = true.
Proof. destruct z; [done|apply binary_round_valid..]. Qed.

Lemma of_Z_valid z : fvalid (of_Z z) = true.
Proof. apply binary_normalize_valid. Qed.

Lemma fneg_valid x : fvalid (fneg x) = fvalid x.
Proof. by destruct x. Qed.

Lemma fadd_valid x y : fvalid x = true -> fvalid y = true -> fvalid (fadd x y) = true.
Proof.
  intros Hx Hy. destruct x as [[]|[]| |], y as [[]|[]| |]; try done; apply binary_normalize_valid.
Qed.

Lemma fmul_valid x y : fvalid x = true -> fvalid y = true -> fvalid (fmul x y) = true.
Proof.
  intros Hx Hy. destruct x as [| | |sx mx ex], y as [| | |sy my ey]; try done.
  apply fvalid_finite in Hx as [Hx1 Hx2]. apply fvalid_finite in Hy as [Hy1 Hy2].
  apply binary_round_aux_valid; [lia|]. rewrite Pos2Z.inj_mul, fexp64.
  assert (Zdigits2 (Z.pos mx) + Zdigits2 (Z.pos my) - 1 <= Zdigits2 (Z.pos mx * Z.pos my)).
  { pose proof (Zdigits2_bounds (Z.pos mx)). pose proof (Zdigits2_bounds (Z.pos my)).
    pose proof (Zdigits2_pos (Z.pos mx)). pose proof (Zdigits2_pos (Z.pos my)).
    assert (Zdigits2 (2 ^ (Zdigits2 (Z.pos mx) - 1 + (Zdigits2 (Z.pos my) - 1))) =
      Zdigits2 (Z.pos mx) + Zdigits2 (Z.pos my) - 1) as <-.
    { rewrite <- (Z.mul_1_l (2 ^ _)), Zdigits2_shift by lia. simpl (Zdigits2 1). lia. }
    apply Zdigits2_mono. rewrite Z.pow_add_r by lia.
    pose proof (Z.pow_pos_nonneg 2 (Zdigits2 (Z.pos mx) - 1)).
    pose proof (Z.pow_pos_nonneg 2 (Zdigits2 (Z.pos my) - 1)). nia. }
  pose proof (Zdigits2_pos (Z.pos mx)). pose proof (Zdigits2_pos (Z.pos my)). lia.
Qed.

Lemma div_digits a b : 0 < a -> 0 < b -> Zdigits2 a - Zdigits2 b <= Zdigits2 (a / b).
Proof.
  intros Ha Hb. pose proof (Zdigits2_bounds a Ha). pose proof (Zdigits2_bounds b Hb).
  pose proof (Zdigits2_pos b Hb). pose proof (Zdigits2_nonneg (a / b)).
  destruct (Z.le_gt_cases (Zdigits2 a) (Zdigits2 b)); [lia|].
  assert (2 ^ (Zdigits2 a - Zdigits2 b - 1) <= a / b).
  { apply Z.div_le_lower_bound; [done|].
    replace (Zdigits2 a - 1) with (Zdigits2 b + (Zdigits2 a - Zdigits2 b - 1)) in * by lia.
    rewrite Z.pow_add_r in * by lia.
    pose proof (Z.pow_pos_nonneg 2 (Zdigits2 a - Zdigits2 b - 1)). nia. }
  pose proof (Z.pow_pos_nonneg 2 (Zdigits2 a - Zdigits2 b - 1)).
  assert (Zdigits2 (2 ^ (Zdigits2 a - Zdigits2 b - 1)) = Zdigits2 a - Zdigits2 b) as <-.
  { rewrite <- (Z.mul_1_l (2 ^ _)), Zdigits2_shift by lia. simpl (Zdigits2 1). lia. }
  apply Zdigits2_mono. lia.
Qed.

Lemma SFdiv_core_spec m1 e1 m2 e2 : 0 < m1 -> 0 < m2 ->
  let '(q, e, _) := SFdiv_core_binary 53 1024 m1 e1 m2 e2 in
  0 <= q /\ e <= fexp 53 1024 (Zdigits2 q + e).
Proof.
  intros H1 H2. unfold SFdiv_core_binary.
  set (e' := Z.min _ _).
  assert (e' <= e1 - e2) by lia.
  assert (e' <= fexp 53 1024 (Zdigits2 m1 + e1 - (Zdigits2 m2 + e2))) as He by lia.
  set (m' := match e1 - e2 - e' with Z0 => m1 | Z.pos _ => Z.shiftl m1 (e1 - e2 - e') | Z.neg _ => 0 end).
  assert (m' = m1 * 2 ^ (e1 - e2 - e')) as Hm'.
  { subst m'. destruct (e1 - e2 - e') eqn:E; [lia| |lia]. rewrite Z.shiftl_mul_pow2 by lia. done. }
  pose proof (Z.div_eucl_eq m' m2). 
  assert (fst (Z.div_eucl m' m2) = m' / m2) as Hq by (unfold Z.div; by destruct (Z.div_eucl m' m2)).
  destruct (Z.div_eucl m' m2) as [q r]. simpl in Hq. subst q.
  assert (0 < 2 ^ (e1 - e2 - e')) by (apply Z.pow_pos_nonneg; lia).
  assert (0 < m') by (rewrite Hm'; nia).
  split; [apply Z.div_pos; lia|].
  pose proof (div_digits m' m2) as Hd. rewrite Hm' in Hd at 2. rewrite Zdigits2_shift in Hd by lia.
  rewrite fexp64 in *. lia.
Qed.

Lemma fdiv_valid x y : fvalid x = true -> fvalid y = true -> fvalid (fdiv x y) = true.
Proof.
  intros Hx Hy. destruct x as [| | |sx mx ex], y as [| | |sy my ey]; try done.
  unfold fdiv, SFdiv. pose proof (SFdiv_core_spec (Z.pos mx) ex (Z.pos my) ey) as H.
  destruct (SFdiv_core_binary _ _ _ _ _ _) as [[q e] l].
  apply binary_round_aux_valid; apply H; lia.
Qed.

Lemma ffloor_valid x : fvalid x = true -> fvalid (ffloor x) = true.
Proof.
  unfold ffloor. destruct x as [| | |s m e]; try done. intros H.
  destruct (0 <=? e); [done|]. destruct s; [rewrite fneg_valid|]; apply of_Z_valid.
Qed.
Lemma fceil_valid x : fvalid x = true -> fvalid (fceil x) = true.
Proof. intros H. unfold fceil. rewrite fneg_valid. apply ffloor_valid. by rewrite fneg_valid. Qed.
Lemma fmax_valid x y : fvalid x = true -> fvalid y = true -> fvalid (fmax x y) = true.
Proof. intros Hx Hy. unfold fmax. by repeat case_match. Qed.
Lemma fmin_valid x y : fvalid x = true -> fvalid y = true -> fvalid (fmin x y) = true.
Proof. intros Hx Hy. unfold fmin. by repeat case_match. Qed.

Create HintDb f64.
#[export] Hint Resolve of_Z_valid fadd_valid fmul_valid fdiv_valid ffloor_valid fceil_valid
  fmax_valid fmin_valid : f64.

(** ** Values: truncation, exactness on integers, floor and ceiling *)

(** [2^1074], the scale of [fz]. *)
Definition fscale : Z := 2 ^ 1074.
Lemma fscale_pos : 0 < fscale.
Proof. apply Z.pow_pos_nonneg; lia. Qed.
Lemma fscale_split k : 0 <= k <= 1074 -> fscale = 2 ^ k * 2 ^ (1074 - k).
Proof. intros H. unfold fscale. rewrite <- Z.pow_add_r by lia. f_equal. lia. Qed.
#[global] Opaque fscale.

Lemma scaled_trunc m e : -1074 <= e ->
  (if 0 <=? e then Z.pos m * 2 ^ e else Z.pos m / 2 ^ (- e)) = Z.pos m * 2 ^ (e + 1074) / fscale.
Proof.
  intros He. pose proof fscale_pos. destruct (Z.leb_spec 0 e) as [H0|H0].
  - rewrite Z.pow_add_r, Z.mul_assoc by lia. by rewrite Z.div_mul by lia.
  - rewrite (fscale_split (- e)) by lia. replace (1074 - - e) with (e + 1074) by lia.
    rewrite Z.div_mul_cancel_r; [done|..]; apply Z.pow_nonzero; lia.
Qed.

Lemma ftrunc_spec x : fvalid x = true -> is_finite x = true ->
  ftrunc x = Some (Z.quot (fz x) fscale).
Proof.
  pose proof fscale_pos. destruct x as [| | |s m e]; try done. intros [Hv _]%fvalid_finite _.
  simpl. f_equal. rewrite scaled_trunc by lia.
  pose proof (Z.pow_pos_nonneg 2 (e + 1074)).
  destruct s; rewrite ?Z.quot_opp_l, Z.quot_div_nonneg by lia; done.
Qed.

Lemma f2i_spec x : fvalid x = true -> is_finite x = true ->
  - 2 ^ 63 <= Z.quot (fz x) fscale < 2 ^ 63 -> f2i x = Z.quot (fz x) fscale.
Proof.
  intros Hv Hf Hr. unfold f2i. rewrite ftrunc_spec by done.
  assert ((minInt64 <=? Z.quot (fz x) fscale) = true) as -> by (apply Z.leb_le; unfold minInt64; lia).
  by assert ((Z.quot (fz x) fscale <=? maxInt64) = true) as -> by (apply Z.leb_le; unfold maxInt64; lia).
Qed.

Lemma f2i_range x : - 2 ^ 63 <= f2i x < 2 ^ 63.
Proof.
  unfold f2i, minInt64, maxInt64. destruct (ftrunc x); [|lia].
  destruct (Z.leb_spec (- 2 ^ 63) z), (Z.leb_spec z (2 ^ 63 - 1)); simpl; lia.
Qed.

(** The conversion to int is monotone on values that fit. *)
Lemma f2i_mono x y :
  fvalid x = true -> fvalid y = true -> is_finite x = true -> is_finite y = true ->
  - (2 ^ 63 * fscale) <= fz x -> fz x <= fz y -> fz y < 2 ^ 63 * fscale ->
  f2i x <= f2i y.
Proof.
  intros Vx Vy Fx Fy Hlo Hle Hhi. pose proof fscale_pos.
  assert (forall z, - (2 ^ 63 * fscale) <= z < 2 ^ 63 * fscale -> - 2 ^ 63 <= Z.quot z fscale < 2 ^ 63) as Hr.
  { intros z Hz. split.
    - rewrite <- (Z.quot_mul (- 2 ^ 63) fscale) by lia. apply Z.quot_le_mono; lia.
    - destruct (Z.le_gt_cases 0 z); [apply Z.quot_lt_upper_bound; lia|].
      pose proof (Z.quot_le_mono z 0 fscale). rewrite Z.quot_0_l in * by lia. lia. }
  rewrite !f2i_spec by (done || apply Hr; lia). apply Z.quot_le_mono; lia.
Qed.

Lemma binary_round_aux_exact s m k e :
  0 < m -> Zdigits2 m <= 53 -> 0 <= k -> -1074 <= e ->
  e <= Z.max (Zdigits2 m + k + e - 53) (-1074) -> e + k + Zdigits2 m <= 1024 ->
  exists m' e', binary_round_aux 53 1024 s (m * 2 ^ k) e loc_Exact = S754_finite s m' e' /\
    -1074 <= e' /\ Z.pos m' * 2 ^ (e' + 1074) = m * 2 ^ k * 2 ^ (e + 1074).
Proof.
  intros Hm Hd Hk He Hex Ho.
  set (ex := Z.max (Zdigits2 m + k + e - 53) (-1074)) in *.
  (* the mantissa after rounding *)
  set (q := m * 2 ^ (k + e - ex)).
  assert (0 <= k + e - ex) by lia.
  assert (0 < q) as Hq by (apply Z.mul_pos_pos; [|apply Z.pow_pos_nonneg]; lia).
  assert (Zdigits2 q = Zdigits2 m + (k + e - ex)) as Dq by (apply Zdigits2_shift; lia).
  assert (m * 2 ^ k = q * 2 ^ (ex - e)) as Hpq.
  { unfold q. rewrite <- !Z.mul_assoc, <- !Z.pow_add_r by lia. f_equal. f_equal. lia. }
  unfold binary_round_aux. rewrite Hpq.
  rewrite shr_fexp_exact by
    (try lia; unfold shift_amount; rewrite Zdigits2_shift, Dq, fexp64 by lia; lia).
  simpl. replace (e + (ex - e)) with ex by lia.
  rewrite <- (Z.mul_1_r q), <- (Z.pow_0_r 2).
  rewrite shr_fexp_exact by (try lia; unfold shift_amount; rewrite Z.pow_0_r, Z.mul_1_r, Dq, fexp64; lia).
  simpl. rewrite Z.add_0_r. destruct q as [|m'|] eqn:Eq; try lia.
  destruct (Z.leb_spec ex (1024 - 53)); [|lia].
  exists m', ex. split; [done|]. split; [lia|].
  rewrite ?Z.pow_0_r, ?Z.mul_1_r, <- Z.mul_assoc, <- Z.pow_add_r by lia.
  replace (ex - e + (e + 1074)) with (ex + 1074) by lia. congruence.
Qed.

Lemma binary_round_exact s p m k e :
  Z.pos p = m * 2 ^ k -> 0 < m -> Zdigits2 m <= 53 -> 0 <= k -> -1074 <= e ->
  e + k + Zdigits2 m <= 1024 ->
  exists m' e', binary_round 53 1024 s p e = S754_finite s m' e' /\ -1074 <= e' /\
    Z.pos m' * 2 ^ (e' + 1074) = m * 2 ^ k * 2 ^ (e + 1074).
Proof.
  intros Hp Hm Hd Hk He Ho. unfold binary_round.
  assert (Z.pos (digits2_pos p) = Zdigits2 m + k) as Hdp
    by (rewrite <- Zdigits2_shift, <- Hp by lia; done).
  pose proof (shl_align_spec p e (fexp 53 1024 (Z.pos (digits2_pos p) + e))) as Hs.
  destruct (shl_align _ _ _) as [p' e1] eqn:E. destruct Hs as [He1 Hp'].
  rewrite Hdp, fexp64 in He1.
  rewrite Hp, <- Z.mul_assoc, <- Z.pow_add_r in Hp' by lia. rewrite Hp'.
  destruct (binary_round_aux_exact s m (k + (e - e1)) e1) as (m' & e' & -> & He' & Hv); [lia..|].
  exists m', e'. split; [done|]. split; [done|]. rewrite Hv, <- !Z.mul_assoc, <- !Z.pow_add_r by lia.
  f_equal. f_equal. lia.
Qed.

(** A nonzero value has one valid representation. *)
Lemma fz_inj s1 m1 e1 s2 m2 e2 :
  fvalid (S754_finite s1 m1 e1) = true -> fvalid (S754_finite s2 m2 e2) = true ->
  fz (S754_finite s1 m1 e1) = fz (S754_finite s2 m2 e2) ->
  S754_finite s1 m1 e1 = S754_finite s2 m2 e2.
Proof.
  intros V1 V2 H. pose proof V1 as [? _]%fvalid_finite. pose proof V2 as [? _]%fvalid_finite.
  assert (0 < 2 ^ (e1 + 1074)) by (apply Z.pow_pos_nonneg; lia).
  assert (0 < 2 ^ (e2 + 1074)) by (apply Z.pow_pos_nonneg; lia).
  assert (s1 = s2 /\ Z.pos m1 * 2 ^ (e1 + 1074) = Z.pos m2 * 2 ^ (e2 + 1074)) as [-> Hm].
  { destruct s1, s2; simpl in H; split; try done; nia. }
  destruct (Z.lt_trichotomy e1 e2) as [Hlt|[->|Hlt]].
  - pose proof (fz_pos_lt m1 e1 m2 e2 V1 V2 Hlt). lia.
  - apply Z.mul_reg_r in Hm; [|lia]. by injection Hm as ->.
  - pose proof (fz_pos_lt m2 e2 m1 e1 V2 V1 Hlt). lia.
Qed.

Lemma Zdigits2_le m d : 0 < m -> m < 2 ^ d -> Zdigits2 m <= d.
Proof.
  intros Hm Hd. pose proof (Zdigits2_bounds m Hm). pose proof (Zdigits2_pos m Hm).
  destruct (Z.le_gt_cases (Zdigits2 m) d); [done|].
  assert (0 <= d). { destruct (Z.le_gt_cases 0 d); [done|]. rewrite (Z.pow_neg_r 2 d) in Hd; lia. }
  pose proof (Z.pow_le_mono_r 2 d (Zdigits2 m - 1)). lia.
Qed.

(** Integers below 2^53 in magnitude, at any negative exponent, are exact. *)
Lemma normalize_value n k : - 2 ^ 53 < n < 2 ^ 53 -> 0 <= k <= 1074 ->
  is_finite (binary_normalize 53 1024 (n * 2 ^ k) (- k) false) = true /\
  fz (binary_normalize 53 1024 (n * 2 ^ k) (- k) false) = n * fscale.
Proof.
  intros Hn Hk. pose proof (Z.pow_pos_nonneg 2 k). rewrite (fscale_split k) by lia.
  assert (forall p m s, Z.pos p = m * 2 ^ k -> 0 < m < 2 ^ 53 ->
    exists m' e', binary_round 53 1024 s p (- k) = S754_finite s m' e' /\
      Z.pos m' * 2 ^ (e' + 1074) = m * (2 ^ k * 2 ^ (1074 - k))) as Hr.
  { intros p m s Hp Hm. pose proof (Zdigits2_le m 53).
    destruct (binary_round_exact s p m k (- k)) as (m' & e' & -> & _ & Hv); [lia..|].
    exists m', e'. split; [done|]. rewrite Hv, <- Z.mul_assoc. do 2 f_equal. f_equal. lia. }
  destruct (n * 2 ^ k) as [|p|p] eqn:E; simpl.
  - split; [done|]. assert (n = 0) as -> by nia. lia.
  - destruct (Hr p n false) as (m' & e' & -> & Hv); [lia|nia|]. simpl. by rewrite Hv.
  - destruct (Hr p (- n) true) as (m' & e' & -> & Hv); [lia|nia|]. simpl. rewrite Hv. split; [done|lia].
Qed.

Lemma normalize_of_Z n k : - 2 ^ 53 < n < 2 ^ 53 -> 0 <= k <= 1074 ->
  binary_normalize 53 1024 (n * 2 ^ k) (- k) false = of_Z n.
Proof.
  intros Hn Hk. destruct (normalize_value n k Hn Hk) as [F1 Z1].
  destruct (normalize_value n 0 Hn) as [F2 Z2]; [lia|]. rewrite Z.mul_1_r in F2, Z2.
  pose proof (binary_normalize_valid (n * 2 ^ k) (- k) false) as V1.
  pose proof (of_Z_valid n) as V2. pose proof fscale_pos. pose proof (Z.pow_pos_nonneg 2 k).
  change (binary_normalize 53 1024 n (- 0) false) with (of_Z n) in *.
  destruct (Z.eq_dec n 0) as [->|Hn0]; [done|].
  assert (fz (of_Z n) <> 0) as Hnz by (rewrite Z2; nia).
  destruct (binary_normalize 53 1024 (n * 2 ^ k) (- k) false) as [| | |s1 m1 e1],
    (of_Z n) as [| | |s2 m2 e2]; simpl in F1, F2; try done.
  all: try (exfalso; cbn [fz] in Z1, Z2, Hnz; nia).
  apply fz_inj; [done..|]. by rewrite Z1, Z2.
Qed.

Definition exact_int (n : Z) : Prop := - 2 ^ 53 < n < 2 ^ 53.

Lemma of_Z_finite n : exact_int n -> is_finite (of_Z n) = true.
Proof. intros H. pose proof (normalize_value n 0 H) as [Hf _]; [lia|]. by rewrite Z.mul_1_r in Hf. Qed.
Lemma fz_of_Z n : exact_int n -> fz (of_Z n) = n * fscale.
Proof. intros H. pose proof (normalize_value n 0 H) as [_ Hz]; [lia|]. by rewrite Z.mul_1_r in Hz. Qed.
#[export] Hint Resolve of_Z_finite : f64.

Lemma f2i_of_Z n : exact_int n -> f2i (of_Z n) = n.
Proof.
  intros H. pose proof fscale_pos. unfold exact_int in *.
  assert (Z.quot (fz (of_Z n)) fscale = n) as Hq by (rewrite fz_of_Z by done; apply Z.quot_mul; lia).
  rewrite f2i_spec; auto with f64. rewrite Hq. lia.
Qed.

Lemma fle_of_Z a b : exact_int a -> exact_int b -> fle (of_Z a) (of_Z b) = (a <=? b).
Proof.
  intros Ha Hb. pose proof fscale_pos. apply eq_true_iff_eq.
  rewrite fle_spec, !fz_of_Z, Z.leb_le by auto with f64. nia.
Qed.
Lemma flt_of_Z a b : exact_int a -> exact_int b -> flt (of_Z a) (of_Z b) = (a <? b).
Proof.
  intros Ha Hb. pose proof fscale_pos. apply eq_true_iff_eq.
  rewrite flt_spec, !fz_of_Z, Z.ltb_lt by auto with f64. nia.
Qed.

(** The exponent of a nonzero exact integer is at most 0. *)
Lemma of_Z_shape n : exact_int n -> n <> 0 ->
  exists m e, of_Z n = S754_finite (n <? 0) m e /\ -1074 <= e <= 0 /\ Z.pos m = Z.abs n * 2 ^ (- e).
Proof.
  intros Hn H0. pose proof (of_Z_valid n) as V. pose proof (of_Z_finite n Hn) as F.
  pose proof (fz_of_Z n Hn) as Hz. pose proof fscale_pos. unfold exact_int in Hn.
  destruct (of_Z n) as [| | |s m e]; try done; [simpl in Hz; nia|].
  exists m, e. pose proof V as [Hc He]%fvalid_finite.
  assert (0 < 2 ^ (e + 1074)) by (apply Z.pow_pos_nonneg; lia).
  assert (s = (n <? 0) /\ Z.pos m * 2 ^ (e + 1074) = Z.abs n * fscale) as [-> Hm].
  { destruct s, (Z.ltb_spec n 0); simpl in Hz; split; try done; nia. }
  assert (e <= 0).
  { destruct (Z.le_gt_cases e 0); [done|]. exfalso.
    pose proof (Zdigits2_bounds (Z.pos m)) as [Hd _]; [lia|].
    assert (Zdigits2 (Z.pos m) = 53) as E by lia. rewrite E in Hd. change (53 - 1) with 52 in Hd.
    assert (fscale * 2 <= 2 ^ (e + 1074)).
    { change 2 with (2 ^ 1) at 1. rewrite (fscale_split 0), Z.mul_1_l, <- Z.pow_add_r by lia.
      apply Z.pow_le_mono_r; lia. }
    change (2 ^ 53) with (2 * 2 ^ 52) in *. nia. }
  split; [done|]. split; [lia|]. rewrite (fscale_split (- e)) in Hm by lia.
  replace (1074 - - e) with (e + 1074) in Hm by lia. rewrite Z.mul_assoc in Hm.
  apply Z.mul_reg_r in Hm; lia.
Qed.

Lemma aligned_mantissa n m e ez :
  Z.pos m = Z.abs n * 2 ^ (- e) -> n <> 0 -> ez <= e <= 0 ->
  cond_Zopp (n <? 0) (Z.pos (fst (shl_align m e ez))) = n * 2 ^ (- ez).
Proof.
  intros Hm Hn He. pose proof (shl_align_spec m e ez) as Hs.
  destruct (shl_align m e ez) as [p' e2]. destruct Hs as [-> Hp]. simpl.
  rewrite Z.min_r, Hm, <- Z.mul_assoc, <- Z.pow_add_r in Hp by lia.
  replace (- e + (e - ez)) with (- ez) in Hp by lia.
  rewrite Hp. unfold cond_Zopp. destruct (Z.ltb_spec n 0); lia.
Qed.

(** Addition of integers is exact below 2^53: the request counters of the
    program, kept as float64, count exactly. *)
Lemma fadd_of_Z a b : exact_int a -> exact_int b -> exact_int (a + b) ->
  fadd (of_Z a) (of_Z b) = of_Z (a + b).
Proof.
  intros Ha Hb Hab.
  destruct (Z.eq_dec a 0) as [->|Ha0].
  { change (of_Z 0) with (S754_zero false). rewrite Z.add_0_l.
    destruct (Z.eq_dec b 0) as [->|Hb0]; [done|].
    destruct (of_Z_shape b) as (m & e & -> & _); done. }
  destruct (Z.eq_dec b 0) as [->|Hb0].
  { rewrite Z.add_0_r. change (of_Z 0) with (S754_zero false).
    destruct (of_Z_shape a) as (m & e & -> & _); done. }
  destruct (of_Z_shape a) as (ma & ea & Ea & Ra & Va); [done..|].
  destruct (of_Z_shape b) as (mb & eb & Eb & Rb & Vb); [done..|].
  rewrite <- (normalize_of_Z (a + b) (- Z.min ea eb)) by (unfold exact_int in *; lia).
  rewrite Ea, Eb, Z.opp_involutive. unfold fadd, SFadd. f_equal.
  rewrite Z.mul_add_distr_r. f_equal; apply aligned_mantissa; lia || done.
Qed.

Lemma of_Z_opp n : exact_int n -> n <> 0 -> of_Z (- n) = fneg (of_Z n).
Proof.
  intros Hn H0. assert (exact_int (- n)) as Hn' by (unfold exact_int in *; lia).
  pose proof (fz_of_Z n Hn) as Z1. pose proof (fz_of_Z (- n) Hn') as Z2.
  pose proof (of_Z_valid n) as V1. pose proof (of_Z_valid (- n)) as V2.
  destruct (of_Z_shape n) as (m & e & E & _); [done..|].
  destruct (of_Z_shape (- n)) as (m' & e' & E' & _); [done|lia|].
  rewrite E, E' in *. cbn [fneg SFopp] in *. apply fz_inj; [done..|].
  rewrite Z2. cbn [fz] in Z1 |- *. destruct (n <? 0); simpl; lia.
Qed.

Lemma fsub_fadd x y : is_nan y = false -> (forall s, y <> S754_zero s) ->
  fsub x y = fadd x (fneg y).
Proof.
  intros Hn Hz. destruct x as [[]|[]| |sx mx ex], y as [sy|[]| |sy my ey]; try done;
    try (by destruct (Hz sy)).
  unfold fsub, fadd, SFsub, SFadd, fneg, SFopp. f_equal.
  destruct sy; cbn [negb cond_Zopp]; lia.
Qed.

Lemma fsub_of_Z a b : exact_int a -> exact_int b -> exact_int (a - b) ->
  fsub (of_Z a) (of_Z b) = of_Z (a - b).
Proof.
  intros Ha Hb Hab. destruct (Z.eq_dec b 0) as [->|Hb0].
  - rewrite Z.sub_0_r. destruct (Z.eq_dec a 0) as [->|Ha0]; [done|].
    by destruct (of_Z_shape a) as (m & e & -> & _).
  - rewrite fsub_fadd.
    + rewrite <- of_Z_opp, fadd_of_Z by (unfold exact_int in *; lia). f_equal; lia.
    + by destruct (of_Z_shape b) as (m & e & -> & _).
    + intros s. by destruct (of_Z_shape b) as (m & e & -> & _).
Qed.

(** ** Values of floor, ceiling, maximum and minimum of finite floats *)
Lemma fneg_fz x : fz (fneg x) = - fz x.
Proof. destruct x as [| | |[] m e]; simpl; lia. Qed.
Lemma fneg_finite x : is_finite (fneg x) = is_finite x.
Proof. by destruct x. Qed.

Lemma ffloor_spec x : fvalid x = true -> is_finite x = true ->
  is_finite (ffloor x) = true /\ fz (ffloor x) = fz x / fscale * fscale.
Proof.
  pose proof fscale_pos as Hp. destruct x as [| | |s m e]; try done. intros Hv _.
  pose proof Hv as [Hc He]%fvalid_finite. unfold ffloor. destruct (Z.leb_spec 0 e) as [H0|H0].
  - split; [done|]. cbn [fz].
    replace (2 ^ (e + 1074)) with (2 ^ e * fscale)
      by (rewrite (fscale_split 0), Z.mul_1_l, <- Z.pow_add_r by lia; f_equal; lia).
    destruct s; rewrite ?Z.mul_assoc, <- ?Z.mul_opp_l, Z.div_mul by lia; lia.
  - pose proof (Zdigits2_bounds (Z.pos m)) as [_ Hm]; [lia|].
    assert (Z.pos m < 2 ^ 53).
    { eapply Z.lt_le_trans; [exact Hm|]. apply Z.pow_le_mono_r; lia. }
    assert (0 < 2 ^ (- e)) by (apply Z.pow_pos_nonneg; lia).
    assert (0 < 2 ^ (e + 1074)) as Hq by (apply Z.pow_pos_nonneg; lia).
    assert (2 <= 2 ^ (- e)). { change 2 with (2 ^ 1) at 1. apply Z.pow_le_mono_r; lia. }
    set (d := 2 ^ (- e)) in *.
    assert (fscale = d * 2 ^ (e + 1074)) as Hs
      by (rewrite (fscale_split (- e)) by lia; do 2 f_equal; lia).
    pose proof (Z.div_mod (Z.pos m) d) as Hdm. pose proof (Z.mod_pos_bound (Z.pos m) d).
    assert (0 <= Z.pos m / d) by (apply Z.div_pos; lia).
    assert (Z.pos m / d <= Z.pos m / 2) by (apply Z.div_le_compat_l; lia).
    pose proof (Z.div_lt_upper_bound (Z.pos m) 2 (2 ^ 52)).
    assert (exact_int (Z.pos m / d)) by (unfold exact_int; lia).
    assert (exact_int (Z.pos m / d + 1)) by (unfold exact_int; lia).
    destruct s; cbn [fz].
    + rewrite fneg_finite, fneg_fz.
      assert (exact_int (if Z.pos m mod d =? 0 then Z.pos m / d else Z.pos m / d + 1)) by (by case_match).
      rewrite of_Z_finite, fz_of_Z by done. split; [done|].
      rewrite <- Z.mul_opp_l. f_equal. rewrite Hs, <- Z.mul_opp_l, Z.div_mul_cancel_r by lia.
      destruct (Z.eqb_spec (Z.pos m mod d) 0); [by rewrite Z.div_opp_l_z by lia|].
      rewrite Z.div_opp_l_nz by lia. lia.
    + rewrite of_Z_finite, fz_of_Z by done. split; [done|].
      f_equal. by rewrite Hs, Z.div_mul_cancel_r by lia.
Qed.

(** The least multiple of [fscale] not below [z]. *)
Definition zceil (z : Z) : Z := - (- z / fscale) * fscale.
Lemma zceil_ge z : z <= zceil z < z + fscale.
Proof.
  unfold zceil. pose proof fscale_pos. pose proof (Z.div_mod (- z) fscale).
  pose proof (Z.mod_pos_bound (- z) fscale). lia.
Qed.

Lemma fceil_spec x : fvalid x = true -> is_finite x = true ->
  is_finite (fceil x) = true /\ fz (fceil x) = zceil (fz x).
Proof.
  intros Hv Hf. unfold fceil, zceil. rewrite fneg_finite, !fneg_fz.
  destruct (ffloor_spec (fneg x)) as [F E]; [by rewrite fneg_valid|by rewrite fneg_finite|].
  rewrite F, E, fneg_fz. split; [done|lia].
Qed.

Lemma is_finite_not_nan x : is_finite x = true ->
  is_nan x = false /\ is_pinf x = false /\ is_ninf x = false.
Proof. by destruct x. Qed.

Section maxmin.
Context (x y : f64) (Vx : fvalid x = true) (Vy : fvalid y = true).
Context (Fx : is_finite x = true) (Fy : is_finite y = true).

Lemma fmax_spec : is_finite (fmax x y) = true /\ fz (fmax x y) = Z.max (fz x) (fz y).
Proof using All.
  unfold fmax. destruct (is_finite_not_nan x Fx) as (-> & -> & _).
  destruct (is_finite_not_nan y Fy) as (-> & -> & _). simpl.
  destruct (feq x fzero && feq x y) eqn:E.
  - apply andb_true_iff in E as [_ E]. apply feq_spec in E; [|done..].
    destruct (fsignbit x); split; (done || lia).
  - destruct (flt y x) eqn:L.
    + apply flt_spec in L; [|done..]. split; [done|lia].
    + split; [done|]. rewrite <- not_true_iff_false, flt_spec in L by done. lia.
Qed.

Lemma fmin_spec : is_finite (fmin x y) = true /\ fz (fmin x y) = Z.min (fz x) (fz y).
Proof using All.
  unfold fmin. destruct (is_finite_not_nan x Fx) as (-> & _ & ->).
  destruct (is_finite_not_nan y Fy) as (-> & _ & ->). simpl.
  destruct (feq x fzero && feq x y) eqn:E.
  - apply andb_true_iff in E as [_ E]. apply feq_spec in E; [|done..].
    destruct (fsignbit x); split; (done || lia).
  - destruct (flt x y) eqn:L.
    + apply flt_spec in L; [|done..]. split; [done|lia].
    + split; [done|]. rewrite <- not_true_iff_false, flt_spec in L by done. lia.
Qed.
End maxmin.

(** Multiplication of integers is exact while the product stays below 2^53. *)
Lemma of_Z_digits n m e : exact_int n -> n <> 0 ->
  of_Z n = S754_finite (n <? 0) m e -> Z.pos m = Z.abs n * 2 ^ (- e) -> -1074 <= e <= 0 ->
  Zdigits2 (Z.pos m) = 53 /\ -52 <= e.
Proof.
  intros Hn H0 E Hm He. pose proof (of_Z_valid n) as V. rewrite E in V.
  apply fvalid_finite in V as [Hc _]. rewrite Hm, Zdigits2_shift in * by lia.
  assert (0 < Zdigits2 (Z.abs n)) by (apply Zdigits2_pos; lia).
  assert (Zdigits2 (Z.abs n) <= 53) by (apply Zdigits2_le; unfold exact_int in *; lia). lia.
Qed.

Lemma fmul_of_Z a b : exact_int a -> exact_int b -> exact_int (a * b) -> a * b <> 0 ->
  fmul (of_Z a) (of_Z b) = of_Z (a * b).
Proof.
  intros Ha Hb Hab H0. assert (a <> 0) by lia. assert (b <> 0) by lia.
  destruct (of_Z_shape a) as (ma & ea & Ea & Ra & Va); [done..|].
  destruct (of_Z_shape b) as (mb & eb & Eb & Rb & Vb); [done..|].
  destruct (of_Z_shape (a * b)) as (mc & ec & Ec & Rc & Vc); [done..|].
  destruct (of_Z_digits a ma ea) as [Da Ba]; [done..|].
  destruct (of_Z_digits b mb eb) as [Db Bb]; [done..|].
  assert (exact_int (Z.abs (a * b))) as Hc by (unfold exact_int in *; lia).
  rewrite Ea, Eb, Ec. unfold fmul, SFmul.
  assert (Z.pos (ma * mb) = Z.abs (a * b) * 2 ^ (- (ea + eb))) as Hm.
  { rewrite Pos2Z.inj_mul, Va, Vb, Z.abs_mul, Z.opp_add_distr, Z.pow_add_r by lia. lia. }
  pose proof (Zdigits2_le (Z.abs (a * b)) 53) as Hd. pose proof (Zdigits2_pos (Z.abs (a * b))).
  assert (Zdigits2 (Z.abs (a * b)) + - (ea + eb) >= 105).
  { rewrite <- Zdigits2_shift, <- Hm by lia.
    pose proof (Zdigits2_bounds (Z.pos ma)) as Xa. pose proof (Zdigits2_bounds (Z.pos mb)) as Xb.
    rewrite Da in Xa. rewrite Db in Xb. change (53 - 1) with 52 in *.
    change 105 with (Zdigits2 (2 ^ 104)). apply Z.le_ge, Zdigits2_mono. rewrite Pos2Z.inj_mul. lia. }
  unfold exact_int in *. rewrite Hm.
  destruct (binary_round_aux_exact (xorb (a <? 0) (b <? 0)) (Z.abs (a * b)) (- (ea + eb)) (ea + eb))
    as (m' & e' & E' & He' & Hv); [lia..|].
  rewrite E'. pose proof (binary_round_aux_valid (xorb (a <? 0) (b <? 0))
    (Z.abs (a * b) * 2 ^ (- (ea + eb))) (ea + eb) loc_Exact) as V. rewrite E' in V.
  apply fz_inj; [apply V; rewrite ?Zdigits2_shift, ?fexp64; lia|rewrite <- Ec; apply of_Z_valid|].
  assert (Z.pos m' * 2 ^ (e' + 1074) = Z.pos mc * 2 ^ (ec + 1074)) as Hmc.
  { rewrite Hv, Vc, <- !Z.mul_assoc, <- !Z.pow_add_r by lia. f_equal. f_equal. lia. }
  assert (xorb (a <? 0) (b <? 0) = (a * b <? 0)) as ->.
  { destruct (Z.ltb_spec a 0), (Z.ltb_spec b 0), (Z.ltb_spec (a * b) 0); simpl; (done || nia). }
  cbn [fz]. by rewrite Hmc.
Qed.

Lemma fmul_of_Z_nonneg a b : exact_int a -> exact_int b -> exact_int (a * b) -> 0 < b ->
  fmul (of_Z a) (of_Z b) = of_Z (a * b).
Proof.
  intros Ha Hb Hab Hp. destruct (Z.eq_dec a 0) as [->|H0]; [|apply fmul_of_Z; [done..|nia]].
  rewrite Z.mul_0_l. destruct (of_Z_shape b) as (m & e & -> & _); [done|lia|].
  by rewrite (proj2 (Z.ltb_ge b 0)) by lia.
Qed.

(** A whole number of seconds converts exactly. *)
Lemma dur_seconds_whole k : exact_int k -> dur_seconds (k * Second) = of_Z k.
Proof.
  intros Hk. unfold dur_seconds, Second. rewrite Z.quot_mul, Z.rem_mul by lia.
  change (fdiv (of_Z 0) (of_Z 1000000000)) with (of_Z 0).
  rewrite fadd_of_Z; [f_equal; lia|done|done|by rewrite Z.add_0_r].
Qed.

(** ** Clamping commutes with the conversion to int *)
Definition fits (x : f64) : Prop :=
  fvalid x = true /\ is_finite x = true /\ - (2 ^ 63 * fscale) <= fz x < 2 ^ 63 * fscale.

Lemma f2i_fits_mono x y : fits x -> fits y -> fz x <= fz y -> f2i x <= f2i y.
Proof. intros (? & ? & ?) (? & ? & ?) ?. apply f2i_mono; auto; lia. Qed.

Lemma f2i_fits_eq x y : fits x -> fits y -> fz x = fz y -> f2i x = f2i y.
Proof. intros Hx Hy E. apply Z.le_antisymm; apply f2i_fits_mono; auto; lia. Qed.

Lemma fits_max x y : fits x -> fits y -> fits (fmax x y) /\ f2i (fmax x y) = Z.max (f2i x) (f2i y).
Proof.
  intros Hx Hy. pose proof Hx as (Vx & Fx & Rx). pose proof Hy as (Vy & Fy & Ry).
  destruct (fmax_spec x y) as [F E]; [done..|].
  assert (fits (fmax x y)) as H by (split; [by apply fmax_valid|split; [done|lia]]).
  split; [done|]. destruct (Z.le_gt_cases (fz x) (fz y)).
  - pose proof (f2i_fits_mono x y Hx Hy). rewrite Z.max_r by lia. apply f2i_fits_eq; auto; lia.
  - pose proof (f2i_fits_mono y x Hy Hx). rewrite Z.max_l by lia. apply f2i_fits_eq; auto; lia.
Qed.

Lemma fits_min x y : fits x -> fits y -> fits (fmin x y) /\ f2i (fmin x y) = Z.min (f2i x) (f2i y).
Proof.
  intros Hx Hy. pose proof Hx as (Vx & Fx & Rx). pose proof Hy as (Vy & Fy & Ry).
  destruct (fmin_spec x y) as [F E]; [done..|].
  assert (fits (fmin x y)) as H by (split; [by apply fmin_valid|split; [done|lia]]).
  split; [done|]. destruct (Z.le_gt_cases (fz x) (fz y)).
  - pose proof (f2i_fits_mono x y Hx Hy). rewrite Z.min_l by lia. apply f2i_fits_eq; auto; lia.
  - pose proof (f2i_fits_mono y x Hy Hx). rewrite Z.min_r by lia. apply f2i_fits_eq; auto; lia.
Qed.

Lemma f2i_clamp x lo up : fits x -> fits lo -> fits up ->
  f2i (fmin (fmax x lo) up) = Z.min (Z.max (f2i x) (f2i lo)) (f2i up).
Proof.
  intros Hx Hl Hu. destruct (fits_max x lo Hx Hl) as [Hm Em].
  destruct (fits_min (fmax x lo) up Hm Hu) as [_ E]. by rewrite E, Em.
Qed.

Lemma fits_of_Z n : exact_int n -> fits (of_Z n).
Proof.
  intros H. pose proof fscale_pos. split; [apply of_Z_valid|]. split; [by apply of_Z_finite|].
  rewrite fz_of_Z by done. unfold exact_int in H. nia.
Qed.

(** ** Magnitude: positive quotients do not vanish *)

(** The binary magnitude of a finite float: its value is in [2^(d-1), 2^d). *)
Definition fmag (m : positive) (e : Z) : Z := Zdigits2 (Z.pos m) + e.

Lemma binary_round_aux_mag s m e l : 53 <= Zdigits2 m -> 0 < m -> -1074 <= e -> Zdigits2 m + e <= 1023 ->
  exists m' e', binary_round_aux 53 1024 s m e l = S754_finite s m' e' /\
    Zdigits2 m + e <= fmag m' e' <= Zdigits2 m + e + 1.
Proof.
  intros Hd Hm He Hu. unfold binary_round_aux.
  destruct (shr_fexp 53 1024 m e l) as [mrs' e'] eqn:E1.
  destruct (shr_fexp_spec m e l) as [S1 S2]; [lia|]. rewrite E1 in S1, S2. simpl in S1, S2.
  assert (shift_amount m e = Zdigits2 m - 53) as Hs by (unfold shift_amount; rewrite fexp64; lia).
  rewrite Hs in S1, S2. set (m1 := shr_m mrs') in *.
  assert (Zdigits2 m1 = 53 /\ 0 < m1) as [Hd1 Hm1].
  { assert (Zdigits2 m1 = 53) as H by (rewrite S1, Zdigits2_div by lia; lia). split; [done|].
    assert (0 < 2 ^ (Zdigits2 m - 53)) by (apply Z.pow_pos_nonneg; lia).
    assert (0 <= m1) by (rewrite S1; apply Z.div_pos; lia).
    destruct (Z.eq_dec m1 0) as [Hz|]; [rewrite Hz in H; done|lia]. }
  pose proof (round_nearest_even_bound m1 (loc_of_shr_record mrs')) as Hb.
  set (m2 := round_nearest_even m1 (loc_of_shr_record mrs')) in *.
  pose proof (Zdigits2_bounds m1 Hm1) as B1. rewrite Hd1 in B1.
  assert (53 <= Zdigits2 m2 <= 54) as Hd2.
  { split; [rewrite <- Hd1; apply Zdigits2_mono; lia|].
    change 54 with (Zdigits2 (2 ^ 53)). apply Zdigits2_mono. lia. }
  destruct (shr_fexp 53 1024 m2 e' loc_Exact) as [mrs'' e''] eqn:E2.
  destruct (shr_fexp_spec m2 e' loc_Exact) as [T1 T2]; [lia|]. rewrite E2 in T1, T2. simpl in T1, T2.
  assert (shift_amount m2 e' = Zdigits2 m2 - 53) as Hs2 by (unfold shift_amount; rewrite fexp64; lia).
  rewrite Hs2 in T1, T2.
  assert (Zdigits2 (shr_m mrs'') = 53) as Hd3 by (rewrite T1, Zdigits2_div by lia; lia).
  assert (0 < 2 ^ (Zdigits2 m2 - 53)) by (apply Z.pow_pos_nonneg; lia).
  assert (0 <= shr_m mrs'') by (rewrite T1; apply Z.div_pos; lia).
  destruct (shr_m mrs'') as [|p|p] eqn:Ep; [done| |lia].
  rewrite (proj2 (Z.leb_le e'' (1024 - 53))) by lia.
  exists p, e''. split; [done|]. unfold fmag. lia.
Qed.

Lemma fdiv_mag sx mx ex sy my ey :
  fvalid (S754_finite sx mx ex) = true -> fvalid (S754_finite sy my ey) = true ->
  -1000 <= fmag mx ex - fmag my ey <= 1000 ->
  exists m e, fdiv (S754_finite sx mx ex) (S754_finite sy my ey) = S754_finite (xorb sx sy) m e /\
    fmag mx ex - fmag my ey <= fmag m e <= fmag mx ex - fmag my ey + 2.
Proof.
  unfold fmag. intros [Vx _]%fvalid_finite [Vy _]%fvalid_finite HD.
  pose proof (Zdigits2_pos (Z.pos mx) ltac:(lia)). pose proof (Zdigits2_pos (Z.pos my) ltac:(lia)).
  unfold fdiv, SFdiv, SFdiv_core_binary. rewrite fexp64.
  set (D := Zdigits2 (Z.pos mx) + ex - (Zdigits2 (Z.pos my) + ey)) in *.
  rewrite Z.max_l by lia. set (e' := Z.min (D - 53) (ex - ey)).
  set (m' := match ex - ey - e' with Z0 => Z.pos mx | Z.pos _ => Z.shiftl (Z.pos mx) (ex - ey - e') | Z.neg _ => 0 end).
  assert (m' = Z.pos mx * 2 ^ (ex - ey - e')) as Hm'.
  { subst m'. destruct (ex - ey - e') eqn:E; [lia| |lia]. rewrite Z.shiftl_mul_pow2 by lia. done. }
  assert (fst (Z.div_eucl m' (Z.pos my)) = m' / Z.pos my) as Hq by (unfold Z.div; by destruct (Z.div_eucl m' (Z.pos my))).
  destruct (Z.div_eucl m' (Z.pos my)) as [q r]. simpl in Hq.
  assert (0 < 2 ^ (ex - ey - e')) by (apply Z.pow_pos_nonneg; lia).
  assert (0 < m') as Hm0 by (rewrite Hm'; nia).
  pose proof (div_digits m' (Z.pos my) Hm0 ltac:(lia)) as Hd. rewrite <- Hq in Hd.
  assert (Zdigits2 m' = Zdigits2 (Z.pos mx) + (ex - ey - e')) as Hdm by (rewrite Hm', Zdigits2_shift by lia; lia).
  assert (0 <= q) by (rewrite Hq; apply Z.div_pos; lia).
  assert (53 <= Zdigits2 q) by lia.
  assert (0 < q) by (destruct (Z.eq_dec q 0) as [->|]; [done|lia]).
  assert (Zdigits2 q <= Zdigits2 m' - Zdigits2 (Z.pos my) + 1) as Hup.
  { apply Zdigits2_le; [done|]. rewrite Hq. apply Z.div_lt_upper_bound; [lia|].
    pose proof (Zdigits2_bounds m' Hm0) as [_ B1]. pose proof (Zdigits2_bounds (Z.pos my) ltac:(lia)) as [B2 _].
    pose proof (Zdigits2_pos (Z.pos my) ltac:(lia)).
    assert (0 < 2 ^ (Zdigits2 m' - Zdigits2 (Z.pos my) + 1)) by (apply Z.pow_pos_nonneg; lia).
    rewrite <- (Z.add_0_r (Zdigits2 m')) in B1.
    replace (Zdigits2 m' + 0) with ((Zdigits2 (Z.pos my) - 1) + (Zdigits2 m' - Zdigits2 (Z.pos my) + 1)) in B1 by lia.
    rewrite Z.pow_add_r in B1 by lia. nia. }
  destruct (binary_round_aux_mag (xorb sx sy) q e' (new_location (Z.pos my) r)) as (m & e & -> & Hmag); [lia..|].
  exists m, e. split; [done|]. unfold fmag in Hmag. lia.
Qed.

Lemma fmag_of_Z n : exact_int n -> 0 < n ->
  exists m e, of_Z n = S754_finite false m e /\ 1 <= fmag m e <= 53 /\ fvalid (S754_finite false m e) = true.
Proof.
  intros Hn Hp. destruct (of_Z_shape n) as (m & e & E & Re & Hm); [done|lia|].
  destruct (of_Z_digits n m e) as [Hd He]; [done|lia|done..|].
  rewrite (proj2 (Z.ltb_ge n 0)) in E by lia. exists m, e. split; [done|]. unfold fmag. split; [lia|].
  rewrite <- E. apply of_Z_valid.
Qed.

(** The value of a positive finite float, from its magnitude. *)
Lemma fz_mag m e d : -1074 <= e -> fmag m e <= d -> 0 < fz (S754_finite false m e) < 2 ^ (d + 1074).
Proof.
  unfold fmag. intros He Hd. cbn [fz]. assert (0 < 2 ^ (e + 1074)) by (apply Z.pow_pos_nonneg; lia).
  split; [lia|]. pose proof (Zdigits2_bounds (Z.pos m) ltac:(lia)) as [_ Hb].
  pose proof (Zdigits2_pos (Z.pos m) ltac:(lia)).
  eapply Z.lt_le_trans with (2 ^ Zdigits2 (Z.pos m) * 2 ^ (e + 1074)); [nia|].
  rewrite <- Z.pow_add_r by lia. apply Z.pow_le_mono_r; lia.
Qed.

(** The ceiling of a small positive float, as an int, is positive. *)
Lemma f2i_ceil_pos m e : fvalid (S754_finite false m e) = true -> fmag m e <= 60 ->
  1 <= f2i (fceil (S754_finite false m e)) < 2 ^ 62.
Proof.
  intros Hv Hd. pose proof fscale_pos as Hs. pose proof Hv as [Hc He]%fvalid_finite.
  destruct (fz_mag m e 60) as [Hp Hu]; [lia|done|].
  destruct (fceil_spec _ Hv eq_refl) as [Hf Hz]. set (x := S754_finite false m e) in *.
  assert (fscale <= fz (fceil x) < 2 ^ 62 * fscale) as Hr.
  { rewrite Hz. pose proof (zceil_ge (fz x)) as Hg. 
    assert (2 ^ (60 + 1074) = 2 ^ 60 * fscale) as Hsp by (rewrite Z.pow_add_r by lia; f_equal).
    rewrite Hsp in Hu. split; [|lia].
    unfold zceil in *. assert (- fz x / fscale < 0) by (apply Z.div_lt_upper_bound; lia). nia. }
  assert (1 <= Z.quot (fz (fceil x)) fscale < 2 ^ 62) as Hq.
  { split; [apply Z.quot_le_lower_bound; lia|apply Z.quot_lt_upper_bound; lia]. }
  rewrite f2i_spec; [lia|by apply fceil_valid|done|lia].
Qed.
