(* ===== verification/KdUtil.v ===== *)
(** k8s.io/kubedirect/pkg/util: the concurrent map that the dispatcher and the
    kubelet use.  Its source is a submodule, so it appears as a class of the
    operations called, with their documented behaviour as laws. *)
From S2P Require Import Prelude.

(** Each operation runs under the map's lock, hence is one step.  [Inner] is
    the underlying map; [GetOrCreate] returns the value present, or stores the
    given one, and whether it did. *)
Class SharedMap (V M : Type) := {
  NewSharedMap : M;
  Get : string -> M -> option V;
  Set_ : string -> V -> M -> M;
  Del : string -> M -> M * option V;
  GetOrCreate : string -> V -> M -> M * V * bool;
  Inner : M -> gmap string V
}.
Class SharedMapLaws (V M : Type) `{!SharedMap V M} := {
  inner_new : Inner NewSharedMap = ∅;
  get_inner : forall k m, Get k m = Inner m !! k;
  inner_set : forall k v m, Inner (Set_ k v m) = <[k := v]> (Inner m);
  inner_del : forall k m, Inner (fst (Del k m)) = delete k (Inner m);
  del_inner : forall k m, snd (Del k m) = Inner m !! k;
  get_or_create : forall k v m,
    let '(m', v', fresh) := GetOrCreate k v m in
    match Inner m !! k with
    | Some old => v' = old /\ fresh = false /\ Inner m' = Inner m
    | None => v' = v /\ fresh = true /\ Inner m' = <[k := v]> (Inner m)
    end
}.

(** A map that satisfies them. *)
#[export] Instance gmap_shared {V} : SharedMap V (gmap string V) := {
  NewSharedMap := ∅;
  Get k m := m !! k;
  Set_ k v m := <[k := v]> m;
  Del k m := (delete k m, m !! k);
  GetOrCreate k v m := match m !! k with Some old => (m, old, false) | None => (<[k := v]> m, v, true) end;
  Inner m := m
}.
#[export] Instance gmap_shared_laws {V} : SharedMapLaws V (gmap string V).
Proof. split; try done. intros k v m. simpl. by destruct (m !! k). Qed.
