(* ===== verification/Clients.v ===== *)
(** pkg/util: Kubernetes clients with the rate limits of the experiments, which
    end the process when they cannot be made (ctrl.go), and the logger
    (log.go).  The constructors of client-go, controller-runtime and zap are
    parameters. *)
From S2P Require Import Prelude.

Definition defaultQPS : Z := 10000.
Definition defaultBurst : Z := 20000.

(** What the code sets of a rest.Config; the rest is [C]. *)
Record RestConfig (C : Type) := mkRestConfig { QPS : Z; Burst : Z; rest : C }.
Arguments mkRestConfig {C} QPS Burst rest.
Arguments QPS {C} r.
Arguments Burst {C} r.
Arguments rest {C} r.
Definition with_limits {C} (kubeConfig : RestConfig C) : RestConfig C := mkRestConfig defaultQPS defaultBurst (rest kubeConfig).

Record ManagerOptions := mkManagerOptions {
  HealthProbeBindAddress : string;
  LeaderElection : bool;
  MetricsBindAddress : string
}.

Section Clients.
(** [Mgr] are managers, of a configuration; [Cl] and [CS] clients. *)
Context {C Mgr Cl CS : Type} (GetConfigOrDie : res (RestConfig C)) (GetConfig : Mgr -> RestConfig C)
  (NewManager : RestConfig C -> ManagerOptions -> res Mgr) (NewForConfig : RestConfig C -> res CS)
  (client_New : RestConfig C -> Mgr -> res Cl).

(** The client takes the scheme and the mapper of the manager. *)
Definition NewUncachedClientOrDie (mgr : Mgr) : res Cl :=
  or_fatal "Error creating uncached client: " (client_New (GetConfig mgr) mgr).
Definition NewManagerOrDie : res Mgr :=
  kubeConfig ← GetConfigOrDie;
  or_fatal "Error creating manager: " (NewManager (with_limits kubeConfig) (mkManagerOptions "0" false "0")).
Definition NewClientsetOrDie : res CS :=
  kubeConfig ← GetConfigOrDie;
  or_fatal "Error building kubernetes clientset: " (NewForConfig (with_limits kubeConfig)).

(** Who gets a client gets one with the raised limits, and no error is
    returned: a failure ends the process. *)
Lemma clients_or_die : (forall e, GetConfigOrDie <> Err e) ->
  (forall kubeConfig opts mgr, NewManager kubeConfig opts = Ok mgr -> GetConfig mgr = kubeConfig) ->
  (forall e, NewManagerOrDie <> Err e) /\ (forall e, NewClientsetOrDie <> Err e) /\
  (forall mgr, (forall e, NewUncachedClientOrDie mgr <> Err e)) /\
  (forall mgr, NewManagerOrDie = Ok mgr -> QPS (GetConfig mgr) = 10000 /\ Burst (GetConfig mgr) = 20000 /\
     forall c, NewUncachedClientOrDie mgr = Ok c ->
       exists kubeConfig, QPS kubeConfig = 10000 /\ Burst kubeConfig = 20000 /\ client_New kubeConfig mgr = Ok c) /\
  (forall cs, NewClientsetOrDie = Ok cs ->
     exists kubeConfig, QPS kubeConfig = 10000 /\ Burst kubeConfig = 20000 /\ NewForConfig kubeConfig = Ok cs).
Proof.
  intros Hcfg Hmgr. unfold NewManagerOrDie, NewClientsetOrDie, NewUncachedClientOrDie. split_and!.
  - intros e H. destruct GetConfigOrDie as [c|m|m|m]; try done; [|by apply (Hcfg m)]. cbn in H. by destruct (NewManager _ _).
  - intros e H. destruct GetConfigOrDie as [c|m|m|m]; try done; [|by apply (Hcfg m)]. cbn in H. by destruct (NewForConfig _).
  - intros mgr e H. by destruct (client_New _ _).
  - intros mgr H. apply res_bind_ok in H as (c & _ & H). apply or_fatal_ok, Hmgr in H. rewrite H. split; [done|]. split; [done|].
    intros cl Hc%or_fatal_ok. by exists (with_limits c).
  - intros cs H. apply res_bind_ok in H as (c & _ & H). apply or_fatal_ok in H. by exists (with_limits c).
Qed.
End Clients.

(** * log.go *)
Inductive Level := DebugLevel | InfoLevel.
Record zap_config := mkZapConfig { DisableStacktrace : bool; zap_Level : Level }.
(** [NewDevelopmentConfig]'s level is debug; the logger is returned, which is
    controller-runtime's and klog's afterwards. *)
Definition SetupLogger {Lg} (Build : zap_config -> res Lg) (debug : bool) : res Lg :=
  or_fatal "Error creating zap logger: " (Build (mkZapConfig true (if debug then DebugLevel else InfoLevel))).
