(* ===== verification/Workload.v ===== *)
(** pkg/workload: keys and label selection (selection.go), requests, responses
    and trace specifications (types.go), and the translation of loader traces
    (conversion.go). *)
From Stdlib Require Import Ascii.
From S2P Require Import Prelude F64.

(** * selection.go *)
Module Selection.

(** The part of [metav1.Object] the program reads. *)
Record Object := mkObject {
  obj_namespace : string;
  obj_name : string;
  obj_labels : gmap string string
}.

(** [obj.GetLabels()[k]]: the empty string when the key is missing. *)
Definition label (o : Object) (k : string) : string := default "" (obj_labels o !! k).

Record NamespacedName := mkNamespacedName { Namespace : string; Name : string }.

(** [types.NamespacedName.String]. *)
Definition NamespacedName_String (n : NamespacedName) : string :=
  Namespace n +:+ "/" +:+ Name n.

Definition KeyFromObject (o : Object) : string :=
  obj_namespace o +:+ "/" +:+ label o "app".

Definition NamespacedNameFromKey (key : string) : res NamespacedName :=
  let parts := split_on "/"%char key in
  match parts !! 0%nat, parts !! 1%nat with
  | Some ns, Some n => Ok (mkNamespacedName ns n)
  | _, _ => Panic "index out of range [1] with length 1"
  end.

Definition nonempty (s : string) : bool := bool_decide (s <> "").

Definition IsWorkload (o : Object) : bool :=
  nonempty (label o "app") && nonempty (label o "workload").

Definition IsTraceWorkload (o : Object) : bool :=
  IsWorkload o && bool_decide (label o "workload" = "trace").

(** The list options of controller-runtime the program builds. *)
Inductive ListOption :=
| HasLabels (keys : list string)
| MatchingLabels (kvs : list (string * string))
| InNamespace (ns : string).

Definition CtrlListOptions : list ListOption := [HasLabels ["workload"; "app"]].
Definition CtrlListOptionsForTrace : list ListOption :=
  [HasLabels ["workload"; "app"]; MatchingLabels [("workload", "trace")]].

(** What the API server promises for these options (controller-runtime's
    documentation of the three types). *)
Class ListSemantics := {
  selects : ListOption -> Object -> bool;
  selects_has ks o :
    selects (HasLabels ks) o = true <-> Forall (fun k => is_Some (obj_labels o !! k)) ks;
  selects_matching kvs o :
    selects (MatchingLabels kvs) o = true <->
    Forall (fun kv => obj_labels o !! fst kv = Some (snd kv)) kvs;
  selects_ns ns o : selects (InNamespace ns) o = true <-> obj_namespace o = ns
}.
Definition selected `{ListSemantics} (opts : list ListOption) (o : Object) : bool :=
  forallb (fun opt => selects opt o) opts.

(** The two package variables written by [init], with the requirements of
    their label selector; an untouched variable has none. *)
Inductive Operator := Exists | Equals.
Record Requirement := mkRequirement { req_key : string; req_op : Operator; req_values : list string }.
Record ListOptionVars := mkVars {
  MetaV1ListOptions : list Requirement;
  MetaV1ListOptionsForTrace : list Requirement
}.

Definition init (vars : ListOptionVars) : ListOptionVars :=
  let requireWorkload := mkRequirement "workload" Exists [] in
  let requireApp := mkRequirement "app" Exists [] in
  let vars := mkVars (MetaV1ListOptions vars) [requireWorkload; requireApp] in
  let requireTraceWorkload := mkRequirement "workload" Equals ["trace"] in
  mkVars (MetaV1ListOptions vars) [requireTraceWorkload; requireApp].

Lemma key_slash_free o :
  str_has "/"%char (obj_namespace o) = false -> str_has "/"%char (label o "app") = false ->
  split_on "/"%char (KeyFromObject o) = [obj_namespace o; label o "app"].
Proof.
  intros Hn Ha. unfold KeyFromObject.
  change ("/" +:+ label o "app") with (String "/"%char (label o "app")).
  by rewrite split_on_app, split_on_none.
Qed.
(** An implementation of the documented list semantics. *)
#[export] Program Instance label_lookup_semantics : ListSemantics := {|
  selects opt o :=
    match opt with
    | HasLabels ks => forallb (fun k => bool_decide (is_Some (obj_labels o !! k))) ks
    | MatchingLabels kvs => forallb (fun kv => bool_decide (obj_labels o !! fst kv = Some (snd kv))) kvs
    | InNamespace ns => bool_decide (obj_namespace o = ns)
    end
|}.
Next Obligation. intros ks o. apply (forallb_decide (fun k => is_Some (obj_labels o !! k))). Qed.
Next Obligation. intros kvs o. apply (forallb_decide (fun kv => obj_labels o !! fst kv = Some (snd kv))). Qed.
Next Obligation. intros ns o. apply bool_decide_eq_true. Qed.

Lemma nonempty_label o k : nonempty (label o k) = true -> is_Some (obj_labels o !! k).
Proof. unfold nonempty, label. rewrite bool_decide_eq_true. destruct (obj_labels o !! k); [eauto|done]. Qed.

(** C40. The key of an object never makes [NamespacedNameFromKey] panic, and
    when neither the namespace nor the app label contains a slash the two
    functions are inverse: the name carries the namespace and the app label,
    and its string form is the key again. *)
Theorem key_roundtrip o :
  (exists n, NamespacedNameFromKey (KeyFromObject o) = Ok n) /\
  (str_has "/"%char (obj_namespace o) = false -> str_has "/"%char (label o "app") = false ->
    exists n, NamespacedNameFromKey (KeyFromObject o) = Ok n /\
      Namespace n = obj_namespace o /\ Name n = label o "app" /\
      NamespacedName_String n = KeyFromObject o).
Proof.
  split.
  - unfold NamespacedNameFromKey, KeyFromObject.
    assert (forall s t, exists a b l, split_on "/"%char (s +:+ String "/"%char t) = a :: b :: l) as H.
    { intros s t. assert (forall u, exists b l, split_on "/"%char u = b :: l) as Hne.
      { intros u. destruct u as [|c u]; simpl; [by eexists _, _|].
        destruct (ascii_dec c "/"%char); [by eexists _, _|]. destruct (split_on _ u); by eexists _, _. }
      induction s as [|c s IH].
      - destruct (Hne t) as (b & l & E). exists "", b, l.
        change (split_on "/"%char (String "/"%char t) = "" :: b :: l). simpl. by rewrite E.
      - rewrite str_app_cons. simpl. destruct IH as (a & b & l & ->).
        destruct (ascii_dec c "/"%char); by eexists _, _, _. }
    destruct (H (obj_namespace o) (label o "app")) as (a & b & l & E).
    change ("/" +:+ label o "app") with (String "/"%char (label o "app")). rewrite E.
    simpl. by eexists.
  - intros H1 H2. unfold NamespacedNameFromKey. rewrite key_slash_free by done. simpl.
    by eexists.
Qed.

Definition demo_object : Object :=
  mkObject "default" "trace-0-abc" (list_to_map [("app", "trace-0"); ("workload", "trace")]).

Lemma key_roundtrip_witness :
  exists n, NamespacedNameFromKey (KeyFromObject demo_object) = Ok n /\
    Namespace n = "default" /\ Name n = "trace-0" /\ NamespacedName_String n = "default/trace-0".
Proof. exact (proj2 (key_roundtrip demo_object) eq_refl eq_refl). Defined.

(** The server-side selection by [CtrlListOptionsForTrace] and the
    event filter [IsTraceWorkload] agree on every object whose app label is
    not the empty string; an object with an empty app label is listed but
    filtered. *)
Theorem trace_selection_agrees `{ListSemantics} o :
  IsTraceWorkload o = selected CtrlListOptionsForTrace o && nonempty (label o "app").
Proof.
  apply eq_true_iff_eq. unfold IsTraceWorkload, IsWorkload, selected, CtrlListOptionsForTrace.
  cbn [forallb]. rewrite !andb_true_iff, selects_has, selects_matching.
  rewrite !Forall_cons, !Forall_nil, bool_decide_eq_true. simpl. split.
  - intros [[Ha Hw] Ht]. pose proof (nonempty_label _ _ Ha). pose proof (nonempty_label _ _ Hw).
    split_and!; try done. unfold label in Ht. destruct (obj_labels o !! "workload"); naive_solver.
  - intros [((? & ? & _) & (Hm & _) & _) Ha]. unfold label in *. rewrite Hm in *. done.
Qed.

Lemma trace_selection_agrees_witness :
  IsTraceWorkload demo_object = true /\ selected CtrlListOptionsForTrace demo_object = true.
Proof.
  pose proof (trace_selection_agrees demo_object) as H.
  split; [|symmetry; etransitivity; [symmetry; apply andb_true_r|]; etransitivity; [symmetry; exact H|]];
    vm_compute; reflexivity.
Defined.

(** [init] assigns [MetaV1ListOptionsForTrace] twice and never
    [MetaV1ListOptions]: the latter keeps its zero value, which requires no
    label at all, so it selects every object of the cluster, not the
    workloads. *)
Theorem init_leaves_MetaV1ListOptions_empty :
  let vars := init (mkVars [] []) in
  MetaV1ListOptions vars = [] /\
  MetaV1ListOptionsForTrace vars =
    [mkRequirement "workload" Equals ["trace"]; mkRequirement "app" Exists []].
Proof. done. Qed.
End Selection.

(** * types.go *)
Module Types.

Inductive ResponseStatus :=
| SUCCESS | FAIL_DISPATCH | FAIL_TIMEOUT | FAIL_CONNECT | FAIL_SEND | FAIL_RECV | INVALID_TARGET.
#[export] Instance ResponseStatus_eq : EqDecision ResponseStatus.
Proof. solve_decision. Defined.

(** The value given by [iota]. *)
Definition status_iota (s : ResponseStatus) : nat :=
  match s with
  | SUCCESS => 0 | FAIL_DISPATCH => 1 | FAIL_TIMEOUT => 2 | FAIL_CONNECT => 3
  | FAIL_SEND => 4 | FAIL_RECV => 5 | INVALID_TARGET => 6
  end%nat.

Definition responseStatusReadable : list string :=
  ["SUCCESS"; "FAIL_DISPATCH"; "FAIL_TIMEOUT"; "FAIL_CONNECT"; "FAIL_SEND"; "FAIL_RECV";
   "INVALID_TARGET"].

Definition ResponseStatus_String (s : ResponseStatus) : res string :=
  match responseStatusReadable !! status_iota s with
  | Some r => Ok r
  | None => Panic "index out of range"
  end.

Record Request := mkRequest {
  ID : string;
  Target : string;
  DurationMilliSec : Z;
  ClientSendTS : time;
  GatewayRecvTS : time;
  GatewaySendTS : time;
  ClientRelTime : duration;
  TraceRelTime : duration
}.

Definition set_GatewayRecvTS (t : time) (r : Request) : Request :=
  mkRequest (ID r) (Target r) (DurationMilliSec r) (ClientSendTS r) t (GatewaySendTS r)
    (ClientRelTime r) (TraceRelTime r).
Definition set_GatewaySendTS (t : time) (r : Request) : Request :=
  mkRequest (ID r) (Target r) (DurationMilliSec r) (ClientSendTS r) (GatewayRecvTS r) t
    (ClientRelTime r) (TraceRelTime r).

(** [Source] is the request the response answers.  The code shares the
    request by pointer; every write to it happens before the response is
    sent on a channel, so the response carries its final value. *)
Record Response := mkResponse {
  Source : Request;
  Status : ResponseStatus;
  ResGatewayRecvTS : time;
  ClientRecvTS : time;
  RuntimeMicroSec : Z
}.

(** [&Response{Source: req, Status: st}]: other fields zero. *)
Definition status_response (req : Request) (st : ResponseStatus) : Response :=
  mkResponse req st zero_time zero_time 0.
Definition set_ClientRecvTS (t : time) (r : Response) : Response :=
  mkResponse (Source r) (Status r) (ResGatewayRecvTS r) t (RuntimeMicroSec r).

(** ** Printing: Printf's [%.3f] *)
Fixpoint zeros (n : nat) : string :=
  match n with
  | O => ""
  | S n' => String "0"%char (zeros n')
  end.
Definition pad_left (n : nat) (s : string) : string := zeros (n - String.length s) +:+ s.

(** Digits of [n / 1000] with exactly three decimals, [n] non-negative. *)
Definition thousandths (n : Z) : string :=
  pretty (n / 1000) +:+ "." +:+ pad_left 3 (pretty (n mod 1000)).

(** The magnitude [m * 2^e] in thousandths, exact halves to even. *)
Definition to_thousandths (m : positive) (e : Z) : Z :=
  if 0 <=? e then Z.pos m * 2 ^ e * 1000
  else
    let d := 2 ^ (- e) in
    let q := (Z.pos m * 1000) / d in
    let r := (Z.pos m * 1000) mod d in
    match 2 * r ?= d with
    | Lt => q
    | Gt => q + 1
    | Eq => if Z.even q then q else q + 1
    end.

Definition sprintf_3f (x : f64) : string :=
  match x with
  | S754_nan => "NaN"
  | S754_infinity s => if s then "-Inf" else "+Inf"
  | S754_zero s => (if s then "-" else "") +:+ "0.000"
  | S754_finite s m e => (if s then "-" else "") +:+ thousandths (to_thousandths m e)
  end.

(** The closure [latency] of [Summary]: elapsed milliseconds since the
    client sent the request. *)
Definition latency (r : Response) (t : time) : string :=
  let base := ClientSendTS (Source r) in
  let elapsedMilliseconds := fdiv (of_Z (time_sub t base)) (of_Z 1000000) in
  if flt elapsedMilliseconds fzero then "N/A"
  else "+" +:+ sprintf_3f elapsedMilliseconds +:+ "ms".

Definition newline : string := String "010"%char EmptyString.

Definition Summary (r : Response) : res string :=
  let src := Source r in
  let traceTS := sprintf_3f (dur_seconds (TraceRelTime src)) +:+ "s" in
  let CSendReq := sprintf_3f (dur_seconds (ClientRelTime src)) +:+ "s" in
  let GrecvReq := latency r (GatewayRecvTS src) in
  let GsendReq := latency r (GatewaySendTS src) in
  let GrecvRes := latency r (ResGatewayRecvTS r) in
  let CRecvRes := latency r (ClientRecvTS r) in
  let delay := latency r (time_add (ResGatewayRecvTS r)
                            (int64 (int64 (- RuntimeMicroSec r) * Microsecond))) in
  st ← ResponseStatus_String (Status r);
  Ok ("ID: " +:+ ID src +:+ ", Func: " +:+ Target src +:+ ", Status: " +:+ st +:+
      ", TS: " +:+ traceTS +:+ ", CSendReq: " +:+ CSendReq +:+ ", GRecvReq: " +:+ GrecvReq +:+
      ", GSendReq: " +:+ GsendReq +:+ ", GRecvRes: " +:+ GrecvRes +:+ ", CRecvRes: " +:+ CRecvRes +:+
      ", Delay: " +:+ delay +:+ ", Runtime: " +:+
      sprintf_3f (fdiv (of_Z (RuntimeMicroSec r)) (of_Z 1000)) +:+ "/" +:+
      pretty (DurationMilliSec src) +:+ "ms" +:+ newline).

Record InvocationSpec := mkInvocationSpec { ArrivalTimeSec : f64; RuntimeMilliSec : Z }.
Record TraceSpec := mkTraceSpec { DurationMinutes : Z; Invocations : list InvocationSpec }.

Definition TraceSpec_String (t : TraceSpec) : string :=
  "Duration: " +:+ pretty (DurationMinutes t) +:+ "m, Invocations: " +:+
  pretty (Z.of_nat (length (Invocations t))).

Example print_1234 : sprintf_3f (of_ratio 12345 10000) = "1.234".
Proof. vm_compute. reflexivity. Qed.
Example print_small : sprintf_3f (of_ratio 5 1000) = "0.005".
Proof. vm_compute. reflexivity. Qed.
Example print_neg : sprintf_3f (of_ratio (-125) 10) = "-12.500".
Proof. vm_compute. reflexivity. Qed.
End Types.

(** * conversion.go *)
Module Conversion.
Import Types.

Inductive IatDistribution := Exponential | Uniform | Equidistant.
Inductive TraceGranularity := MinuteGranularity | SecondGranularity.
#[export] Instance TraceGranularity_eq : EqDecision TraceGranularity.
Proof. solve_decision. Defined.

(** The fields of the loader's types the program reads. *)
Record FunctionSpecification := mkSpec {
  PerMinuteCount : list Z;
  IAT : list f64;
  RuntimeSpecification : list Z
}.
Record Function := mkFunction { fn_name : string; Specification : option FunctionSpecification }.
Record LoaderConfiguration := mkLoaderConfiguration {
  Platform : string;
  ExperimentDuration : Z;
  WarmupDuration : Z;
  TracePath : string;
  Seed : Z;
  IATDistribution : string;
  Granularity : string
}.

(** ** TranslateDirigentFunction *)
Record LoopState := mkLoop { elapsed : f64; reqIndex : nat; collected : list InvocationSpec }.

Definition translate_request (raw : FunctionSpecification) (startOfThisMinute : f64)
    (st : LoopState) : res LoopState :=
  match IAT raw !! reqIndex st with
  | None => Panic "index out of range"
  | Some iat =>
      let elapsed' := fadd (elapsed st) (fdiv iat (of_Z 1000000)) in
      let absArrivalTime := fadd startOfThisMinute elapsed' in
      match RuntimeSpecification raw !! reqIndex st with
      | None => Panic "index out of range"
      | Some rt =>
          Ok (mkLoop elapsed' (S (reqIndex st))
                (collected st ++ [mkInvocationSpec absArrivalTime rt]))
      end
  end.

Fixpoint translate_minute (raw : FunctionSpecification) (start : f64) (n : nat) (st : LoopState)
  : res LoopState :=
  match n with
  | O => Ok st
  | S n' => st' ← translate_request raw start st; translate_minute raw start n' st'
  end.

Definition minute_body (raw : FunctionSpecification) (st : LoopState) (mn : nat * Z)
  : res LoopState :=
  let '(minute, nReqsThisMinute) := mn in
  let start := fmul (of_Z (Z.of_nat minute)) (of_Z 60) in
  translate_minute raw start (Z.to_nat nReqsThisMinute)
    (mkLoop fzero (reqIndex st) (collected st)).

Definition TranslateDirigentFunction (function : Function) : res TraceSpec :=
  match Specification function with
  | None => Panic "invalid memory address or nil pointer dereference"
  | Some raw =>
      st ← res_foldl (minute_body raw) (mkLoop fzero 0 []) (imap pair (PerMinuteCount raw));
      if (length (collected st) =? length (IAT raw))%nat
      then Ok (mkTraceSpec (Z.of_nat (length (PerMinuteCount raw))) (collected st))
      else Fatal ("Invocation count mismatch: expected " +:+ pretty (Z.of_nat (length (IAT raw))) +:+
                  ", got " +:+ pretty (Z.of_nat (length (collected st))))
  end.

(** ** Loading *)
Definition determineDurationToParse (runtimeDuration warmupDuration : Z) : Z :=
  let result := 0 in
  let result :=
    if 0 <? warmupDuration then int64 (int64 (result + 1) + warmupDuration) else result in
  int64 (result + runtimeDuration).

Definition parseIATDistribution (cfg : LoaderConfiguration) : res (IatDistribution * bool) :=
  let d := IATDistribution cfg in
  if decide (d = "exponential") then Ok (Exponential, false)
  else if decide (d = "exponential_shift") then Ok (Exponential, true)
  else if decide (d = "uniform") then Ok (Uniform, false)
  else if decide (d = "uniform_shift") then Ok (Uniform, true)
  else if decide (d = "equidistant") then Ok (Equidistant, false)
  else Fatal "Unsupported IAT distribution.".

Definition parseTraceGranularity (cfg : LoaderConfiguration) : res TraceGranularity :=
  let g := Granularity cfg in
  if decide (g = "minute") then Ok MinuteGranularity
  else if decide (g = "second") then Ok SecondGranularity
  else Fatal "Invalid trace granularity parameter.".

Section Loader.
(** The loader library: configuration files, the Azure trace parser and
  the seeded specification generator. *)
Context {Gen : Type}.
Context (ReadConfigurationFile : string -> LoaderConfiguration).
Context (AzureParse : string -> string -> Z -> string -> list Function).
Context (NewSpecificationGenerator : Z -> Gen).
Context (GenerateInvocationData :
Gen -> Function -> IatDistribution -> bool -> TraceGranularity -> FunctionSpecification * Gen).

Definition generate_one (iat : IatDistribution) (shift : bool) (g : TraceGranularity)
  (acc : list Function * Gen) (f : Function) : res (list Function * Gen) :=
let '(spec, gen') := GenerateInvocationData (snd acc) f iat shift g in
if (length (IAT spec) =? length (RuntimeSpecification spec))%nat
then Ok (fst acc ++ [mkFunction (fn_name f) (Some spec)], gen')
else Fatal "IAT and runtime spec array length mismatch".

Definition LoadDirigentTraceFromConfig (path : string) : res (list Function) :=
let cfg := ReadConfigurationFile path in
if negb (bool_decide (Platform cfg = "Dirigent")) then
  Fatal ("Invalid loader platform: expected Dirigent, got " +:+ Platform cfg)
else if ExperimentDuration cfg <? 1 then
  Fatal "Runtime duration should be longer, at least a minute."
else
  let durationToParse :=
    determineDurationToParse (ExperimentDuration cfg) (WarmupDuration cfg) in
  let functions := AzureParse (TracePath cfg) "" durationToParse (Platform cfg) in
  '(iatDistribution, shiftIAT) ← parseIATDistribution cfg;
  traceGranularity ← parseTraceGranularity cfg;
  if negb (bool_decide (traceGranularity = MinuteGranularity)) then
    Fatal "Expect minute granularity for Azure traces"
  else
    out ← res_foldl (generate_one iatDistribution shiftIAT traceGranularity)
            ([], NewSpecificationGenerator (Seed cfg)) functions;
    Ok (fst out).

Definition LoadTraceFromConfig (path : string) : res (list TraceSpec) :=
functions ← LoadDirigentTraceFromConfig path;
res_foldl (fun specs function =>
  spec ← TranslateDirigentFunction function; Ok (specs ++ [spec])) [] functions.
End Loader.

(** ** Specification of the translation *)

(** Arrival times inside one minute: running sums of the inter-arrival
    times, in seconds, on top of the start of the minute. *)
Fixpoint arrivals (start elapsed : f64) (iats : list f64) : list f64 :=
  match iats with
  | [] => []
  | iat :: iats' =>
      let e := fadd elapsed (fdiv iat (of_Z 1000000)) in
      fadd start e :: arrivals start e iats'
  end.

Fixpoint spec_invocations (minute : nat) (counts : list Z) (iats : list f64) (rts : list Z)
  : list InvocationSpec :=
  match counts with
  | [] => []
  | c :: counts' =>
      let n := Z.to_nat c in
      zip_with mkInvocationSpec
        (arrivals (fmul (of_Z (Z.of_nat minute)) (of_Z 60)) fzero (take n iats)) (take n rts)
      ++ spec_invocations (S minute) counts' (drop n iats) (drop n rts)
  end.

Definition total_requests (counts : list Z) : nat := sum_list (Z.to_nat <$> counts).

Lemma total_requests_cons c counts :
  total_requests (c :: counts) = (Z.to_nat c + total_requests counts)%nat.
Proof. done. Qed.

Lemma length_arrivals start e iats : length (arrivals start e iats) = length iats.
Proof. revert e. induction iats as [|i iats IH]; intros e; simpl; [done|]. by rewrite IH. Qed.

Lemma translate_minute_ok raw start n st :
  (reqIndex st + n <= length (IAT raw))%nat ->
  (reqIndex st + n <= length (RuntimeSpecification raw))%nat ->
  exists e, translate_minute raw start n st =
    Ok (mkLoop e (reqIndex st + n)
      (collected st ++ zip_with mkInvocationSpec
         (arrivals start (elapsed st) (take n (drop (reqIndex st) (IAT raw))))
         (take n (drop (reqIndex st) (RuntimeSpecification raw))))).
Proof.
  revert st. induction n as [|n IH]; intros [e r c] H1 H2; simpl in *.
  - exists e. by rewrite app_nil_r, Nat.add_0_r.
  - unfold translate_request. simpl.
    destruct (lookup_lt_is_Some_2 (IAT raw) r) as [iat Hi]; [lia|].
    destruct (lookup_lt_is_Some_2 (RuntimeSpecification raw) r) as [rt Ht]; [lia|].
    rewrite Hi, Ht, (drop_S _ _ _ Hi), (drop_S _ _ _ Ht). simpl.
    match goal with |- context [translate_minute raw start n ?s] => destruct (IH s) as [e' ->] end;
      simpl; [lia..|].
    exists e'. rewrite <- (assoc_L (++)). simpl. repeat f_equal. lia.
Qed.

Lemma translate_minute_panic raw start n st :
  (length (IAT raw) < reqIndex st + n \/ length (RuntimeSpecification raw) < reqIndex st + n)%nat ->
  (reqIndex st <= length (IAT raw))%nat -> (reqIndex st <= length (RuntimeSpecification raw))%nat ->
  exists msg, translate_minute raw start n st = Panic msg.
Proof.
  revert st. induction n as [|n IH]; intros [e r c] H H1 H2; simpl in *; [lia|].
  unfold translate_request. simpl.
  destruct (IAT raw !! r) as [iat|] eqn:Hi; [|by eexists].
  destruct (RuntimeSpecification raw !! r) as [rt|] eqn:Ht; [|by eexists].
  apply lookup_lt_Some in Hi, Ht. apply IH; simpl; lia.
Qed.

Lemma translate_loop_ok raw m counts st :
  (reqIndex st + total_requests counts <= length (IAT raw))%nat ->
  (reqIndex st + total_requests counts <= length (RuntimeSpecification raw))%nat ->
  exists e, res_foldl (minute_body raw) st (imap (fun i c => (m + i, c)%nat) counts) =
    Ok (mkLoop e (reqIndex st + total_requests counts)
      (collected st ++ spec_invocations m counts (drop (reqIndex st) (IAT raw))
         (drop (reqIndex st) (RuntimeSpecification raw)))).
Proof.
  revert m st. induction counts as [|c counts IH]; intros m st H1 H2.
  - exists (elapsed st). simpl. rewrite app_nil_r, Nat.add_0_r. by destruct st.
  - rewrite total_requests_cons in *. simpl. rewrite Nat.add_0_r.
    match goal with |- context [translate_minute raw ?s ?n ?st0] =>
      destruct (translate_minute_ok raw s n st0) as [e ->] end; simpl; [lia..|].
    match goal with |- context [res_foldl _ ?st1 _] =>
      destruct (IH (S m) st1) as [e' He'] end; simpl; [lia..|].
    exists e'. simpl in He'. rewrite <- (assoc_L (++)), <- !drop_drop in *.
    replace (imap _ counts) with (imap (fun i c => (S (m + i), c)%nat) counts)
      by (apply imap_ext; intros; simpl; f_equal; lia).
    rewrite He'. simpl. rewrite Nat.add_assoc. by f_equal.
Qed.

Lemma translate_loop_panic raw m counts st :
  length (RuntimeSpecification raw) = length (IAT raw) ->
  (reqIndex st <= length (IAT raw))%nat ->
  (length (IAT raw) < reqIndex st + total_requests counts)%nat ->
  exists msg, res_foldl (minute_body raw) st (imap (fun i c => (m + i, c)%nat) counts) = Panic msg.
Proof.
  intros Hl. revert m st. induction counts as [|c counts IH]; intros m st H1 H2.
  - unfold total_requests in H2. simpl in H2. lia.
  - rewrite total_requests_cons in *. simpl.
    destruct (decide (reqIndex st + Z.to_nat c <= length (IAT raw))%nat) as [Hc|Hc].
    + match goal with |- context [translate_minute raw ?s ?n ?st0] =>
        destruct (translate_minute_ok raw s n st0) as [e ->] end; simpl; [lia..|].
      match goal with |- context [res_foldl _ ?st1 _] =>
        destruct (IH (S m) st1) as [msg He'] end; simpl; [lia..|].
      exists msg. rewrite <- He'. f_equal. apply imap_ext. intros. simpl. f_equal. lia.
    + match goal with |- context [translate_minute raw ?s ?n ?st0] =>
        destruct (translate_minute_panic raw s n st0) as [msg ->] end; simpl; [lia..|].
      by eexists.
Qed.

Lemma length_spec_invocations m counts iats rts :
  (total_requests counts <= length iats)%nat -> length rts = length iats ->
  length (spec_invocations m counts iats rts) = total_requests counts.
Proof.
  revert m iats rts. induction counts as [|c counts IH]; intros m iats rts H Hl; [done|].
  rewrite total_requests_cons in *. simpl.
  rewrite length_app, length_zip_with, length_arrivals, !length_take, IH;
    rewrite ?length_drop; lia.
Qed.

(** The generator's output feeds the translation: one entry per function,
    in order, each carrying a specification with equally long arrays. *)
Lemma generate_all_spec {Gen} (gen : Gen -> Function -> IatDistribution -> bool ->
    TraceGranularity -> FunctionSpecification * Gen) iat shift g fs acc out :
  res_foldl (generate_one gen iat shift g) acc fs = Ok out ->
  exists fs', fst out = fst acc ++ fs' /\ length fs' = length fs /\
    Forall (fun f => exists raw, Specification f = Some raw /\
      length (IAT raw) = length (RuntimeSpecification raw)) fs'.
Proof.
  revert acc. induction fs as [|f fs IH]; intros acc H; simpl in H.
  - simplify_eq. exists []. by rewrite app_nil_r.
  - destruct (generate_one gen iat shift g acc f) as [acc'|?|?|?] eqn:E; simpl in H; try done.
    unfold generate_one in E. destruct (gen (snd acc) f iat shift g) as [spec gen'].
    destruct (Nat.eqb_spec (length (IAT spec)) (length (RuntimeSpecification spec))); [|done].
    injection E as <-.
    destruct (IH _ H) as (fs' & -> & Hl & Hf). simpl.
    exists (mkFunction (fn_name f) (Some spec) :: fs'). rewrite <- (assoc_L (++)). simpl.
    split; [done|]. split; [lia|]. constructor; [by eexists|done].
Qed.

Lemma translate_all_length fs acc out :
  res_foldl (fun specs function =>
    spec ← TranslateDirigentFunction function; Ok (specs ++ [spec])) acc fs = Ok out ->
  length out = (length acc + length fs)%nat.
Proof.
  revert acc. induction fs as [|f fs IH]; intros acc H; simpl in H.
  { injection H as <-. simpl. lia. }
  destruct (TranslateDirigentFunction f); simpl in H; [|done..].
  apply IH in H. rewrite length_app in H. simpl in *. lia.
Qed.

(** C35. Translating a loader function keeps every request: with as many
    requests in the per-minute counts as inter-arrival times the result is
    the minute-by-minute specification (arrival = start of the minute plus
    the running sum of the inter-arrival times, runtimes in order), one
    invocation per inter-arrival time; with fewer the process is terminated,
    with more the index runs out of the arrays and the code panics. *)
Theorem translate_function_spec f raw :
  Specification f = Some raw ->
  length (RuntimeSpecification raw) = length (IAT raw) ->
  (total_requests (PerMinuteCount raw) = length (IAT raw) ->
    TranslateDirigentFunction f =
      Ok (mkTraceSpec (Z.of_nat (length (PerMinuteCount raw)))
            (spec_invocations 0 (PerMinuteCount raw) (IAT raw) (RuntimeSpecification raw))) /\
    length (spec_invocations 0 (PerMinuteCount raw) (IAT raw) (RuntimeSpecification raw))
      = length (IAT raw)) /\
  ((total_requests (PerMinuteCount raw) < length (IAT raw))%nat ->
    exists msg, TranslateDirigentFunction f = Fatal msg) /\
  ((length (IAT raw) < total_requests (PerMinuteCount raw))%nat ->
    exists msg, TranslateDirigentFunction f = Panic msg).
Proof.
  intros Hf Hl. unfold TranslateDirigentFunction. rewrite Hf.
  change (imap pair) with (imap (A:=Z) (fun i c => (0 + i, c)%nat)).
  set (st0 := mkLoop fzero 0 []). set (counts := PerMinuteCount raw).
  assert ((total_requests counts <= length (IAT raw))%nat ->
    exists e, res_foldl (minute_body raw) st0 (imap (fun i c => (0 + i, c)%nat) counts) =
      Ok (mkLoop e (total_requests counts)
            (spec_invocations 0 counts (IAT raw) (RuntimeSpecification raw)))) as Hok.
  { intros H. destruct (translate_loop_ok raw 0 counts st0) as [e He]; simpl; [lia..|]. by exists e. }
  pose proof (length_spec_invocations 0 counts (IAT raw) (RuntimeSpecification raw)) as Hls.
  split_and!; intros H.
  - destruct Hok as [e ->]; [lia|]. simpl. rewrite Hls by lia. rewrite H, Nat.eqb_refl. done.
  - destruct Hok as [e ->]; [lia|]. simpl. rewrite Hls by lia.
    destruct (Nat.eqb_spec (total_requests counts) (length (IAT raw))); [lia|]. by eexists.
  - destruct (translate_loop_panic raw 0 counts st0) as [msg ->]; simpl; [lia..|]. by eexists.
Qed.

Definition demo_function : Function :=
  mkFunction "f" (Some (mkSpec [1; 0; 2] [of_Z 500000; of_Z 250000; of_Z 1000000] [10; 20; 30])).

Lemma translate_function_spec_witness :
  TranslateDirigentFunction demo_function =
    Ok (mkTraceSpec 3 [mkInvocationSpec (of_ratio 1 2) 10; mkInvocationSpec (of_ratio 481 4) 20;
                       mkInvocationSpec (of_ratio 485 4) 30]).
Proof.
  refine (eq_trans (proj1 (proj1 (translate_function_spec demo_function _ eq_refl eq_refl) eq_refl)) _).
  vm_compute. reflexivity.
Defined.
End Conversion.
