(* ===== verification/Kube.v ===== *)
(** Kubernetes objects as far as the code reads them, the answers of listers and
    of the API server, and what the code uses of the Kubedirect submodule: label
    and annotation names, predicates on pods, and the in-memory pod
    information. *)
From S2P Require Import Prelude Workload.
Import Selection.

(** * The Kubernetes objects, as far as the code reads them *)
Record PodCondition := mkCondition { cond_Type : string; cond_Status : string; LastTransitionTime : time }.
Inductive ContainerState :=
| Waiting
| Running (startedAt : time)
| Terminated (exitCode : Z) (reason : string) (startedAt finishedAt : time).
Record ContainerStatus := mkContainerStatus {
  cs_Name : string;
  cs_Image : string;
  cs_Started : option bool;
  cs_Ready : bool;
  cs_State : ContainerState
}.
Record PodStatus := mkStatus {
  Phase : string;
  Conditions : list PodCondition;
  HostIP : string;
  PodIP : string;
  StartTime : option time;
  ContainerStatuses : list ContainerStatus;
  InitContainerStatuses : list ContainerStatus
}.
Record Pod := mkPod {
  pod_Namespace : string;
  pod_Name : string;
  pod_Labels : gmap string string;
  ResourceVersion : string;
  DeletionTimestamp : option time;
  NodeName : string;
  ReadinessGates : list string;
  Containers : list (string * string);      (* name, image *)
  InitContainers : list (string * string);
  Status : PodStatus
}.

(** The answer of a lister or of the API server. *)
Inductive api (A : Type) :=
| Found (a : A)
| NotFound
| AlreadyExists
| Failed (msg : string).
Arguments Found {A} a.
Arguments NotFound {A}.
Arguments AlreadyExists {A}.
Arguments Failed {A} msg.

(** The metadata of a pod, as label selectors see it. *)
Definition pod_object (pod : Pod) : Object := mkObject (pod_Namespace pod) (pod_Name pod) (pod_Labels pod).
(** [namespace/name]. *)
Definition pod_key (pod : Pod) : string := pod_Namespace pod +:+ "/" +:+ pod_Name pod.

(** The in-memory pod information of the submodule k8s.io/kubedirect, with the
    fields the code sets and reads. *)
Record PodInfo := mkPodInfo {
  info_Namespace : string;
  info_Name : string;
  info_OwnerName : string;
  info_NodeName : string;
  info_CreationTimestamp : time
}.

(** The rest of what is used of it: names of labels and annotations, service
    ports, and predicates on objects. *)
Class Kubedirect := {
  PodLifecycleManagerLabel : string;
  OwnerNameLabel : string;
  KubeletServiceAddrAnnotation : string;
  DeploymentServicePort : string;
  EndpointsServicePort : string;
  ReplicaSetServicePort : string;
  SchedulerServicePort : string;
  KubeletServicePort : string;
  IsManaged : Object -> bool;
  IsPersistent : Object -> bool;
  IsFallbackScaling : Object -> bool;
  IsFallbackBinding : Object -> bool;
  IsTemplatePod : Object -> bool;
  IsPodActive : Pod -> bool;
  IsPodReady : Pod -> bool;
  IsKubeletResponsibleFor : Pod -> bool;
  AsPersistentPod : PodInfo -> Pod -> Pod
}.

(** [wait.PollUntilContextCancel] of apimachinery, given the answers of the
    successive attempts made before the context ends: it stops at the first
    that is true or an error. *)
Class Poller := { PollUntilContextCancel : list (res bool) -> res unit }.
Class PollerLaws `{!Poller} := {
  poll_done : forall tries later, Forall (.= Ok false) tries ->
    PollUntilContextCancel (tries ++ Ok true :: later) = Ok tt;
  poll_failed : forall tries m later, Forall (.= Ok false) tries ->
    PollUntilContextCancel (tries ++ Err m :: later) = Err m;
  poll_cancelled : forall tries, Forall (.= Ok false) tries ->
    exists m, PollUntilContextCancel tries = Err m
}.
Fixpoint poll_loop (answers : list (res bool)) : res unit :=
  match answers with
  | [] => Err "context canceled"
  | Ok true :: _ => Ok tt
  | Ok false :: answers' => poll_loop answers'
  | Err m :: _ => Err m
  | Panic m :: _ => Panic m
  | Fatal m :: _ => Fatal m
  end.
#[export] Instance loop_poller : Poller := { PollUntilContextCancel := poll_loop }.
#[export] Instance loop_poller_laws : PollerLaws.
Proof.
  split; intros tries; [intros later|intros m later|]; intros Ht; simpl;
    (induction Ht as [|a tries -> Ht IH]; [|exact IH]); eauto.
Qed.

(** * A concrete Kubedirect *)
Module Demo.
Definition has_ready (p : Pod) : bool :=
  existsb (fun c => bool_decide (cond_Type c = "Ready") && bool_decide (cond_Status c = "True")) (Conditions (Status p)).
#[local] Instance kubedirect : Kubedirect := {
  PodLifecycleManagerLabel := "kubedirect/pod-lifecycle-manager";
  OwnerNameLabel := "kubedirect/owner-name";
  KubeletServiceAddrAnnotation := "kubedirect/kubelet-service-address";
  DeploymentServicePort := ":25011";
  EndpointsServicePort := ":25012";
  ReplicaSetServicePort := ":25013";
  SchedulerServicePort := ":25014";
  KubeletServicePort := ":25010";
  IsManaged o := bool_decide (Selection.label o "kubedirect/managed" = "true");
  IsPersistent _ := true;
  IsFallbackScaling o := bool_decide (Selection.label o "kubedirect/fallback" = "scaling");
  IsFallbackBinding o := bool_decide (Selection.label o "kubedirect/fallback" = "binding");
  IsTemplatePod o := bool_decide (Selection.label o "kubedirect/template" = "true");
  IsPodActive p := negb (bool_decide (Phase (Status p) = "Succeeded" \/ Phase (Status p) = "Failed"));
  IsPodReady := has_ready;
  IsKubeletResponsibleFor p := negb (bool_decide (pod_Labels p !! "kubedirect/pod-lifecycle-manager" = Some "custom"));
  AsPersistentPod i t := mkPod (info_Namespace i) (info_Name i) (pod_Labels t) "" None (info_NodeName i) (ReadinessGates t)
                           (Containers t) (InitContainers t) (Status t)
}.
End Demo.
