(* ===== verification/Handler.v ===== *)
(** pkg/workload/handler: the function server that runs inside a workload pod
    (handler.go and server.go).  Clock readings are arguments, in the order in
    which the code takes them. *)
From Stdlib Require Import Ascii.
From S2P Require Import Prelude F64.

Definition EXEC_UNIT : Z := 100.
Definition WorkloadServicePort : string := ":80".

Inductive FunctionType := TraceFunction | SleepFunction.
#[export] Instance FunctionType_eq : EqDecision FunctionType.
Proof. solve_decision. Defined.

(** The package variables. *)
Record HandlerVars := mkHandlerVars {
  hostname : string;
  funcType : FunctionType;
  iterationMultiplier : Z
}.
Definition initial_handler_vars : HandlerVars := mkHandlerVars "" TraceFunction 102.

(** What a function execution does to use up time. *)
Inductive Work :=
| Idle
| Spin (runtimeMilliSec : Z)
| Sleep (d : duration).

(** ** The busy loop, with the number of SQRTSD instructions executed *)
Definition sqrtsd (st : f64 * nat) : f64 * nat := (SFsqrt 53 1024 (of_Z 10), S (snd st)).
Definition takeSqrts (st : f64 * nat) : f64 * nat := Nat.iter (Z.to_nat EXEC_UNIT) sqrtsd st.
Definition totalIterations (vars : HandlerVars) (runtimeMilliSec : Z) : Z :=
  int64 (iterationMultiplier vars * runtimeMilliSec).
Definition busySpin (vars : HandlerVars) (runtimeMilliSec : Z) : nat :=
  snd (Nat.iter (Z.to_nat (totalIterations vars runtimeMilliSec)) takeSqrts (fzero, 0%nat)).

(** ** The two functions *)
Definition timeConsumedMilliSec (start now : time) : Z :=
  uint32 (dur_milliseconds (time_sub now start)).

Definition TraceFunctionExecution (vars : HandlerVars) (start now : time) (requestedMilliSec : Z)
  : string * Work :=
  let consumed := timeConsumedMilliSec start now in
  if consumed <? requestedMilliSec then
    let requested := uint32 (requestedMilliSec - consumed) in
    let w := if 0 <? requested then Spin requested else Idle in
    ("OK - " +:+ hostname vars, w)
  else ("", Idle).

Definition EmptyFunctionExecution (vars : HandlerVars) (start now : time) (requestedMilliSec : Z)
  : string * Work :=
  let consumed := timeConsumedMilliSec start now in
  if consumed <? requestedMilliSec then
    let requested := uint32 (requestedMilliSec - consumed) in
    let w := if 0 <? requested then Sleep (int64 (requested * Millisecond)) else Idle in
    ("OK - EMPTY - " +:+ hostname vars, w)
  else ("", Idle).

(** ** Environment variables *)

(** [strconv.Atoi]: an optional sign and at least one decimal digit, within
    the range of int. *)
Definition digit_value (c : ascii) : option Z :=
  let n := Z.of_nat (nat_of_ascii c) in
  if (48 <=? n) && (n <=? 57) then Some (n - 48) else None.
Fixpoint parse_digits (acc : Z) (s : string) : option Z :=
  match s with
  | EmptyString => Some acc
  | String c s' => d ← digit_value c; parse_digits (10 * acc + d) s'
  end.
Definition parse_unsigned (s : string) : option Z :=
  match s with EmptyString => None | _ => parse_digits 0 s end.
Definition Atoi (s : string) : option Z :=
  z ← match s with
      | String c s' =>
          if decide (c = "-"%char) then Z.opp <$> parse_unsigned s'
          else if decide (c = "+"%char) then parse_unsigned s'
          else parse_unsigned s
      | EmptyString => None
      end;
  if (minInt64 <=? z) && (z <=? maxInt64) then Some z else None.

Definition read_multiplier (env : gmap string string) (old : Z) : Z :=
  match env !! "ITERATIONS_MULTIPLIER" with
  | Some v => match Atoi v with Some intv => intv | None => old end
  | None => old
  end.

Definition read_function_type (env : gmap string string) (old : FunctionType) : FunctionType :=
  match env !! "FUNCTION_TYPE" with
  | Some v =>
      if decide (v = "trace") then TraceFunction
      else if decide (v = "sleep") then SleepFunction
      else old
  | None => old
  end.

Definition readEnvironmentalVariables (env : gmap string string) (os_hostname : res string)
    (vars : HandlerVars) : HandlerVars :=
  mkHandlerVars
    (match os_hostname with Ok h => h | _ => "Unknown host" end)
    (read_function_type env (funcType vars))
    (read_multiplier env (iterationMultiplier vars)).

(** ** server.go *)
Record FaasRequest := mkFaasRequest { req_message : string; RuntimeMilliSec : Z }.
Record FaasReply := mkFaasReply { rep_message : string; DurationMicroSec : Z }.
Record funcServer := mkFuncServer { mode : FunctionType }.

Definition newFuncServer (m : FunctionType) : funcServer := mkFuncServer m.

Definition Execute (vars : HandlerVars) (s : funcServer) (req : FaasRequest)
    (start now finish : time) : FaasReply * Work :=
  let '(msg, w) :=
    if decide (mode s = TraceFunction)
    then TraceFunctionExecution vars start now (RuntimeMilliSec req)
    else EmptyFunctionExecution vars start now (RuntimeMilliSec req) in
  (mkFaasReply msg (uint32 (dur_microseconds (time_sub finish start))), w).

(** The executor that is registered: the environment is read before the server
    captures the function type. *)
Definition registered_server (env : gmap string string) (os_hostname : res string) : HandlerVars * funcServer :=
  let vars := readEnvironmentalVariables env os_hostname initial_handler_vars in
  (vars, newFuncServer (funcType vars)).

(** [StartGRPCServer]: what opening the listener and [Serve] return.  [Serve]
    returns when the listener fails, or after the graceful stop that a signal
    starts. *)
Definition StartGRPCServer (env : gmap string string) (os_hostname : res string) (listen serve : res unit)
  : res (HandlerVars * funcServer) :=
  _ ← or_fatal "failed to listen: " listen;
  let server := registered_server env os_hostname in
  _ ← or_fatal "Failed to serve: " serve;
  Ok server.

(** cmd/workload/knative/main.go. *)
Definition workload_main (env : gmap string string) (os_hostname : res string) (listen serve : res unit) : res unit :=
  _ ← StartGRPCServer env os_hostname listen serve; Ok tt.

(** The milliseconds a piece of work takes. *)
Definition work_milliseconds (w : Work) : Z :=
  match w with
  | Idle => 0
  | Spin ms => ms
  | Sleep d => Z.quot d Millisecond
  end.

(** ** Properties *)
Lemma takeSqrts_count st : snd (takeSqrts st) = (snd st + 100)%nat.
Proof.
  unfold takeSqrts. change (Z.to_nat EXEC_UNIT) with 100%nat.
  assert (forall n st, snd (Nat.iter n sqrtsd st) = (snd st + n)%nat) as H.
  { intros n st'. induction n as [|n IH]; simpl; [lia|]. rewrite IH. lia. }
  apply H.
Qed.

Lemma iter_takeSqrts n st : snd (Nat.iter n takeSqrts st) = (snd st + 100 * n)%nat.
Proof.
  induction n as [|n IH]; [simpl; lia|]. rewrite Nat.iter_succ, takeSqrts_count, IH. lia.
Qed.

Lemma busySpin_linear vars ms :
  0 <= iterationMultiplier vars < 2 ^ 31 -> 0 <= ms < 2 ^ 32 ->
  Z.of_nat (busySpin vars ms) = EXEC_UNIT * (iterationMultiplier vars * ms).
Proof.
  intros Hi Hm. unfold busySpin, totalIterations, EXEC_UNIT. rewrite iter_takeSqrts.
  rewrite int64_id by nia. simpl snd. rewrite Nat2Z.inj_add, Nat2Z.inj_mul, Z2Nat.id by nia. lia.
Qed.

(** A function execution in either mode uses the requested time: when the
    clock reading inside the handler shows less than the requested
    milliseconds, the time already consumed plus the work started is exactly
    the request and the reply carries the host; otherwise no work is started
    and the message is empty.  In trace mode the work is a busy loop of
    [100 * iterationMultiplier] square roots per millisecond. *)
Theorem execute_uses_requested_time vars s req start now finish :
  0 <= RuntimeMilliSec req < 2 ^ 32 -> 0 <= iterationMultiplier vars < 2 ^ 31 ->
  let consumed := timeConsumedMilliSec start now in
  let '(reply, w) := Execute vars s req start now finish in
  (consumed < RuntimeMilliSec req ->
     consumed + work_milliseconds w = RuntimeMilliSec req /\
     rep_message reply = (match mode s with TraceFunction => "OK - " | SleepFunction => "OK - EMPTY - " end)
                         +:+ hostname vars) /\
  (RuntimeMilliSec req <= consumed -> w = Idle /\ rep_message reply = "") /\
  (forall ms, w = Spin ms -> mode s = TraceFunction /\
     Z.of_nat (busySpin vars ms) = 100 * (iterationMultiplier vars * (RuntimeMilliSec req - consumed))) /\
  0 <= DurationMicroSec reply < 2 ^ 32.
Proof.
  intros Hr Hi consumed. unfold Execute. pose proof (uint32_range (dur_microseconds (time_sub finish start))).
  assert (0 <= consumed < 2 ^ 32) as Hc by apply uint32_range.
  assert (consumed < RuntimeMilliSec req ->
    uint32 (RuntimeMilliSec req - consumed) = RuntimeMilliSec req - consumed) as Hu
    by (intros; apply uwrap_id; lia).
  destruct (mode s); cbn [decide].
  - unfold TraceFunctionExecution. fold consumed. simpl.
    destruct (Z.ltb_spec consumed (RuntimeMilliSec req)) as [Hlt|Hge]; simpl;
      [rewrite Hu, (proj2 (Z.ltb_lt 0 _)) by lia; simpl|]; (split_and!; [..|lia|lia]); intros; try lia; try done.
    + split; [lia|done].
    + simplify_eq. split; [done|]. apply busySpin_linear; lia.
  - unfold EmptyFunctionExecution. fold consumed. simpl.
    destruct (Z.ltb_spec consumed (RuntimeMilliSec req)) as [Hlt|Hge]; simpl;
      [rewrite Hu, (proj2 (Z.ltb_lt 0 _)) by lia; simpl|]; (split_and!; [..|lia|lia]); intros; try lia; try done.
    split; [|done]. unfold Millisecond. rewrite int64_id, Z.quot_mul by lia. lia.
Qed.

Definition demo_vars : HandlerVars := mkHandlerVars "node-1" TraceFunction 155.

Lemma execute_uses_requested_time_witness :
  let '(reply, w) := Execute demo_vars (mkFuncServer TraceFunction) (mkFaasRequest "request" 7)
                       (5 * Second) (5 * Second + 2 * Millisecond) (5 * Second + 7 * Millisecond) in
  2 + work_milliseconds w = 7 /\ rep_message reply = "OK - node-1".
Proof.
  refine (proj1 (execute_uses_requested_time demo_vars (mkFuncServer TraceFunction)
    (mkFaasRequest "request" 7) (5 * Second) (5 * Second + 2 * Millisecond)
    (5 * Second + 7 * Millisecond) _ _) _); vm_compute; repeat split; discriminate.
Defined.

(** The environment decides the served function: the server registered by
    [StartGRPCServer] runs in sleep mode exactly when FUNCTION_TYPE is the
    string "sleep", an unparsable or absent ITERATIONS_MULTIPLIER leaves the
    default 102, and a parsed one fits an int; the process ends with a failure
    exactly when the listener or [Serve] returns an error. *)
Theorem start_server_configuration env h listen serve :
  (let '(vars, s) := registered_server env h in
   (mode s = SleepFunction <-> env !! "FUNCTION_TYPE" = Some "sleep") /\
   (forall v, env !! "ITERATIONS_MULTIPLIER" = Some v -> Atoi v = None -> iterationMultiplier vars = 102) /\
   (env !! "ITERATIONS_MULTIPLIER" = None -> iterationMultiplier vars = 102) /\
   - 2 ^ 63 <= iterationMultiplier vars < 2 ^ 63) /\
  (StartGRPCServer env h listen serve = Ok (registered_server env h) <-> listen = Ok tt /\ serve = Ok tt) /\
  (forall e, listen = Err e -> StartGRPCServer env h listen serve = Fatal ("failed to listen: " +:+ e)) /\
  (forall e, listen = Ok tt -> serve = Err e -> StartGRPCServer env h listen serve = Fatal ("Failed to serve: " +:+ e)).
Proof.
  split; [|split; [|split]].
  - assert (forall v z, Atoi v = Some z -> - 2 ^ 63 <= z < 2 ^ 63) as Hr.
    { intros v z H. unfold Atoi in H. apply bind_Some in H as (z' & _ & H).
      unfold minInt64, maxInt64 in H.
      destruct (Z.leb_spec (- 2 ^ 63) z'), (Z.leb_spec z' (2 ^ 63 - 1)); simplify_eq/=; lia. }
    unfold registered_server, readEnvironmentalVariables, read_function_type, read_multiplier. simpl.
    split; [|split; [|split]].
    + clear Hr. destruct (env !! "FUNCTION_TYPE") as [v|]; [|done]. case_decide; [by subst|].
      case_decide; [by subst|]. split; [done|congruence].
    + by intros v -> ->.
    + by intros ->.
    + destruct (env !! "ITERATIONS_MULTIPLIER") as [v|]; [|lia].
      destruct (Atoi v) eqn:E; [apply (Hr _ _ E)|lia].
  - unfold StartGRPCServer. destruct listen as [[]|?|?|?], serve as [[]|?|?|?]; cbn; naive_solver.
  - by intros e ->.
  - by intros e -> ->.
Qed.
