(* ===== verification/Backend.v ===== *)
(** pkg/backend: the request timeout and the choice of executor (backend.go),
    the fake executor (fake.go), and the gRPC executor with its connection pool
    (grpc.go).  The pool is a labelled transition system whose steps are the
    channel operations of the goroutines that use it. *)
From S2P Require Import Prelude F64 Workload.
Import Types.

(** * backend.go *)
Record BackendVars := mkBackendVars {
  framework : string;
  baseTimeout : duration;
  timeoutFactor : f64
}.
Definition initial_backend_vars : BackendVars := mkBackendVars "" (15 * Second) (of_Z 5).

Definition Use (f : string) (v : BackendVars) : BackendVars :=
  mkBackendVars f (baseTimeout v) (timeoutFactor v).
Definition WithSLO (factor : f64) (v : BackendVars) : BackendVars :=
  mkBackendVars (framework v) (baseTimeout v) factor.

Definition Timeout (v : BackendVars) (req : Request) : duration :=
  let slo := int64 (f2i (fmul (of_Z (DurationMilliSec req)) (timeoutFactor v)) * Millisecond) in
  if baseTimeout v <? slo then slo else baseTimeout v.

(** [grpc.NewClient] is the gRPC library's: whether it succeeds for an
    endpoint is an argument. *)
Inductive Executor := fakeBackend | grpcBackend (endpoint : string).

Definition newGrpcBackend (NewClient : string -> res unit) (endpoint : string) : res Executor :=
  _ ← NewClient endpoint; Ok (grpcBackend endpoint).

Definition NewBackend (v : BackendVars) (NewClient : string -> res unit) (endpoint : string)
  : res Executor :=
  if decide (framework v = "fake") then Ok fakeBackend
  else if decide (framework v = "grpc") then newGrpcBackend NewClient endpoint
  else Panic ("invalid framework: " +:+ framework v).

(** * fake.go: the clock is read when the request starts, when the response is
    stamped and when the runtime is measured. *)
Definition fake_Execute (req : Request) (start recv done : time) : Response :=
  let req := set_GatewaySendTS start req in
  mkResponse req SUCCESS recv zero_time (dur_microseconds (time_sub done start)).

(** The wait of the fake executor: [time.After] fires no earlier. *)
Definition fake_wait (req : Request) : duration := int64 (DurationMilliSec req * Millisecond).

(** * grpc.go: one execution *)
Inductive RpcOutcome :=
| RpcReply (durationMicroSec : Z)
| RpcDeadlineExceeded
| RpcOtherError.

(** [conn] is the result of [getOrCreateClient]; the boolean says whether a
    connection was taken, and hence given back by the deferred send. *)
Definition grpc_Execute (req : Request) (conn : res unit) (send : time) (rpc : RpcOutcome) (recv : time)
  : Response * bool :=
  match conn with
  | Ok _ =>
      let req := set_GatewaySendTS send req in
      (match rpc with
       | RpcDeadlineExceeded => status_response req FAIL_TIMEOUT
       | RpcOtherError => status_response req FAIL_SEND
       | RpcReply d => mkResponse req SUCCESS recv zero_time (uint32 d)
       end, true)
  | _ => (status_response req FAIL_CONNECT, false)
  end.

(** ** The connection pool *)
Module Pool.

Definition grpcExecutorConcurrency : nat := 50.

(** A connection is named by the number of the dial that created it. *)
Definition conn := nat.

(** A goroutine inside [Execute]: about to select on the pool, blocked on the
    receive that follows its own dial, running an RPC on a connection, or
    finished. *)
Inductive pc :=
| Selecting
| Receiving
| Running (c : conn)
| Finished (ok : bool).

(** The goroutine running [Close]: not started, inside the range loop, or
    returned. *)
Inductive closer_pc := CloserIdle | CloserDraining | CloserReturned.

Record state := mkPool {
  pool : list conn;
  chan_closed : bool;
  dials : nat;
  threads : gmap nat pc;
  closer : closer_pc;
  closed_conns : list conn
}.

Inductive label :=
| Enter (t : nat)              (* a goroutine calls Execute *)
| TakeReady (t : nat)          (* select: receive from the pool *)
| Dial (t : nat) (ok : bool)   (* default branch: newClient *)
| TakeDialed (t : nat)         (* blocking receive after the dial *)
| Return (t : nat)             (* deferred send of the connection *)
| CloseCall                    (* Close is called *)
| CloseRecv                    (* one iteration of its range loop *)
| CloseExit.                   (* the loop ends: channel closed and drained *)

(** [newClient]: one connection, sent to the pool 50 times. *)
Definition newClient (s : state) : list conn := pool s ++ replicate grpcExecutorConcurrency (dials s).

Definition set_thread (s : state) (q : list conn) (t : nat) (p : pc) : state :=
  mkPool q (chan_closed s) (dials s) (<[t := p]> (threads s)) (closer s) (closed_conns s).

Definition take (s : state) (t : nat) : option state :=
  match pool s with
  | c :: q => Some (set_thread s q t (Running c))
  | [] => None
  end.

Definition step (s : state) (l : label) : option state :=
  match l with
  | Enter t =>
      match threads s !! t with
      | None => Some (set_thread s (pool s) t Selecting)
      | Some _ => None
      end
  | TakeReady t =>
      match threads s !! t with Some Selecting => take s t | _ => None end
  | Dial t ok =>
      match threads s !! t with
      | Some Selecting =>
          if ok then
            Some (mkPool (newClient s) (chan_closed s) (S (dials s))
                    (<[t := Receiving]> (threads s)) (closer s) (closed_conns s))
          else Some (set_thread s (pool s) t (Finished false))
      | _ => None
      end
  | TakeDialed t =>
      match threads s !! t with Some Receiving => take s t | _ => None end
  | Return t =>
      match threads s !! t with
      | Some (Running c) => Some (set_thread s (pool s ++ [c]) t (Finished true))
      | _ => None
      end
  | CloseCall =>
      match closer s with
      | CloserIdle => Some (mkPool (pool s) (chan_closed s) (dials s) (threads s) CloserDraining (closed_conns s))
      | _ => None
      end
  | CloseRecv =>
      match closer s, pool s with
      | CloserDraining, c :: q =>
          Some (mkPool q (chan_closed s) (dials s) (threads s) CloserDraining (c :: closed_conns s))
      | _, _ => None
      end
  | CloseExit =>
      match closer s, pool s with
      | CloserDraining, [] =>
          if chan_closed s
          then Some (mkPool [] true (dials s) (threads s) CloserReturned (closed_conns s))
          else None
      | _, _ => None
      end
  end.

(** [newGrpcBackend] after its successful first dial. *)
Definition init : state :=
  mkPool (replicate grpcExecutorConcurrency 0%nat) false 1 ∅ CloserIdle [].

(** How many times connection [c] is held by running goroutines. *)
Definition holds (c : conn) (p : pc) : nat :=
  match p with Running c' => if decide (c = c') then 1 else 0 | _ => 0 end%nat.
Definition running (c : conn) (m : gmap nat pc) : nat := msum (holds c) m.

(** Every copy of a connection is in the pool, held by one goroutine, or was
    taken by the closer; there are 50 per dial. *)
Definition conserved (s : state) : Prop :=
  forall c, (count c (pool s) + running c (threads s) + count c (closed_conns s)
    = if decide (c < dials s)%nat then grpcExecutorConcurrency else 0)%nat.

Lemma conserved_init : conserved init.
Proof.
  intros c. unfold init, running. cbn [pool threads closed_conns dials]. rewrite msum_empty, count_replicate.
  change (count c []) with 0%nat. repeat case_decide; lia.
Qed.

Ltac thread_count :=
  match goal with
  | H : ?m !! ?t = Some ?q |- context [running ?c (<[?t := ?p]> ?m)] =>
      let X := fresh in pose proof (msum_insert (holds c) m t p q H : (running c (<[t:=p]> m) + holds c q = holds c p + running c m)%nat) as X; simpl in X
  | H : ?m !! ?t = None |- context [running ?c (<[?t := ?p]> ?m)] =>
      rewrite (msum_insert_new (holds c) m t p H : running c (<[t:=p]> m) = (holds c p + running c m)%nat); simpl
  end.

Lemma conserved_step s l s' : conserved s -> step s l = Some s' -> conserved s'.
Proof.
  intros Hc Hs c. specialize (Hc c).
  destruct l as [t|t|t ok|t|t| | |]; unfold step, take, set_thread in Hs; repeat case_match; simplify_eq/=;
    try thread_count; rewrite ?count_app, ?count_cons, ?count_replicate in *; unfold newClient;
    rewrite ?count_app, ?count_replicate in *; simpl in *;
    try (change (count c []) with 0%nat in *); try (repeat case_decide; lia).
Qed.

Lemma conserved_reachable s : reachable step (.= init) s -> conserved s.
Proof.
  apply reachable_invariant; [intros s0 ->; apply conserved_init|].
  intros; eapply conserved_step; eauto.
Qed.


(** ** Properties of the pool *)
Lemma running_in c m : (0 < running c m)%nat -> exists t, m !! t = Some (Running c).
Proof.
  intros (t & p & Ht & Hp)%msum_pos. exists t. rewrite Ht. destruct p; simpl in Hp; try case_decide; naive_solver lia.
Qed.

Definition closer_inv (s : state) : Prop :=
  chan_closed s = false /\ (0 < dials s)%nat /\ (closer s = CloserIdle -> closed_conns s = []) /\
  closer s <> CloserReturned.

Lemma closer_inv_reachable s : reachable step (.= init) s -> closer_inv s.
Proof.
  apply reachable_invariant; [intros ? ->; unfold closer_inv; naive_solver lia|].
  intros s0 l s' (H1 & H2 & H3 & H4) Hs. unfold closer_inv.
  destruct l; unfold step, take, set_thread in Hs; repeat case_match; simplify_eq/=; split_and!; naive_solver lia.
Qed.

(** C24. The connection pool never runs more than fifty RPCs at once on one
    connection, whatever the interleaving of executions and closing, and as
    long as nobody closes the backend an execution that finds the pool empty
    after its own dial is not stuck: some RPC is running, whose return is
    enabled and refills the pool. *)
Theorem pool_capacity_and_progress s :
  reachable step (.= init) s ->
  (forall c, (running c (threads s) <= grpcExecutorConcurrency)%nat) /\
  (forall t, closer s = CloserIdle -> threads s !! t = Some Receiving ->
     (exists s', step s (TakeDialed t) = Some s') \/
     (exists t' s' s'', step s (Return t') = Some s' /\ step s' (TakeDialed t) = Some s'')).
Proof.
  intros Hr. pose proof (conserved_reachable s Hr) as Hc. pose proof (closer_inv_reachable s Hr) as (_ & Hd & Hi & _).
  split.
  - intros c. specialize (Hc c). case_decide; lia.
  - intros t Hcl Ht. destruct (pool s) as [|c q] eqn:Hp; [right|left; simpl; rewrite Ht; unfold take; rewrite Hp; eauto].
    specialize (Hc 0%nat). rewrite Hp, (Hi Hcl) in Hc. change (count 0%nat []) with 0%nat in Hc.
    rewrite decide_True in Hc by done.
    destruct (running_in 0%nat (threads s)) as [t' Ht']; [unfold grpcExecutorConcurrency in Hc; lia|].
    assert (t <> t') by congruence.
    eexists t', _, _. split; [simpl; rewrite Ht'; reflexivity|].
    simpl. rewrite lookup_insert_ne, Ht by done. unfold take. simpl. by rewrite Hp.
Qed.

(** Two goroutines, the second of which finds the pool drained by the closer. *)
Lemma pool_capacity_and_progress_witness :
  exists s, run step init [Enter 1; TakeReady 1; Enter 2; TakeReady 2; Return 1] = Some s /\
    (running 0%nat (threads s) <= 50)%nat.
Proof.
  eexists. split; [vm_compute; reflexivity|].
  refine (proj1 (pool_capacity_and_progress _ _) 0%nat).
  eapply (run_reachable step (.= init) init [Enter 1; TakeReady 1; Enter 2; TakeReady 2; Return 1]);
    [by apply reach_init|vm_compute; reflexivity].
Defined.

(** The race of [Close] with an execution.  An execution that came to its
    endpoint before the endpoint was removed may dial after [Close] has begun;
    the draining loop can then take all fifty copies of its connection first,
    and the execution waits on a channel that nobody sends to: whatever else
    happens is a new execution, of which a removed endpoint gets none. *)
Definition stranded : list label :=
  [Enter 1; CloseCall] ++ replicate grpcExecutorConcurrency CloseRecv ++ [Dial 1 true] ++
  replicate grpcExecutorConcurrency CloseRecv.
Lemma closed_pool_strands :
  exists s, run step init stranded = Some s /\ reachable step (.= init) s /\
    threads s !! 1%nat = Some Receiving /\ forall l, is_Some (step s l) -> exists t, l = Enter t.
Proof.
  exists (mkPool [] false 2 {[1%nat := Receiving]} CloserDraining (replicate 50 1%nat ++ replicate 50 0%nat)).
  split; [vm_compute; reflexivity|]. split.
  { eapply (run_reachable step (.= init) init stranded); [by apply reach_init|vm_compute; reflexivity]. }
  split; [reflexivity|]. intros l [s' Hl]. unfold step in Hl. cbn [threads pool closer] in Hl.
  destruct l as [t|t|t ok|t|t| | |]; [by exists t|..]; try done;
    (destruct (decide (t = 1%nat)) as [->|Ht]; [done|]);
    by rewrite lookup_singleton_ne in Hl.
Qed.

(** C38. [Close] of the gRPC executor never returns: its loop ranges over a
    channel that is closed only after the loop, so in no reachable state has
    the closing goroutine come past it or has the channel been closed; what it
    does instead is to keep closing every connection returned to the pool.  It
    can so strand an execution that is already on its way: in a reachable
    state one has dialed and waits for a connection, and every step that is
    possible is the entry of another one, of which an endpoint that is being
    removed gets none. *)
Theorem close_never_returns s :
  reachable step (.= init) s ->
  closer s <> CloserReturned /\ chan_closed s = false /\
  (closer s = CloserDraining -> step s CloseExit = None /\
     forall c q, pool s = c :: q -> exists s', step s CloseRecv = Some s' /\ closed_conns s' = c :: closed_conns s) /\
  (exists s' t, reachable step (.= init) s' /\ threads s' !! t = Some Receiving /\
     forall l, is_Some (step s' l) -> exists t', l = Enter t').
Proof.
  intros Hr. destruct (closer_inv_reachable s Hr) as (Hc & _ & _ & Hn). split; [done|split; [done|]]. split.
  2:{ destruct closed_pool_strands as (s' & _ & H1 & H2 & H3). by exists s', 1%nat. }
  intros Hd. split.
  - simpl. rewrite Hd, Hc. by destruct (pool s).
  - intros c q Hp. simpl. rewrite Hd, Hp. eauto.
Qed.

Lemma close_never_returns_witness :
  exists s, run step init [Enter 1; TakeReady 1; CloseCall; CloseRecv; Return 1] = Some s /\
    closer s <> CloserReturned /\ step s CloseExit = None.
Proof.
  eexists. split; [vm_compute; reflexivity|].
  match goal with |- closer ?s <> _ /\ _ =>
    pose proof (close_never_returns s) as H end.
  destruct H as (H1 & _ & H2 & _).
  - eapply (run_reachable step (.= init) init [Enter 1; TakeReady 1; CloseCall; CloseRecv; Return 1]);
      [by apply reach_init|vm_compute; reflexivity].
  - split; [exact H1|]. apply H2. reflexivity.
Defined.
End Pool.

(** * Properties of the timeout and the executors *)

(** The timeout of a request is never below the base timeout, whatever the
    factor (a NaN, an infinity or an overflowing product included), and for an
    integral factor, such as the default 5, it is exactly the larger of the
    base timeout and factor times duration. *)
Theorem timeout_exact v req k :
  baseTimeout v <= Timeout v req /\
  (timeoutFactor v = of_Z k -> 0 < k -> 0 < DurationMilliSec req -> 
   k * DurationMilliSec req < 2 ^ 43 ->
   Timeout v req = Z.max (baseTimeout v) (k * DurationMilliSec req * Millisecond)).
Proof.
  split.
  - unfold Timeout. destruct (Z.ltb_spec (baseTimeout v)
      (int64 (f2i (fmul (of_Z (DurationMilliSec req)) (timeoutFactor v)) * Millisecond))); lia.
  - intros Hf Hk Hd Hb. set (d := DurationMilliSec req) in *. unfold Timeout. fold d. rewrite Hf.
    assert (0 < k * d /\ k < 2 ^ 43 /\ d < 2 ^ 43) as (Hp & ? & ?) by nia.
    unfold Millisecond. rewrite fmul_of_Z, f2i_of_Z by (unfold exact_int; lia).
    rewrite int64_id, (Z.mul_comm d k) by lia.
    destruct (Z.ltb_spec (baseTimeout v) (k * d * 1000000)); lia.
Qed.

Definition demo_request (ms : Z) : Request := mkRequest "1" "default/f" ms 1 0 0 0 0.

Lemma timeout_exact_witness :
  Timeout initial_backend_vars (demo_request 4000) = 20 * Second /\
  Timeout initial_backend_vars (demo_request 100) = 15 * Second.
Proof.
  split.
  - refine (eq_trans (proj2 (timeout_exact initial_backend_vars (demo_request 4000) 5) _ _ _ _) _); done.
  - refine (eq_trans (proj2 (timeout_exact initial_backend_vars (demo_request 100) 5) _ _ _ _) _); done.
Defined.

(** An executor answers the request it was given: the response of either
    executor has the request as its source (same id, target, duration and
    times up to the send timestamp it sets), a gRPC execution succeeds exactly
    when a connection was available and the call returned, gives a connection
    back exactly when it took one, and leaves the receive time unset on every
    failure; the fake executor always succeeds and reports a runtime of at
    least the requested duration. *)
Theorem executors_answer_request req conn send rpc recv start done :
  (let '(r, returned) := grpc_Execute req conn send rpc recv in
   Source r = (if returned then set_GatewaySendTS send req else req) /\
   returned = is_ok conn /\
   (Status r = SUCCESS <-> is_ok conn = true /\ exists d, rpc = RpcReply d) /\
   (Status r <> SUCCESS -> ResGatewayRecvTS r = zero_time /\ RuntimeMicroSec r = 0)) /\
  (let r := fake_Execute req start recv done in
   Source r = set_GatewaySendTS start req /\ Status r = SUCCESS /\
   (0 <= DurationMilliSec req < 2 ^ 43 -> start + fake_wait req <= done < start + 2 ^ 63 ->
    1000 * DurationMilliSec req <= RuntimeMicroSec r)).
Proof.
  split.
  - destruct conn as [[]|e|e|e], rpc; cbn; (split; [done|split; [done|split; [split|]]]); naive_solver.
  - cbv zeta. split; [done|]. split; [done|]. intros Hd Hw. simpl.
    unfold fake_wait in Hw. unfold Millisecond in Hw. rewrite int64_id in Hw by lia.
    unfold dur_microseconds, Microsecond. rewrite time_sub_exact by lia.
    apply Z.quot_le_lower_bound; lia.
Qed.

Lemma executors_answer_request_witness :
  let r := fake_Execute (demo_request 7) (3 * Second) (3 * Second + 8 * Millisecond) (3 * Second + 9 * Millisecond) in
  7000 <= RuntimeMicroSec r.
Proof.
  refine (proj2 (proj2 (proj2 (executors_answer_request (demo_request 7) (Ok tt) 0 RpcOtherError
    (3 * Second + 8 * Millisecond) (3 * Second) (3 * Second + 9 * Millisecond)))) _ _);
    vm_compute; repeat split; discriminate.
Defined.

(** [NewBackend] builds the executor its framework names, fails exactly
    when the gRPC dial fails, and panics for every other framework name. *)
Theorem new_backend_cases v NewClient endpoint :
  match NewBackend v NewClient endpoint with
  | Ok fakeBackend => framework v = "fake"
  | Ok (grpcBackend e) => framework v = "grpc" /\ e = endpoint /\ is_ok (NewClient endpoint) = true
  | Err e => framework v = "grpc" /\ NewClient endpoint = Err e
  | Panic m => (framework v <> "fake" /\ framework v <> "grpc" /\ m = "invalid framework: " +:+ framework v)
               \/ NewClient endpoint = Panic m
  | Fatal m => NewClient endpoint = Fatal m
  end.
Proof.
  unfold NewBackend, newGrpcBackend. repeat case_decide; [done| |naive_solver].
  destruct (NewClient endpoint); simpl; naive_solver.
Qed.
