(* ===== verification/Metric.v ===== *)
(** pkg/autoscaler/metric: the request statistics of one target (stats.go) and
    the collector that samples them into time windows (collector.go).  The
    time windows are knative's and appear as a class. *)
From S2P Require Import Prelude F64 Workload.

(** * stats.go *)
Record RequestStats := mkRequestStats {
  Key : string;
  concurrency : f64;
  concurrencyIntegral : f64;
  requestCount : f64;
  lastChange : time;
  secondsInUse : f64
}.
Record RequestStatsReport := mkReport { AverageConcurrency : f64; RequestCount : f64 }.

Definition NewRequestStats (key : string) : RequestStats :=
  mkRequestStats key fzero fzero fzero zero_time fzero.

Definition Move (now : time) (s : RequestStats) : RequestStats :=
  if time_is_zero (lastChange s)
  then mkRequestStats (Key s) (concurrency s) (concurrencyIntegral s) (requestCount s) now (secondsInUse s)
  else
    let durationSinceChange := time_sub now (lastChange s) in
    if 0 <? durationSinceChange then
      let durationSecs := dur_seconds durationSinceChange in
      mkRequestStats (Key s) (concurrency s)
        (fadd (concurrencyIntegral s) (fmul (concurrency s) durationSecs))
        (requestCount s) now (fadd (secondsInUse s) durationSecs)
    else s.

Definition ReqIn (now : time) (s : RequestStats) : RequestStats * f64 :=
  let s := Move now s in
  let c := fadd (concurrency s) (of_Z 1) in
  (mkRequestStats (Key s) c (concurrencyIntegral s) (fadd (requestCount s) (of_Z 1))
     (lastChange s) (secondsInUse s), c).

Definition ReqOut (now : time) (s : RequestStats) : RequestStats * f64 :=
  let s := Move now s in
  let c := fsub (concurrency s) (of_Z 1) in
  (mkRequestStats (Key s) c (concurrencyIntegral s) (requestCount s) (lastChange s) (secondsInUse s), c).

Definition reset (s : RequestStats) : RequestStats :=
  mkRequestStats (Key s) (concurrency s) fzero fzero (lastChange s) fzero.

Definition Report (now : time) (s : RequestStats) : RequestStats * RequestStatsReport :=
  let s := Move now s in
  let average := if flt fzero (secondsInUse s) then fdiv (concurrencyIntegral s) (secondsInUse s) else fzero in
  (reset s, mkReport average (requestCount s)).

Definition InstantConcurrency (s : RequestStats) : f64 := concurrency s.

(** * collector.go *)

(** knative's TimedFloat64Buckets: what the collector calls on them.  Reading
    an average does not change them. *)
Class TimedFloat64Buckets (B : Type) := {
  NewTimedFloat64Buckets : duration -> duration -> B;
  Record_ : time -> f64 -> B -> B;
  WindowAverage : time -> B -> f64
}.

Section Collector.
Context {B : Type} `{!TimedFloat64Buckets B}.

Record Collector := mkCollector {
  stats : RequestStats;
  concurrencyBuckets : B;
  concurrencyPanicBuckets : B;
  requestCountBuckets : B;
  requestCountPanicBuckets : B;
  collectInterval : duration
}.

Definition NewCollector (key : string) (stableWindow panicWindow granularity : duration) : Collector :=
  mkCollector (NewRequestStats key)
    (NewTimedFloat64Buckets stableWindow granularity) (NewTimedFloat64Buckets panicWindow granularity)
    (NewTimedFloat64Buckets stableWindow granularity) (NewTimedFloat64Buckets panicWindow granularity)
    granularity.

Definition with_stats (s : RequestStats) (c : Collector) : Collector :=
  mkCollector s (concurrencyBuckets c) (concurrencyPanicBuckets c) (requestCountBuckets c)
    (requestCountPanicBuckets c) (collectInterval c).

Definition collect (now : time) (c : Collector) : Collector :=
  let '(s, report) := Report now (stats c) in
  mkCollector s
    (Record_ now (AverageConcurrency report) (concurrencyBuckets c))
    (Record_ now (AverageConcurrency report) (concurrencyPanicBuckets c))
    (Record_ now (RequestCount report) (requestCountBuckets c))
    (Record_ now (RequestCount report) (requestCountPanicBuckets c))
    (collectInterval c).

Definition StableAndPanicConcurrency (now : time) (c : Collector) : f64 * f64 :=
  (WindowAverage now (concurrencyBuckets c), WindowAverage now (concurrencyPanicBuckets c)).
Definition StableAndPanicAndInstantConcurrency (now : time) (c : Collector) : f64 * f64 * f64 :=
  (WindowAverage now (concurrencyBuckets c), WindowAverage now (concurrencyPanicBuckets c),
   InstantConcurrency (stats c)).
Definition StableAndPanicRequestCount (now : time) (c : Collector) : f64 * f64 :=
  (WindowAverage now (requestCountBuckets c), WindowAverage now (requestCountPanicBuckets c)).

(** What happens to a collector: requests come and go (through the embedded
    stats) and the ticker of [Run] fires. *)
Inductive event := EvIn (now : time) | EvOut (now : time) | EvTick (now : time).

Definition apply_event (c : Collector) (e : event) : Collector :=
  match e with
  | EvIn now => with_stats (fst (ReqIn now (stats c))) c
  | EvOut now => with_stats (fst (ReqOut now (stats c))) c
  | EvTick now => collect now c
  end.

(** The loop of [Run] with the requests that interleave with it. *)
Definition Run (c : Collector) (es : list event) : Collector := foldl apply_event c es.
End Collector.
Arguments Collector B : clear implicits.

(** * The statistics alone: the stats after a sequence of events, with the
    reports they produced, oldest first *)
Definition stats_event (st : RequestStats * list (time * RequestStatsReport)) (e : event)
  : RequestStats * list (time * RequestStatsReport) :=
  match e with
  | EvIn now => (fst (ReqIn now (fst st)), snd st)
  | EvOut now => (fst (ReqOut now (fst st)), snd st)
  | EvTick now => let '(s, r) := Report now (fst st) in (s, snd st ++ [(now, r)])
  end.
Definition stats_run (s : RequestStats) (es : list event) : RequestStats * list (time * RequestStatsReport) :=
  foldl stats_event (s, []) es.

Definition is_in (e : event) : bool := match e with EvIn _ => true | _ => false end.
Definition is_out (e : event) : bool := match e with EvOut _ => true | _ => false end.
Definition count_if (f : event -> bool) (es : list event) : Z :=
  foldr (fun e n => (if f e then 1 else 0) + n) 0 es.

(** The requests a list of reports accounts for. *)
Definition reported (rs : list (time * RequestStatsReport)) : Z :=
  foldr (fun r n => f2i (RequestCount (snd r)) + n) 0 rs.

(** ** The collector refines the statistics: its windows hold the reports *)
Section CollectorSpec.
Context {B : Type} `{!TimedFloat64Buckets B}.

Definition record_all (f : RequestStatsReport -> f64) (rs : list (time * RequestStatsReport)) (b : B) : B :=
  foldl (fun b r => Record_ (fst r) (f (snd r)) b) b rs.

Definition matches (c0 : Collector B) (c : Collector B) (st : RequestStats * list (time * RequestStatsReport)) : Prop :=
  stats c = fst st /\
  concurrencyBuckets c = record_all AverageConcurrency (snd st) (concurrencyBuckets c0) /\
  concurrencyPanicBuckets c = record_all AverageConcurrency (snd st) (concurrencyPanicBuckets c0) /\
  requestCountBuckets c = record_all RequestCount (snd st) (requestCountBuckets c0) /\
  requestCountPanicBuckets c = record_all RequestCount (snd st) (requestCountPanicBuckets c0) /\
  collectInterval c = collectInterval c0.

Lemma record_all_snoc f rs r b : record_all f (rs ++ [r]) b = Record_ (fst r) (f (snd r)) (record_all f rs b).
Proof. unfold record_all. by rewrite foldl_app. Qed.

Lemma matches_event c0 c st e : matches c0 c st -> matches c0 (apply_event c e) (stats_event st e).
Proof.
  destruct st as [s rs], c as [s' b1 b2 b3 b4 i]. unfold matches. simpl. intros (-> & -> & -> & -> & -> & ->).
  destruct e as [now|now|now]; [done..|]. unfold collect. simpl.
  destruct (Report now s) as [s1 r]. simpl. by rewrite !record_all_snoc.
Qed.

Lemma matches_run c0 c st es : matches c0 c st -> matches c0 (foldl apply_event c es) (foldl stats_event st es).
Proof. revert c st. induction es as [|e es IH]; intros c st H; [done|]. simpl. apply IH. by apply matches_event. Qed.
End CollectorSpec.

(** * Counting *)
Lemma Move_counts now s : concurrency (Move now s) = concurrency s /\ requestCount (Move now s) = requestCount s.
Proof. unfold Move. repeat case_match; done. Qed.

Lemma count_if_nonneg f es : 0 <= count_if f es <= Z.of_nat (length es).
Proof. induction es as [|e es IH]; simpl; [done|]. destruct (f e); lia. Qed.

Lemma count_if_app f es1 es2 : count_if f (es1 ++ es2) = count_if f es1 + count_if f es2.
Proof. induction es1 as [|e es1 IH]; simpl; [done|]. rewrite IH. lia. Qed.

Lemma reported_snoc rs r : reported (rs ++ [r]) = reported rs + f2i (RequestCount (snd r)).
Proof. induction rs as [|r' rs IH]; simpl; [lia|]. rewrite IH. lia. Qed.

Definition stats_inv (es : list event) (st : RequestStats * list (time * RequestStatsReport)) : Prop :=
  concurrency (fst st) = of_Z (count_if is_in es - count_if is_out es) /\
  exists n, requestCount (fst st) = of_Z n /\ 0 <= n <= count_if is_in es /\
    reported (snd st) + n = count_if is_in es.

Lemma stats_inv_event es e st : Z.of_nat (length (es ++ [e])) < 2 ^ 52 ->
  stats_inv es st -> stats_inv (es ++ [e]) (stats_event st e).
Proof.
  rewrite length_app. intros Hb (Hc & n & Hr & Hn & Hsum). destruct st as [s rs]. unfold stats_inv.
  rewrite !count_if_app. pose proof (count_if_nonneg is_in es). pose proof (count_if_nonneg is_out es).
  simpl in Hb, Hc, Hr, Hsum.
  destruct e as [now|now|now]; simpl; destruct (Move_counts now s) as [Hmc Hmr];
    rewrite ?Hmc, ?Hmr, ?Hc, ?Hr.
  - rewrite !fadd_of_Z by (unfold exact_int; lia). split; [f_equal; lia|]. exists (n + 1). split; [done|lia].
  - rewrite fsub_of_Z by (unfold exact_int; lia). split; [f_equal; lia|]. exists n. split; [done|lia].
  - split; [f_equal; lia|]. exists 0. split; [done|].
    rewrite reported_snoc. simpl. rewrite ?Hmr, ?Hr, f2i_of_Z by (unfold exact_int; lia). lia.
Qed.

Lemma stats_inv_run key es : Z.of_nat (length es) < 2 ^ 52 -> stats_inv es (stats_run (NewRequestStats key) es).
Proof.
  unfold stats_run. induction es as [|e es IH] using rev_ind; intros Hb.
  - split; [done|]. by exists 0.
  - rewrite foldl_app. apply stats_inv_event; [done|]. apply IH. rewrite length_app in Hb. lia.
Qed.

(** C22. The collector neither loses nor duplicates a request: over any
    interleaving of arrivals, departures and ticks with any clock (up to 2^52
    events), the instantaneous concurrency is exactly arrivals minus
    departures, the request counts of all reports plus the pending count are
    exactly the arrivals, and each of the four windows has recorded exactly
    these reports, in order, stable and panic windows the same values. *)
Theorem collector_counts_exactly {B} `{!TimedFloat64Buckets B} key sw pw g es :
  Z.of_nat (length es) < 2 ^ 52 ->
  let c0 := NewCollector key sw pw g in
  let c := Run c0 es in
  exists reports,
    InstantConcurrency (stats c) = of_Z (count_if is_in es - count_if is_out es) /\
    (exists pending, requestCount (stats c) = of_Z pending /\ 0 <= pending /\
       reported reports + pending = count_if is_in es) /\
    concurrencyBuckets c = record_all AverageConcurrency reports (NewTimedFloat64Buckets sw g) /\
    concurrencyPanicBuckets c = record_all AverageConcurrency reports (NewTimedFloat64Buckets pw g) /\
    requestCountBuckets c = record_all RequestCount reports (NewTimedFloat64Buckets sw g) /\
    requestCountPanicBuckets c = record_all RequestCount reports (NewTimedFloat64Buckets pw g).
Proof.
  intros Hb c0 c. destruct (stats_inv_run key es Hb) as (H1 & n & H2 & H3 & H4).
  assert (matches c0 c (stats_run (NewRequestStats key) es)) as (M1 & M2 & M3 & M4 & M5 & _)
    by (by apply matches_run).
  exists (snd (stats_run (NewRequestStats key) es)). unfold InstantConcurrency. rewrite M1.
  split; [done|]. split; [exists n; split_and!; [done|lia|done]|done].
Qed.

(** Windows that keep every recorded value. *)
#[local] Instance log_buckets : TimedFloat64Buckets (list (time * f64)) := {
  NewTimedFloat64Buckets _ _ := [];
  Record_ t v b := b ++ [(t, v)];
  WindowAverage _ b := default fzero (snd <$> last b)
}.

Lemma collector_counts_exactly_witness :
  InstantConcurrency (stats (Run (NewCollector "f" (60 * Second) (6 * Second) Second)
    [EvIn 10; EvIn 20; EvTick 30; EvOut 25; EvIn 40])) = of_Z 2.
Proof.
  destruct (collector_counts_exactly "f" (60 * Second) (6 * Second) Second
    [EvIn 10; EvIn 20; EvTick 30; EvOut 25; EvIn 40]) as (_ & H & _); [done|exact H].
Defined.

(** * The time-weighted average

    On a clock of whole seconds the float accumulators hold integers exactly,
    and the statistics implement the abstract counter below. *)
Module Weighted.
Record counter := mkCounter {
  inflight : Z;
  area : Z;              (* the integral of [inflight] since the last report *)
  arrivals : Z;          (* since the last report *)
  last_event : option Z; (* in seconds *)
  observed : Z           (* seconds since the last report *)
}.
Definition init : counter := mkCounter 0 0 0 None 0.

Definition advance (t : Z) (a : counter) : counter :=
  match last_event a with
  | None => mkCounter (inflight a) (area a) (arrivals a) (Some t) (observed a)
  | Some l =>
      if l <? t
      then mkCounter (inflight a) (area a + inflight a * (t - l)) (arrivals a) (Some t) (observed a + (t - l))
      else a
  end.

Definition event (a : counter * list (Z * Z * Z)) (e : Z * event) : counter * list (Z * Z * Z) :=
  let b := advance (fst e) (fst a) in
  match snd e with
  | EvIn _ => (mkCounter (inflight b + 1) (area b) (arrivals b + 1) (last_event b) (observed b), snd a)
  | EvOut _ => (mkCounter (inflight b - 1) (area b) (arrivals b) (last_event b) (observed b), snd a)
  | EvTick _ => (mkCounter (inflight b) 0 0 (last_event b) 0, snd a ++ [(area b, observed b, arrivals b)])
  end.

(** The report that the abstract triple stands for. *)
Definition report_of (x : Z * Z * Z) : RequestStatsReport :=
  let '(ar, obs, n) := x in
  mkReport (if 0 <? obs then fdiv (of_Z ar) (of_Z obs) else fzero) (of_Z n).

Definition event_time (e : Metric.event) : time :=
  match e with EvIn t | EvOut t | EvTick t => t end.

Definition represents (a : counter) (s : RequestStats) : Prop :=
  concurrency s = of_Z (inflight a) /\ concurrencyIntegral s = of_Z (area a) /\
  requestCount s = of_Z (arrivals a) /\ secondsInUse s = of_Z (observed a) /\
  lastChange s = match last_event a with None => zero_time | Some l => l * Second end.

(** Bounds after [k] events on a clock that starts at [T]. *)
Definition bounded (T k : Z) (a : counter) : Prop :=
  Z.abs (inflight a) <= k /\ 0 <= arrivals a <= k /\ 0 <= observed a /\
  Z.abs (area a) <= 2 ^ 20 * observed a /\
  match last_event a with None => observed a = 0 | Some l => T <= l <= T + 2 ^ 30 /\ observed a <= l - T end.

Lemma advance_refines T k t a s : 0 < T -> 0 <= k <= 2 ^ 20 -> T <= t <= T + 2 ^ 30 ->
  bounded T k a -> represents a s ->
  bounded T k (advance t a) /\ represents (advance t a) (Move (t * Second) s).
Proof.
  intros HT Hk Ht (B1 & B2 & B3 & B4 & B5) (R1 & R2 & R3 & R4 & R5).
  unfold advance, Move, time_is_zero. rewrite R5. destruct (last_event a) as [l|] eqn:El.
  - destruct B5 as [B5 B6]. destruct (Z.eqb_spec (l * Second) 0); [unfold Second in *; lia|].
    destruct (Z.ltb_spec l t) as [Hlt|Hge].
    + assert (time_sub (t * Second) (l * Second) = (t - l) * Second) as ->
        by (rewrite time_sub_exact; unfold Second; lia).
      rewrite (proj2 (Z.ltb_lt _ _)) by (unfold Second; lia).
      assert (Z.abs (inflight a * (t - l)) <= 2 ^ 20 * (t - l)) as Hp by (rewrite Z.abs_mul; nia).
      unfold bounded, represents. simpl. rewrite dur_seconds_whole by (unfold exact_int; lia).
      rewrite R1, R2, R4, fmul_of_Z_nonneg, !fadd_of_Z by (unfold exact_int; lia).
      split; [split_and!; lia|done].
    + destruct (Z.ltb_spec 0 (time_sub (t * Second) (l * Second))) as [Hs|_];
        [apply (proj1 (time_sub_pos _ _)) in Hs; unfold Second in Hs; lia|].
      unfold bounded, represents. rewrite El. split; split_and!; (done || lia).
  - unfold bounded, represents. simpl. split; split_and!; (done || lia).
Qed.

Lemma represents_reset a s : represents a s ->
  represents (mkCounter (inflight a) 0 0 (last_event a) 0) (reset s).
Proof. intros (R1 & R2 & R3 & R4 & R5). by split_and!. Qed.

Lemma event_refines T k t e a rs s out : 0 < T -> 0 <= k < 2 ^ 20 -> T <= t <= T + 2 ^ 30 ->
  event_time e = t * Second -> bounded T k a -> represents a s -> snd <$> out = report_of <$> rs ->
  let a' := event (a, rs) (t, e) in let s' := stats_event (s, out) e in
  bounded T (k + 1) (fst a') /\ represents (fst a') (fst s') /\ snd <$> snd s' = report_of <$> snd a'.
Proof.
  intros HT Hk Ht He B R O. destruct (advance_refines T k t a s) as [B' R']; [done|lia|done..|].
  destruct e as [now|now|now]; simpl in He; subst now; unfold event, stats_event, ReqIn, ReqOut, Report;
    cbn [fst snd]; generalize dependent (advance t a); intros b (B1 & B2 & B3 & B4 & B5) R';
    destruct R' as (R1 & R2 & R3 & R4 & R5); unfold represents, bounded; simpl;
    rewrite ?R1, ?R2, ?R3, ?R4, ?R5.
  1, 2: rewrite ?fadd_of_Z, ?fsub_of_Z by (unfold exact_int; lia); split; [|by split_and!];
    split_and!; try lia; destruct (last_event b); lia.
  split; [split_and!; try lia; destruct (last_event b); lia|]. split; [by split_and!|].
  rewrite !fmap_app, O. simpl. do 2 f_equal. unfold report_of. f_equal. change fzero with (of_Z 0).
  by rewrite flt_of_Z by (unfold exact_int; destruct (last_event b); lia).
Qed.

(** C23. Time-weighted averages: on a clock of whole seconds, over at most
    2^20 events within 2^30 seconds, the statistics implement the integer
    counter: every report's average concurrency is the correctly rounded
    quotient of the exact integral of the concurrency by the exact time
    observed (zero if no time was), its request count is exact, and a clock
    that goes backwards adds nothing. *)
Theorem report_is_time_weighted_average T key (es : list (Z * Metric.event)) :
  0 < T -> Z.of_nat (length es) <= 2 ^ 20 ->
  Forall (fun e => T <= fst e <= T + 2 ^ 30 /\ event_time (snd e) = fst e * Second) es ->
  let spec := foldl event (init, []) es in
  let impl := stats_run (NewRequestStats key) (snd <$> es) in
  represents (fst spec) (fst impl) /\ snd <$> snd impl = report_of <$> snd spec.
Proof.
  intros HT Hl Hf.
  cut (bounded T (Z.of_nat (length es)) (fst (foldl event (init, []) es)) /\
    represents (fst (foldl event (init, []) es)) (fst (stats_run (NewRequestStats key) (snd <$> es))) /\
    snd <$> snd (stats_run (NewRequestStats key) (snd <$> es)) = report_of <$> snd (foldl event (init, []) es));
    [intros (_ & H1 & H2); by split|].
  unfold stats_run. induction es as [|[t e] es IH] using rev_ind; [split_and!; simpl; done|].
  rewrite length_app in *. apply Forall_app in Hf as [Hf [[Ht He] _]%Forall_cons]. simpl in Hl, Ht, He.
  destruct IH as (B & R & O); [lia|done|]. rewrite fmap_app, !foldl_app. cbn [fmap list_fmap foldl snd].
  destruct (foldl event (init, []) es) as [a rs]. destruct (foldl stats_event _ _) as [s out].
  destruct (event_refines T (Z.of_nat (length es)) t e a rs s out) as (B' & R' & O'); [done|lia|done..|].
  split; [|done]. replace (Z.of_nat (length es + length [(t, e)])) with (Z.of_nat (length es) + 1)
    by (simpl; lia). done.
Qed.

(** Two requests of two and one seconds in a window of four: average 3/4. *)
Lemma report_is_time_weighted_average_witness :
  let es := [(10, EvIn (10 * Second)); (12, EvOut (12 * Second)); (13, EvIn (13 * Second));
             (14, EvTick (14 * Second))] in
  (snd <$> snd (stats_run (NewRequestStats "f") (snd <$> es))) = [mkReport (of_ratio 3 4) (of_Z 2)].
Proof.
  intros es. refine (eq_trans (proj2 (report_is_time_weighted_average 10 "f" es _ _ _)) _).
  - done.
  - done.
  - repeat (apply Forall_cons; split; [vm_compute; repeat split; discriminate|]). by apply Forall_nil.
  - vm_compute. reflexivity.
Defined.
End Weighted.
