(* ===== verification/Decider.v ===== *)
(** pkg/autoscaler/decider: the KPA decider (kpa.go) behind the Decider
    interface (interface.go): the float computation of the desired scale, the
    panic-mode state machine, the delay window, and the integer rule it
    implements. *)
From Stdlib Require Import Sorted.
From S2P Require Import Prelude F64 Workload Metric.

(** knative's max TimeWindow. *)
Class TimeWindow (W : Type) := {
  NewTimeWindow : duration -> duration -> W;
  RecordMax : time -> Z -> W -> W;
  Current : W -> Z
}.
(** What its documentation promises and the decider relies on: the current
    maximum covers the value just recorded. *)
Class TimeWindowLaws (W : Type) `{!TimeWindow W} := {
  current_covers : forall now v w, v <= Current (RecordMax now v w)
}.

Section KPA.
Context {B W : Type} `{!TimedFloat64Buckets B} `{!TimeWindow W}.

Record KPADecider := mkKPADecider {
  collector : Collector B;
  active : Z;
  targetValue : f64;
  maxScaleUpRate : f64;
  maxScaleDownRate : f64;
  stableWindow : duration;
  panicWindow : duration;
  panicThreshold : f64;
  delayWindow : option W;
  tickInterval : duration;
  panicTime : time;
  maxPanicPods : Z;
  desiredScale : Z
}.

Definition NewKPADecider (key : string) (target up down : f64) (stable panic : duration)
    (threshold : f64) (scaleDownDelay tick : duration) : KPADecider :=
  mkKPADecider (NewCollector key stable panic (1 * Second)) 0 target up down stable panic threshold
    (if 0 <? scaleDownDelay then Some (NewTimeWindow scaleDownDelay tick) else None)
    tick zero_time 0 0.

Definition set_collector (c : Collector B) (k : KPADecider) : KPADecider :=
  mkKPADecider c (active k) (targetValue k) (maxScaleUpRate k) (maxScaleDownRate k) (stableWindow k)
    (panicWindow k) (panicThreshold k) (delayWindow k) (tickInterval k) (panicTime k) (maxPanicPods k)
    (desiredScale k).
Definition set_active (a : Z) (k : KPADecider) : KPADecider :=
  mkKPADecider (collector k) a (targetValue k) (maxScaleUpRate k) (maxScaleDownRate k) (stableWindow k)
    (panicWindow k) (panicThreshold k) (delayWindow k) (tickInterval k) (panicTime k) (maxPanicPods k)
    (desiredScale k).
Definition set_panic (t : time) (m : Z) (k : KPADecider) : KPADecider :=
  mkKPADecider (collector k) (active k) (targetValue k) (maxScaleUpRate k) (maxScaleDownRate k)
    (stableWindow k) (panicWindow k) (panicThreshold k) (delayWindow k) (tickInterval k) t m (desiredScale k).
Definition set_delayWindow (w : option W) (k : KPADecider) : KPADecider :=
  mkKPADecider (collector k) (active k) (targetValue k) (maxScaleUpRate k) (maxScaleDownRate k)
    (stableWindow k) (panicWindow k) (panicThreshold k) w (tickInterval k) (panicTime k) (maxPanicPods k)
    (desiredScale k).
Definition set_desiredScale (n : Z) (k : KPADecider) : KPADecider :=
  mkKPADecider (collector k) (active k) (targetValue k) (maxScaleUpRate k) (maxScaleDownRate k)
    (stableWindow k) (panicWindow k) (panicThreshold k) (delayWindow k) (tickInterval k) (panicTime k)
    (maxPanicPods k) n.

(** The methods of the embedded collector. *)
Definition decider_ReqIn (now : time) (k : KPADecider) : KPADecider * f64 :=
  let '(s, c) := ReqIn now (stats (collector k)) in (set_collector (with_stats s (collector k)) k, c).
Definition decider_ReqOut (now : time) (k : KPADecider) : KPADecider * f64 :=
  let '(s, c) := ReqOut now (stats (collector k)) in (set_collector (with_stats s (collector k)) k, c).
Definition decider_tick (now : time) (k : KPADecider) : KPADecider :=
  set_collector (collect now (collector k)) k.

(** [atomic.CompareAndSwapInt32(&k.active, 0, 1)]; true also starts the
    collector's [Run]. *)
Definition Activate (k : KPADecider) : KPADecider * bool :=
  if active k =? 0 then (set_active 1 k, true) else (k, false).

(** [currentReady = int(math.Max(1, float64(currentReady)))] *)
Definition at_least_one (currentReady : Z) : Z := f2i (fmax (of_Z 1) (of_Z currentReady)).

(** The closure that computes [upperbound, lowerbound]. *)
Definition bounds (k : KPADecider) (isScalingFromZero : bool) (observedInstantValue : f64)
    (currentReady : Z) : f64 * f64 :=
  let up := fceil (fmul (maxScaleUpRate k) (of_Z currentReady)) in
  let low := ffloor (fdiv (of_Z currentReady) (maxScaleDownRate k)) in
  if isScalingFromZero && flt fzero observedInstantValue
  then (fmax up (of_Z 1), fmax low (of_Z 1)) else (up, low).

Definition podCount (dpc lowerbound upperbound : f64) : Z := f2i (fmin (fmax dpc lowerbound) upperbound).

(** Entering, extending and leaving panic mode. *)
Definition panic_transition (k : KPADecider) (now : time) (isOverPanicThreshold : bool) : KPADecider :=
  if time_is_zero (panicTime k) && isOverPanicThreshold then set_panic now (maxPanicPods k) k
  else if isOverPanicThreshold then set_panic now (maxPanicPods k) k
  else if negb (time_is_zero (panicTime k)) && negb isOverPanicThreshold &&
          time_before (time_add (panicTime k) (stableWindow k)) now
  then set_panic zero_time 0 k
  else k.

Definition apply_mode (k : KPADecider) (desiredStable desiredPanic : Z) : KPADecider * Z :=
  if negb (time_is_zero (panicTime k)) then
    let desired := if desiredStable <? desiredPanic then desiredPanic else desiredStable in
    let k := if maxPanicPods k <? desired then set_panic (panicTime k) desired k else k in
    (k, maxPanicPods k)
  else (k, desiredStable).

Definition apply_delay (k : KPADecider) (now : time) (desired : Z) : KPADecider * Z :=
  match delayWindow k with
  | Some w =>
      let w := RecordMax now (int32 desired) w in
      let k := set_delayWindow (Some w) k in
      let delayed := Current w in
      (k, if negb (delayed =? desired) then delayed else desired)
  | None => (k, desired)
  end.

(** The readings of one reconciliation and what follows from them. *)
Record decision := mkDecision {
  upperbound : f64;
  lowerbound : f64;
  dspc : f64;
  dppc : f64;
  overThreshold : bool
}.
Definition decide_scale (k : KPADecider) (now : time) (currentReady : Z) : decision :=
  let '(observedStableValue, observedPanicValue, observedInstantValue) :=
    StableAndPanicAndInstantConcurrency now (collector k) in
  let isScalingFromZero := currentReady =? 0 in
  let currentReady := at_least_one currentReady in
  let '(up, low) := bounds k isScalingFromZero observedInstantValue currentReady in
  let dspc := fceil (fdiv observedStableValue (targetValue k)) in
  let dppc := fceil (fdiv observedPanicValue (targetValue k)) in
  mkDecision up low dspc dppc (fle (panicThreshold k) (fdiv dppc (of_Z currentReady))).

Definition Reconcile (k : KPADecider) (now : time) (currentReady : Z) : KPADecider * res Z :=
  let r := decide_scale k now currentReady in
  let desiredStablePodCount := podCount (dspc r) (lowerbound r) (upperbound r) in
  let desiredPanicPodCount := podCount (dppc r) (lowerbound r) (upperbound r) in
  let k := panic_transition k now (overThreshold r) in
  let '(k, desired) := apply_mode k desiredStablePodCount desiredPanicPodCount in
  let '(k, desired) := apply_delay k now desired in
  (set_desiredScale (int32 desired) k, Ok desired).

Definition Desired (k : KPADecider) : Z := desiredScale k.

(** Everything that happens to a decider between its creation and shutdown. *)
Inductive label :=
| LIn (now : time)
| LOut (now : time)
| LTick (now : time)
| LActivate
| LReconcile (now : time) (currentReady : Z).

Definition step (k : KPADecider) (l : label) : option KPADecider :=
  match l with
  | LIn now => Some (fst (decider_ReqIn now k))
  | LOut now => Some (fst (decider_ReqOut now k))
  | LTick now => Some (decider_tick now k)
  | LActivate => Some (fst (Activate k))
  | LReconcile now r => Some (fst (Reconcile k now r))
  end.
End KPA.
Arguments KPADecider B W : clear implicits.

(** * The integer rule *)
Module Rule.
(** The panic state: since when the decider panics, and the most pods it has
    wanted since then. *)
Record state := mkState { panicking : option time; max_pods : Z }.

(** One decision for integer wants between integer bounds: clamp both wants,
    panic while the load is over the threshold and until [window] has passed
    since, and while panicking never go down. *)
Definition clamp (x lo up : Z) : Z := Z.min (Z.max x lo) up.
Definition next_panicking (window : duration) (now : time) (over : bool) (s : state) : state :=
  if over then mkState (Some now) (max_pods s)
  else match panicking s with
       | Some t => if t + window <? now then mkState None 0 else s
       | None => s
       end.
Definition decide (window : duration) (now : time) (stable panic lo up : Z) (over : bool) (s : state)
  : state * Z :=
  let s := next_panicking window now over s in
  match panicking s with
  | Some t =>
      let m := Z.max (max_pods s) (Z.max (clamp stable lo up) (clamp panic lo up)) in
      (mkState (Some t) m, m)
  | None => (s, clamp stable lo up)
  end.
End Rule.

Section Theorems.
Context {B W : Type} `{!TimedFloat64Buckets B} `{!TimeWindow W}.
Implicit Types k : KPADecider B W.

(** The rule's view of a decider. *)
Definition panic_state k : Rule.state :=
  Rule.mkState (if time_is_zero (panicTime k) then None else Some (panicTime k)) (maxPanicPods k).

Lemma panic_transition_rule k now over : now <> zero_time ->
  panic_state (panic_transition k now over) = Rule.next_panicking (stableWindow k) now over (panic_state k).
Proof.
  intros Hn. unfold panic_transition, panic_state, Rule.next_panicking, time_before, time_add, time_is_zero.
  destruct over; rewrite ?andb_true_r, ?andb_false_r; simpl.
  - destruct (Z.eqb_spec (panicTime k) 0); simpl; by rewrite (proj2 (Z.eqb_neq now 0)).
  - destruct (Z.eqb_spec (panicTime k) 0) as [E|E]; simpl.
    + by rewrite (proj2 (Z.eqb_eq _ _) E).
    + destruct (panicTime k + stableWindow k <? now); simpl; [done|].
      by rewrite (proj2 (Z.eqb_neq _ _) E).
Qed.

Lemma panic_transition_window k now over :
  stableWindow (panic_transition k now over) = stableWindow k /\
  delayWindow (panic_transition k now over) = delayWindow k.
Proof. unfold panic_transition. by repeat case_match. Qed.

Lemma apply_mode_rule k stable panic :
  let '(k', n) := apply_mode k stable panic in
  match Rule.panicking (panic_state k) with
  | Some t => n = Z.max (maxPanicPods k) (Z.max stable panic) /\ panic_state k' = Rule.mkState (Some t) n
  | None => n = stable /\ k' = k
  end /\ delayWindow k' = delayWindow k /\ stableWindow k' = stableWindow k.
Proof.
  unfold apply_mode, panic_state. destruct (time_is_zero (panicTime k)) eqn:E; simpl; [done|].
  destruct (Z.ltb_spec stable panic), (Z.ltb_spec (maxPanicPods k) panic), (Z.ltb_spec (maxPanicPods k) stable);
    simpl; rewrite E; split_and!; (done || lia || (f_equal; lia)).
Qed.

Definition fits_decision (r : decision) : Prop :=
  fits (dspc r) /\ fits (dppc r) /\ fits (lowerbound r) /\ fits (upperbound r).

(** The Reconcile of a decider without a delay window, in terms of the rule. *)
Lemma Reconcile_rule k now ready : now <> zero_time -> delayWindow k = None ->
  let r := decide_scale k now ready in
  let '(k', n) := Reconcile k now ready in
  let st := podCount (dspc r) (lowerbound r) (upperbound r) in
  let pa := podCount (dppc r) (lowerbound r) (upperbound r) in
  let s := Rule.next_panicking (stableWindow k) now (overThreshold r) (panic_state k) in
  exists z, n = Ok z /\ delayWindow k' = None /\ stableWindow k' = stableWindow k /\ desiredScale k' = int32 z /\
  match Rule.panicking s with
  | Some t => z = Z.max (Rule.max_pods s) (Z.max st pa) /\ panic_state k' = Rule.mkState (Some t) z
  | None => z = st /\ panic_state k' = s
  end.
Proof.
  intros Hn Hd r. unfold Reconcile. fold r.
  set (st := podCount (dspc r) (lowerbound r) (upperbound r)).
  set (pa := podCount (dppc r) (lowerbound r) (upperbound r)).
  pose proof (panic_transition_rule k now (overThreshold r) Hn) as Hp.
  pose proof (panic_transition_window k now (overThreshold r)) as [Hw Hdw].
  set (k1 := panic_transition k now (overThreshold r)) in *.
  pose proof (apply_mode_rule k1 st pa) as Hm. destruct (apply_mode k1 st pa) as [k2 n].
  destruct Hm as (Hm & Hd2 & Hw2). unfold apply_delay. rewrite Hd2, Hdw, Hd. cbv zeta.
  exists n. split; [done|]. simpl. split; [congruence|]. split; [congruence|]. split; [done|].
  rewrite <- Hp. destruct (Rule.panicking (panic_state k1)) eqn:E.
  - destruct Hm as [-> Hm]. by rewrite <- Hm.
  - by destruct Hm as [-> ->].
Qed.

(** C9. The KPA's float computation implements the integer rule: with no
    delay window, whenever the four rounded quantities of a reconciliation fit
    an int, the desired scale is that of [Rule.decide] on them converted to
    integers (clamped between floor(ready/maxScaleDownRate) and
    ceil(maxScaleUpRate*ready), never going down in panic mode, which lasts
    until the stable window has passed since the load was last over the
    threshold), and the decider's panic state moves as the rule says. *)
Theorem kpa_implements_rule k now ready :
  now <> zero_time -> delayWindow k = None -> fits_decision (decide_scale k now ready) ->
  let r := decide_scale k now ready in
  let '(k', n) := Reconcile k now ready in
  let '(s', z) := Rule.decide (stableWindow k) now (f2i (dspc r)) (f2i (dppc r))
                    (f2i (lowerbound r)) (f2i (upperbound r)) (overThreshold r) (panic_state k) in
  n = Ok z /\ panic_state k' = s' /\ Desired k' = int32 z.
Proof.
  intros Hn Hd (F1 & F2 & F3 & F4) r. pose proof (Reconcile_rule k now ready Hn Hd) as H.
  fold r in H, F1, F2, F3, F4. destruct (Reconcile k now ready) as [k' n].
  destruct H as (z & -> & _ & _ & Hz & H). unfold podCount in H.
  rewrite !f2i_clamp in H by done. unfold Rule.decide, Rule.clamp, Desired.
  destruct (Rule.panicking _) as [t|]; destruct H as [-> <-]; auto.
Qed.

Lemma podCount_at_least dpc low up n : fits dpc -> fits low -> fits up ->
  n <= f2i low -> n <= f2i up -> n <= podCount dpc low up.
Proof. intros. unfold podCount. rewrite f2i_clamp by done. lia. Qed.

(** The decision bounds once the target is scaled to zero under load. *)
Lemma bounds_from_zero k iv ready : flt fzero iv = true ->
  fits (fceil (fmul (maxScaleUpRate k) (of_Z ready))) -> fits (ffloor (fdiv (of_Z ready) (maxScaleDownRate k))) ->
  let '(up, low) := bounds k true iv ready in fits up /\ fits low /\ 1 <= f2i up /\ 1 <= f2i low.
Proof.
  intros Hl Hu Hd. unfold bounds. rewrite Hl. simpl.
  destruct (fits_max _ (of_Z 1) Hu) as [F1 E1]; [by apply fits_of_Z|].
  destruct (fits_max _ (of_Z 1) Hd) as [F2 E2]; [by apply fits_of_Z|].
  rewrite E1, E2, f2i_of_Z by done. split; [done|split; [done|lia]].
Qed.

Lemma podCount_at_most dpc low up : fits dpc -> fits low -> fits up -> podCount dpc low up <= f2i up.
Proof. intros. unfold podCount. rewrite f2i_clamp by done. lia. Qed.

Lemma panic_transition_pods k now over :
  maxPanicPods (panic_transition k now over) = maxPanicPods k \/ maxPanicPods (panic_transition k now over) = 0.
Proof. unfold panic_transition. repeat case_match; simpl; auto. Qed.

(** A scale-down delay only raises a decision that fits an int32. *)
Lemma apply_delay_raises `{!TimeWindowLaws W} k now n : 0 <= n < 2 ^ 31 -> n <= snd (apply_delay k now n).
Proof.
  intros Hn. unfold apply_delay. destruct (delayWindow k) as [w|]; simpl; [|done].
  rewrite int32_id by lia. pose proof (current_covers now n w). by destruct (_ =? n); simpl; [|lia].
Qed.

(** C33. Scaling from zero: a target with no ready pod and requests in flight
    is given at least one pod, in stable and in panic mode, with or without a
    scale-down delay, whatever the averages over the windows are (their
    quotients and the rate bounds only have to be finite and fit an int, and
    the upper bound and the panic maximum an int32). *)
Theorem scale_from_zero_at_least_one `{!TimeWindowLaws W} k now :
  flt fzero (InstantConcurrency (stats (collector k))) = true ->
  fits (dspc (decide_scale k now 0)) -> fits (dppc (decide_scale k now 0)) ->
  fits (fceil (fmul (maxScaleUpRate k) (of_Z 1))) -> fits (ffloor (fdiv (of_Z 1) (maxScaleDownRate k))) ->
  maxPanicPods k < 2 ^ 31 -> f2i (upperbound (decide_scale k now 0)) < 2 ^ 31 ->
  exists k' n, Reconcile k now 0 = (k', Ok n) /\ 1 <= n.
Proof.
  intros Hi F1 F2 Hu Hd Hm31 Hu31. unfold Reconcile. set (r := decide_scale k now 0) in *.
  assert (fits (upperbound r) /\ fits (lowerbound r) /\ 1 <= f2i (upperbound r) /\ 1 <= f2i (lowerbound r))
    as (Fu & Fl & Bu & Bl).
  { pose proof (bounds_from_zero k _ 1 Hi Hu Hd) as Hb. subst r.
    unfold decide_scale, StableAndPanicAndInstantConcurrency.
    change (at_least_one 0) with 1. change (0 =? 0) with true. by destruct (bounds k true _ 1). }
  set (st := podCount (dspc r) (lowerbound r) (upperbound r)).
  set (pa := podCount (dppc r) (lowerbound r) (upperbound r)).
  assert (1 <= st < 2 ^ 31) by (split; [by apply podCount_at_least|eapply Z.le_lt_trans; [by apply podCount_at_most|done]]).
  assert (1 <= pa < 2 ^ 31) by (split; [by apply podCount_at_least|eapply Z.le_lt_trans; [by apply podCount_at_most|done]]).
  pose proof (panic_transition_pods k now (overThreshold r)) as Hp.
  set (k1 := panic_transition k now (overThreshold r)) in *.
  pose proof (apply_mode_rule k1 st pa) as Hm. destruct (apply_mode k1 st pa) as [k2 n].
  assert (1 <= n < 2 ^ 31) by (destruct Hm as [Hm _]; destruct (Rule.panicking _); destruct Hm as [-> _]; lia).
  pose proof (apply_delay_raises k2 now n) as Hd2. destruct (apply_delay k2 now n) as [k3 n3]. simpl in Hd2.
  do 2 eexists. split; [reflexivity|]. lia.
Qed.

(** The scales a decider answers along a sequence of steps. *)
Fixpoint answers k (ls : list label) : list Z :=
  match ls with
  | [] => []
  | LReconcile now r :: ls' =>
      let '(k', n) := Reconcile k now r in
      match n with Ok z => z :: answers k' ls' | _ => answers k' ls' end
  | l :: ls' => match step k l with Some k' => answers k' ls' | None => [] end
  end.

Definition reconcile_time (l : label) : option time :=
  match l with LReconcile now _ => Some now | _ => None end.

(** Steps other than reconciliation leave the panic state alone. *)
Lemma step_other k l k' : reconcile_time l = None -> step k l = Some k' ->
  panicTime k' = panicTime k /\ maxPanicPods k' = maxPanicPods k /\ stableWindow k' = stableWindow k /\
  delayWindow k' = delayWindow k.
Proof.
  destruct l; intros H Hs; simplify_eq/=; unfold decider_ReqIn, decider_ReqOut, Activate; simpl; try done.
  by destruct (active k =? 0).
Qed.

Lemma panic_state_some k : panicTime k <> zero_time ->
  panic_state k = Rule.mkState (Some (panicTime k)) (maxPanicPods k).
Proof. intros H. unfold panic_state, time_is_zero. by rewrite (proj2 (Z.eqb_neq (panicTime k) 0) H). Qed.
Lemma panic_state_inv k t m : panic_state k = Rule.mkState (Some t) m ->
  panicTime k = t /\ panicTime k <> zero_time /\ maxPanicPods k = m.
Proof. unfold panic_state, time_is_zero. destruct (Z.eqb_spec (panicTime k) 0); intros; by simplify_eq. Qed.

(** A reconciliation inside the stable window of a panicking decider. *)
Definition in_panic (p w : Z) k : Prop :=
  p <= panicTime k /\ panicTime k <> zero_time /\ delayWindow k = None /\ stableWindow k = w.

Lemma panic_reconcile p w k now ready : in_panic p w k -> 0 < now -> p <= now <= p + w ->
  let '(k', n) := Reconcile k now ready in
  n = Ok (maxPanicPods k') /\ maxPanicPods k <= maxPanicPods k' /\ in_panic p w k'.
Proof.
  intros (Hp & Hz & Hd & Hs) Hn Hw.
  pose proof (Reconcile_rule k now ready ltac:(unfold zero_time; lia) Hd) as H.
  destruct (Reconcile k now ready) as [k' n]. destruct H as (z & -> & Hd' & Hw' & _ & H).
  rewrite panic_state_some in H by done. unfold Rule.next_panicking in H. cbn [Rule.panicking Rule.max_pods] in H.
  rewrite (proj2 (Z.ltb_ge (panicTime k + stableWindow k) now)) in H by lia. unfold in_panic.
  destruct (overThreshold _); cbn [Rule.panicking Rule.max_pods] in H;
    destruct H as [-> (-> & ? & ->)%panic_state_inv]; split_and!; (done || lia || congruence).
Qed.

Lemma panic_other p w k l k' : in_panic p w k -> reconcile_time l = None -> step k l = Some k' ->
  in_panic p w k' /\ maxPanicPods k' = maxPanicPods k /\ forall ls, answers k (l :: ls) = answers k' ls.
Proof.
  intros (Hp & Hz & Hd & Hs) Hl Hst. destruct (step_other k l k' Hl Hst) as (E1 & E2 & E3 & E4).
  unfold in_panic. rewrite E1, E2, E3, E4. split; [done|split; [done|]]. intros ls.
  by destruct l; simplify_eq/=.
Qed.

Lemma panic_run p w ls : forall k, in_panic p w k ->
  Forall (fun l => forall now, reconcile_time l = Some now -> 0 < now /\ p <= now <= p + w) ls ->
  exists k', run step k ls = Some k' /\ panicTime k' <> zero_time /\
    Sorted Z.le (maxPanicPods k :: answers k ls ++ [maxPanicPods k']).
Proof.
  induction ls as [|l ls IH]; intros k Hi Hf.
  - exists k. split; [done|]. split; [apply Hi|]. simpl. repeat constructor. lia.
  - apply Forall_cons in Hf as [Hl Hf]. destruct (reconcile_time l) as [now|] eqn:El.
    + destruct l as [| | | |now' r]; simplify_eq/=. destruct (Hl now eq_refl) as [Hn Hw].
      pose proof (panic_reconcile p w k now r Hi Hn Hw) as H. destruct (Reconcile k now r) as [k1 n].
      destruct H as (-> & Hle & Hi1). destruct (IH k1 Hi1 Hf) as (k' & Hr & Hz & Hsort).
      exists k'. split; [done|split; [done|]]. constructor; [done|]. by constructor.
    + destruct (step k l) as [k1|] eqn:Es; [|by destruct l].
      destruct (panic_other p w k l k1 Hi El Es) as (Hi1 & Hm & Ha).
      destruct (IH k1 Hi1 Hf) as (k' & Hr & Hz & Hsort). exists k'.
      cbn [run]. rewrite Es, Ha, <- Hm. done.
Qed.

(** C26. Panic mode never scales down and outlives the surge: from a panicking
    decider without delay window, along any interleaving of requests, ticks,
    activations and reconciliations at times within the stable window after
    the last reading over the threshold, the decider stays in panic mode and
    its answers never decrease, starting from the most pods wanted so far. *)
Theorem panic_never_scales_down k ls :
  panicTime k <> zero_time -> delayWindow k = None ->
  Forall (fun l => forall now, reconcile_time l = Some now ->
            0 < now /\ panicTime k <= now <= panicTime k + stableWindow k) ls ->
  exists k', run step k ls = Some k' /\ panicTime k' <> zero_time /\
    Sorted Z.le (maxPanicPods k :: answers k ls ++ [maxPanicPods k']).
Proof. intros Hz Hd. apply panic_run. by split_and!. Qed.
End Theorems.

(** * Witnesses: windows that answer with the last value recorded, and a delay
    window that remembers the maximum *)
Module Demo.
#[local] Instance last_buckets : TimedFloat64Buckets (list f64) := {
  NewTimedFloat64Buckets _ _ := [];
  Record_ _ v b := b ++ [v];
  WindowAverage _ b := default fzero (last b)
}.
#[local] Instance max_window : TimeWindow Z := {
  NewTimeWindow _ _ := 0;
  RecordMax _ v w := Z.max v w;
  Current w := w
}.
#[local] Instance max_window_laws : TimeWindowLaws Z.
Proof. constructor. intros now v w. simpl. lia. Qed.

(** Target one request per pod, as fast up as 1000, down by half, windows of
    60 and 6 seconds, panic at twice the capacity. *)
Definition fresh (delay : duration) : KPADecider (list f64) Z :=
  NewKPADecider "default/f" (of_Z 1) (of_Z 1000) (of_Z 2) (60 * Second) (6 * Second) (of_Z 2)
    delay (2 * Second).
(** Three requests arrive at once and are sampled a second later. *)
Definition surge (delay : duration) : KPADecider (list f64) Z :=
  default (fresh delay) (run step (fresh delay)
    [LIn (100 * Second); LIn (100 * Second); LIn (100 * Second); LTick (101 * Second)]).

Lemma fits_compute x : fvalid x = true -> is_finite x = true ->
  (- (2 ^ 63 * fscale) <=? fz x) && (fz x <? 2 ^ 63 * fscale) = true -> fits x.
Proof. intros. split; [done|split; [done|]]. lia. Qed.
Ltac fits_tac := apply fits_compute; vm_compute; reflexivity.

Lemma kpa_implements_rule_witness :
  exists k', Reconcile (surge 0) (102 * Second) 1 = (k', Ok 3) /\
    panic_state k' = Rule.mkState (Some (102 * Second)) 3 /\ Desired k' = 3.
Proof.
  assert (H : fits_decision (decide_scale (surge 0) (102 * Second) 1))
    by (split; [fits_tac|split; [fits_tac|split; fits_tac]]).
  apply (kpa_implements_rule (surge 0) (102 * Second) 1) in H; [|done|vm_compute; reflexivity].
  cbv zeta in H. destruct (Reconcile (surge 0) (102 * Second) 1) as [k' n]. exists k'.
  destruct (Rule.decide _ _ _ _ _ _ _ _) as [s' z] eqn:E in H. vm_compute in E. injection E as <- <-.
  destruct H as (-> & Hp & Hd). auto.
Defined.

Lemma scale_from_zero_at_least_one_witness :
  exists k' n, Reconcile (surge (30 * Second)) (102 * Second) 0 = (k', Ok n) /\ 1 <= n.
Proof.
  refine (scale_from_zero_at_least_one (surge (30 * Second)) (102 * Second) _ _ _ _ _ _ _);
    [vm_compute; reflexivity|fits_tac|fits_tac|fits_tac|fits_tac|vm_compute; reflexivity|vm_compute; reflexivity].
Defined.

(** The surge is over and the target has three ready pods; the decider that
    panicked with three stays there. *)
Definition panicking : KPADecider (list f64) Z := fst (Reconcile (surge 0) (102 * Second) 1).
Lemma panic_never_scales_down_witness :
  exists k', run step panicking [LOut (103 * Second); LOut (103 * Second); LOut (103 * Second);
      LTick (104 * Second); LTick (105 * Second); LReconcile (105 * Second) 3; LReconcile (107 * Second) 3] = Some k' /\
    panicTime k' <> zero_time /\
    Sorted Z.le (3 :: [3; 3] ++ [maxPanicPods k']).
Proof.
  refine (panic_never_scales_down panicking [LOut (103 * Second); LOut (103 * Second); LOut (103 * Second);
      LTick (104 * Second); LTick (105 * Second); LReconcile (105 * Second) 3; LReconcile (107 * Second) 3] _ _ _).
  - vm_compute. discriminate.
  - vm_compute. reflexivity.
  - repeat (apply Forall_cons; split; [intros now E; vm_compute in E; simplify_eq;
      vm_compute; repeat split; discriminate|]). by apply Forall_nil.
Defined.
End Demo.
