(* ===== verification/Scaler.v ===== *)
(** pkg/autoscaler/scaler: the Scaler interface (interface.go) and the
    deployment scaler (deployment.go).  The API server behind the
    controller-runtime client appears as a class. *)
From S2P Require Import Prelude F64 Workload.
Import Selection.

(** What the code reads of an apps/v1 Deployment. *)
Record Deployment := mkDeployment {
  dep_namespace : string;
  dep_name : string;
  DeletionTimestamp : option time;
  Replicas : option Z;
  template_labels : gmap string string
}.

Definition with_replicas (r : Z) (d : Deployment) : Deployment :=
  mkDeployment (dep_namespace d) (dep_name d) (DeletionTimestamp d) (Some r) (template_labels d).

(** The calls made on the client, on a state [S] of the API server and of the
    client: the manager's client reads from a cache and writes to the server.
    A failed call may have changed the state. *)
Class Client (S : Type) := {
  GetDeployment : S -> NamespacedName -> res Deployment;
  UpdateScale : S -> Deployment -> Z -> S * res unit
}.
(** What the API server has stored, whatever the client's reads show: a
    successful update sets the count of the named deployment there and touches
    no other.  Nothing is said of a read after a write, since the cache may be
    behind. *)
Class ClientLaws (S : Type) `{!Client S} := {
  stored : S -> NamespacedName -> option Deployment;
  get_name : forall s n d, GetDeployment s n = Ok d -> mkNamespacedName (dep_namespace d) (dep_name d) = n;
  update_stored : forall s n d r s', GetDeployment s n = Ok d -> UpdateScale s d r = (s', Ok tt) ->
    exists d0, stored s n = Some d0 /\ stored s' n = Some (with_replicas r d0);
  update_others : forall s n n' d r s', GetDeployment s n = Ok d -> n <> n' -> UpdateScale s d r = (s', Ok tt) ->
    stored s' n' = stored s n'
}.

(** The Scaler interface, and what an autoscaler relies on: after a scaling
    call that reports a change the target has the wanted replica count; one
    that reports none has changed nothing, because the target was read with
    that count. *)
Class Scaler (S : Type) := { Scale : S -> string -> Z -> S * res bool }.
Class ScalerLaws (S : Type) `{!Scaler S} := {
  replicas : S -> string -> option Z;         (* what the API server has *)
  read_replicas : S -> string -> option Z;    (* what the scaler reads *)
  scale_changed : forall s key n s', Scale s key n = (s', Ok true) -> replicas s' key = Some (int32 n);
  scale_unchanged : forall s key n s', Scale s key n = (s', Ok false) ->
    s' = s /\ read_replicas s key = Some (int32 n)
}.
(** A call without an error. *)
Definition scaled_to {S : Type} `{!Scaler S} `{!ScalerLaws S} (s : S) (key : string) (n : Z) (s' : S) (changed : bool) : Prop :=
  if changed then replicas s' key = Some (int32 n) else s' = s /\ read_replicas s key = Some (int32 n).
Lemma scale_ok {S : Type} `{!Scaler S} `{!ScalerLaws S} (s : S) key n s' b : Scale s key n = (s', Ok b) -> scaled_to s key n s' b.
Proof. destruct b; [apply scale_changed|apply scale_unchanged]. Qed.

Section DeploymentScaler.
Context {S : Type} `{!Client S}.

Definition DeploymentScaler_Scale (s : S) (key : string) (desired : Z) : S * res bool :=
  match NamespacedNameFromKey key ≫= GetDeployment s with
  | Ok deployment =>
      match DeletionTimestamp deployment with
      | Some _ => (s, Err ("deployment " +:+ key +:+ " is being deleted"))
      | None =>
          if bool_decide (Replicas deployment = Some (int32 desired)) then (s, Ok false)
          else
            let '(s', err) := UpdateScale s deployment (int32 desired) in
            (s', match err with
                 | Ok _ => Ok true
                 | Err e => Err e
                 | Panic e => Panic e
                 | Fatal e => Fatal e
                 end)
      end
  | Err e => (s, Err ("failed to get deployment " +:+ key +:+ ": " +:+ e))
  | Panic e => (s, Panic e)
  | Fatal e => (s, Fatal e)
  end.

#[export] Instance NewDeploymentScaler : Scaler S := { Scale := DeploymentScaler_Scale }.
End DeploymentScaler.

(** ** Properties *)
Section Properties.
Context {S : Type} `{!Client S} `{!ClientLaws S}.

Definition count_of (d : option Deployment) : option Z := d ≫= Replicas.
Definition deployment_replicas (s : S) (key : string) : option Z :=
  match NamespacedNameFromKey key with Ok n => count_of (stored s n) | _ => None end.
Definition deployment_read (s : S) (key : string) : option Z :=
  match NamespacedNameFromKey key ≫= GetDeployment s with Ok d => Replicas d | _ => None end.

Lemma Scale_ok_deployment (s : S) key desired s' b :
  Scale s key desired = (s', Ok b) ->
  exists n d, NamespacedNameFromKey key = Ok n /\ GetDeployment s n = Ok d /\ DeletionTimestamp d = None /\
    (b = bool_decide (Replicas d <> Some (int32 desired))) /\
    if b then (exists d0, stored s n = Some d0 /\ stored s' n = Some (with_replicas (int32 desired) d0)) /\
              (forall n', n <> n' -> stored s' n' = stored s n')
    else s' = s.
Proof.
  simpl. unfold DeploymentScaler_Scale.
  destruct (NamespacedNameFromKey key) as [n|e|e|e]; simpl; [|done..].
  destruct (GetDeployment s n) as [d|e|e|e] eqn:Hg; [|done..].
  destruct (DeletionTimestamp d) eqn:Hd; [done|]. case_bool_decide as Hr.
  - intros [= <- <-]. exists n, d. by rewrite bool_decide_eq_false_2 by auto.
  - destruct (UpdateScale s d (int32 desired)) as [s1 [[]|e|e|e]] eqn:Hu; intros [= <- <-].
    exists n, d. rewrite bool_decide_eq_true_2 by done. split_and!; try done.
    + by eapply update_stored.
    + intros n' Hne. by eapply update_others.
Qed.

#[export] Instance deployment_scaler_laws : ScalerLaws S.
Proof.
  refine {| replicas := deployment_replicas; read_replicas := deployment_read |}.
  - intros s key n s' H. apply Scale_ok_deployment in H as (nn & d & Hn & _ & _ & _ & (d0 & _ & H0) & _).
    unfold deployment_replicas. by rewrite Hn, H0.
  - intros s key n s' H. apply Scale_ok_deployment in H as (nn & d & Hn & Hg & _ & Hb & ->). split; [done|].
    unfold deployment_read. rewrite Hn. simpl. rewrite Hg. symmetry in Hb. apply bool_decide_eq_false in Hb.
    by apply dec_stable.
Defined.

Lemma Scale_failed (s : S) key desired n s' r :
  NamespacedNameFromKey key = Ok n -> Scale s key desired = (s', r) -> is_ok r = false ->
  s' = s \/ exists d, GetDeployment s n = Ok d /\ DeletionTimestamp d = None /\
              Replicas d <> Some (int32 desired) /\ fst (UpdateScale s d (int32 desired)) = s'.
Proof.
  intros Hn E Hr. simpl in E. unfold DeploymentScaler_Scale in E. rewrite Hn in E. simpl in E.
  destruct (GetDeployment s n) as [d|e|e|e]; [|simplify_eq; by left..].
  destruct (DeletionTimestamp d) eqn:Hd; [simplify_eq; by left|].
  case_bool_decide; [by simplify_eq|].
  destruct (UpdateScale s d (int32 desired)) as [s1 u] eqn:Hu; simplify_eq/=.
  right. exists d. by rewrite Hu.
Qed.

(** C30. A scaling call does nothing or exactly what it was asked, by what it
    reads.  It reports a change only if the deployment was read with another
    count and is not being deleted, and after the API server accepted the
    write; then the server has the desired count (as an int32) for it, its
    other fields and all other deployments are as they were, and once the
    client reads what the server has the same call is answered false without a
    write.  It reports no change, and writes nothing, exactly when the
    deployment is read with the count, whatever the server has: the client's
    cache may be behind.  A call that fails has changed nothing unless the
    write itself failed. *)
Theorem scale_exact (s : S) key desired n :
  NamespacedNameFromKey key = Ok n ->
  let '(s', r) := DeploymentScaler_Scale s key desired in
  match r with
  | Ok true =>
      (exists d, GetDeployment s n = Ok d /\ DeletionTimestamp d = None /\ Replicas d <> Some (int32 desired)) /\
      (exists d, stored s n = Some d /\ stored s' n = Some (with_replicas (int32 desired) d)) /\
      (forall n', n <> n' -> stored s' n' = stored s n') /\
      (forall s1 d1, GetDeployment s1 n = Ok d1 -> stored s' n = Some d1 -> DeletionTimestamp d1 = None ->
         DeploymentScaler_Scale s1 key desired = (s1, Ok false))
  | Ok false => s' = s
  | _ => s' = s \/
      exists d, GetDeployment s n = Ok d /\ DeletionTimestamp d = None /\
        Replicas d <> Some (int32 desired) /\ fst (UpdateScale s d (int32 desired)) = s'
  end /\
  (r = Ok false <->
     exists d, GetDeployment s n = Ok d /\ DeletionTimestamp d = None /\ Replicas d = Some (int32 desired)).
Proof.
  intros Hn. change DeploymentScaler_Scale with (Scale (S := S)).
  assert (forall s1 d1, GetDeployment s1 n = Ok d1 -> DeletionTimestamp d1 = None -> Replicas d1 = Some (int32 desired) ->
    Scale s1 key desired = (s1, Ok false)) as Hread.
  { intros s1 d1 Hg Hd Hr. simpl. unfold DeploymentScaler_Scale. rewrite Hn. simpl. by rewrite Hg, Hd, bool_decide_true. }
  destruct (Scale s key desired) as [s' r] eqn:E. split.
  - destruct r as [[]|e|e|e]; [| |by apply (Scale_failed s key desired n _ _ Hn E)..].
    + apply Scale_ok_deployment in E as (n' & d & Hn' & Hg & Hd & Hb & (d0 & H0 & H1) & Ho).
      assert (n' = n) as -> by congruence. symmetry in Hb. apply bool_decide_eq_true in Hb. split; [by exists d|]. split; [by exists d0|]. split; [done|].
      intros s1 d1 Hg1 H1' Hd1. apply (Hread s1 d1); [done..|]. rewrite H1 in H1'. by injection H1' as <-.
    + by apply Scale_ok_deployment in E as (n' & d & _ & _ & _ & _ & ->).
  - split.
    + intros ->. apply Scale_ok_deployment in E as (n' & d & Hn' & Hg & Hd & Hb & _).
      assert (n' = n) as -> by congruence. exists d. symmetry in Hb. apply bool_decide_eq_false in Hb. split; [done|]. split; [done|]. by apply dec_stable.
    + intros (d & Hg & Hd & Hr). rewrite (Hread s d Hg Hd Hr) in E. by injection E as _ <-.
Qed.
End Properties.

(** An API server that holds its deployments in a map and accepts every
    update. *)
Module MapServer.
Definition server := string -> string -> option Deployment.
#[local] Instance map_client : Client server := {
  GetDeployment s n :=
    match s (Namespace n) (Name n) with
    | Some d => Ok (mkDeployment (Namespace n) (Name n) (DeletionTimestamp d) (Replicas d) (template_labels d))
    | None => Err "not found"
    end;
  UpdateScale s d r :=
    (fun ns name =>
       if decide (ns = dep_namespace d /\ name = dep_name d)
       then Some (mkDeployment ns name (DeletionTimestamp d) (Some r) (template_labels d)) else s ns name, Ok tt)
}.
#[local] Instance map_client_laws : ClientLaws server.
Proof.
  refine {| stored s n :=
    (fun d => mkDeployment (Namespace n) (Name n) (DeletionTimestamp d) (Replicas d) (template_labels d)) <$> s (Namespace n) (Name n) |}.
  - intros s [ns nm] d H. simpl in H. destruct (s ns nm); by simplify_eq/=.
  - intros s [ns nm] d r s' H Hu. simpl in *. destruct (s ns nm) eqn:E; simplify_eq/=. eexists. split; [done|].
    by rewrite decide_True.
  - intros s [ns nm] [ns' nm'] d r s' H Hne Hu. simpl in *. destruct (s ns nm) eqn:E; simplify_eq/=.
    rewrite decide_False; [done|]. intros [-> ->]. done.
Defined.

Definition demo : server := fun ns nm =>
  if decide (ns = "default" /\ nm = "f") then Some (mkDeployment ns nm None (Some 1) ∅) else None.

End MapServer.

(** A client that reads from a cache, which is behind the server. *)
Module CachedServer.
Import MapServer.
#[local] Existing Instance map_client.
#[local] Existing Instance map_client_laws.
Record state := mkState { cache : server; store : server }.
#[local] Instance cached_client : Client state := {
  GetDeployment s n := GetDeployment (cache s) n;
  UpdateScale s d r :=
    match store s (dep_namespace d) (dep_name d) with
    | Some d0 =>
        (mkState (cache s) (fst (UpdateScale (store s)
           (mkDeployment (dep_namespace d) (dep_name d) (DeletionTimestamp d0) (Replicas d0) (template_labels d0)) r)), Ok tt)
    | None => (s, Err "not found")
    end
}.
#[local] Instance cached_client_laws : ClientLaws state.
Proof.
  refine {| stored s n := stored (store s) n |}.
  - intros s n d. apply (get_name (S := server)).
  - intros s n d r s' H Hu. apply (get_name (S := server)) in H as <-. cbn [UpdateScale cached_client] in Hu.
    destruct (store s (dep_namespace d) (dep_name d)) as [d0|] eqn:E; [|done]. injection Hu as <-. cbn [store].
    apply (update_stored (S := server) _ _ (mkDeployment (dep_namespace d) (dep_name d) (DeletionTimestamp d0) (Replicas d0)
      (template_labels d0))); [simpl; by rewrite E|apply surjective_pairing].
  - intros s n n' d r s' H Hne Hu. apply (get_name (S := server)) in H as <-. cbn [UpdateScale cached_client] in Hu.
    destruct (store s (dep_namespace d) (dep_name d)) as [d0|] eqn:E; [|done]. injection Hu as <-. cbn [store].
    apply (update_others (S := server) _ (mkNamespacedName (dep_namespace d) (dep_name d)) _
      (mkDeployment (dep_namespace d) (dep_name d) (DeletionTimestamp d0) (Replicas d0) (template_labels d0)) r); [simpl; by rewrite E|done|].
    apply surjective_pairing.
Defined.

(** One pod is wanted of a deployment that the cache shows with one and the
    server has with none; three are, and the cache catches up. *)
Definition scaled_down : server := fun ns nm =>
  if decide (ns = "default" /\ nm = "f") then Some (mkDeployment ns nm None (Some 0) ∅) else None.
Definition behind : state := mkState demo scaled_down.
Definition f : NamespacedName := mkNamespacedName "default" "f".

Lemma scale_exact_witness :
  (DeploymentScaler_Scale behind "default/f" 1 = (behind, Ok false) /\ count_of (stored behind f) = Some 0) /\
  let '(s', r) := DeploymentScaler_Scale behind "default/f" 3 in
  r = Ok true /\ count_of (stored s' f) = Some 3 /\
  DeploymentScaler_Scale (mkState (store s') (store s')) "default/f" 3 = (mkState (store s') (store s'), Ok false).
Proof.
  split.
  - pose proof (scale_exact behind "default/f" 1 f eq_refl) as H.
    destruct (DeploymentScaler_Scale behind "default/f" 1) as [s' r] eqn:E. destruct H as [H1 H2].
    assert (r = Ok false) as -> by (apply H2; eexists; split_and!; vm_compute; reflexivity).
    split; [by rewrite H1|vm_compute; reflexivity].
  - pose proof (scale_exact behind "default/f" 3 f eq_refl) as H.
    destruct (DeploymentScaler_Scale behind "default/f" 3) as [s' r] eqn:E. assert (r = Ok true) as -> by (vm_compute in E; congruence).
    destruct H as [(_ & (d & Hd & Hd') & _ & Hagain) _]. split; [reflexivity|]. split; [rewrite Hd'; reflexivity|].
    apply (Hagain _ (with_replicas (int32 3) d)); [|exact Hd'|vm_compute in Hd; injection Hd as <-; reflexivity].
    unfold stored in Hd'. simpl in Hd'. simpl.
    destruct (store s' "default" "f"); [|discriminate Hd']. simpl in Hd'. congruence.
Defined.
End CachedServer.
