(* ===== verification/Autoscaler.v ===== *)
(** pkg/autoscaler: the autoscaler shared by all deciders (interface.go), the
    Knative autoscaler's configuration (kpa.go) and the one-time autoscaler
    (onetime.go).  Deciders and scalers are used through their interfaces. *)
From S2P Require Import Prelude F64 Workload Metric Decider Scaler.
Import Selection Types.

(** * The Decider interface *)
Class Decider (D : Type) := {
  dec_ReqIn : time -> D -> D * f64;
  dec_ReqOut : time -> D -> D * f64;
  dec_Activate : D -> D * bool;
  dec_Reconcile : D -> time -> Z -> D * res Z;
  dec_Desired : D -> Z
}.
(** What the autoscaler relies on: activation answers true exactly once. *)
Class DeciderLaws (D : Type) `{!Decider D} := {
  activated : D -> bool;
  activate_once : forall d, snd (dec_Activate d) = negb (activated d) /\ activated (fst (dec_Activate d)) = true;
  reqin_activated : forall now d, activated (fst (dec_ReqIn now d)) = activated d;
  reqout_activated : forall now d, activated (fst (dec_ReqOut now d)) = activated d;
  reconcile_activated : forall d now n, activated (fst (dec_Reconcile d now n)) = activated d
}.

Section KPAInstance.
Context {B W : Type} `{!TimedFloat64Buckets B} `{!TimeWindow W}.

#[export] Instance kpa_decider : Decider (KPADecider B W) := {
  dec_ReqIn := decider_ReqIn;
  dec_ReqOut := decider_ReqOut;
  dec_Activate := Activate;
  dec_Reconcile := Reconcile;
  dec_Desired := Desired
}.

#[export] Instance kpa_decider_laws : DeciderLaws (KPADecider B W).
Proof.
  refine {| activated := fun k => negb (active k =? 0) |}; simpl.
  - intros d. unfold Activate. by destruct (active d =? 0) eqn:E; simpl; rewrite ?E.
  - done.
  - done.
  - intros k now n. unfold Reconcile. set (r := decide_scale k now n). clearbody r.
    unfold panic_transition. repeat case_match; unfold apply_mode in *; repeat case_match; simplify_eq/=;
      unfold apply_delay in *; repeat case_match; by simplify_eq/=.
Defined.
End KPAInstance.

(** * interface.go: autoscalerImpl *)

(** The pods of a target, as the client lists them; readiness is
    kubedirect's [IsPodReady]. *)
Class PodLister (S : Type) := {
  Pod : Type;
  ListPods : S -> string -> gmap string string -> res (list Pod);
  IsPodReady : Pod -> bool
}.
(** The workqueue, which merges the keys waiting in it. *)
Class WorkQueue (Q : Type) := {
  Add : string -> Q -> Q;
  Done : string -> Q -> Q;
  Forget : string -> Q -> Q
}.

Module Impl.
Section Operations.
Context {D Q S : Type} `{!Decider D} `{!WorkQueue Q} `{!Client S} `{!PodLister S} `{!Scaler S}.

(** [tickers] lists the keys whose ticker goroutine has been started. *)
Record autoscalerImpl := mkImpl {
  framework : string;
  async : bool;
  tickInterval : duration;
  deciders : gmap string D;
  queue : Q;
  started : bool;
  tickers : list string
}.

Definition set_decider (key : string) (d : D) (s : autoscalerImpl) : autoscalerImpl :=
  mkImpl (framework s) (async s) (tickInterval s) (<[key := d]> (deciders s)) (queue s) (started s) (tickers s).
Definition set_queue (q : Q) (s : autoscalerImpl) : autoscalerImpl :=
  mkImpl (framework s) (async s) (tickInterval s) (deciders s) q (started s) (tickers s).
Definition add_ticker (key : string) (s : autoscalerImpl) : autoscalerImpl :=
  mkImpl (framework s) (async s) (tickInterval s) (deciders s) (queue s) (started s) (tickers s ++ [key]).

(** [Run] until it blocks. *)
Definition Run (s : autoscalerImpl) : autoscalerImpl :=
  mkImpl (framework s) (async s) (tickInterval s) (deciders s) (queue s) true (tickers s).

(** [ReqIn]; [now] is the clock read by the decider. *)
Definition ReqIn (s : autoscalerImpl) (now : time) (req : Request) : res autoscalerImpl :=
  if negb (started s) then Panic "autoscaler not started"
  else
    let key := Target req in
    match deciders s !! key with
    | None => Panic ("Req in id " +:+ ID req +:+ ": no decider for key " +:+ key)
    | Some d =>
        let d := fst (dec_ReqIn now d) in
        let '(d, first) := dec_Activate d in
        let s := set_decider key d s in
        let s := if first : bool then add_ticker key s else s in
        Ok (if negb (async s) && (dec_Desired d =? 0) then set_queue (Add key (queue s)) s else s)
    end.

Definition ReqOut (s : autoscalerImpl) (now : time) (r : Response) : res autoscalerImpl :=
  if negb (started s) then Panic "autoscaler not started"
  else
    let key := Target (Source r) in
    match deciders s !! key with
    | None => Panic ("Req out id " +:+ ID (Source r) +:+ ": no decider for key " +:+ key)
    | Some d => Ok (set_decider key (fst (dec_ReqOut now d)) s)
    end.

(** One tick of [tickAutoScaler(key)]. *)
Definition tickAutoScaler (key : string) (s : autoscalerImpl) : autoscalerImpl :=
  set_queue (Add key (queue s)) s.

Definition count_ready (pods : list Pod) : Z := Z.of_nat (length (filter (fun p => IsPodReady p = true) pods)).

(** [scale]; [now] is the clock read for the decider. *)
Definition scale (s : autoscalerImpl) (api : S) (now : time) (key : string)
  : autoscalerImpl * S * res unit :=
  match deciders s !! key with
  | None => (s, api, Panic ("Scaling error: no decider for key " +:+ key))
  | Some d =>
      match wrap_err ("failed to get deployment " +:+ key +:+ ": ")
              (NamespacedNameFromKey key ≫= GetDeployment api) with
      | Ok target =>
          match wrap_err ("failed to list pods for key " +:+ key +:+ ": ")
                  (ListPods api (dep_namespace target) (template_labels target)) with
          | Ok pods =>
              let '(d, desired) := dec_Reconcile d now (count_ready pods) in
              let s := set_decider key d s in
              match wrap_err ("failed to get desired scale for key " +:+ key +:+ ": ") desired with
              | Ok desired =>
                  let '(api, scaled) := Scale api key desired in
                  match wrap_err ("failed to scale " +:+ key +:+ ": ") scaled with
                  | Ok changed =>
                      match changed : bool, Replicas target with
                      | true, None => (s, api, Panic "invalid memory address or nil pointer dereference")
                      | _, _ => (s, api, Ok tt)
                      end
                  | Err e => (s, api, Err e)
                  | Panic e => (s, api, Panic e)
                  | Fatal e => (s, api, Fatal e)
                  end
              | Err e => (s, api, Err e)
              | Panic e => (s, api, Panic e)
              | Fatal e => (s, api, Fatal e)
              end
          | Err e => (s, api, Err e)
          | Panic e => (s, api, Panic e)
          | Fatal e => (s, api, Fatal e)
          end
      | Err e => (s, api, Err e)
      | Panic e => (s, api, Panic e)
      | Fatal e => (s, api, Fatal e)
      end
  end.

(** [processNextItem] after [queue.Get]: [None] is the shutdown; the deferred
    [Forget] and [Done] run on every way out. *)
Definition processNextItem (s : autoscalerImpl) (api : S) (now : time) (item : option string)
  : autoscalerImpl * S * res bool :=
  match item with
  | None => (s, api, Ok false)
  | Some key =>
      let '(s, api, err) := scale s api now key in
      (set_queue (Done key (Forget key (queue s))) s, api,
       match err with
       | Ok _ => Ok true
       | Err e => if str_contains "mvcc" e then Panic e else Ok true
       | Panic e => Panic e
       | Fatal e => Fatal e
       end)
  end.

(** [workerLoop] over the answers of successive calls of [Get], with the
    clocks; [None]: it waits for the next one. *)
Fixpoint workerLoop (s : autoscalerImpl) (api : S) (gets : list (time * option string))
  : autoscalerImpl * S * option (res unit) :=
  match gets with
  | [] => (s, api, None)
  | (now, item) :: gets =>
      let '(s, api, r) := processNextItem s api now item in
      match r with
      | Ok true => workerLoop s api gets
      | Ok false => (s, api, Some (Ok tt))
      | Err e => (s, api, Some (Err e))
      | Panic e => (s, api, Some (Panic e))
      | Fatal e => (s, api, Some (Fatal e))
      end
  end.

(** What happens to a running autoscaler. *)
Inductive label :=
| LReqIn (now : time) (req : Request)
| LReqOut (now : time) (r : Response)
| LTicker (key : string)
| LWorker (now : time) (key : string).

Definition step (st : autoscalerImpl * S) (l : label) : option (autoscalerImpl * S) :=
  let '(s, api) := st in
  match l with
  | LReqIn now req => match ReqIn s now req with Ok s => Some (s, api) | _ => None end
  | LReqOut now r => match ReqOut s now r with Ok s => Some (s, api) | _ => None end
  | LTicker key => if decide (key ∈ tickers s) then Some (tickAutoScaler key s, api) else None
  | LWorker now key =>
      let '(s, api, r) := processNextItem s api now (Some key) in
      match r with Ok _ => Some (s, api) | _ => None end
  end.
End Operations.
#[global] Arguments autoscalerImpl D Q : clear implicits.
End Impl.
Export Impl.

(** A worker that is still in its loop has taken worker steps, one per item. *)
Lemma workerLoop_run {D Q S : Type} `{!Decider D} `{!WorkQueue Q} `{!Client S} `{!PodLister S} `{!Scaler S}
    (s : autoscalerImpl D Q) (api : S) gets s' api' :
  workerLoop s api gets = (s', api', None) ->
  run step (s, api) (omap (fun g => LWorker (fst g) <$> snd g) gets) = Some (s', api') /\
  Forall (fun g => is_Some (snd g)) gets.
Proof.
  revert s api. induction gets as [|[now [key|]] gets IH]; intros s api H; [by injection H as <- <-| |done].
  cbn [workerLoop] in H. cbn [omap list_omap fst snd fmap option_fmap option_map run step].
  destruct (processNextItem s api now (Some key)) as [[s1 api1] [[]|e|e|e]]; try done.
  destruct (IH s1 api1 H) as [Hr Hf]. split; [exact Hr|]. by constructor.
Qed.

(** A running autoscaler that has a decider for each of [keys]. *)
Definition serving {D Q} (keys : gset string) (s : autoscalerImpl D Q) : Prop :=
  started s = true /\ keys ⊆ dom (deciders s).

Section Serving.
Context {D Q S : Type} `{!Decider D} `{!WorkQueue Q} `{!Client S} `{!PodLister S} `{!Scaler S}.
Implicit Types s : autoscalerImpl D Q.

Lemma serving_set keys key d s : serving keys s -> serving keys (set_decider key d s).
Proof. intros [H1 H2]. split; [done|]. cbn. rewrite dom_insert_L. set_solver. Qed.
Lemma serving_decider keys s key : serving keys s -> key ∈ keys -> exists d, deciders s !! key = Some d.
Proof. intros [_ H] Hk. apply elem_of_dom. set_solver. Qed.

Lemma serving_ReqIn keys s now req : serving keys s -> Target req ∈ keys ->
  exists s', ReqIn s now req = Ok s' /\ serving keys s'.
Proof.
  intros H Ht. destruct (serving_decider _ _ _ H Ht) as [d Hd]. unfold ReqIn. rewrite (proj1 H), Hd. simpl.
  destruct (dec_Activate _) as [d' b]. eexists. split; [reflexivity|].
  destruct b; case_match; by apply (serving_set keys (Target req) d').
Qed.
Lemma serving_ReqOut keys s now r : serving keys s -> Target (Source r) ∈ keys ->
  exists s', ReqOut s now r = Ok s' /\ serving keys s'.
Proof.
  intros H Ht. destruct (serving_decider _ _ _ H Ht) as [d Hd]. unfold ReqOut. rewrite (proj1 H), Hd. simpl.
  eexists. split; [reflexivity|]. by apply serving_set.
Qed.
Lemma serving_scale keys s api now key : serving keys s -> serving keys (fst (fst (scale s api now key))).
Proof. intros H. unfold scale. repeat case_match; simplify_eq/=; try done; by apply serving_set. Qed.
(** Whatever happens to it, it goes on serving. *)
Lemma serving_step keys s api l s' api' : serving keys s -> step (s, api) l = Some (s', api') -> serving keys s'.
Proof.
  intros H Hs. destruct l as [now req|now r|key|now key]; simpl in Hs.
  - unfold ReqIn in Hs. repeat case_match; simplify_eq/=; by apply serving_set.
  - unfold ReqOut in Hs. repeat case_match; simplify_eq/=; by apply serving_set.
  - case_decide; by simplify_eq.
  - pose proof (serving_scale keys s api now key H) as Hsc. destruct (scale s api now key) as [[s1 api1] e].
    destruct (match e with Ok _ => _ | _ => _ end); by simplify_eq/=.
Qed.
End Serving.

(** * kpa.go *)
Module Knative.
Record KnativeAutoscalerConfig := mkConfig {
  Async : bool;
  TargetConcurrency : f64;
  MaxScaleUpRate : f64;
  MaxScaleDownRate : f64;
  StableWindowSeconds : f64;
  PanicWindowPercentage : f64;
  PanicThresholdPercentage : f64;
  ScaleDownDelaySeconds : Z;
  TickIntervalSeconds : Z
}.

Definition Complete (cfg : KnativeAutoscalerConfig) : KnativeAutoscalerConfig :=
  if feq (TargetConcurrency cfg) fzero
  then mkConfig (Async cfg) (of_Z 100) (MaxScaleUpRate cfg) (MaxScaleDownRate cfg) (StableWindowSeconds cfg)
         (PanicWindowPercentage cfg) (PanicThresholdPercentage cfg) (ScaleDownDelaySeconds cfg)
         (TickIntervalSeconds cfg)
  else cfg.

(** [time.Duration(n) * time.Second] for an int64 [n]. *)
Definition seconds (n : Z) : duration := int64 (n * Second).

Section New.
Context {B W Q : Type} `{!TimedFloat64Buckets B} `{!TimeWindow W}.

Definition NewDecider (cfg : KnativeAutoscalerConfig) (key : string) : KPADecider B W :=
  let stableWindow := seconds (f2i (StableWindowSeconds cfg)) in
  let panicWindow := seconds (f2i (fmul (fdiv (PanicWindowPercentage cfg) (of_Z 100)) (StableWindowSeconds cfg))) in
  let scaleDownDelay := seconds (ScaleDownDelaySeconds cfg) in
  let tickInterval := seconds (TickIntervalSeconds cfg) in
  NewKPADecider key (TargetConcurrency cfg) (MaxScaleUpRate cfg) (MaxScaleDownRate cfg) stableWindow panicWindow
    (fdiv (PanicThresholdPercentage cfg) (of_Z 100)) scaleDownDelay tickInterval.

(** [NewDeploymentScaler] cannot fail, so neither can this. *)
Definition NewKnativeAutoscaler (q : Q) (cfg : KnativeAutoscalerConfig) (keys : list string)
  : autoscalerImpl (KPADecider B W) Q :=
  mkImpl "kpa" (Async cfg) (seconds (TickIntervalSeconds cfg))
    (foldl (fun m key => <[key := NewDecider cfg key]> m) ∅ keys) q false [].
End New.
End Knative.

(** * onetime.go *)
Module OneTime.
Definition onetimeInitialScale : Z := 1.

Record OneTimeAutoscalerConfig := mkConfig { InitialScale : Z }.
Definition Complete (cfg : option OneTimeAutoscalerConfig) : OneTimeAutoscalerConfig :=
  match cfg with None => mkConfig onetimeInitialScale | Some cfg => cfg end.

(** [scaling] lists the goroutines started: the arguments of their calls to
    [scaler.Scale]. *)
Record OneTimeAutoscaler := mkOneTime {
  seen : gmap string bool;
  initialScale : Z;
  running : bool;
  scaling : list (string * Z)
}.

Definition NewOneTimeAutoscaler (cfg : OneTimeAutoscalerConfig) (keys : list string) : OneTimeAutoscaler :=
  mkOneTime (foldl (fun m key => <[key := false]> m) ∅ keys) (InitialScale cfg) false [].

Definition Framework : string := "one-time".
Definition Run (s : OneTimeAutoscaler) : OneTimeAutoscaler :=
  mkOneTime (seen s) (initialScale s) true (scaling s).

Definition ReqIn (s : OneTimeAutoscaler) (req : Request) : OneTimeAutoscaler :=
  let key := Target req in
  if default false (seen s !! key) then s
  else mkOneTime (<[key := true]> (seen s)) (initialScale s) (running s) (scaling s ++ [(key, initialScale s)]).
Definition ReqOut (s : OneTimeAutoscaler) (r : Response) : OneTimeAutoscaler := s.

(** The started goroutines, run to their ends in some order. *)
Definition run_scalings {S} `{!Scaler S} (api : S) (calls : list (string * Z)) : S :=
  foldl (fun api c => fst (Scale api (fst c) (snd c))) api calls.

Definition scaled_once (s0 s : OneTimeAutoscaler) (reqs : list Request) : Prop :=
  initialScale s = initialScale s0 /\
  (forall key, default false (seen s !! key) = bool_decide (key ∈ (Target <$> reqs))) /\
  (forall key n, (key, n) ∈ scaling s <-> n = initialScale s0 /\ key ∈ (Target <$> reqs)) /\
  NoDup (fst <$> scaling s).

(** The one-time autoscaler scales each target once: after any sequence
    of requests, the scaling calls started are exactly one per distinct
    target, known beforehand or not, each with the initial scale; responses
    start none. *)
Theorem one_time_scales_once cfg keys reqs :
  let s0 := Run (NewOneTimeAutoscaler (Complete cfg) keys) in
  let s := foldl ReqIn s0 reqs in
  (forall key n, (key, n) ∈ scaling s <->
     n = match cfg with Some c => InitialScale c | None => 1 end /\ key ∈ (Target <$> reqs)) /\
  NoDup (fst <$> scaling s) /\
  (forall r, ReqOut s r = s).
Proof.
  intros s0 s. cut (scaled_once s0 s reqs); [intros (_ & _ & H1 & H2); split_and!; [|done|done]|].
  { intros key n. rewrite H1. by destruct cfg. }
  subst s. induction reqs as [|req reqs IH] using rev_ind.
  - split; [done|]. split; [|split].
    + intros key. cbn [foldl s0 Run seen NewOneTimeAutoscaler fmap list_fmap].
      rewrite bool_decide_false by apply not_elem_of_nil.
      assert (forall m, (forall k, default false (m !! k) = false) ->
        default false (foldl (fun (m : gmap string bool) k => <[k := false]> m) m keys !! key) = false) as H.
      { induction keys as [|k keys IH]; intros m Hm; [apply Hm|]. simpl. apply IH. intros k'.
        destruct (decide (k = k')) as [->|]; [by rewrite lookup_insert_eq|by rewrite lookup_insert_ne]. }
      apply H. intros k. by rewrite lookup_empty.
    + intros key n. simpl. rewrite !elem_of_nil. tauto.
    + by constructor.
  - rewrite foldl_app. simpl. destruct IH as (I1 & I2 & I3 & I4). set (s := foldl ReqIn s0 reqs) in *.
    unfold ReqIn. rewrite I2, I1. case_bool_decide as Hin.
    + split; [done|]. split; [|split; [|done]]; intros key; rewrite fmap_app;
        [|intros n]; rewrite ?I2, ?I3, ?elem_of_app; simpl; rewrite ?list_elem_of_singleton;
        [apply bool_decide_ext; rewrite elem_of_app; simpl; rewrite list_elem_of_singleton|]; naive_solver.
    + unfold scaled_once. simpl. split; [done|]. split; [|split].
      * intros key. rewrite fmap_app. destruct (decide (Target req = key)) as [<-|Hne].
        { rewrite lookup_insert_eq. simpl. symmetry. apply bool_decide_eq_true. apply elem_of_app. right. by left. }
        rewrite lookup_insert_ne by done. rewrite I2. apply bool_decide_ext. rewrite elem_of_app. simpl.
        rewrite list_elem_of_singleton. naive_solver.
      * intros key n. rewrite elem_of_app, I3, fmap_app, elem_of_app. simpl.
        rewrite !list_elem_of_singleton. naive_solver.
      * rewrite fmap_app. apply NoDup_app. split; [done|]. split; [|apply NoDup_singleton].
        intros key [[key' n] [-> Hk]]%list_elem_of_fmap. simpl. rewrite list_elem_of_singleton.
        apply I3 in Hk as [_ Hk]. naive_solver.
Qed.
End OneTime.

(** * Properties of the shared autoscaler *)
Section Tickers.
Context {D Q S : Type} `{!Decider D} `{!DeciderLaws D} `{!WorkQueue Q} `{!Client S} `{!PodLister S} `{!Scaler S}.
Implicit Types s : autoscalerImpl D Q.

(** The targets that requests of a sequence of steps are for. *)
Definition requested (ls : list label) : list string :=
  omap (fun l => match l with LReqIn _ req => Some (Target req) | _ => None end) ls.

(** Exactly the activated deciders have a ticker, once. *)
Definition ticker_inv (keys : list string) s : Prop :=
  started s = true /\ NoDup (tickers s) /\
  (forall key, key ∈ tickers s <-> key ∈ keys) /\
  (forall key d, deciders s !! key = Some d -> activated d = bool_decide (key ∈ keys)).

Lemma scale_frame s (api : S) now key :
  let '(s', api', r) := scale s api now key in
  tickers s' = tickers s /\ started s' = started s /\ queue s' = queue s /\
  (deciders s' = deciders s \/ exists d n, deciders s !! key = Some d /\
     deciders s' = <[key := fst (dec_Reconcile d now n)]> (deciders s)).
Proof.
  unfold scale. destruct (deciders s !! key) as [d|] eqn:Hd; [|by eauto].
  destruct (wrap_err _ (_ ≫= GetDeployment api)) as [target|?|?|?]; [|by eauto..].
  destruct (wrap_err _ (ListPods api _ _)) as [pods|?|?|?]; [|by eauto..].
  destruct (dec_Reconcile d now (count_ready pods)) as [d' desired] eqn:E.
  assert (<[key:=d']> (deciders s) = <[key := fst (dec_Reconcile d now (count_ready pods))]> (deciders s))
    as Hk by (by rewrite E).
  repeat case_match; simplify_eq/=; split_and!; eauto.
Qed.

Lemma ticker_inv_decider keys s key d d' : ticker_inv keys s -> deciders s !! key = Some d ->
  activated d' = activated d -> ticker_inv keys (set_decider key d' s).
Proof.
  intros (H1 & H2 & H3 & H4) Hd Ha. split; [done|split; [done|split; [done|]]].
  intros key' d0. simpl. destruct (decide (key = key')) as [<-|Hne].
  - rewrite lookup_insert_eq. intros [= <-]. rewrite Ha. by apply H4.
  - rewrite lookup_insert_ne by done. apply H4.
Qed.

Lemma ticker_inv_queue keys s q : ticker_inv keys s -> ticker_inv keys (set_queue q s).
Proof. done. Qed.

Lemma ticker_inv_reqin keys s now req s' : ticker_inv keys s -> ReqIn s now req = Ok s' ->
  ticker_inv (keys ++ [Target req]) s'.
Proof.
  intros (H1 & H2 & H3 & H4) H. unfold ReqIn in H. rewrite H1 in H. simpl in H.
  destruct (deciders s !! Target req) as [d|] eqn:Hd; [|done].
  set (d1 := fst (dec_ReqIn now d)) in *. destruct (activate_once d1) as [Ha Hb].
  assert (activated d1 = bool_decide (Target req ∈ keys)) as Hact by (unfold d1; rewrite reqin_activated; auto).
  destruct (dec_Activate d1) as [d2 first]. simpl in Ha, Hb. rewrite Hact in Ha.
  assert (ticker_inv (keys ++ [Target req])
    (if first then add_ticker (Target req) (set_decider (Target req) d2 s) else set_decider (Target req) d2 s)) as Hi.
  { subst first. unfold ticker_inv. case_bool_decide as Hin; simpl.
    - split; [done|split; [done|split]].
      + intros key. rewrite H3, elem_of_app, list_elem_of_singleton. naive_solver.
      + intros key d0. destruct (decide (Target req = key)) as [<-|Hne].
        * rewrite lookup_insert_eq. intros [= <-]. rewrite Hb. symmetry. apply bool_decide_eq_true.
          apply elem_of_app. by left.
        * rewrite lookup_insert_ne by done. intros ->%H4. apply bool_decide_ext.
          rewrite elem_of_app, list_elem_of_singleton. naive_solver.
    - split; [done|]. split; [|split].
      + apply NoDup_app. split; [done|]. split; [|apply NoDup_singleton].
        intros key Hk%H3. rewrite list_elem_of_singleton. by intros ->.
      + intros key. by rewrite !elem_of_app, H3.
      + intros key d0. destruct (decide (Target req = key)) as [<-|Hne].
        * rewrite lookup_insert_eq. intros [= <-]. rewrite Hb. symmetry. apply bool_decide_eq_true.
          apply elem_of_app. right. by left.
        * rewrite lookup_insert_ne by done. intros ->%H4. apply bool_decide_ext.
          rewrite elem_of_app, list_elem_of_singleton. naive_solver. }
  set (s1 := if first then _ else _) in *. clearbody s1.
  case_match; injection H as <-; [by apply ticker_inv_queue|done].
Qed.

Lemma ticker_inv_step keys s api l s' api' : ticker_inv keys s -> step (s, api) l = Some (s', api') ->
  ticker_inv (keys ++ requested [l]) s'.
Proof.
  intros Hi Hs. destruct l as [now req|now r|key|now key]; simpl in *; rewrite ?app_nil_r.
  - destruct (ReqIn s now req) as [s1| | |] eqn:E; simplify_eq. by eapply ticker_inv_reqin.
  - pose proof Hi as (H1 & _). unfold ReqOut in Hs. rewrite H1 in Hs. simpl in Hs.
    destruct (deciders s !! Target (Source r)) as [d|] eqn:Hd; simplify_eq.
    eapply ticker_inv_decider; [done..|]. apply reqout_activated.
  - case_decide; simplify_eq. by apply ticker_inv_queue.
  - pose proof (scale_frame s api now key) as Hf. destruct (scale s api now key) as [[s1 api1] r].
    destruct Hf as (E1 & E2 & _ & Hd). assert (ticker_inv keys s1) as Hi1.
    { destruct Hi as (H1 & H2 & H3 & H4). unfold ticker_inv. rewrite E1, E2. split; [done|split; [done|split; [done|]]].
      destruct Hd as [->|(d & n & Hd & ->)]; [done|]. intros key' d0. destruct (decide (key = key')) as [<-|Hne].
      - rewrite lookup_insert_eq. intros [= <-]. rewrite reconcile_activated. by apply H4.
      - rewrite lookup_insert_ne by done. apply H4. }
    repeat case_match; simplify_eq; by apply ticker_inv_queue.
Qed.

(** C27. Each target gets its ticker with its first request and never a second
    one: from a started autoscaler whose deciders are all inactive, after any
    interleaving of requests, responses, ticks and scalings of the workers the
    ticker goroutines are exactly one per target that was requested. *)
Theorem one_ticker_per_target s (api : S) ls s' api' :
  started s = true -> tickers s = [] -> (forall key d, deciders s !! key = Some d -> activated d = false) ->
  run step (s, api) ls = Some (s', api') ->
  NoDup (tickers s') /\ (forall key, key ∈ tickers s' <-> key ∈ requested ls).
Proof.
  intros Hs Ht Ha Hr.
  assert (ticker_inv [] s) as Hi.
  { split; [done|]. rewrite Ht. split; [by constructor|]. split; [done|].
    intros key d Hd. rewrite (Ha key d Hd). by rewrite bool_decide_false by apply not_elem_of_nil. }
  cut (ticker_inv ([] ++ requested ls) s'); [intros (_ & H1 & H2 & _); done|].
  revert Hi Hr. clear Hs Ht Ha. generalize (@nil string) as keys. revert s api.
  induction ls as [|l ls IH]; intros s api keys Hi Hr; cbn [run] in Hr; [simplify_eq; by rewrite app_nil_r|].
  destruct (step (s, api) l) as [[s1 api1]|] eqn:E; [|done]. change (run step (s1, api1) ls = Some (s', api')) in Hr.
  pose proof (ticker_inv_step keys s api l s1 api1 Hi E) as Hi1. specialize (IH s1 api1 _ Hi1 Hr).
  rewrite <- app_assoc in IH. by destruct l.
Qed.
End Tickers.

Section Scaling.
Context {D Q S : Type} `{!Decider D} `{!WorkQueue Q} `{!Client S} `{!PodLister S}
  `{!Scaler S} `{!ScalerLaws S}.
Implicit Types s : autoscalerImpl D Q.

(** The stages of one scaling, as the errors name them. *)
Definition get_stage (api : S) (key : string) : res Deployment :=
  NamespacedNameFromKey key ≫= GetDeployment api.
Definition list_stage (api : S) (target : Deployment) : res (list Pod) :=
  ListPods api (dep_namespace target) (template_labels target).

Lemma scale_applied s (api : S) now key :
  let '(s', api', r) := scale s api now key in
  r = Ok tt ->
  exists d target pods desired,
    deciders s !! key = Some d /\ get_stage api key = Ok target /\ list_stage api target = Ok pods /\
    dec_Reconcile d now (count_ready pods) = (default d (deciders s' !! key), Ok desired) /\
    exists changed, Scale api key desired = (api', Ok changed) /\ scaled_to api key desired api' changed.
Proof.
  unfold scale. destruct (deciders s !! key) as [d|] eqn:Hd; [|done]. fold (get_stage api key).
  destruct (get_stage api key) as [target|?|?|?] eqn:Hg; [|done..]. simpl. fold (list_stage api target).
  destruct (list_stage api target) as [pods|?|?|?] eqn:Hl; [|done..]. simpl.
  destruct (dec_Reconcile d now (count_ready pods)) as [d' [desired|?|?|?]] eqn:Hr; [|done..]. simpl.
  destruct (Scale api key desired) as [api1 [b|?|?|?]] eqn:Hs; [|done..]. simpl.
  assert (exists d0 target0 pods0 desired0, Some d = Some d0 /\ Ok target = Ok target0 /\
    list_stage api target0 = Ok pods0 /\
    dec_Reconcile d0 now (count_ready pods0) = (default d0 (<[key:=d']> (deciders s) !! key), Ok desired0) /\
    exists changed, Scale api key desired0 = (api1, Ok changed) /\ scaled_to api key desired0 api1 changed) as H.
  { exists d, target, pods, desired. rewrite lookup_insert_eq. split_and!; try done. exists b. split; [done|by apply scale_ok]. }
  destruct b, (Replicas target); done.
Qed.

(** A worker applies the decider's scale: when the item it takes from
    the queue is processed without a logged error, the number of ready pods it
    listed was handed to the target's decider, and the scaler was called with
    the decider's answer: the target's replica count at the API server is that
    answer as an int32, or it was read with that count and is left alone. *)
Theorem worker_applies_decision s (api : S) now key :
  let '(s', api', r) := scale s api now key in
  r = Ok tt ->
  exists d target pods desired,
    deciders s !! key = Some d /\ get_stage api key = Ok target /\ list_stage api target = Ok pods /\
    dec_Reconcile d now (count_ready pods) = (default d (deciders s' !! key), Ok desired) /\
    exists changed, Scale api key desired = (api', Ok changed) /\ scaled_to api key desired api' changed.
Proof. apply scale_applied. Qed.

(** The error that a stage of scaling [key] ends with. *)
Inductive stage_error s (api : S) (now : time) (key : string) : string -> Prop :=
| get_error e : get_stage api key = Err e ->
    stage_error s api now key ("failed to get deployment " +:+ key +:+ ": " +:+ e)
| list_error target e : get_stage api key = Ok target -> list_stage api target = Err e ->
    stage_error s api now key ("failed to list pods for key " +:+ key +:+ ": " +:+ e)
| decider_error target pods d e : get_stage api key = Ok target -> list_stage api target = Ok pods ->
    deciders s !! key = Some d -> snd (dec_Reconcile d now (count_ready pods)) = Err e ->
    stage_error s api now key ("failed to get desired scale for key " +:+ key +:+ ": " +:+ e)
| scale_error target pods d desired e : get_stage api key = Ok target -> list_stage api target = Ok pods ->
    deciders s !! key = Some d -> snd (dec_Reconcile d now (count_ready pods)) = Ok desired ->
    snd (Scale api key desired) = Err e ->
    stage_error s api now key ("failed to scale " +:+ key +:+ ": " +:+ e).

Lemma str_assoc4 (a b c d : string) : a +:+ b +:+ c +:+ d = (a +:+ b +:+ c) +:+ d.
Proof. by rewrite !str_app_assoc. Qed.

Lemma scale_stage_error s (api : S) now key m : (exists d, deciders s !! key = Some d) ->
  stage_error s api now key m -> snd (scale s api now key) = Err m.
Proof.
  intros [d Hd] H. unfold scale. rewrite Hd. fold (get_stage api key).
  destruct H as [e Hg|target e Hg Hl|target pods d0 e Hg Hl Hd0 He|target pods d0 n e Hg Hl Hd0 He Hs];
    rewrite Hg; simpl; rewrite ?str_app_assoc; try done; fold (list_stage api target); rewrite Hl; simpl;
    rewrite ?str_app_assoc; try done; simplify_eq; destruct (dec_Reconcile d now _) as [d' x]; simpl in *; subst x;
    simpl; rewrite ?str_app_assoc; [done|].
  destruct (Scale api key n) as [api1 x]; simpl in *; subst x; simpl. by rewrite ?str_app_assoc.
Qed.

(** C39. The error policy of the workers: whichever stage of scaling a known
    target fails, the error is only logged and the worker goes on, unless its
    message, prefix and key included, mentions "mvcc"; then it panics with the
    message.  An etcd error therefore panics from every stage, and so does any
    error at all for a target whose key contains "mvcc".  The key is given
    back to the queue in all cases. *)
Theorem worker_error_policy s (api : S) now key m :
  (exists d, deciders s !! key = Some d) -> stage_error s api now key m ->
  let '(s', _, out) := processNextItem s api now (Some key) in
  queue s' = Done key (Forget key (queue s)) /\
  out = (if str_contains "mvcc" m then Panic m else Ok true) /\
  (str_contains "mvcc" key = true -> out = Panic m) /\
  (forall p e, m = p +:+ key +:+ ": " +:+ e -> str_contains "mvcc" e = true -> out = Panic m).
Proof.
  intros Hd He. pose proof (scale_stage_error s api now key m Hd He) as Hs.
  pose proof (scale_frame s api now key) as Hf. unfold processNextItem.
  destruct (scale s api now key) as [[s1 api1] r]. simpl in Hs. subst r.
  destruct Hf as (_ & _ & Hq & _). simpl. rewrite Hq. split; [done|]. split; [done|].
  assert (forall p e, m = p +:+ key +:+ ": " +:+ e -> 
    (str_contains "mvcc" e || str_contains "mvcc" key = true) -> str_contains "mvcc" m = true) as Hm.
  { intros p e -> [H|H]%orb_true_iff; rewrite ?(str_assoc4 p key).
    - by apply str_contains_app_l.
    - apply str_contains_app_r, str_contains_app_l. by apply str_contains_app_r. }
  split.
  - intros Hk. destruct He; (erewrite Hm; [done|reflexivity|by rewrite Hk, orb_true_r]).
  - intros p e E Hmv. rewrite (Hm p e E); [done|by rewrite Hmv].
Qed.
End Scaling.

(** * Properties of the Knative autoscaler's construction *)
Section Construction.
Context {B W Q : Type} `{!TimedFloat64Buckets B} `{!TimeWindow W}.
Import Knative.

Lemma foldl_insert_lookup {A} (f : string -> A) keys (m : gmap string A) key :
  foldl (fun m k => <[k := f k]> m) m keys !! key = (if decide (key ∈ keys) then Some (f key) else m !! key : option A).
Proof.
  revert m. induction keys as [|k keys IH]; intros m; cbn [foldl].
  - by rewrite decide_False by apply not_elem_of_nil.
  - rewrite IH. destruct (decide (key ∈ keys)) as [Hin|Hout].
    + rewrite decide_True; [done|]. by right.
    + destruct (decide (key = k)) as [->|Hne].
      * rewrite lookup_insert_eq, decide_True; [done|]. by left.
      * rewrite lookup_insert_ne, decide_False by (rewrite ?elem_of_cons; naive_solver). done.
Qed.

(** Construction of the Knative autoscaler: it has a decider exactly for
    the given keys, each inactive, not panicking, with desired scale zero and
    the configured rates; a zero target concurrency means 100; a whole number
    of seconds is kept, and the panic window is truncated to whole seconds: a
    panic window of 29% of 100 seconds becomes 28 seconds. *)
Theorem knative_autoscaler_construction (q : Q) cfg keys :
  let cfg' := Complete cfg in
  let s := NewKnativeAutoscaler (B := B) (W := W) q cfg' keys in
  (forall key, is_Some (deciders s !! key) <-> key ∈ keys) /\
  (forall key d, deciders s !! key = Some d ->
     activated d = false /\ panicTime d = zero_time /\ dec_Desired d = 0 /\
     maxScaleUpRate d = MaxScaleUpRate cfg /\ maxScaleDownRate d = MaxScaleDownRate cfg /\
     (feq (TargetConcurrency cfg) fzero = true -> targetValue d = of_Z 100) /\
     (forall n, StableWindowSeconds cfg = of_Z n -> 0 <= n < 2 ^ 33 -> stableWindow d = n * Second) /\
     (StableWindowSeconds cfg = of_Z 100 -> PanicWindowPercentage cfg = of_Z 29 -> panicWindow d = 28 * Second) /\
     (delayWindow d = None <-> seconds (ScaleDownDelaySeconds cfg) <= 0)).
Proof.
  intros cfg' s. assert (forall key, deciders s !! key = if decide (key ∈ keys) then Some (NewDecider cfg' key) else None) as Hd.
  { intros key. unfold s, NewKnativeAutoscaler. cbn [deciders]. by rewrite foldl_insert_lookup. }
  split.
  - intros key. rewrite Hd. case_decide; split; (done || by intros []).
  - intros key d. rewrite Hd. case_decide; [|done]. intros [= <-].
    unfold cfg', Complete. destruct (feq (TargetConcurrency cfg) fzero) eqn:Et; unfold NewDecider, NewKPADecider; simpl;
    (split; [done|]; split; [done|]; split; [done|]; split; [done|]; split; [done|]; split; [done|]; split; [|split];
     [intros n -> Hn; unfold seconds; rewrite f2i_of_Z by (unfold exact_int; lia);
       apply int64_id; unfold Second; lia
     |intros -> ->; vm_compute; reflexivity
     |destruct (Z.ltb_spec 0 (seconds (ScaleDownDelaySeconds cfg))); split; (done || lia)]).
Qed.
End Construction.

(** * Witnesses: the KPA decider on an API server held in a map *)
Module Demo.
#[local] Existing Instance Decider.Demo.last_buckets.
#[local] Existing Instance Decider.Demo.max_window.
#[local] Existing Instance MapServer.map_client.
#[local] Existing Instance MapServer.map_client_laws.

(** One pod is ready, one is not. *)
#[local] Instance two_pods : PodLister MapServer.server := {
  Pod := bool;
  ListPods _ ns _ := if decide (ns = "default") then Ok [true; false] else Err "etcdserver: mvcc: required revision has been compacted";
  IsPodReady p := p
}.
#[local] Instance list_queue : WorkQueue (list string) := {
  Add k q := if decide (k ∈ q) then q else q ++ [k];
  Done _ q := q;
  Forget _ q := q
}.

Definition demo_cfg : Knative.KnativeAutoscalerConfig :=
  Knative.mkConfig false fzero (of_Z 1000) (of_Z 2) (of_Z 100) (of_Z 29) (of_Z 200) 0 2.
Definition demo_autoscaler : autoscalerImpl (KPADecider (list f64) Z) (list string) :=
  Run (Knative.NewKnativeAutoscaler [] (Knative.Complete demo_cfg) ["default/f"; "kube/g"]).
Definition demo_req (key : string) : Request := mkRequest "1" key 100 0 0 0 0 0.

Lemma one_ticker_per_target_witness :
  exists st, run step (demo_autoscaler, MapServer.demo)
      [LReqIn 10 (demo_req "default/f"); LReqIn 11 (demo_req "default/f"); LTicker "default/f"; LReqIn 12 (demo_req "kube/g")]
    = Some st /\ NoDup (tickers (fst st)) /\ ("default/f" ∈ tickers (fst st)).
Proof.
  destruct (run step (demo_autoscaler, MapServer.demo)
    [LReqIn 10 (demo_req "default/f"); LReqIn 11 (demo_req "default/f"); LTicker "default/f"; LReqIn 12 (demo_req "kube/g")])
    as [[s api]|] eqn:E; [|vm_compute in E; discriminate E].
  exists (s, api). split; [reflexivity|].
  assert (Hd : forall key d, deciders demo_autoscaler !! key = Some d -> activated d = false).
  { intros key d. unfold demo_autoscaler, Run, Knative.NewKnativeAutoscaler. cbn [deciders].
    rewrite foldl_insert_lookup. destruct (decide _); [|done]. by intros [= <-]. }
  destruct (one_ticker_per_target demo_autoscaler MapServer.demo
    [LReqIn 10 (demo_req "default/f"); LReqIn 11 (demo_req "default/f"); LTicker "default/f"; LReqIn 12 (demo_req "kube/g")]
    s api eq_refl eq_refl Hd E) as [H1 H2].
  split; [exact H1|]. apply H2. vm_compute. left.
Defined.

Lemma worker_applies_decision_witness :
  replicas (snd (fst (scale demo_autoscaler MapServer.demo 10 "default/f"))) "default/f" = Some 0.
Proof.
  pose proof (worker_applies_decision demo_autoscaler MapServer.demo 10 "default/f") as H.
  destruct (scale demo_autoscaler MapServer.demo 10 "default/f") as [[s api] r] eqn:E.
  assert (r = Ok tt) as Hr by (vm_compute in E; congruence).
  destruct (H Hr) as (d & target & pods & desired & Hd & Hg & Hl & He & changed & Hsc & Hrep).
  vm_compute in Hd, Hg, Hl. injection Hd as <-. injection Hg as <-. injection Hl as <-.
  vm_compute in He. injection He as _ <-. assert (changed = true) as -> by (vm_compute in Hsc; congruence).
  exact Hrep.
Defined.

Definition broken : MapServer.server := fun ns nm =>
  if decide (ns = "kube" /\ nm = "g") then Some (mkDeployment ns nm None (Some 1) ∅) else None.

(** The list of pods fails at etcd. *)
Lemma worker_error_policy_witness :
  exists m, snd (processNextItem demo_autoscaler broken 10 (Some "kube/g")) = Panic m.
Proof.
  set (m := "failed to list pods for key " +:+ "kube/g" +:+ ": " +:+
            "etcdserver: mvcc: required revision has been compacted").
  pose proof (worker_error_policy demo_autoscaler broken 10 "kube/g" m) as H.
  destruct (processNextItem demo_autoscaler broken 10 (Some "kube/g")) as [[s api] out]. exists m. simpl.
  assert (Hd : exists d, deciders demo_autoscaler !! "kube/g" = Some d) by (eexists; vm_compute; reflexivity).
  assert (He : stage_error demo_autoscaler broken 10 "kube/g" m) by (eapply list_error; vm_compute; reflexivity).
  destruct (H Hd He) as (_ & _ & _ & Hp). apply (Hp "failed to list pods for key "
    "etcdserver: mvcc: required revision has been compacted"); reflexivity.
Defined.

Lemma knative_autoscaler_construction_witness :
  exists d, deciders demo_autoscaler !! "default/f" = Some d /\ targetValue d = of_Z 100 /\
    stableWindow d = 100 * Second /\ panicWindow d = 28 * Second.
Proof.
  destruct (knative_autoscaler_construction (B := list f64) (W := Z) (@nil string) demo_cfg ["default/f"; "kube/g"]) as [_ H].
  eexists. split; [vm_compute; reflexivity|].
  edestruct (H "default/f") as (_ & _ & _ & _ & _ & H1 & H2 & H3 & _); [vm_compute; reflexivity|].
  split; [apply H1; reflexivity|]. split; [apply H2; [reflexivity|lia]|]. apply H3; reflexivity.
Defined.
End Demo.
