(* ===== verification/Dispatcher.v ===== *)
(** pkg/gateway/dispatcher: the pod dispatcher (pod.go) as a labelled
    transition system of its dispatch goroutines, its token channel and the
    reconciliations of its endpoints. *)
From S2P Require Import Prelude F64 KdUtil Workload Handler Backend.
Import Types.

(** * pod.go *)
Definition podServiceConcurrency : nat := 1.

(** What the dispatcher reads of a ready pod. *)
Record Pod := mkPod { pod_name : string; pod_ip : string }.

Definition podEndpointKeyFunc (pod : Pod) : string * string :=
  let ep := pod_ip pod +:+ WorkloadServicePort in
  (pod_name pod +:+ "@" +:+ ep, ep).

(** An executor object: the number of the [NewBackend] call that made it, and
    its kind. *)
Definition executor_obj : Type := nat * Executor.

(** How an [Execute] call ends: the choices of the environment.  That it ends
    is assumed; [Backend.Pool.closed_pool_strands] has the race in which an
    execution on an endpoint that is being removed does not. *)
Inductive execution :=
| ExecGrpc (conn : res unit) (send : time) (rpc : RpcOutcome) (recv : time)
| ExecFake (start recv done : time).

Definition executor_Execute (e : Executor) (x : execution) (req : Request) : option Response :=
  match e, x with
  | grpcBackend _, ExecGrpc conn send rpc recv => Some (fst (grpc_Execute req conn send rpc recv))
  | fakeBackend, ExecFake start recv done => Some (fake_Execute req start recv done)
  | _, _ => None
  end.

(** A goroutine running [Dispatch]: in the select of [dispatch], holding a
    token it has just received, inside [Execute], about to give its token
    back, about to send its response. *)
Inductive goroutine :=
| Waiting (req : Request)
| Popped (req : Request) (key : string)
| Executing (req : Request) (key : string) (ex : executor_obj)
| Returning (key : string) (r : Response)
| Answering (r : Response).

(** A running [Reconcile]: the goroutines that have still to create and set
    their endpoint, the token sends still to come, the keys still to be
    removed, and the keys whose backend could not be created. *)
Record reconciliation := mkRec {
  endpoints_wanted : gmap string string;
  to_set : gset string;
  to_token : list string;
  to_del : gset string;
  failed : gset string
}.

Section PodDispatcher.
Context {M : Type} `{!SharedMap executor_obj M}.
(** The configured framework of package backend. *)
Context (vars : BackendVars).

Record PodDispatcher := mkPD {
  endpoints : M;
  executors : nat;               (* NewBackend calls so far *)
  tokens : list string;
  reqChan : list Request;
  resChan : list Response;       (* everything sent so far *)
  goroutines : gmap nat goroutine;
  spawned : nat;
  stopped : bool;                (* ctx is done *)
  reconciling : option reconciliation
}.

Definition NewPodDispatcher : PodDispatcher :=
  mkPD NewSharedMap 0 [] [] [] ∅ 0 false None.

Definition set_goroutine (t : nat) (g : option goroutine) (s : PodDispatcher) : PodDispatcher :=
  mkPD (endpoints s) (executors s) (tokens s) (reqChan s) (resChan s)
    (match g with Some g => <[t := g]> (goroutines s) | None => delete t (goroutines s) end)
    (spawned s) (stopped s) (reconciling s).
Definition set_tokens (q : list string) (s : PodDispatcher) : PodDispatcher :=
  mkPD (endpoints s) (executors s) q (reqChan s) (resChan s) (goroutines s) (spawned s) (stopped s) (reconciling s).
Definition set_endpoints (m : M) (n : nat) (s : PodDispatcher) : PodDispatcher :=
  mkPD m n (tokens s) (reqChan s) (resChan s) (goroutines s) (spawned s) (stopped s) (reconciling s).
Definition set_reconciling (r : option reconciliation) (s : PodDispatcher) : PodDispatcher :=
  mkPD (endpoints s) (executors s) (tokens s) (reqChan s) (resChan s) (goroutines s) (spawned s) (stopped s) r.

(** ** The run loop and [Dispatch] *)

(** The relay sends a request to the dispatcher. *)
Definition arrive (req : Request) (s : PodDispatcher) : PodDispatcher :=
  mkPD (endpoints s) (executors s) (tokens s) (reqChan s ++ [req]) (resChan s) (goroutines s) (spawned s)
    (stopped s) (reconciling s).

(** [Run]: [case req := <-pd.reqChan: go pd.Dispatch(...)]. *)
Definition Run_receive (s : PodDispatcher) : option PodDispatcher :=
  if stopped s then None
  else match reqChan s with
       | [] => None
       | req :: rest =>
           Some (mkPD (endpoints s) (executors s) (tokens s) rest (resChan s)
                   (<[spawned s := Waiting req]> (goroutines s)) (S (spawned s)) (stopped s) (reconciling s))
       end.
Definition Run_stop (s : PodDispatcher) : PodDispatcher :=
  mkPD (endpoints s) (executors s) (tokens s) (reqChan s) (resChan s) (goroutines s) (spawned s) true (reconciling s).

(** [dispatch]: the context ends, and [Dispatch] answers FAIL_DISPATCH. *)
Definition dispatch_timeout (t : nat) (s : PodDispatcher) : option PodDispatcher :=
  match goroutines s !! t with
  | Some (Waiting req) => Some (set_goroutine t (Some (Answering (status_response req FAIL_DISPATCH))) s)
  | _ => None
  end.

(** [dispatch]: a token is received, then its endpoint looked up; a token of a
    removed endpoint is dropped. *)
Definition dispatch_pop (t : nat) (s : PodDispatcher) : option PodDispatcher :=
  match goroutines s !! t, tokens s with
  | Some (Waiting req), key :: q => Some (set_goroutine t (Some (Popped req key)) (set_tokens q s))
  | _, _ => None
  end.
Definition dispatch_get (t : nat) (s : PodDispatcher) : option PodDispatcher :=
  match goroutines s !! t with
  | Some (Popped req key) =>
      match Get key (endpoints s) with
      | None => Some (set_goroutine t (Some (Waiting req)) s)
      | Some ex => Some (set_goroutine t (Some (Executing req key ex)) s)
      end
  | _ => None
  end.

(** [Dispatch] after [dispatch]. *)
Definition Dispatch_executed (t : nat) (x : execution) (s : PodDispatcher) : option PodDispatcher :=
  match goroutines s !! t with
  | Some (Executing req key ex) =>
      r ← executor_Execute (snd ex) x req; Some (set_goroutine t (Some (Returning key r)) s)
  | _ => None
  end.
Definition Dispatch_return (t : nat) (s : PodDispatcher) : option PodDispatcher :=
  match goroutines s !! t with
  | Some (Returning key r) => Some (set_goroutine t (Some (Answering r)) (set_tokens (tokens s ++ [key]) s))
  | _ => None
  end.
Definition Dispatch_answer (t : nat) (s : PodDispatcher) : option PodDispatcher :=
  match goroutines s !! t with
  | Some (Answering r) =>
      let s := set_goroutine t None s in
      Some (mkPD (endpoints s) (executors s) (tokens s) (reqChan s) (resChan s ++ [r]) (goroutines s) (spawned s)
              (stopped s) (reconciling s))
  | _ => None
  end.

(** ** [Reconcile] *)
Definition ready_endpoints (readyPods : list Pod) : gmap string string :=
  foldl (fun m pod => let '(key, ep) := podEndpointKeyFunc pod in <[key := ep]> m) ∅ readyPods.

Definition Reconcile_diff (readyPods : list Pod) (s : PodDispatcher) : option PodDispatcher :=
  match reconciling s with
  | Some _ => None
  | None =>
      let wanted := ready_endpoints readyPods in
      let existing := Inner (endpoints s) in
      let add := dom wanted ∖ dom existing in
      let del := dom existing ∖ dom wanted in
      Some (set_reconciling (Some (mkRec wanted add [] del ∅)) s)
  end.

(** The body of one add goroutine up to [endpoints.Set]; a panic of
    [NewBackend] ends the process. *)
Definition Reconcile_add (key : string) (dial : res unit) (s : PodDispatcher) : option PodDispatcher :=
  match reconciling s with
  | Some r =>
      if decide (key ∈ to_set r) then
        match NewBackend vars (fun _ => dial) (default "" (endpoints_wanted r !! key)) with
        | Ok e =>
            let r := mkRec (endpoints_wanted r) (to_set r ∖ {[key]})
                       (to_token r ++ replicate podServiceConcurrency key) (to_del r) (failed r) in
            Some (set_reconciling (Some r)
                    (set_endpoints (Set_ key (executors s, e) (endpoints s)) (S (executors s)) s))
        | Err _ =>
            let r := mkRec (endpoints_wanted r) (to_set r ∖ {[key]}) (to_token r) (to_del r) ({[key]} ∪ failed r) in
            Some (set_reconciling (Some r) s)
        | _ => None
        end
      else None
  | None => None
  end.

(** [pd.tokens.In() <- key] in an add goroutine. *)
Definition Reconcile_token (key : string) (s : PodDispatcher) : option PodDispatcher :=
  match reconciling s with
  | Some r =>
      match remove_one key (to_token r) with
      | Some q =>
          let r := mkRec (endpoints_wanted r) (to_set r) q (to_del r) (failed r) in
          Some (set_reconciling (Some r) (set_tokens (tokens s ++ [key]) s))
      | None => None
      end
  | None => None
  end.

(** One iteration of the removal loop ([Close] runs in its own goroutine). *)
Definition Reconcile_del (key : string) (s : PodDispatcher) : option PodDispatcher :=
  match reconciling s with
  | Some r =>
      if decide (key ∈ to_del r) then
        let r := mkRec (endpoints_wanted r) (to_set r) (to_token r) (to_del r ∖ {[key]}) (failed r) in
        Some (set_reconciling (Some r) (set_endpoints (fst (Del key (endpoints s))) (executors s) s))
      else None
  | None => None
  end.

(** [wg.Wait] is over and the removal loop is done. *)
Definition reconcile_done (r : reconciliation) : bool :=
  bool_decide (to_set r = ∅) && bool_decide (to_token r = []) && bool_decide (to_del r = ∅).
Definition Reconcile_return (s : PodDispatcher) : option PodDispatcher :=
  match reconciling s with
  | Some r => if reconcile_done r then Some (set_reconciling None s) else None
  | None => None
  end.

Inductive label :=
| LArrive (req : Request)
| LReceive
| LStop
| LTimeout (t : nat)
| LPop (t : nat)
| LGet (t : nat)
| LExecuted (t : nat) (x : execution)
| LReturn (t : nat)
| LAnswer (t : nat)
| LReconcile (readyPods : list Pod)
| LAdd (key : string) (dial : res unit)
| LToken (key : string)
| LDel (key : string)
| LReconciled.

Definition step (s : PodDispatcher) (l : label) : option PodDispatcher :=
  match l with
  | LArrive req => Some (arrive req s)
  | LReceive => Run_receive s
  | LStop => Some (Run_stop s)
  | LTimeout t => dispatch_timeout t s
  | LPop t => dispatch_pop t s
  | LGet t => dispatch_get t s
  | LExecuted t x => Dispatch_executed t x s
  | LReturn t => Dispatch_return t s
  | LAnswer t => Dispatch_answer t s
  | LReconcile readyPods => Reconcile_diff readyPods s
  | LAdd key dial => Reconcile_add key dial s
  | LToken key => Reconcile_token key s
  | LDel key => Reconcile_del key s
  | LReconciled => Reconcile_return s
  end.
End PodDispatcher.
Arguments PodDispatcher M : clear implicits.

(** * Properties of the pod dispatcher *)
Section Properties.
Context {M : Type} `{!SharedMap executor_obj M} `{!SharedMapLaws executor_obj M}.
Context (vars : BackendVars).
Implicit Types s : PodDispatcher M.

Ltac pd_step H :=
  unfold step, arrive, Run_receive, Run_stop, dispatch_timeout, dispatch_pop, dispatch_get, Dispatch_executed,
    Dispatch_return, Dispatch_answer, Reconcile_diff, Reconcile_add, Reconcile_token, Reconcile_del,
    Reconcile_return, set_goroutine, set_tokens, set_endpoints, set_reconciling in H;
  cbv zeta in H; simplify_eq/=;
  repeat match type of H with
         | context [match ?x with _ => _ end] => let E := fresh "E" in destruct x eqn:E; simplify_eq/=
         end;
  try match type of H with (?m ≫= _) = Some _ => let E := fresh "Hexec" in destruct m eqn:E; simplify_eq/= end.

(** ** Goroutine numbers are fresh *)
Definition spawned_inv s : Prop := forall t, (spawned s <= t)%nat -> goroutines s !! t = None.

Lemma spawned_inv_step s l s' : spawned_inv s -> step vars s l = Some s' -> spawned_inv s'.
Proof.
  intros Hi H. unfold spawned_inv in *.
  destruct l; pd_step H; intros t' Ht'; try (apply Hi; lia);
    assert (goroutines s !! t' = None) as Hn by (apply Hi; lia);
    rewrite ?lookup_insert_None, ?lookup_delete_None; (right; done) || (split; [done|]);
    intros ?; (lia || congruence).
Qed.

Lemma spawned_inv_new : spawned_inv (NewPodDispatcher (M := M)).
Proof. intros t _. apply lookup_empty. Qed.

Lemma reconcile_done_spec r : reconcile_done r = true <-> to_set r = ∅ /\ to_token r = [] /\ to_del r = ∅.
Proof. unfold reconcile_done. rewrite !andb_true_iff, !bool_decide_eq_true. tauto. Qed.

(** ** Tokens *)
Definition holds_token (key : string) (g : goroutine) : nat :=
  match g with
  | Popped _ k | Executing _ k _ | Returning k _ => if decide (key = k) then 1 else 0
  | _ => 0
  end%nat.
Definition is_executing (key : string) (g : goroutine) : nat :=
  match g with Executing _ k _ => if decide (key = k) then 1 else 0 | _ => 0 end%nat.
Definition pending_tokens (key : string) s : nat :=
  match reconciling s with Some r => count key (to_token r) | None => 0%nat end.
Definition in_flight (key : string) s : nat := msum (holds_token key) (goroutines s).
Definition circulating (key : string) s : nat :=
  (count key (tokens s) + in_flight key s + pending_tokens key s)%nat.

Definition adds (key : string) (l : label) : nat :=
  match l with LAdd k _ => if decide (key = k) then 1 else 0 | _ => 0 end%nat.

Definition is_add (l : label) : bool := match l with LAdd _ _ => true | _ => false end.
Definition is_get (l : label) : bool := match l with LGet _ => true | _ => false end.

(** The tokens of a key: a successful add makes one, dropping the token of a
    removed endpoint destroys one, every other step only moves them. *)
Lemma circulating_step s l s' key : spawned_inv s -> step vars s l = Some s' ->
  (circulating key s' <= circulating key s + adds key l)%nat /\
  (key ∈ dom (Inner (endpoints s)) -> (circulating key s <= circulating key s')%nat) /\
  (key ∈ dom (Inner (endpoints s')) -> key ∉ dom (Inner (endpoints s)) -> (0 < circulating key s')%nat).
Proof.
  intros Hsp H. unfold circulating, in_flight, pending_tokens.
  destruct l; pd_step H; rewrite ?count_app, ?count_cons;
    try match goal with |- context [<[spawned s := _]> (goroutines s)] =>
      rewrite msum_insert_new by (apply Hsp; lia) end;
    move_sum; rewrite ?count_app, ?count_cons, ?count_replicate;
    change (count key []) with 0%nat; rewrite ?inner_set, ?dom_insert_L, ?inner_del, ?dom_delete_L;
    try match goal with H : remove_one _ _ = Some _ |- _ => rewrite (remove_one_count _ _ _ key H); clear H end;
    try match goal with H : reconcile_done _ = true |- _ =>
      apply reconcile_done_spec in H as (_ & Htok & _); rewrite Htok; change (count key []) with 0%nat end;
    rewrite ?get_inner in *;
    (split; [|split]); intros; repeat case_decide; subst; simpl in *;
    repeat match goal with H : Inner _ !! _ = None |- _ => apply not_elem_of_dom in H end;
    solve [lia | set_solver].
Qed.

(** ** Reconciliation *)
Definition reconcile_inv s : Prop :=
  match reconciling s with
  | None => True
  | Some r => forall k,
      let existing := k ∈ dom (Inner (endpoints s)) in
      let wanted := k ∈ dom (endpoints_wanted r) in
      (existing \/ k ∈ to_set r \/ k ∈ failed r <-> wanted \/ k ∈ to_del r) /\
      (k ∈ to_set r -> ~ existing /\ k ∉ failed r) /\ (k ∈ failed r -> ~ existing) /\
      (k ∈ to_del r -> existing /\ ~ wanted)
  end.

Lemma reconcile_inv_step s l s' : reconcile_inv s -> step vars s l = Some s' -> reconcile_inv s'.
Proof.
  intros Hi H. unfold reconcile_inv in *.
  destruct l; pd_step H; repeat match goal with H : reconciling _ = _ |- _ => rewrite H in * end; try done;
    intros k; try specialize (Hi k); cbv zeta in *;
    rewrite ?inner_set, ?inner_del, ?dom_insert_L, ?dom_delete_L, ?elem_of_union, ?elem_of_difference,
      ?elem_of_singleton, ?elem_of_empty in *.
  - destruct (decide (k ∈ dom (Inner (endpoints s)))), (decide (k ∈ dom (ready_endpoints readyPods))); tauto.
  - destruct (decide (k = key)) as [->|]; tauto.
  - destruct (decide (k = key)) as [->|]; tauto.
  - destruct (decide (k = key)) as [->|]; tauto.
Qed.

(** ** Requests *)
Definition request_of (g : goroutine) : string :=
  match g with
  | Waiting req | Popped req _ | Executing req _ _ => ID req
  | Returning _ r | Answering r => ID (Source r)
  end.
Definition serves (i : string) (g : goroutine) : nat := if decide (i = request_of g) then 1%nat else 0%nat.
Definition answer_id (r : Response) : string := ID (Source r).

(** How often a request id is in the dispatcher: queued, in a goroutine, or
    answered. *)
Definition present (i : string) s : nat :=
  (count i (ID <$> reqChan s) + msum (serves i) (goroutines s) + count i (answer_id <$> resChan s))%nat.
Definition arrival (i : string) (l : label) : nat :=
  match l with LArrive req => if decide (i = ID req) then 1%nat else 0%nat | _ => 0%nat end.

Lemma executor_Execute_id e x req r : executor_Execute e x req = Some r -> ID (Source r) = ID req.
Proof.
  destruct e, x as [[] ? [] ?|]; intros H; simplify_eq/=; done.
Qed.

Lemma present_step s l s' i : spawned_inv s -> step vars s l = Some s' ->
  present i s' = (present i s + arrival i l)%nat.
Proof.
  intros Hsp H. unfold present.
  destruct l; pd_step H; rewrite ?fmap_app, ?count_app; try (unfold arrival; lia);
    try match goal with E : reqChan s = _ |- _ => rewrite E end;
    try match goal with |- context [<[spawned s := _]> (goroutines s)] =>
      rewrite msum_insert_new by (apply Hsp; lia) end;
    move_sum; unfold serves, answer_id in *; simpl in *; rewrite ?count_cons; change (count i []) with 0%nat;
    try match goal with E : executor_Execute _ _ _ = Some _ |- _ => apply executor_Execute_id in E; rewrite E in * end;
    repeat case_decide; solve [lia].
Qed.

(** What a step does to the responses sent, to the stop flag, and to the
    targets of the requests. *)
Lemma resChan_step s l s' : step vars s l = Some s' ->
  resChan s' = match l with
               | LAnswer t => match goroutines s !! t with Some (Answering r) => resChan s ++ [r] | _ => resChan s end
               | _ => resChan s
               end.
Proof. intros H. destruct l; pd_step H; done. Qed.
Lemma reqChan_step s l s' : step vars s l = Some s' ->
  reqChan s' = match l with LArrive req => reqChan s ++ [req] | LReceive => tail (reqChan s) | _ => reqChan s end.
Proof. intros H. destruct l; pd_step H; done. Qed.
Lemma stopped_step s l s' : step vars s l = Some s' ->
  stopped s' = match l with LStop => true | _ => stopped s end.
Proof. intros H. destruct l; pd_step H; done. Qed.
Lemma spawned_step s l s' : step vars s l = Some s' ->
  spawned s' = match l with LReceive => S (spawned s) | _ => spawned s end.
Proof. intros H. destruct l; pd_step H; done. Qed.

Definition target_of (g : goroutine) : string :=
  match g with
  | Waiting req | Popped req _ | Executing req _ _ => Target req
  | Returning _ r | Answering r => Target (Source r)
  end.
(** Everything in the dispatcher is for its key. *)
Definition for_target (key : string) s : Prop :=
  Forall (fun req => Target req = key) (reqChan s) /\
  map_Forall (fun _ g => target_of g = key) (goroutines s).

Lemma executor_Execute_target e x req r : executor_Execute e x req = Some r -> Target (Source r) = Target req.
Proof. destruct e, x as [[] ? [] ?|]; intros H; simplify_eq/=; done. Qed.

Lemma for_target_step key s l s' : (forall req, l = LArrive req -> Target req = key) ->
  for_target key s -> step vars s l = Some s' -> for_target key s'.
Proof.
  intros Ha [H1 H2] H. unfold for_target.
  assert (forall t g, goroutines s !! t = Some g -> target_of g = key) as Hg by (intros t g Ht; by eapply H2).
  destruct l; pd_step H; try (split; [done|done]);
    try (split; [done|]; apply map_Forall_insert_2; [|done];
         repeat match goal with E : goroutines s !! _ = Some _ |- _ => apply Hg in E; simpl in E end;
         try match goal with E : executor_Execute _ _ _ = Some _ |- _ => apply executor_Execute_target in E end;
         simpl; congruence).
  - split; [|done]. apply Forall_app. split; [done|]. by apply Forall_singleton, Ha.
  - apply Forall_cons in H1 as [H1 H3]. split; [done|]. by apply map_Forall_insert_2.
  - split; [done|]. by apply map_Forall_delete.
Qed.

(** ** Runs *)
Definition total (f : label -> nat) (ls : list label) : nat := foldr (fun l n => (f l + n)%nat) 0%nat ls.

Record good s : Prop := {
  good_spawned : spawned_inv s;
  good_reconcile : reconcile_inv s;
  good_live : forall key, key ∈ dom (Inner (endpoints s)) -> (0 < circulating key s)%nat
}.

Lemma good_new : good NewPodDispatcher.
Proof.
  split; [apply spawned_inv_new|done|]. intros key. simpl. rewrite inner_new. set_solver.
Qed.

Lemma good_step s l s' : good s -> step vars s l = Some s' -> good s'.
Proof.
  intros [H1 H2 H3] H. split; [by eapply spawned_inv_step|by eapply reconcile_inv_step|].
  intros key Hk. destruct (circulating_step s l s' key H1 H) as (_ & Hold & Hnew).
  destruct (decide (key ∈ dom (Inner (endpoints s)))) as [Hin|Hout]; [|by apply Hnew].
  specialize (H3 key Hin). specialize (Hold Hin). lia.
Qed.

Lemma good_reachable s : reachable (step vars) (.= NewPodDispatcher) s -> good s.
Proof. apply reachable_invariant; [intros ? ->; apply good_new|intros; by eapply good_step]. Qed.

Lemma run_totals s ls s' key i : good s -> run (step vars) s ls = Some s' ->
  (circulating key s' <= circulating key s + total (adds key) ls)%nat /\
  present i s' = (present i s + total (arrival i) ls)%nat.
Proof.
  revert s. induction ls as [|l ls IH]; intros s Hg Hr; [simplify_eq/=; lia|].
  cbn [run] in Hr. destruct (step vars s l) as [s1|] eqn:E; [|done]. change (run (step vars) s1 ls = Some s') in Hr.
  destruct (IH s1 (good_step _ _ _ Hg E) Hr) as [I1 I2].
  destruct (circulating_step s l s1 key (good_spawned s Hg) E) as [C1 _].
  pose proof (present_step s l s1 i (good_spawned s Hg) E). simpl. lia.
Qed.

(** ** Draining *)
Lemma run_step s l s' ls : step vars s l = Some s' -> run (step vars) s (l :: ls) = run (step vars) s' ls.
Proof. intros H. cbn [run]. by rewrite H. Qed.

Definition some_execution (e : Executor) : execution :=
  match e with fakeBackend => ExecFake 0 0 0 | grpcBackend _ => ExecGrpc (Ok tt) 0 RpcOtherError 0 end.

(** From [s] some steps of goroutine [t] alone end it. *)
Definition drains (t : nat) s : Prop :=
  exists ls s', run (step vars) s ls = Some s' /\ goroutines s' = delete t (goroutines s) /\
    reqChan s' = reqChan s /\ stopped s' = stopped s.

Lemma drains_step t s l s' : step vars s l = Some s' ->
  delete t (goroutines s') = delete t (goroutines s) -> reqChan s' = reqChan s -> stopped s' = stopped s ->
  drains t s' -> drains t s.
Proof.
  intros Hs Hd Hr Hst (ls & s2 & Hrun & Hg & Hr2 & Hst2). exists (l :: ls), s2.
  rewrite (run_step s l s' ls Hs). split; [done|]. split_and!; congruence.
Qed.

Lemma drains_answering t s r : goroutines s !! t = Some (Answering r) -> drains t s.
Proof.
  intros H. eexists [LAnswer t], _. cbn [run step]. unfold Dispatch_answer. rewrite H. by split.
Qed.
Lemma drains_waiting t s req : goroutines s !! t = Some (Waiting req) -> drains t s.
Proof.
  intros H. eapply (drains_step t s (LTimeout t)).
  - simpl. unfold dispatch_timeout. rewrite H. reflexivity.
  - simpl. apply delete_insert_eq.
  - done.
  - done.
  - eapply drains_answering. simpl. apply lookup_insert_eq.
Qed.
Lemma drains_executing t s req key ex : goroutines s !! t = Some (Executing req key ex) -> drains t s.
Proof.
  intros H. assert (exists r, executor_Execute (snd ex) (some_execution (snd ex)) req = Some r) as [r Hr]
    by (destruct ex as [n []]; simpl; eauto).
  eapply (drains_step t s (LExecuted t (some_execution (snd ex)))).
  - simpl. unfold Dispatch_executed. rewrite H, Hr. reflexivity.
  - simpl. apply delete_insert_eq.
  - done.
  - done.
  - eapply (drains_step t _ (LReturn t)).
    + simpl. unfold Dispatch_return. simpl. rewrite lookup_insert_eq. reflexivity.
    + simpl. apply delete_insert_eq.
    + done.
    + done.
    + eapply drains_answering. simpl. apply lookup_insert_eq.
Qed.

Lemma drains_any t s : is_Some (goroutines s !! t) -> drains t s.
Proof.
  intros [g Hg]. destruct g as [req|req key|req key ex|key r|r].
  - by eapply drains_waiting.
  - destruct (Get key (endpoints s)) as [ex|] eqn:E.
    + eapply (drains_step t s (LGet t)); [simpl; unfold dispatch_get; rewrite Hg, E; reflexivity|..];
        [simpl; apply delete_insert_eq|done|done|]. eapply drains_executing. simpl. apply lookup_insert_eq.
    + eapply (drains_step t s (LGet t)); [simpl; unfold dispatch_get; rewrite Hg, E; reflexivity|..];
        [simpl; apply delete_insert_eq|done|done|]. eapply drains_waiting. simpl. apply lookup_insert_eq.
  - by eapply drains_executing.
  - eapply (drains_step t s (LReturn t)); [simpl; unfold Dispatch_return; rewrite Hg; reflexivity|..];
      [simpl; apply delete_insert_eq|done|done|]. eapply drains_answering. simpl. apply lookup_insert_eq.
  - by eapply drains_answering.
Qed.

Lemma drain_goroutines n : forall s, size (goroutines s) = n -> exists ls s',
  run (step vars) s ls = Some s' /\ goroutines s' = ∅ /\ reqChan s' = reqChan s /\ stopped s' = stopped s.
Proof.
  induction n as [|n IH]; intros s Hn.
  - exists [], s. split; [done|]. by apply map_size_empty_inv in Hn.
  - destruct (map_choose (goroutines s)) as (t & g & Hg); [intros E; rewrite E, map_size_empty in Hn; done|].
    destruct (drains_any t s ltac:(by exists g)) as (ls & s1 & Hr & Hd & Hq & Hst).
    destruct (IH s1) as (ls' & s2 & Hr' & He & Hq' & Hst').
    { pose proof (map_size_delete_Some t (goroutines s) ltac:(by exists g)) as Hsz. rewrite Hd. lia. }
    exists (ls ++ ls'), s2. rewrite run_app, Hr. simpl. split; [done|]. split; [done|]. split; congruence.
Qed.

Lemma drain_all n : forall s, length (reqChan s) = n -> stopped s = false -> exists ls s',
  run (step vars) s ls = Some s' /\ goroutines s' = ∅ /\ reqChan s' = [] .
Proof.
  induction n as [|n IH]; intros s Hn Hst.
  - destruct (drain_goroutines _ s eq_refl) as (ls & s' & Hr & Hg & Hq & _). exists ls, s'.
    apply nil_length_inv in Hn. split; [done|]. split; [done|congruence].
  - destruct (reqChan s) as [|req q] eqn:Hq; [done|].
    assert (exists s1, step vars s LReceive = Some s1 /\ reqChan s1 = q /\ stopped s1 = false) as (s1 & H1 & H2 & H3).
    { simpl. unfold Run_receive. rewrite Hst, Hq. by eexists. }
    destruct (IH s1) as (ls & s' & Hr & Hg & He); [simpl in Hn; subst q; lia|done|].
    exists (LReceive :: ls), s'. by rewrite (run_step s LReceive s1 ls H1).
Qed.

(** C5. Every request is answered exactly once: along any run of a dispatcher
    each request id occurs among the queued requests, the dispatch goroutines
    and the responses exactly as often as it arrived, and from every state of
    a dispatcher that is not stopped some further steps answer everything, so
    that the responses hold each id exactly as often as it arrived. *)
Theorem requests_answered_once ls s :
  run (step vars) NewPodDispatcher ls = Some s ->
  (forall i, present i s = total (arrival i) ls) /\
  (stopped s = false -> exists ls' s', run (step vars) s ls' = Some s' /\
     goroutines s' = ∅ /\ reqChan s' = [] /\
     forall i, count i (answer_id <$> resChan s') = (total (arrival i) ls + total (arrival i) ls')%nat).
Proof.
  intros Hr.
  assert (forall i, present i (NewPodDispatcher (M := M)) = 0%nat) as H0
    by (intros i; unfold present; simpl; by rewrite msum_empty).
  pose proof (fun i => proj2 (run_totals NewPodDispatcher ls s "" i good_new Hr)) as Hp.
  split; [intros i; by rewrite Hp, H0|]. intros Hst.
  destruct (drain_all _ s eq_refl Hst) as (ls' & s' & Hr' & Hg & Hq). exists ls', s'.
  split; [done|]. split; [done|]. split; [done|]. intros i.
  assert (good s) as Hgs by (apply good_reachable; eapply run_reachable; [by apply reach_init|exact Hr]).
  pose proof (proj2 (run_totals s ls' s' "" i Hgs Hr')) as Hp'. rewrite Hp, H0 in Hp'.
  unfold present in Hp'. rewrite Hg, Hq, msum_empty in Hp'. exact Hp'.
Qed.

(** An endpoint in the map has a token somewhere. *)
Lemma live_endpoint_token s key :
  reachable (step vars) (.= NewPodDispatcher) s -> is_Some (Get key (endpoints s)) ->
  key ∈ tokens s \/ (exists t g, goroutines s !! t = Some g /\ holds_token key g = 1%nat) \/
  (exists r, reconciling s = Some r /\ key ∈ to_token r).
Proof.
  intros Hr Hk. pose proof (good_live s (good_reachable s Hr) key) as H.
  rewrite get_inner in Hk. specialize (H (proj2 (elem_of_dom _ _) Hk)).
  unfold circulating, in_flight, pending_tokens in H.
  destruct (decide (0 < msum (holds_token key) (goroutines s))%nat) as [Hm|Hm].
  - right; left. apply msum_pos in Hm as (t & g & Ht & Hg). exists t, g. split; [done|].
    destruct g; simpl in *; try case_decide; lia.
  - assert (forall l, (0 < count key l)%nat -> key ∈ l) as Hc.
    { intros l Hl. unfold count in Hl. destruct (filter (.= key) l) as [|x l'] eqn:E; [simpl in Hl; lia|].
      assert (x ∈ filter (.= key) l) as Hx by (rewrite E; left). apply list_elem_of_filter in Hx as [-> Hx]. done. }
    destruct (decide (0 < count key (tokens s))%nat); [left; auto|]. right; right.
    destruct (reconciling s) as [r|]; [|lia]. exists r. split; [done|]. apply Hc. lia.
Qed.

(** C11. No live endpoint is lost: in every reachable state, however requests,
    timeouts and reconciliations interleave, an endpoint in the map has a
    token in the channel, or a dispatch goroutine that holds one, or an add
    goroutine about to send one; when no goroutine holds one and nothing is
    being reconciled, the token is in the channel and a waiting request can
    take the next token. *)
Theorem live_endpoint_has_token s key :
  reachable (step vars) (.= NewPodDispatcher) s -> is_Some (Get key (endpoints s)) ->
  key ∈ tokens s \/ (exists t g, goroutines s !! t = Some g /\ holds_token key g = 1%nat) \/
  (exists r, reconciling s = Some r /\ key ∈ to_token r).
Proof. apply live_endpoint_token. Qed.

(** How many steps a reconciliation has left. *)
Definition remaining (r : reconciliation) : nat :=
  ((1 + podServiceConcurrency) * size (to_set r) + length (to_token r) + size (to_del r))%nat.
Lemma remove_one_length {A} `{!EqDecision A} (x : A) l l' : remove_one x l = Some l' -> length l = S (length l').
Proof.
  revert l'. induction l as [|y l IH]; intros l' H; simplify_eq/=.
  case_decide; simplify_eq/=; [done|]. destruct (remove_one x l) as [l1|]; simplify_eq/=. by rewrite (IH l1).
Qed.
Lemma size_difference_elem (X : gset string) k : k ∈ X -> size X = S (size (X ∖ {[k]})).
Proof.
  intros Hk. rewrite (union_difference_singleton_L k X) at 1 by done.
  rewrite size_union by set_solver. by rewrite size_singleton.
Qed.
Lemma reconcile_step_decreases s l s' r :
  step vars s l = Some s' -> reconciling s = Some r -> l <> LReconciled ->
  exists r', reconciling s' = Some r' /\
    ((remaining r' < remaining r)%nat \/ r' = r /\ forall k d, l <> LAdd k d /\ l <> LToken k /\ l <> LDel k).
Proof.
  intros H Hr Hl. destruct l; pd_step H; try done; try (eexists; split; [exact Hr|]; right; split; [done|]; done);
    rewrite ?Hr in *; simplify_eq; eexists; (split; [reflexivity|]); left; unfold remaining; simpl;
    try match goal with H : ?k ∈ ?X |- _ => pose proof (size_difference_elem X k H) end;
    try match goal with H : remove_one _ _ = Some _ |- _ => pose proof (remove_one_length _ _ _ H) end;
    rewrite ?length_app; simpl; lia.
Qed.

Lemma reconcile_done_endpoints s r : good s -> reconciling s = Some r -> reconcile_done r = true ->
  dom (Inner (endpoints s)) = dom (endpoints_wanted r) ∖ failed r.
Proof.
  intros Hg Hr (Hs & _ & Hd)%reconcile_done_spec. pose proof (good_reconcile s Hg) as Hi.
  unfold reconcile_inv in Hi. rewrite Hr in Hi. apply set_eq. intros k. specialize (Hi k). cbv zeta in Hi.
  rewrite Hs, Hd in Hi. rewrite elem_of_difference. set_solver.
Qed.

(** The goal of a reconciliation does not change while it runs. *)
Lemma reconcile_wanted_step s l s' r : step vars s l = Some s' -> reconciling s = Some r -> l <> LReconciled ->
  exists r', reconciling s' = Some r' /\ endpoints_wanted r' = endpoints_wanted r.
Proof. intros H Hr Hl. destruct l; pd_step H; try done; rewrite ?Hr in *; simplify_eq; eauto. Qed.
Lemma reconcile_wanted_run s ls s' r : run (step vars) s ls = Some s' -> reconciling s = Some r ->
  LReconciled ∉ ls -> exists r', reconciling s' = Some r' /\ endpoints_wanted r' = endpoints_wanted r.
Proof.
  revert s r. induction ls as [|l ls IH]; intros s r Hrun Hr Hn; [simplify_eq/=; eauto|].
  apply not_elem_of_cons in Hn as [Hl Hn]. cbn [run] in Hrun. destruct (step vars s l) as [s1|] eqn:E; [|done].
  destruct (reconcile_wanted_step s l s1 r E Hr (not_eq_sym Hl)) as (r1 & Hr1 & Hw1).
  destruct (IH s1 r1 Hrun Hr1 Hn) as (r' & Hr' & Hw'). exists r'. split; [done|congruence].
Qed.

Definition can_create : Prop := framework vars = "fake" \/ framework vars = "grpc".
Lemma NewBackend_created ep : can_create -> exists e, NewBackend vars (fun _ => Ok tt) ep = Ok e.
Proof. intros [H|H]; unfold NewBackend; rewrite H; vm_compute; eauto. Qed.

Lemma reconcile_step_enabled s r : can_create -> reconciling s = Some r -> reconcile_done r = false ->
  exists l s', step vars s l = Some s' /\ exists k d, l = LAdd k d \/ l = LToken k \/ l = LDel k.
Proof.
  intros Hc Hr Hd.
  destruct (decide (to_set r = ∅)) as [He|(k & Hk)%set_choose_L].
  - destruct (to_token r) as [|k q] eqn:Ht.
    + destruct (decide (to_del r = ∅)) as [He'|(k & Hk)%set_choose_L].
      * exfalso. apply not_true_iff_false in Hd. apply Hd. by apply reconcile_done_spec.
      * exists (LDel k). eexists. split; [simpl; unfold Reconcile_del; rewrite Hr, decide_True by done; reflexivity|].
        exists k, (Ok tt). auto.
    + exists (LToken k). eexists. split; [simpl; unfold Reconcile_token; rewrite Hr, Ht; simpl;
        rewrite decide_True by done; reflexivity|]. exists k, (Ok tt). auto.
  - destruct (NewBackend_created (default "" (endpoints_wanted r !! k)) Hc) as [e He].
    exists (LAdd k (Ok tt)). eexists. split; [simpl; unfold Reconcile_add; rewrite Hr, decide_True by done;
      rewrite He; reflexivity|]. exists k, (Ok tt). auto.
Qed.

(** C17. Reconciliation converges.  It starts with the endpoints of the ready
    pods as its goal; however dispatching interleaves, once its goroutines and
    its removal loop are done the live endpoints are exactly those of the
    ready pods minus the ones whose backend could not be created; as long as
    it is not done some step of it is enabled (for a valid framework), every
    such step brings the end nearer, and no other step disturbs it. *)
Theorem reconcile_converges s :
  reachable (step vars) (.= NewPodDispatcher) s ->
  (forall pods s', step vars s (LReconcile pods) = Some s' ->
     exists r, reconciling s' = Some r /\ endpoints_wanted r = ready_endpoints pods /\ failed r = ∅) /\
  (forall r, reconciling s = Some r ->
     (reconcile_done r = true -> dom (Inner (endpoints s)) = dom (endpoints_wanted r) ∖ failed r) /\
     (reconcile_done r = false -> can_create ->
        exists l s' r', step vars s l = Some s' /\ reconciling s' = Some r' /\ (remaining r' < remaining r)%nat) /\
     (forall l s', step vars s l = Some s' -> l <> LReconciled ->
        exists r', reconciling s' = Some r' /\ (remaining r' <= remaining r)%nat)).
Proof.
  intros Hreach. split.
  - intros pods s' H. pd_step H. eauto.
  - intros r Hr. split; [|split].
    + intros Hd. apply (reconcile_done_endpoints s r); [by apply good_reachable|done..].
    + intros Hd Hc. destruct (reconcile_step_enabled s r Hc Hr Hd) as (l & s' & Hst & k & d & Hl).
      destruct (reconcile_step_decreases s l s' r Hst Hr) as (r' & Hr' & [Hlt|[_ Hne]]).
      * by destruct Hl as [-> | [-> | ->]].
      * by exists l, s', r'.
      * destruct (Hne k d) as (? & ? & ?). naive_solver.
    + intros l s' Hst Hl. destruct (reconcile_step_decreases s l s' r Hst Hr Hl) as (r' & Hr' & [Hlt|[-> _]]);
        eexists; (split; [exact Hr'|lia]).
Qed.

Lemma executing_circulating key s : (msum (is_executing key) (goroutines s) <= circulating key s)%nat.
Proof.
  unfold circulating, in_flight.
  pose proof (msum_mono (is_executing key) (holds_token key) (goroutines s)) as H.
  assert ((msum (is_executing key) (goroutines s) <= msum (holds_token key) (goroutines s))%nat) as ?; [|lia].
  apply H. intros []; simpl; lia.
Qed.
End Properties.

(** Whether a run can be made: evaluated without its final state. *)
Definition computes {A} (o : option A) : bool := match o with Some _ => true | None => false end.

(** ** The service concurrency of an endpoint *)
Module Flap.
Definition vars : BackendVars := mkBackendVars "fake" (15 * Second) (of_Z 5).
Definition pod : Pod := mkPod "f-0" "10.0.0.1".
Definition key : string := "f-0@10.0.0.1:80".
Definition req (i : string) : Request := mkRequest i "default/f" 100 0 0 0 0 0.

(** The pod is ready, not ready, and ready again at the same address, and two
    requests arrive. *)
Definition flapping : list label :=
  [LReconcile [pod]; LAdd key (Ok tt); LToken key; LReconciled;
   LReconcile []; LDel key; LReconciled;
   LReconcile [pod]; LAdd key (Ok tt); LToken key; LReconciled;
   LArrive (req "1"); LArrive (req "2"); LReceive; LReceive; LPop 0; LGet 0; LPop 1; LGet 1].
Definition flapped : PodDispatcher (gmap string executor_obj) :=
  default NewPodDispatcher (run (step vars) NewPodDispatcher flapping).
End Flap.

(** C29. Concurrency of an endpoint: never more requests execute on one
    endpoint than it was added times, so an endpoint added once serves one
    request at a time, as [podServiceConcurrency] says.  The bound is reached:
    an endpoint that is removed and added again under the same key while its
    first token is still in the channel is given a second token, and one
    executor then runs two requests at once. *)
Theorem service_concurrency :
  (forall (M : Type) `{!SharedMap executor_obj M} `{!SharedMapLaws executor_obj M} vars ls (s : PodDispatcher M) key,
     run (step vars) NewPodDispatcher ls = Some s ->
     (msum (is_executing key) (goroutines s) <= podServiceConcurrency * total (adds key) ls)%nat) /\
  (exists s ex, run (step Flap.vars) (NewPodDispatcher (M := gmap string executor_obj)) Flap.flapping = Some s /\
     goroutines s !! 0%nat = Some (Executing (Flap.req "1") Flap.key ex) /\
     goroutines s !! 1%nat = Some (Executing (Flap.req "2") Flap.key ex)).
Proof.
  split.
  - intros M SM SML vars ls s key Hr.
    pose proof (proj1 (run_totals vars NewPodDispatcher ls s key "" (good_new (M := M)) Hr)) as H.
    pose proof (executing_circulating key s). unfold circulating at 2 in H. simpl in H.
    unfold in_flight, pending_tokens in H. simpl in H. rewrite msum_empty in H.
    change (count key []) with 0%nat in H. unfold podServiceConcurrency. lia.
  - exists (Flap.flapped), (1%nat, fakeBackend). split; [|split; vm_compute; reflexivity].
    unfold Flap.flapped. assert (computes (run (step Flap.vars) (NewPodDispatcher (M := gmap string executor_obj)) Flap.flapping) = true) as H by (vm_compute; reflexivity).
    by destruct (run _ _ _).
Qed.

(** ** Witnesses, on the flapping pod *)
Abbreviation demo_new := (NewPodDispatcher (M := gmap string executor_obj)).
Abbreviation demo_run := (run (step (M := gmap string executor_obj) Flap.vars)).
Definition add_pod : list label := [LReconcile [Flap.pod]; LAdd Flap.key (Ok tt); LToken Flap.key; LReconciled].

(** The state after some steps.  It is named, not computed: only what is read
    of it is. *)
Definition after (ls : list label) : PodDispatcher (gmap string executor_obj) := default demo_new (demo_run demo_new ls).
Lemma some_if {A} (o : option A) : computes o = true -> is_Some o.
Proof. destruct o; [by eexists|done]. Defined.
Lemma after_run ls : computes (demo_run demo_new ls) = true -> demo_run demo_new ls = Some (after ls).
Proof. unfold after. by destruct (demo_run demo_new ls). Defined.
Lemma demo_reachable ls : computes (demo_run demo_new ls) = true ->
  reachable (step Flap.vars) (.= demo_new) (after ls).
Proof. intros H. eapply run_reachable; [by apply reach_init|exact (after_run ls H)]. Defined.

Lemma requests_answered_once_witness :
  demo_run demo_new Flap.flapping = Some (after Flap.flapping) /\ present "1" (after Flap.flapping) = 1%nat.
Proof.
  assert (E : demo_run demo_new Flap.flapping = Some (after Flap.flapping)) by (apply after_run; vm_compute; reflexivity).
  split; [exact E|].
  etransitivity; [exact (proj1 (requests_answered_once Flap.vars Flap.flapping _ E) "1")|vm_compute; reflexivity].
Defined.

Lemma live_endpoint_has_token_witness :
  demo_run demo_new add_pod = Some (after add_pod) /\ Flap.key ∈ tokens (after add_pod).
Proof.
  split; [apply after_run; vm_compute; reflexivity|].
  destruct (live_endpoint_has_token Flap.vars (after add_pod) Flap.key) as [H|[(t & g & H & _)|(r & H & _)]].
  - apply demo_reachable. vm_compute. reflexivity.
  - apply some_if. vm_compute. reflexivity.
  - exact H.
  - exfalso. assert (Hn : size (goroutines (after add_pod)) = 0%nat) by (vm_compute; reflexivity).
    apply map_size_empty_inv in Hn. rewrite Hn, lookup_empty in H. discriminate H.
  - exfalso. assert (Hn : reconciling (after add_pod) = None) by (vm_compute; reflexivity).
    rewrite Hn in H. discriminate H.
Defined.

(** All the work of a first reconciliation is done. *)
Lemma reconcile_converges_witness :
  demo_run demo_new (take 3 add_pod) = Some (after (take 3 add_pod)) /\
  exists r, reconciling (after (take 3 add_pod)) = Some r /\
    dom (Inner (endpoints (after (take 3 add_pod)))) = dom (endpoints_wanted r) ∖ failed r.
Proof.
  split; [apply after_run; vm_compute; reflexivity|].
  assert (Hr : from_option reconcile_done false (reconciling (after (take 3 add_pod))) = true)
    by (vm_compute; reflexivity).
  destruct (reconcile_converges Flap.vars (after (take 3 add_pod))) as [_ H];
    [apply demo_reachable; vm_compute; reflexivity|].
  destruct (reconciling (after (take 3 add_pod))) as [r|]; [|discriminate Hr].
  exists r. split; [reflexivity|]. apply (H r eq_refl). exact Hr.
Defined.

Lemma service_concurrency_witness :
  demo_run demo_new (add_pod ++ [LArrive (Flap.req "1"); LReceive; LPop 0; LGet 0]) =
    Some (after (add_pod ++ [LArrive (Flap.req "1"); LReceive; LPop 0; LGet 0])) /\
  (msum (is_executing Flap.key) (goroutines (after (add_pod ++ [LArrive (Flap.req "1"); LReceive; LPop 0; LGet 0]))) <= 1)%nat.
Proof.
  assert (E : demo_run demo_new (add_pod ++ [LArrive (Flap.req "1"); LReceive; LPop 0; LGet 0]) =
    Some (after (add_pod ++ [LArrive (Flap.req "1"); LReceive; LPop 0; LGet 0]))) by (apply after_run; vm_compute; reflexivity).
  split; [exact E|].
  etransitivity; [exact (proj1 service_concurrency _ _ _ Flap.vars _ _ Flap.key E)|]. vm_compute. reflexivity.
Defined.
