(* ===== verification/FairReconcile.v ===== *)
(** Reconciliation of the pod dispatcher under fairness: every reconciliation
    that starts also ends, with the endpoints of the ready pods. *)
From S2P Require Import Prelude Fair F64 KdUtil Workload Handler Backend Dispatcher.
Import Types.

Section FairReconcile.
Context {M : Type} `{!SharedMap executor_obj M} `{!SharedMapLaws executor_obj M}.
Context (vars : BackendVars).
Abbreviation pd_behaviour := (behaviour (step (M := M) vars)).
Implicit Types s : PodDispatcher M.

(** The goroutines that add endpoints, and Reconcile itself, are scheduled;
    a dial need not succeed. *)
Definition adds_endpoint (key : string) (l : label) : Prop := exists dial, l = LAdd key dial.
Definition reconcile_fair (b : pd_behaviour) : Prop :=
  (forall key, weakly_fair _ (adds_endpoint key) b /\ weakly_fair _ (fun l => l = LToken key) b /\
     weakly_fair _ (fun l => l = LDel key) b) /\
  weakly_fair _ (fun l => l = LReconciled) b.
(** From step [n] on all clients can be created. *)
Definition dials_succeed (b : pd_behaviour) (n : nat) : Prop :=
  forall k key dial, (n < k)%nat -> label_at b k = Some (LAdd key dial) -> dial = Ok tt.

(** The task that a reconciliation waits for. *)
Definition awaited (r : reconciliation) (T : label -> Prop) : Prop :=
  if reconcile_done r then T = (fun l => l = LReconciled)
  else (exists key, T = adds_endpoint key) \/ (exists key, T = fun l => l = LToken key) \/ (exists key, T = fun l => l = LDel key).

Hypothesis creates : can_create vars.

Lemma awaited_enabled s r : reconciling s = Some r ->
  exists T, awaited r T /\ forall s', reconciling s' = Some r -> enabled (step vars) T s'.
Proof.
  intros Hr. unfold awaited. destruct (reconcile_done r) eqn:Hd.
  - eexists. split; [reflexivity|]. intros s' Hr'. eexists LReconciled, _. split; [done|]. simpl.
    unfold Reconcile_return. by rewrite Hr', Hd.
  - destruct (decide (to_set r = ∅)) as [He|(k & Hk)%set_choose_L]; [destruct (to_token r) as [|k q] eqn:Ht;
      [destruct (decide (to_del r = ∅)) as [He'|(k & Hk)%set_choose_L]|]|].
    + exfalso. apply not_true_iff_false in Hd. apply Hd. by apply reconcile_done_spec.
    + eexists. split; [right; right; by exists k|]. intros s' Hr'. eexists (LDel k), _. split; [done|]. simpl.
      unfold Reconcile_del. by rewrite Hr', decide_True.
    + eexists. split; [right; left; by exists k|]. intros s' Hr'. eexists (LToken k), _. split; [done|]. simpl.
      unfold Reconcile_token. rewrite Hr', Ht. simpl. by rewrite decide_True.
    + eexists. split; [left; by exists k|]. intros s' Hr'. destruct (NewBackend_created vars (default "" (endpoints_wanted r !! k)) creates) as [e He].
      eexists (LAdd k (Ok tt)), _. split; [by eexists|]. simpl. unfold Reconcile_add. by rewrite Hr', decide_True, He.
Qed.
Lemma awaited_fair b r T : reconcile_fair b -> awaited r T -> weakly_fair _ T b.
Proof.
  unfold awaited. intros [Hk Hr] H. destruct (reconcile_done r); [by subst|].
  destruct H as [[k ->]|[[k ->]|[k ->]]]; apply (Hk k).
Qed.

(** Dials that succeed leave no failed key. *)
Lemma failed_step s l s' r r' : step vars s l = Some s' -> reconciling s = Some r -> reconciling s' = Some r' ->
  (forall key dial, l = LAdd key dial -> dial = Ok tt) -> failed r' = failed r.
Proof.
  intros H Hr Hr' Hdial. destruct l as [ | | | | | | | | | |key dial| | | ]; cbn [step] in H;
    unfold arrive, Run_receive, Run_stop, dispatch_timeout, dispatch_pop, dispatch_get, Dispatch_executed,
      Dispatch_return, Dispatch_answer, Reconcile_diff, Reconcile_token, Reconcile_del, Reconcile_return in H;
    try rewrite Hr in H; try (inv_step H; congruence).
  - destruct (goroutines s !! t) as [[]|]; try done. apply bind_Some in H as (r0 & _ & H). simplify_eq/=. congruence.
  - rewrite (Hdial key dial eq_refl) in H. unfold Reconcile_add in H. rewrite Hr in H. case_decide; [|done].
    destruct (NewBackend_created vars (default "" (endpoints_wanted r !! key)) creates) as [e He]. rewrite He in H.
    by simplify_eq/=.
Qed.

Section Behaviour.
Context (b : pd_behaviour) (n : nat) (wanted : gmap string string).
Hypothesis b_fair : reconcile_fair b.

(** A reconciliation to [wanted] is running; and it returns. *)
Definition running_to (r : reconciliation) (k : nat) : Prop :=
  (n < k)%nat /\ reconciling (state_at b k) = Some r /\ endpoints_wanted r = wanted /\ (dials_succeed b n -> failed r = ∅).
Definition returned (k : nat) : Prop :=
  exists m r, k = S m /\ running_to r m /\ label_at b m = Some LReconciled.

Lemma running_step r k l : running_to r k -> label_at b k = Some l ->
  returned (S k) \/ exists r', running_to r' (S k) /\
    ((remaining r' < remaining r)%nat \/ r' = r /\ l <> LReconciled /\ forall key d, l <> LAdd key d /\ l <> LToken key /\ l <> LDel key).
Proof.
  intros Hrun E. pose proof Hrun as (Hk & Hr & Hw & Hf). pose proof (behaviour_step _ b k l E) as Hs.
  assert (l = LReconciled \/ l <> LReconciled) as [->|Hl] by (destruct l; auto); [left; by exists k, r|right].
  destruct (reconcile_step_decreases vars _ l _ r Hs Hr Hl) as (r' & Hr' & Hd). exists r'. split.
  - destruct (reconcile_wanted_step vars _ l _ r Hs Hr Hl) as (r2 & Hr2 & Hw2). split_and!; [lia|done|congruence|].
    intros Hdial. rewrite (failed_step _ l _ r r' Hs Hr Hr'); [by apply Hf|]. intros key dial ->. by apply (Hdial k key).
  - destruct Hd as [Hd|[-> Hd]]; [by left|right]. by split_and!.
Qed.
Lemma reconciling_leads r : leads (running_to r) returned.
Proof.
  assert (forall j, leads (fun k => exists r, running_to r k /\ remaining r = j) returned) as Hj.
  { apply leads_rank. intros j k0 (r0 & H0 & Hrem).
    destruct (awaited_enabled _ r0 (proj1 (proj2 H0))) as (T & HT & He).
    apply (weak_leads _ b T (running_to r0)); [by apply (awaited_fair b r0)| | | |done].
    - intros k Hk. destruct (label_at b k) as [l|] eqn:E.
      + destruct (running_step r0 k l Hk E) as [H|(r' & H & [Hlt|[-> _]])]; [by right; left| |by left].
        right. right. exists (remaining r'). split; [lia|]. by exists r'.
      + left. destruct Hk as (? & ? & ? & ?). unfold running_to. rewrite (behaviour_stutter _ b k E). split_and!; [lia|done..].
    - intros k (_ & Hk & _). by apply He.
    - intros k l Hk E Hin. destruct (running_step r0 k l Hk E) as [H|(r' & H & [Hlt|(-> & Hl & Hn)])]; [by left| |].
      + right. exists (remaining r'). split; [lia|]. by exists r'.
      + exfalso. unfold awaited in HT. destruct (reconcile_done r0); [by subst|].
        destruct HT as [[key ->]|[[key ->]|[key ->]]]; [destruct Hin as [d ->]; by destruct (Hn key d)|..];
          subst; by destruct (Hn key (Ok tt)) as (? & ? & ?). }
  intros k Hk. by apply (Hj (remaining r) k); exists r.
Qed.
End Behaviour.

(** C15. Every reconciliation ends.  With a valid backend framework, take any
    infinite behaviour of a pod dispatcher in which the goroutines of its
    reconciliations are scheduled, whatever requests, goroutines, timeouts and
    failing dials do in between.  A reconciliation that starts for some ready
    pods returns, with the endpoints of exactly these pods less those whose
    client could not be created, hence with all of them if the dials
    succeed. *)
Theorem reconcile_ends_fairly (b : pd_behaviour) n pods :
  state_at b 0 = NewPodDispatcher -> reconcile_fair b -> label_at b n = Some (LReconcile pods) ->
  exists m r, (n < m)%nat /\ label_at b m = Some LReconciled /\ reconciling (state_at b m) = Some r /\
    dom (Inner (endpoints (state_at b (S m)))) = dom (ready_endpoints pods) ∖ failed r /\
    (dials_succeed b n -> dom (Inner (endpoints (state_at b (S m)))) = dom (ready_endpoints pods)).
Proof.
  intros H0 Hf Hl. pose proof (behaviour_step _ b n _ Hl) as Hs. simpl in Hs. unfold Reconcile_diff in Hs.
  destruct (reconciling (state_at b n)); [done|]. injection Hs as Hs.
  destruct (reconciling_leads b n (ready_endpoints pods) Hf (mkRec (ready_endpoints pods)
    (dom (ready_endpoints pods) ∖ dom (Inner (endpoints (state_at b n)))) [] (dom (Inner (endpoints (state_at b n))) ∖ dom (ready_endpoints pods)) ∅) (S n))
    as (k & Hk & m & r & -> & (Hm & Hr & Hw & Hfail) & Hlm).
  { split_and!; [lia|by rewrite <- Hs|done|done]. }
  assert (reachable (step vars) (.= NewPodDispatcher) (state_at b m)) as Hreach.
  { apply (run_reachable _ _ (state_at b 0) (labels_before _ b m)); [by apply reach_init|apply labels_before_run]. }
  pose proof (behaviour_step _ b m _ Hlm) as Hs'. simpl in Hs'. unfold Reconcile_return in Hs'. rewrite Hr in Hs'.
  destruct (reconcile_done r) eqn:Hd; [|done]. injection Hs' as Hs'.
  pose proof (reconcile_done_endpoints _ r (good_reachable vars _ Hreach) Hr Hd) as He. rewrite Hw in He.
  assert (dom (Inner (endpoints (state_at b (S m)))) = dom (ready_endpoints pods) ∖ failed r) as He' by (rewrite <- Hs'; exact He).
  exists m, r. split_and!; try done. intros Hdial. rewrite He', (Hfail Hdial). apply difference_empty_L.
Qed.
End FairReconcile.

(** ** The first reconciliation of [Flap] *)
Lemma nothing_to_reconcile {M : Type} `{!SharedMap executor_obj M} vars (s : PodDispatcher M) (T : label -> Prop) :
  reconciling s = None -> (forall l, T l -> l = LReconciled \/ exists key d, l = LAdd key d \/ l = LToken key \/ l = LDel key) ->
  ~ enabled (step vars) T s.
Proof.
  intros Hr HT (l & s' & Hin & Hs). destruct (HT l Hin) as [-> |(key & d & [-> |[-> | ->]])]; simpl in Hs;
    unfold Reconcile_return, Reconcile_add, Reconcile_token, Reconcile_del in Hs; by rewrite Hr in Hs.
Qed.
Lemma idle_reconcile_fair {M : Type} `{!SharedMap executor_obj M} vars (s0 : PodDispatcher M) ls s (H : run (step vars) s0 ls = Some s) :
  reconciling s = None -> reconcile_fair vars (finite_behaviour (step vars) s0 ls s H).
Proof.
  intros Hr. split; [intros key; split_and!|]; apply finite_weakly_fair, (nothing_to_reconcile _ _ _ Hr); intros l.
  - intros [d ->]. right. exists key, d. by left.
  - intros ->. right. exists key, (Ok tt). auto.
  - intros ->. right. exists key, (Ok tt). auto.
  - by left.
Qed.

Lemma reconcile_ends_fairly_witness :
  exists (b : behaviour (step (M := gmap string executor_obj) Flap.vars)) m,
    label_at b 0 = Some (LReconcile [Flap.pod]) /\ label_at b m = Some LReconciled /\
    dom (Inner (endpoints (state_at b (S m)))) = dom (ready_endpoints [Flap.pod]).
Proof.
  assert (Hrun : demo_run demo_new add_pod = Some (after add_pod)) by (apply after_run; vm_compute; reflexivity).
  destruct (reconcile_ends_fairly Flap.vars (or_introl eq_refl)
    (finite_behaviour (step Flap.vars) demo_new add_pod (after add_pod) Hrun) 0%nat [Flap.pod]) as (m & r & _ & Hm & _ & _ & Hd).
  - apply finite_behaviour_start.
  - apply idle_reconcile_fair. vm_compute. reflexivity.
  - reflexivity.
  - eexists _, m. split; [|split; [exact Hm|]]; [reflexivity|]. apply Hd.
    intros k key dial _ Hk. destruct k as [|[|[|[|k]]]]; try discriminate Hk. injection Hk as _ <-. reflexivity.
Defined.
