(* ===== verification/Ksvc.v ===== *)
(** pkg/gateway/dispatcher: the dispatcher of a Knative service (ksvc.go) as a
    labelled transition system of its run loop and its dispatch goroutines. *)
From S2P Require Import Prelude F64 KdUtil Workload Handler Backend Dispatcher.
Import Types.

Definition kourierGatewayServicePort : string := ":80".

(** A goroutine running [Dispatch]: started, inside [Execute] under a context
    with a deadline, about to send its response. *)
Inductive kn_goroutine :=
| KnStarted (req : Request)
| KnExecuting (req : Request) (deadline : time)
| KnAnswering (r : Response).

Record KnServiceDispatcher := mkKD {
  kn_target : string;
  kn_timeout : duration;
  kn_endpoint : string;
  kn_executor : Executor;
  kn_reqChan : list Request;
  kn_resChan : list Response;              (* everything sent so far *)
  kn_goroutines : gmap nat kn_goroutine;
  kn_spawned : nat;
  kn_stopped : bool                        (* ctx is done, and Run has returned *)
}.

Definition NewKnServiceDispatcher (vars : BackendVars) (NewClient : string -> res unit) (target : string)
    (timeout : duration) (url : string) : res KnServiceDispatcher :=
  let endpoint := strings_TrimPrefix url "http://" +:+ kourierGatewayServicePort in
  executor ← wrap_err "failed to start backend: " (NewBackend vars NewClient endpoint);
  Ok (mkKD target timeout endpoint executor [] [] ∅ 0 false).

Definition kn_set_goroutine (t : nat) (g : option kn_goroutine) (kd : KnServiceDispatcher) : KnServiceDispatcher :=
  mkKD (kn_target kd) (kn_timeout kd) (kn_endpoint kd) (kn_executor kd) (kn_reqChan kd) (kn_resChan kd)
    (match g with Some g => <[t := g]> (kn_goroutines kd) | None => delete t (kn_goroutines kd) end)
    (kn_spawned kd) (kn_stopped kd).

(** The relay sends a request to the dispatcher. *)
Definition kn_arrive (req : Request) (kd : KnServiceDispatcher) : KnServiceDispatcher :=
  mkKD (kn_target kd) (kn_timeout kd) (kn_endpoint kd) (kn_executor kd) (kn_reqChan kd ++ [req]) (kn_resChan kd)
    (kn_goroutines kd) (kn_spawned kd) (kn_stopped kd).

(** [Run]: [case req := <-kd.reqChan: go kd.Dispatch(...)], and
    [case <-ctx.Done()]. *)
Definition kn_Run_receive (kd : KnServiceDispatcher) : option KnServiceDispatcher :=
  if kn_stopped kd then None
  else match kn_reqChan kd with
       | [] => None
       | req :: rest =>
           Some (mkKD (kn_target kd) (kn_timeout kd) (kn_endpoint kd) (kn_executor kd) rest (kn_resChan kd)
                   (<[kn_spawned kd := KnStarted req]> (kn_goroutines kd)) (S (kn_spawned kd)) (kn_stopped kd))
       end.
Definition kn_Run_stop (kd : KnServiceDispatcher) : KnServiceDispatcher :=
  mkKD (kn_target kd) (kn_timeout kd) (kn_endpoint kd) (kn_executor kd) (kn_reqChan kd) (kn_resChan kd)
    (kn_goroutines kd) (kn_spawned kd) true.

(** [Dispatch]: the time a request may take, the context, the execution and
    the response. *)
Definition kn_deadline (vars : BackendVars) (kd : KnServiceDispatcher) (req : Request) : duration :=
  int64 (kn_timeout kd + Timeout vars req).
Definition kn_Dispatch_start (vars : BackendVars) (t : nat) (now : time) (kd : KnServiceDispatcher)
  : option KnServiceDispatcher :=
  match kn_goroutines kd !! t with
  | Some (KnStarted req) =>
      Some (kn_set_goroutine t (Some (KnExecuting req (time_add now (kn_deadline vars kd req)))) kd)
  | _ => None
  end.
Definition kn_Dispatch_executed (t : nat) (x : execution) (kd : KnServiceDispatcher) : option KnServiceDispatcher :=
  match kn_goroutines kd !! t with
  | Some (KnExecuting req _) =>
      r ← executor_Execute (kn_executor kd) x req; Some (kn_set_goroutine t (Some (KnAnswering r)) kd)
  | _ => None
  end.
Definition kn_Dispatch_answer (t : nat) (kd : KnServiceDispatcher) : option (Response * KnServiceDispatcher) :=
  match kn_goroutines kd !! t with
  | Some (KnAnswering r) =>
      Some (r, mkKD (kn_target kd) (kn_timeout kd) (kn_endpoint kd) (kn_executor kd) (kn_reqChan kd)
                 (kn_resChan kd ++ [r]) (delete t (kn_goroutines kd)) (kn_spawned kd) (kn_stopped kd))
  | _ => None
  end.

Inductive kn_label :=
| KnArrive (req : Request)
| KnReceive
| KnStop
| KnStart (t : nat) (now : time)
| KnExecuted (t : nat) (x : execution)
| KnAnswer (t : nat).

Definition kn_step (vars : BackendVars) (kd : KnServiceDispatcher) (l : kn_label) : option KnServiceDispatcher :=
  match l with
  | KnArrive req => Some (kn_arrive req kd)
  | KnReceive => kn_Run_receive kd
  | KnStop => Some (kn_Run_stop kd)
  | KnStart t now => kn_Dispatch_start vars t now kd
  | KnExecuted t x => kn_Dispatch_executed t x kd
  | KnAnswer t => snd <$> kn_Dispatch_answer t kd
  end.

(** * Properties *)
Section Properties.
Context (vars : BackendVars).
Implicit Types kd : KnServiceDispatcher.

Ltac kn_inv H :=
  unfold kn_step, kn_arrive, kn_Run_receive, kn_Run_stop, kn_Dispatch_start, kn_Dispatch_executed, kn_Dispatch_answer,
    kn_set_goroutine in H;
  simplify_eq/=;
  repeat match type of H with
         | context [match ?x with _ => _ end] => let E := fresh "E" in destruct x eqn:E; simplify_eq/=
         end;
  try match type of H with (?m ≫= _) = Some _ => let E := fresh "Hexec" in destruct m eqn:E; simplify_eq/= end.

Definition kn_request_of (g : kn_goroutine) : Request :=
  match g with KnStarted req | KnExecuting req _ => req | KnAnswering r => Source r end.
Definition kn_serves (i : string) (g : kn_goroutine) : nat :=
  if decide (i = ID (kn_request_of g)) then 1%nat else 0%nat.
(** How often a request id is waiting or in a goroutine, and how often it
    arrived. *)
Definition kn_busy (i : string) kd : nat :=
  (count i (ID <$> kn_reqChan kd) + msum (kn_serves i) (kn_goroutines kd))%nat.
Definition kn_arrival (i : string) (l : kn_label) : nat :=
  match l with KnArrive req => if decide (i = ID req) then 1%nat else 0%nat | _ => 0%nat end.

(** Goroutine numbers are fresh, everything is for the dispatcher's key, and
    the parts fixed by the constructor. *)
Definition kn_fresh kd : Prop := forall t, (kn_spawned kd <= t)%nat -> kn_goroutines kd !! t = None.
Definition kn_for_target (key : string) kd : Prop :=
  Forall (fun req => Target req = key) (kn_reqChan kd) /\
  map_Forall (fun _ g => Target (kn_request_of g) = key) (kn_goroutines kd).
Definition kn_fixed kd : string * duration * string * Executor :=
  (kn_target kd, kn_timeout kd, kn_endpoint kd, kn_executor kd).

Lemma kn_fresh_step kd l kd' : kn_fresh kd -> kn_step vars kd l = Some kd' -> kn_fresh kd'.
Proof.
  intros Hi H. unfold kn_fresh in *.
  destruct l; kn_inv H; intros t' Ht'; try (apply Hi; lia);
    assert (kn_goroutines kd !! t' = None) as Hn by (apply Hi; lia);
    rewrite ?lookup_insert_None, ?lookup_delete_None; (right; done) || (split; [done|]);
    intros ?; (lia || congruence).
Qed.

Lemma kn_fixed_step kd l kd' : kn_step vars kd l = Some kd' -> kn_fixed kd' = kn_fixed kd.
Proof. intros H. destruct l; kn_inv H; done. Qed.
Lemma kn_stopped_step kd l kd' : kn_step vars kd l = Some kd' ->
  kn_stopped kd' = match l with KnStop => true | _ => kn_stopped kd end.
Proof. intros H. destruct l; kn_inv H; done. Qed.
Lemma kn_reqChan_step kd l kd' : kn_step vars kd l = Some kd' ->
  kn_reqChan kd' =
    match l with KnArrive req => kn_reqChan kd ++ [req] | KnReceive => tail (kn_reqChan kd) | _ => kn_reqChan kd end.
Proof. intros H. destruct l; kn_inv H; done. Qed.
Lemma kn_resChan_step kd l kd' : kn_step vars kd l = Some kd' ->
  kn_resChan kd' =
    match l with
    | KnAnswer t => match kn_goroutines kd !! t with Some (KnAnswering r) => kn_resChan kd ++ [r] | _ => kn_resChan kd end
    | _ => kn_resChan kd
    end.
Proof. intros H. destruct l; kn_inv H; done. Qed.

Lemma kn_present_step kd l kd' i : kn_fresh kd -> kn_step vars kd l = Some kd' ->
  (kn_busy i kd' + count i (answer_id <$> kn_resChan kd') =
   kn_busy i kd + count i (answer_id <$> kn_resChan kd) + kn_arrival i l)%nat.
Proof.
  intros Hf H. unfold kn_busy, kn_arrival.
  destruct l; kn_inv H; rewrite ?fmap_app, ?count_app;
    try match goal with E : kn_reqChan kd = _ |- _ => rewrite E end;
    try match goal with |- context [<[kn_spawned kd := _]> (kn_goroutines kd)] =>
      rewrite msum_insert_new by (apply Hf; lia) end;
    move_sum; unfold kn_serves, answer_id in *; simpl in *; rewrite ?count_cons; change (count i []) with 0%nat;
    try match goal with E : executor_Execute _ _ _ = Some _ |- _ => apply executor_Execute_id in E; rewrite E in * end;
    repeat case_decide; solve [lia].
Qed.

Lemma kn_for_target_step key kd l kd' : (forall req, l = KnArrive req -> Target req = key) ->
  kn_for_target key kd -> kn_step vars kd l = Some kd' -> kn_for_target key kd'.
Proof.
  intros Ha [H1 H2] H. unfold kn_for_target.
  assert (forall t g, kn_goroutines kd !! t = Some g -> Target (kn_request_of g) = key) as Hg by (intros t g Ht; by eapply H2).
  destruct l; kn_inv H;
    repeat match goal with E : kn_goroutines kd !! _ = Some _ |- _ => apply Hg in E; simpl in E end.
  - split; [|done]. apply Forall_app. split; [done|]. by apply Forall_singleton, Ha.
  - apply Forall_cons in H1 as [H1 H3]. split; [done|]. by apply map_Forall_insert_2.
  - by split.
  - split; [done|]. by apply map_Forall_insert_2.
  - split; [done|]. apply executor_Execute_target in Hexec. apply map_Forall_insert_2; [|done]. simpl. congruence.
  - split; [done|]. by apply map_Forall_delete.
Qed.

Definition kn_total (f : kn_label -> nat) (ls : list kn_label) : nat := foldr (fun l n => (f l + n)%nat) 0%nat ls.

Lemma kn_run kd ls kd' : kn_fresh kd -> run (kn_step vars) kd ls = Some kd' ->
  kn_fresh kd' /\ kn_fixed kd' = kn_fixed kd /\
  forall i, (kn_busy i kd' + count i (answer_id <$> kn_resChan kd') =
             kn_busy i kd + count i (answer_id <$> kn_resChan kd) + kn_total (kn_arrival i) ls)%nat.
Proof.
  revert kd. induction ls as [|l ls IH]; intros kd Hf H.
  - injection H as <-. split; [done|]. split; [done|]. intros i. unfold kn_total. simpl. lia.
  - cbn [run] in H. destruct (kn_step vars kd l) as [kd1|] eqn:E; [|done].
    destruct (IH kd1 (kn_fresh_step _ _ _ Hf E) H) as (H1 & H2 & H3). split; [done|].
    split; [rewrite H2; by eapply kn_fixed_step|]. intros i. rewrite H3.
    pose proof (kn_present_step _ _ _ i Hf E). unfold kn_total. simpl. lia.
Qed.

Lemma kn_start_deadline kd t now kd' : kn_step vars kd (KnStart t now) = Some kd' ->
  exists req, kn_goroutines kd !! t = Some (KnStarted req) /\
    kn_goroutines kd' !! t = Some (KnExecuting req (now + kn_deadline vars kd req)).
Proof.
  intros H. kn_inv H. eexists. split; [done|]. by rewrite lookup_insert_eq.
Qed.
Lemma kn_deadline_exact kd req : 0 <= kn_timeout kd -> 0 <= baseTimeout vars -> kn_timeout kd + Timeout vars req < 2 ^ 63 ->
  kn_deadline vars kd req = kn_timeout kd + Timeout vars req /\ baseTimeout vars <= kn_deadline vars kd req.
Proof.
  intros Ht Hb Hlt. assert (baseTimeout vars <= Timeout vars req) by (unfold Timeout; case_match; lia).
  unfold kn_deadline. unfold time, duration in *. rewrite int64_id by lia. lia.
Qed.
End Properties.

(** The dispatcher of a Knative service.  Its creation fails exactly when
    the backend's does.  Along any run of its loop and its goroutines it
    sends every request to one endpoint, the service's URL without its scheme
    at port 80; every request id is waiting, in a goroutine or answered
    exactly as often as it arrived; and a request is executed under a
    deadline of the dispatch timeout plus the request's own after its
    goroutine starts, with no overflow for the timeouts that fit. *)
Theorem kn_dispatcher_contract vars NewClient target timeout url :
  match NewKnServiceDispatcher vars NewClient target timeout ("http://" +:+ url) with
  | Ok kd0 =>
      forall ls kd, run (kn_step vars) kd0 ls = Some kd ->
      kn_target kd = target /\ kn_endpoint kd = url +:+ ":80" /\
      NewBackend vars NewClient (url +:+ ":80") = Ok (kn_executor kd) /\
      (forall i, (kn_busy i kd + count i (answer_id <$> kn_resChan kd))%nat = kn_total (kn_arrival i) ls) /\
      (forall t now kd', kn_step vars kd (KnStart t now) = Some kd' ->
         exists req, kn_goroutines kd !! t = Some (KnStarted req) /\
           (0 <= timeout -> 0 <= baseTimeout vars -> timeout + Timeout vars req < 2 ^ 63 ->
            kn_goroutines kd' !! t = Some (KnExecuting req (now + (timeout + Timeout vars req)))))
  | Err e => exists e', NewBackend vars NewClient (url +:+ ":80") = Err e' /\ e = "failed to start backend: " +:+ e'
  | Panic _ | Fatal _ => is_ok (NewBackend vars NewClient (url +:+ ":80")) = false
  end.
Proof.
  unfold NewKnServiceDispatcher.
  assert (strings_TrimPrefix ("http://" +:+ url) "http://" = url) as -> by done.
  change kourierGatewayServicePort with ":80".
  destruct (NewBackend vars NewClient (url +:+ ":80")) as [e|e|e|e]; simpl; [|eauto|done..].
  intros ls kd Hr. set (kd0 := mkKD _ _ _ _ _ _ _ _ _) in Hr.
  destruct (kn_run vars kd0 ls kd) as (_ & Hfix & Hc); [by intros t _; apply lookup_empty|exact Hr|].
  injection Hfix as H1 H2 H3 H4. split; [done|]. split; [done|]. split; [by rewrite H4|]. split.
  - intros i. rewrite Hc. unfold kn_busy. cbn. by rewrite msum_empty.
  - intros t now kd' Hs. destruct (kn_start_deadline vars kd t now kd' Hs) as (req & E & E'). exists req. split; [done|].
    intros Ht Hb Hlt. rewrite E'. rewrite <- H2 in Ht, Hlt |- *.
    by rewrite (proj1 (kn_deadline_exact vars kd req Ht Hb Hlt)).
Qed.

Definition kn_demo : res KnServiceDispatcher :=
  NewKnServiceDispatcher Flap.vars (fun _ => Ok tt) "default/f" (15 * Second) "http://f.default.example.com".
Lemma kn_dispatcher_contract_witness :
  exists kd0 kd kd', kn_demo = Ok kd0 /\ run (kn_step Flap.vars) kd0 [KnArrive (Flap.req "1"); KnReceive] = Some kd /\
    kn_endpoint kd = "f.default.example.com:80" /\ kn_step Flap.vars kd (KnStart 0 7) = Some kd' /\
    kn_goroutines kd' !! 0%nat = Some (KnExecuting (Flap.req "1") (7 + 30 * Second)).
Proof.
  pose proof (kn_dispatcher_contract Flap.vars (fun _ => Ok tt) "default/f" (15 * Second) "f.default.example.com") as H.
  change ("http://" +:+ "f.default.example.com") with "http://f.default.example.com" in H. fold kn_demo in H.
  destruct kn_demo as [kd0|?|?|?] eqn:E; [|vm_compute in E; discriminate E..].
  vm_compute in E. injection E as <-. eexists _, _, _. split; [reflexivity|]. split; [vm_compute; reflexivity|].
  destruct (H [KnArrive (Flap.req "1"); KnReceive] _ ltac:(vm_compute; reflexivity)) as (_ & H2 & _ & _ & H5).
  split; [exact H2|]. split; [vm_compute; reflexivity|].
  destruct (H5 0%nat 7 _ ltac:(vm_compute; reflexivity)) as (req & Hreq & Hd). vm_compute in Hreq. injection Hreq as <-.
  exact (Hd ltac:(done) ltac:(done) ltac:(vm_compute; reflexivity)).
Defined.
