(* ===== verification/Dispatch.v ===== *)
(** What a dispatcher promises to the gateway that feeds it: an interface of
    operations with laws, which the pod dispatcher of [Dispatcher] and the
    dispatcher of a Knative service of [Ksvc] implement, and against which the
    theorems of [Pipeline] are proved. *)
From S2P Require Import Prelude F64 KdUtil Workload Handler Backend Dispatcher Ksvc.
Import Types.

(** A dispatcher [D] with own steps [L].  The gateway's internal buffers are
    its request and response channels: it receives a request in
    [disp_receive], and [disp_answer] ends goroutine [t] with the response it
    sends.  Steps it takes by itself are [disp_step]; its run loop ends only
    when the context is done.  [disp_busy] says how often a request id is in
    it, [disp_weight] how many steps at most bring all its requests to the
    channel of the clients. *)
Class RequestDispatcher (D L : Type) := {
  disp_step : BackendVars -> bool -> D -> L -> option D;
  disp_receive : Request -> D -> option D;
  disp_answer : nat -> D -> option (Response * D);
  disp_busy : string -> D -> nat;
  disp_weight : D -> nat;
  disp_ok : D -> Prop;
  disp_live : string -> D -> Prop
}.
#[export] Hint Mode RequestDispatcher ! - : typeclass_instances.

(** The laws: in a well-formed dispatcher requests are neither lost nor
    duplicated, and one that is live for a key keeps to it, takes every
    request, and always has a step that brings its requests nearer to their
    answers. *)
Class RequestDispatcherLaws (D L : Type) `{!RequestDispatcher D L} : Prop := {
  disp_step_conserves vars c (d : D) (l : L) d' : disp_ok d -> disp_step vars c d l = Some d' ->
    disp_ok d' /\ forall i, disp_busy i d' = disp_busy i d;
  disp_receive_conserves req (d d' : D) : disp_ok d -> disp_receive req d = Some d' ->
    disp_ok d' /\ forall i, disp_busy i d' = (disp_busy i d + count i [ID req])%nat;
  disp_answer_conserves t (d : D) r d' : disp_ok d -> disp_answer t d = Some (r, d') ->
    disp_ok d' /\ forall i, (disp_busy i d' + count i [answer_id r] = disp_busy i d)%nat;
  disp_live_ok key (d : D) : disp_live key d -> disp_ok d;
  disp_live_step key vars (d : D) (l : L) d' : disp_live key d -> disp_step vars false d l = Some d' -> disp_live key d';
  disp_live_receive key req (d d' : D) : Target req = key -> disp_live key d -> disp_receive req d = Some d' ->
    disp_live key d';
  disp_live_answer key t (d : D) r d' : disp_live key d -> disp_answer t d = Some (r, d') ->
    disp_live key d' /\ Target (Source r) = key;
  disp_receives key req (d : D) : disp_live key d ->
    exists d', disp_receive req d = Some d' /\ (disp_weight d' < 7 + disp_weight d)%nat;
  disp_answer_lighter t (d : D) r d' : disp_answer t d = Some (r, d') -> (2 + disp_weight d' < disp_weight d)%nat;
  disp_progress key vars (d : D) : disp_live key d -> (0 < disp_weight d)%nat ->
    (exists l d', disp_step vars false d l = Some d' /\ (disp_weight d' < disp_weight d)%nat) \/
    (exists t r d', disp_answer t d = Some (r, d'));
  disp_busy_weight i (d : D) : (disp_busy i d <= disp_weight d)%nat
}.

Lemma count_le_length (i : string) l : (count i l <= length l)%nat.
Proof. unfold count. apply length_filter. Qed.
(** A count of goroutines is below a sum of positive weights. *)
Lemma busy_le_weight {X G} (i : string) (f : X -> string) (q : list X) (s w : G -> nat) (m : gmap nat G) :
  (forall g, (s g <= w g)%nat) ->
  (count i (f <$> q) + msum s m <= 7 * length q + msum w m)%nat.
Proof.
  intros Hg. pose proof (count_le_length i (f <$> q)) as H. rewrite length_fmap in H.
  pose proof (msum_mono s w m Hg). lia.
Qed.
Lemma goroutine_lighter {G} (w : G -> nat) (m : gmap nat G) t g g' : m !! t = Some g -> (w g' < w g)%nat ->
  (msum w (<[t := g']> m) < msum w m)%nat.
Proof. intros Et Hw. pose proof (msum_insert w m t g' g Et). lia. Qed.

(** * The pod dispatcher *)
Section Pods.
Context {M : Type} `{!SharedMap executor_obj M}.
Implicit Types pd : PodDispatcher M.

(** The steps a dispatcher takes by itself; its run loop stops only when the
    context is done. *)
Definition own_step (cancelled : bool) (l : Dispatcher.label) : bool :=
  match l with
  | Dispatcher.LArrive _ | Dispatcher.LReceive | Dispatcher.LAnswer _ => false
  | Dispatcher.LStop => cancelled
  | _ => true
  end.
Definition pd_step (vars : BackendVars) (c : bool) pd (l : Dispatcher.label) : option (PodDispatcher M) :=
  if own_step c l then Dispatcher.step vars pd l else None.
Definition pd_receive (req : Request) pd : option (PodDispatcher M) := Run_receive (arrive req pd).
Definition pd_answer (t : nat) pd : option (Response * PodDispatcher M) :=
  match goroutines pd !! t with
  | Some (Answering r) => pd ← Dispatch_answer t pd; Some (r, pd)
  | _ => None
  end.

Definition busy (i : string) pd : nat := (count i (ID <$> reqChan pd) + msum (serves i) (goroutines pd))%nat.
Definition weight (g : goroutine) : nat :=
  match g with
  | Popped _ _ => 6
  | Executing _ _ _ => 5
  | Waiting _ | Returning _ _ => 4
  | Answering _ => 3
  end.
Definition pd_weight pd : nat := (7 * length (reqChan pd) + msum weight (goroutines pd))%nat.
(** A dispatcher that only the gateway feeds. *)
Definition pd_ok pd : Prop := spawned_inv pd /\ reqChan pd = [].
Definition pd_live (key : string) pd : Prop := pd_ok pd /\ stopped pd = false /\ for_target key pd.

#[export] Instance pod_dispatcher : RequestDispatcher (PodDispatcher M) Dispatcher.label :=
  {| disp_step := pd_step; disp_receive := pd_receive; disp_answer := pd_answer; disp_busy := busy;
     disp_weight := pd_weight; disp_ok := pd_ok; disp_live := pd_live |}.

Context `{!SharedMapLaws executor_obj M} (vars : BackendVars).

Lemma present_busy i pd : present i pd = (busy i pd + count i (answer_id <$> resChan pd))%nat.
Proof. unfold present, busy. lia. Qed.

Lemma own_step_conserves pd l pd' c : pd_ok pd -> pd_step vars c pd l = Some pd' ->
  pd_ok pd' /\ forall i, busy i pd' = busy i pd.
Proof.
  unfold pd_step. intros [Hs Hq] H. destruct (own_step c l) eqn:Ho; [|done].
  split; [split; [by eapply spawned_inv_step|]|].
  - rewrite (reqChan_step vars pd l pd' H). by destruct l.
  - intros i. pose proof (present_step vars pd l pd' i Hs H) as Hp.
    rewrite !present_busy, (resChan_step vars pd l pd' H) in Hp.
    destruct l; try discriminate Ho; cbn [arrival] in Hp; lia.
Qed.

Lemma pd_receive_ok req pd pd' : pd_ok pd -> pd_receive req pd = Some pd' ->
  pd_ok pd' /\ forall i, busy i pd' = (busy i pd + count i [ID req])%nat.
Proof.
  unfold pd_receive. intros [Hs Hq] Hr. assert (Dispatcher.step vars pd (Dispatcher.LArrive req) = Some (arrive req pd)) as H1 by done.
  assert (Dispatcher.step vars (arrive req pd) Dispatcher.LReceive = Some pd') as H2 by done.
  pose proof (spawned_inv_step vars _ _ _ Hs H1) as Hs1. pose proof (spawned_inv_step vars _ _ _ Hs1 H2) as Hs2.
  split; [split; [done|]|].
  - rewrite (reqChan_step vars _ _ _ H2). simpl. by rewrite Hq.
  - intros i. pose proof (present_step vars _ _ _ i Hs H1) as P1. pose proof (present_step vars _ _ _ i Hs1 H2) as P2.
    rewrite !present_busy, (resChan_step vars _ _ _ H2) in P2. rewrite !present_busy, (resChan_step vars _ _ _ H1) in P1.
    cbn [arrival] in P1, P2. rewrite count_cons. change (count i []) with 0%nat. lia.
Qed.

Lemma pd_answer_inv t pd r pd' : pd_answer t pd = Some (r, pd') ->
  goroutines pd !! t = Some (Answering r) /\ Dispatch_answer t pd = Some pd'.
Proof.
  unfold pd_answer. destruct (goroutines pd !! t) as [[ | | | |r']|] eqn:Et; try done.
  destruct (Dispatch_answer t pd) eqn:Ea; [|done]. simpl. by intros [= <- <-].
Qed.
Lemma pd_answer_ok t pd r pd' : pd_ok pd -> pd_answer t pd = Some (r, pd') ->
  pd_ok pd' /\ forall i, (busy i pd' + count i [answer_id r] = busy i pd)%nat.
Proof.
  intros [Hs Hq] [Ht Ha]%pd_answer_inv. assert (Dispatcher.step vars pd (Dispatcher.LAnswer t) = Some pd') as H1 by done.
  split; [split; [by eapply spawned_inv_step|by rewrite (reqChan_step vars _ _ _ H1)]|].
  intros i. pose proof (present_step vars _ _ _ i Hs H1) as P1. rewrite !present_busy, (resChan_step vars _ _ _ H1), Ht in P1.
  rewrite fmap_app, count_app in P1. cbn [arrival] in P1. change (answer_id <$> [r]) with [answer_id r] in P1. lia.
Qed.

Lemma pd_live_step key pd l pd' : pd_live key pd -> pd_step vars false pd l = Some pd' -> pd_live key pd'.
Proof.
  intros (H1 & H2 & H3) Hs. destruct (own_step_conserves pd l pd' false H1 Hs) as [H4 _].
  unfold pd_step in Hs. destruct (own_step false l) eqn:Ho; [|done].
  split; [done|]. split; [rewrite (stopped_step vars pd l pd' Hs); by destruct l|].
  eapply for_target_step; [|exact H3|exact Hs]. by intros req ->.
Qed.
Lemma pd_live_receive key req pd pd' : Target req = key -> pd_live key pd -> pd_receive req pd = Some pd' -> pd_live key pd'.
Proof.
  intros Ht (H1 & H2 & H3) Hs. destruct (pd_receive_ok req pd pd' H1 Hs) as [H4 _].
  assert (Dispatcher.step vars (arrive req pd) Dispatcher.LReceive = Some pd') as Hr by done.
  assert (Dispatcher.step vars pd (Dispatcher.LArrive req) = Some (arrive req pd)) as Ha by done.
  split; [done|]. split; [rewrite (stopped_step vars _ _ _ Hr); done|].
  eapply for_target_step; [|eapply for_target_step; [|exact H3|exact Ha]|exact Hr]; [done|]. by intros ? [= <-].
Qed.
Lemma pd_live_answer key t pd r pd' : pd_live key pd -> pd_answer t pd = Some (r, pd') ->
  pd_live key pd' /\ Target (Source r) = key.
Proof.
  intros (H1 & H2 & H3) Hs. destruct (pd_answer_ok t pd r pd' H1 Hs) as [H4 _]. apply pd_answer_inv in Hs as [Ht Ha].
  assert (Dispatcher.step vars pd (Dispatcher.LAnswer t) = Some pd') as Hr by done.
  split; [|exact (proj2 H3 t _ Ht)]. split; [done|]. split; [by rewrite (stopped_step vars _ _ _ Hr)|].
  eapply for_target_step; [|exact H3|exact Hr]. done.
Qed.

Lemma pd_receives key req pd : pd_live key pd ->
  exists pd', pd_receive req pd = Some pd' /\ (pd_weight pd' < 7 + pd_weight pd)%nat.
Proof.
  intros ([Hsp Hq] & Hst & _). unfold pd_receive, Run_receive, arrive. cbn. rewrite Hst, Hq. simpl. eexists. split; [reflexivity|].
  unfold pd_weight. cbn [reqChan goroutines]. rewrite ?Hq, msum_insert_new by (apply Hsp; lia). simpl. lia.
Qed.
Lemma pd_answer_lighter t pd r pd' : pd_answer t pd = Some (r, pd') -> (2 + pd_weight pd' < pd_weight pd)%nat.
Proof.
  intros [Ht Ha]%pd_answer_inv. unfold Dispatch_answer in Ha. rewrite Ht in Ha. simplify_eq/=.
  unfold pd_weight. cbn. pose proof (msum_delete weight _ t _ Ht) as W. simpl in W. lia.
Qed.

(** Every goroutine can go on: one that waits by its timeout. *)
Definition next_step pd (t : nat) (g : goroutine) : Dispatcher.label :=
  match g with
  | Waiting _ => LTimeout t
  | Popped _ _ => LGet t
  | Executing _ _ ex => LExecuted t (some_execution (snd ex))
  | Returning _ _ | Answering _ => LReturn t
  end.
Lemma pd_goroutine_progress pd t g : goroutines pd !! t = Some g -> (forall r, g <> Answering r) ->
  exists pd', pd_step vars false pd (next_step pd t g) = Some pd' /\ (pd_weight pd' < pd_weight pd)%nat.
Proof.
  intros Et Hg.
  assert (forall q g' (m : M) n, (weight g' < weight g)%nat ->
    (pd_weight (set_goroutine t (Some g') (set_tokens q (set_endpoints m n pd))) < pd_weight pd)%nat) as Hw.
  { intros q g' m n H. unfold pd_weight. cbn. pose proof (goroutine_lighter weight _ t g g' Et H). lia. }
  destruct g as [req|req k|req k ex|k r|r]; unfold pd_step; cbn [next_step own_step Dispatcher.step].
  - unfold dispatch_timeout. rewrite Et. eexists. split; [reflexivity|].
    apply (Hw (tokens pd) _ (endpoints pd) (executors pd)). simpl. lia.
  - unfold dispatch_get. rewrite Et. destruct (Get k (endpoints pd)) as [ex|]; (eexists; split; [reflexivity|]);
      apply (Hw (tokens pd) _ (endpoints pd) (executors pd)); simpl; lia.
  - assert (exists r, executor_Execute (snd ex) (some_execution (snd ex)) req = Some r) as [r Hr]
      by (destruct ex as [n []]; simpl; eauto).
    unfold Dispatch_executed. rewrite Et, Hr. eexists. split; [reflexivity|].
    apply (Hw (tokens pd) _ (endpoints pd) (executors pd)). simpl. lia.
  - unfold Dispatch_return. rewrite Et. eexists. split; [reflexivity|].
    apply (Hw (tokens pd ++ [k]) _ (endpoints pd) (executors pd)). simpl. lia.
  - by destruct (Hg r).
Qed.
Lemma pd_progress key pd : pd_live key pd -> (0 < pd_weight pd)%nat ->
  (exists l pd', pd_step vars false pd l = Some pd' /\ (pd_weight pd' < pd_weight pd)%nat) \/
  (exists t r pd', pd_answer t pd = Some (r, pd')).
Proof.
  intros ([_ Hq] & _) Hw. unfold pd_weight in Hw. rewrite Hq in Hw. cbn in Hw.
  destruct (msum_pos weight (goroutines pd)) as (t & g & Et & _); [lia|].
  assert ((exists r, g = Answering r) \/ forall r, g <> Answering r) as [[r ->]|Hg] by (destruct g; naive_solver).
  - right. exists t, r. unfold pd_answer, Dispatch_answer. rewrite Et. cbn [mbind option_bind]. by eexists.
  - left. exists (next_step pd t g). by apply pd_goroutine_progress.
Qed.
Lemma pd_busy_weight i pd : (busy i pd <= pd_weight pd)%nat.
Proof. apply busy_le_weight. intros g. unfold serves. case_decide; destruct g; simpl; lia. Qed.
End Pods.

#[export] Instance pod_dispatcher_laws {M : Type} `{!SharedMap executor_obj M} `{!SharedMapLaws executor_obj M} :
  RequestDispatcherLaws (PodDispatcher M) Dispatcher.label.
Proof.
  pose proof initial_backend_vars as vars. split.
  - intros vars' c d l d'. apply own_step_conserves.
  - intros req d d'. apply (pd_receive_ok vars).
  - intros t d r d'. apply (pd_answer_ok vars).
  - intros key d [H _]. exact H.
  - intros key vars' d l d'. apply pd_live_step.
  - intros key req d d'. apply (pd_live_receive vars).
  - intros key t d r d'. apply (pd_live_answer vars).
  - intros key req d. apply pd_receives.
  - intros t d r d'. apply pd_answer_lighter.
  - intros key vars' d. apply pd_progress.
  - intros i d. apply pd_busy_weight.
Qed.

Lemma new_pd_live {M : Type} `{!SharedMap executor_obj M} key : pd_live (M := M) key NewPodDispatcher.
Proof. split; [|split; [done|]; split; [by constructor|apply map_Forall_empty]]. split; [apply spawned_inv_new|done]. Qed.

(** * The Knative service dispatcher *)
Section Services.
Implicit Types kd : KnServiceDispatcher.

Definition kn_own_step (cancelled : bool) (l : kn_label) : bool :=
  match l with
  | KnArrive _ | KnReceive | KnAnswer _ => false
  | KnStop => cancelled
  | _ => true
  end.
Definition kd_step (vars : BackendVars) (c : bool) kd (l : kn_label) : option KnServiceDispatcher :=
  if kn_own_step c l then kn_step vars kd l else None.
Definition kd_receive (req : Request) kd : option KnServiceDispatcher := kn_Run_receive (kn_arrive req kd).

Definition kn_weight (g : kn_goroutine) : nat :=
  match g with KnStarted _ => 5 | KnExecuting _ _ => 4 | KnAnswering _ => 3 end.
Definition kd_weight kd : nat := (7 * length (kn_reqChan kd) + msum kn_weight (kn_goroutines kd))%nat.
Definition kd_ok kd : Prop := kn_fresh kd /\ kn_reqChan kd = [].
Definition kd_live (key : string) kd : Prop := kd_ok kd /\ kn_stopped kd = false /\ kn_for_target key kd.

#[export] Instance service_dispatcher : RequestDispatcher KnServiceDispatcher kn_label :=
  {| disp_step := kd_step; disp_receive := kd_receive; disp_answer := kn_Dispatch_answer; disp_busy := kn_busy;
     disp_weight := kd_weight; disp_ok := kd_ok; disp_live := kd_live |}.

Context (vars : BackendVars).

Lemma kd_step_conserves kd l kd' c : kd_ok kd -> kd_step vars c kd l = Some kd' ->
  kd_ok kd' /\ forall i, kn_busy i kd' = kn_busy i kd.
Proof.
  unfold kd_step. intros [Hs Hq] H. destruct (kn_own_step c l) eqn:Ho; [|done].
  split; [split; [by eapply kn_fresh_step|]|].
  - rewrite (kn_reqChan_step vars kd l kd' H). by destruct l.
  - intros i. pose proof (kn_present_step vars kd l kd' i Hs H) as Hp.
    rewrite (kn_resChan_step vars kd l kd' H) in Hp.
    destruct l; try discriminate Ho; cbn [kn_arrival] in Hp; lia.
Qed.

Lemma kd_receive_ok req kd kd' : kd_ok kd -> kd_receive req kd = Some kd' ->
  kd_ok kd' /\ forall i, kn_busy i kd' = (kn_busy i kd + count i [ID req])%nat.
Proof.
  unfold kd_receive. intros [Hs Hq] Hr. assert (kn_step vars kd (KnArrive req) = Some (kn_arrive req kd)) as H1 by done.
  assert (kn_step vars (kn_arrive req kd) KnReceive = Some kd') as H2 by done.
  pose proof (kn_fresh_step vars _ _ _ Hs H1) as Hs1.
  split; [split; [by eapply kn_fresh_step|]|].
  - rewrite (kn_reqChan_step vars _ _ _ H2). simpl. by rewrite Hq.
  - intros i. pose proof (kn_present_step vars _ _ _ i Hs H1) as P1. pose proof (kn_present_step vars _ _ _ i Hs1 H2) as P2.
    rewrite (kn_resChan_step vars _ _ _ H2) in P2. rewrite (kn_resChan_step vars _ _ _ H1) in P1.
    cbn [kn_arrival] in P1, P2. rewrite count_cons. change (count i []) with 0%nat. lia.
Qed.

Lemma kd_answer_inv t kd r kd' : kn_Dispatch_answer t kd = Some (r, kd') ->
  kn_goroutines kd !! t = Some (KnAnswering r) /\ kn_step vars kd (KnAnswer t) = Some kd' /\
  kn_goroutines kd' = delete t (kn_goroutines kd) /\ kn_reqChan kd' = kn_reqChan kd.
Proof.
  unfold kn_step, kn_Dispatch_answer. destruct (kn_goroutines kd !! t) as [[]|] eqn:Et; try done. by intros [= <- <-].
Qed.
Lemma kd_answer_ok t kd r kd' : kd_ok kd -> kn_Dispatch_answer t kd = Some (r, kd') ->
  kd_ok kd' /\ forall i, (kn_busy i kd' + count i [answer_id r] = kn_busy i kd)%nat.
Proof.
  intros [Hs Hq] (Ht & H1 & Hg & Hr)%kd_answer_inv.
  split; [split; [by eapply kn_fresh_step|congruence]|].
  intros i. pose proof (kn_present_step vars _ _ _ i Hs H1) as P1. rewrite (kn_resChan_step vars _ _ _ H1), Ht in P1.
  rewrite fmap_app, count_app in P1. cbn [kn_arrival] in P1. change (answer_id <$> [r]) with [answer_id r] in P1. lia.
Qed.

Lemma kd_live_step key kd l kd' : kd_live key kd -> kd_step vars false kd l = Some kd' -> kd_live key kd'.
Proof.
  intros (H1 & H2 & H3) Hs. destruct (kd_step_conserves kd l kd' false H1 Hs) as [H4 _].
  unfold kd_step in Hs. destruct (kn_own_step false l) eqn:Ho; [|done].
  split; [done|]. split; [rewrite (kn_stopped_step vars kd l kd' Hs); by destruct l|].
  eapply kn_for_target_step; [|exact H3|exact Hs]. by intros req ->.
Qed.
Lemma kd_live_receive key req kd kd' : Target req = key -> kd_live key kd -> kd_receive req kd = Some kd' -> kd_live key kd'.
Proof.
  intros Ht (H1 & H2 & H3) Hs. destruct (kd_receive_ok req kd kd' H1 Hs) as [H4 _].
  assert (kn_step vars (kn_arrive req kd) KnReceive = Some kd') as Hr by done.
  assert (kn_step vars kd (KnArrive req) = Some (kn_arrive req kd)) as Ha by done.
  split; [done|]. split; [rewrite (kn_stopped_step vars _ _ _ Hr); done|].
  eapply kn_for_target_step; [|eapply kn_for_target_step; [|exact H3|exact Ha]|exact Hr]; [done|]. by intros ? [= <-].
Qed.
Lemma kd_live_answer key t kd r kd' : kd_live key kd -> kn_Dispatch_answer t kd = Some (r, kd') ->
  kd_live key kd' /\ Target (Source r) = key.
Proof.
  intros (H1 & H2 & H3) Hs. destruct (kd_answer_ok t kd r kd' H1 Hs) as [H4 _]. apply kd_answer_inv in Hs as (Ht & Hr & _).
  split; [|exact (proj2 H3 t _ Ht)]. split; [done|]. split; [by rewrite (kn_stopped_step vars _ _ _ Hr)|].
  eapply kn_for_target_step; [|exact H3|exact Hr]. done.
Qed.

Lemma kd_receives key req kd : kd_live key kd ->
  exists kd', kd_receive req kd = Some kd' /\ (kd_weight kd' < 7 + kd_weight kd)%nat.
Proof.
  intros ([Hsp Hq] & Hst & _). unfold kd_receive, kn_Run_receive, kn_arrive. cbn. rewrite Hst, Hq. simpl.
  eexists. split; [reflexivity|]. unfold kd_weight. cbn [kn_reqChan kn_goroutines].
  rewrite ?Hq, msum_insert_new by (apply Hsp; lia). simpl. lia.
Qed.
Lemma kd_answer_lighter t kd r kd' : kn_Dispatch_answer t kd = Some (r, kd') -> (2 + kd_weight kd' < kd_weight kd)%nat.
Proof.
  intros (Ht & _ & Hg & Hr)%kd_answer_inv. unfold kd_weight. rewrite Hg, Hr.
  pose proof (msum_delete kn_weight _ t _ Ht) as W. simpl in W. lia.
Qed.

Lemma kd_progress key kd : kd_live key kd -> (0 < kd_weight kd)%nat ->
  (exists l kd', kd_step vars false kd l = Some kd' /\ (kd_weight kd' < kd_weight kd)%nat) \/
  (exists t r kd', kn_Dispatch_answer t kd = Some (r, kd')).
Proof.
  intros ([_ Hq] & _) Hw. unfold kd_weight in Hw. rewrite Hq in Hw. cbn in Hw.
  destruct (msum_pos kn_weight (kn_goroutines kd)) as (t & g & Et & _); [lia|].
  assert (forall g', (kn_weight g' < kn_weight g)%nat -> (kd_weight (kn_set_goroutine t (Some g') kd) < kd_weight kd)%nat) as Hl.
  { intros g' H. unfold kd_weight. cbn. pose proof (goroutine_lighter kn_weight _ t g g' Et H). lia. }
  destruct g as [req|req dl|r].
  - left. exists (KnStart t 0). unfold kd_step, kn_step, kn_Dispatch_start. cbn [kn_own_step]. rewrite Et.
    eexists. split; [reflexivity|]. apply Hl. simpl. lia.
  - left. exists (KnExecuted t (some_execution (kn_executor kd))). unfold kd_step, kn_step, kn_Dispatch_executed.
    cbn [kn_own_step]. rewrite Et.
    assert (exists r, executor_Execute (kn_executor kd) (some_execution (kn_executor kd)) req = Some r) as [r ->]
      by (destruct (kn_executor kd); simpl; eauto).
    eexists. split; [reflexivity|]. apply Hl. simpl. lia.
  - right. exists t, r. unfold kn_Dispatch_answer. rewrite Et. by eexists.
Qed.
Lemma kd_busy_weight i kd : (kn_busy i kd <= kd_weight kd)%nat.
Proof. apply busy_le_weight. intros g. unfold kn_serves. case_decide; destruct g; simpl; lia. Qed.
End Services.

#[export] Instance service_dispatcher_laws : RequestDispatcherLaws KnServiceDispatcher kn_label.
Proof.
  pose proof initial_backend_vars as vars. split.
  - intros vars' c d l d'. apply kd_step_conserves.
  - intros req d d'. apply (kd_receive_ok vars).
  - intros t d r d'. apply (kd_answer_ok vars).
  - intros key d [H _]. exact H.
  - intros key vars' d l d'. apply kd_live_step.
  - intros key req d d'. apply (kd_live_receive vars).
  - intros key t d r d'. apply (kd_live_answer vars).
  - intros key req d. apply kd_receives.
  - intros t d r d'. apply kd_answer_lighter, vars.
  - intros key vars' d. apply kd_progress.
  - intros i d. apply kd_busy_weight.
Qed.

Lemma new_kd_live vars NewClient target timeout url kd :
  NewKnServiceDispatcher vars NewClient target timeout url = Ok kd -> forall key, kd_live key kd.
Proof.
  unfold NewKnServiceDispatcher. intros (e & _ & [= <-])%res_bind_ok key.
  split; [split; [intros t _; apply lookup_empty|done]|]. split; [done|]. split; [by constructor|apply map_Forall_empty].
Qed.
