(* ===== verification/FairDispatch.v ===== *)
(** What a dispatcher promises under fairness: an interface over the one of
    [Dispatch], with the tasks of its goroutines, which the pod dispatcher and
    the dispatcher of a Knative service implement, and against which the fair
    behaviours of [FairPipeline] are analysed. *)
From S2P Require Import Prelude Fair F64 KdUtil Workload Handler Backend Dispatcher Ksvc Dispatch.
Import Types.

(** A dispatcher by itself: its own steps, and what the gateway makes it do. *)
Section Alone.
Context {D DL : Type} `{!RequestDispatcher D DL} (vars : BackendVars).

Inductive disp_label :=
| DStep (l : DL)
| DReceive (req : Request)
| DAnswer (t : nat).

Definition dispatcher_step (d : D) (l : disp_label) : option D :=
  match l with
  | DStep l => disp_step vars false d l
  | DReceive req => disp_receive req d
  | DAnswer t => snd <$> disp_answer t d
  end.
(** A task of the dispatcher's own steps. *)
Definition own_task (T : DL -> Prop) (l : disp_label) : Prop := match l with DStep l => T l | _ => False end.

(** Goroutine [t] is about to send a response for request id [i]. *)
Definition answering (t : nat) (i : string) (d : D) : Prop :=
  exists r d', disp_answer t d = Some (r, d') /\ answer_id r = i.
End Alone.
Arguments disp_label DL : clear implicits.

(** The tasks that the scheduler, the executors and the clock of the timeouts
    are fair to, weakly or strongly; [disp_serves] says that a goroutine works
    for a request id. *)
Class FairDispatcher (D DL : Type) := {
  disp_serves : nat -> string -> D -> Prop;
  disp_weak : nat -> list (DL -> Prop);
  disp_strong : nat -> list (DL -> Prop)
}.
#[export] Hint Mode FairDispatcher ! - : typeclass_instances.
Arguments disp_weak D {DL _} t.
Arguments disp_strong D {DL _} t.

Section Fairness.
Context {D DL : Type} `{!RequestDispatcher D DL, !FairDispatcher D DL} (vars : BackendVars).
(** A behaviour of a live dispatcher in which every goroutine is scheduled. *)
Definition dispatcher_fair (b : behaviour (dispatcher_step (D := D) (DL := DL) vars)) : Prop := forall t,
  (forall T, T ∈ disp_weak D t -> weakly_fair _ (own_task T) b) /\
  (forall T, T ∈ disp_strong D t -> strongly_fair _ (own_task T) b).
End Fairness.

(** The laws: a request that is received gets a goroutine, which in every
    fair behaviour comes to send a response for it, and stays at that until it
    has sent it; and a dispatcher without work has nothing to be fair to. *)
Class FairDispatcherLaws (D DL : Type) `{!RequestDispatcher D DL, !FairDispatcher D DL} : Prop := {
  disp_receive_serves key req (d d' : D) : disp_live key d -> disp_receive req d = Some d' ->
    exists t, disp_serves t (ID req) d';
  disp_fair_answers key vars (b : behaviour (dispatcher_step (D := D) (DL := DL) vars)) t i n :
    (forall k, disp_live key (state_at b k)) -> dispatcher_fair vars b -> disp_serves t i (state_at b n) ->
    exists m, (n <= m)%nat /\ answering (DL := DL) t i (state_at b m);
  disp_answering_stays key vars t i (d : D) (l : disp_label DL) d' : disp_live key d -> answering (DL := DL) t i d ->
    l <> DAnswer t -> dispatcher_step vars d l = Some d' -> answering (DL := DL) t i d';
  disp_idle vars t T (d : D) l : disp_weight d = 0%nat -> T ∈ disp_weak D t ++ disp_strong D t -> T l ->
    disp_step vars false d l = None
}.

(** ** Goroutines under fairness

    What both dispatchers have: numbered goroutines, which only the labels
    that name them move. *)
Section Goroutines.
Context {D DL G : Type} `{!RequestDispatcher D DL} (vars : BackendVars).
Context (gs : D -> gmap nat G) (actor : disp_label DL -> option nat) (moves : G -> disp_label DL -> option G -> Prop).
Context (ok : D -> Prop).
Hypothesis goroutine_moves : forall d l d' t g, ok d -> dispatcher_step vars d l = Some d' -> gs d !! t = Some g ->
  if decide (actor l = Some t) then moves g l (gs d' !! t) else gs d' !! t = Some g.
Context (b : behaviour (dispatcher_step (D := D) (DL := DL) vars)) (t : nat).
Hypothesis b_ok : forall k, ok (state_at b k).

Definition goroutine_in (X : G -> Prop) (k : nat) : Prop := exists g, gs (state_at b k) !! t = Some g /\ X g.

Lemma goroutine_in_next X k : goroutine_in X k ->
  goroutine_in X (S k) \/
  exists g l, gs (state_at b k) !! t = Some g /\ X g /\ label_at b k = Some l /\ moves g l (gs (state_at b (S k)) !! t).
Proof.
  intros (g & Hg & HX). destruct (label_at b k) as [l|] eqn:E.
  - pose proof (goroutine_moves _ _ _ t g (b_ok k) (behaviour_step _ b k l E) Hg) as Hm. case_decide.
    + right. by exists g, l.
    + left. by exists g.
  - left. exists g. by rewrite (behaviour_stutter _ b k E).
Qed.
Lemma goroutine_in_persists (X Y : G -> Prop) : (forall g l o, X g -> moves g l o -> exists g', o = Some g' /\ (X g' \/ Y g')) ->
  forall k, goroutine_in X k -> goroutine_in X (S k) \/ goroutine_in Y (S k).
Proof.
  intros HXY k [H|(g & l & _ & HX & _ & Hm)]%goroutine_in_next; [by left|].
  destruct (HXY g l _ HX Hm) as (g' & Hg' & [H|H]); [left|right]; by exists g'.
Qed.
Lemma goroutine_in_taken (X Y : G -> Prop) (T : DL -> Prop) : (forall l, T l -> actor (DStep l) = Some t) ->
  (forall g l o, T l -> X g -> moves g (DStep l) o -> exists g', o = Some g' /\ Y g') ->
  forall k l, goroutine_in X k -> label_at b k = Some l -> own_task T l -> goroutine_in Y (S k).
Proof.
  intros Ht HXY k [l|req|t'] (g & Hg & HX) E Hin; [|done..].
  pose proof (goroutine_moves _ _ _ t g (b_ok k) (behaviour_step _ b k _ E) Hg) as Hm.
  rewrite decide_True in Hm by by apply Ht. destruct (HXY g l _ Hin HX Hm) as (g' & Hg' & HY). by exists g'.
Qed.

(** A task of the goroutine that is always possible in [X], when all moves
    from [X] are to [Y]. *)
Lemma goroutine_weak (X Y : G -> Prop) (T : DL -> Prop) : weakly_fair _ (own_task T) b ->
  (forall l, T l -> actor (DStep l) = Some t) ->
  (forall g l o, X g -> moves g l o -> exists g', o = Some g' /\ Y g') ->
  (forall d g, ok d -> gs d !! t = Some g -> X g -> exists l d', T l /\ disp_step vars false d l = Some d') ->
  leads (goroutine_in X) (goroutine_in Y).
Proof.
  intros Hf Ht HXY He. apply (weak_leads _ b (own_task T)); [done| | |].
  - apply goroutine_in_persists. intros g l o HX Hm. destruct (HXY g l o HX Hm) as (g' & ? & ?). eauto.
  - intros k (g & Hg & HX). destruct (He _ g (b_ok k) Hg HX) as (l & d' & Hin & Hs). by exists (DStep l), d'.
  - intros k l HX. apply (goroutine_in_taken X Y T Ht); [|done]. intros g l0 o _. apply HXY.
Qed.
End Goroutines.

(** * The pod dispatcher *)
Section Pods.
Context {M : Type} `{!SharedMap executor_obj M} `{!SharedMapLaws executor_obj M}.
Implicit Types pd : PodDispatcher M.

(** A goroutine that has a token or an executor goes on, and one that waits
    has its timeout: with tokens of removed endpoints it may be disturbed
    again and again, so the timeout is a strong task.  That a goroutine ever
    gets a token is not needed. *)
Definition pods_serve (t : nat) (i : string) pd : Prop := exists g, goroutines pd !! t = Some g /\ request_of g = i.
#[export] Instance fair_pods : FairDispatcher (PodDispatcher M) Dispatcher.label :=
  {| disp_serves := pods_serve;
     disp_weak t := [fun l => l = LGet t; fun l => exists x, l = LExecuted t x; fun l => l = LReturn t];
     disp_strong t := [fun l => l = LTimeout t] |}.

Definition pod_actor (l : disp_label Dispatcher.label) : option nat :=
  match l with
  | DStep (LTimeout t | LPop t | LGet t | LExecuted t _ | LReturn t) | DAnswer t => Some t
  | _ => None
  end.
Inductive pod_moves : goroutine -> disp_label Dispatcher.label -> option goroutine -> Prop :=
| move_timeout t req : pod_moves (Waiting req) (DStep (LTimeout t)) (Some (Answering (status_response req FAIL_DISPATCH)))
| move_pop t req key : pod_moves (Waiting req) (DStep (LPop t)) (Some (Popped req key))
| move_stale t req key : pod_moves (Popped req key) (DStep (LGet t)) (Some (Waiting req))
| move_get t req key ex : pod_moves (Popped req key) (DStep (LGet t)) (Some (Executing req key ex))
| move_executed t x req key ex r : executor_Execute (snd ex) x req = Some r ->
    pod_moves (Executing req key ex) (DStep (LExecuted t x)) (Some (Returning key r))
| move_return t key r : pod_moves (Returning key r) (DStep (LReturn t)) (Some (Answering r))
| move_answer t r : pod_moves (Answering r) (DAnswer t) None.

Lemma pod_goroutine_moves vars pd l pd' t g : spawned_inv pd -> dispatcher_step vars pd l = Some pd' ->
  goroutines pd !! t = Some g ->
  if decide (pod_actor l = Some t) then pod_moves g l (goroutines pd' !! t) else goroutines pd' !! t = Some g.
Proof.
  intros Hsp H Hg. destruct l as [l|req|t'].
  - cbn [dispatcher_step disp_step pod_dispatcher] in H. unfold pd_step in H. destruct (own_step false l) eqn:Ho; [|done].
    destruct (decide (pod_actor (DStep l) = Some t)) as [Ha|Ha]; destruct l; try discriminate Ho; clear Ho;
    unfold Dispatcher.step, dispatch_timeout, dispatch_pop, dispatch_get, Dispatch_executed,
      Dispatch_return, Reconcile_diff, Reconcile_add, Reconcile_token, Reconcile_del, Reconcile_return,
      set_goroutine, set_tokens, set_endpoints, set_reconciling in H; cbv zeta in H;
    inv_step H; try match type of H with (?m ≫= _) = Some _ => let E := fresh "Hexec" in destruct m eqn:E; simplify_eq/= end;
    simplify_eq/=; rewrite ?lookup_insert_eq, ?lookup_insert_ne by congruence; try done; by constructor.
  - cbn in H. unfold pd_receive, Run_receive, arrive in H. inv_step H.
    rewrite lookup_insert_ne; [done|]. intros <-. by rewrite (Hsp (spawned pd)) in Hg.
  - cbn in H. unfold pd_answer, Dispatch_answer in H. cbn [pod_actor].
    destruct (goroutines pd !! t') as [[]|] eqn:Ht; try done. destruct (decide (Some t' = Some t)) as [Ha|Ha]; simplify_eq/=.
    + rewrite lookup_delete_eq. constructor.
    + rewrite lookup_delete_ne by congruence. done.
Qed.

(** The classes of goroutines that a request passes. *)
Definition pod_searching (i : string) (g : goroutine) : Prop :=
  match g with Waiting req | Popped req _ => ID req = i | _ => False end.
Definition pod_waiting (i : string) (g : goroutine) : Prop := match g with Waiting req => ID req = i | _ => False end.
Definition pod_popped (i : string) (g : goroutine) : Prop := match g with Popped req _ => ID req = i | _ => False end.
Definition pod_executing (i : string) (g : goroutine) : Prop := match g with Executing req _ _ => ID req = i | _ => False end.
Definition pod_returning (i : string) (g : goroutine) : Prop := match g with Returning _ r => answer_id r = i | _ => False end.
Definition pod_answering (i : string) (g : goroutine) : Prop := match g with Answering r => answer_id r = i | _ => False end.

Lemma pods_answering t i pd : answering t i pd <-> exists g, goroutines pd !! t = Some g /\ pod_answering i g.
Proof.
  unfold answering. cbn. unfold pd_answer, Dispatch_answer. split.
  - intros (r & pd' & H & <-). destruct (goroutines pd !! t) as [[]|] eqn:E; simplify_eq/=; try done. by eexists.
  - intros (g & E & Hg). destruct g as [| | | |r]; try done. rewrite E. cbn [mbind option_bind]. by eexists _, _.
Qed.

Section FairPods.
Context (key : string) (vars : BackendVars).
Context (b : behaviour (dispatcher_step (D := PodDispatcher M) (DL := Dispatcher.label) vars)) (t : nat) (i : string).
Hypothesis b_live : forall k, pd_live key (state_at b k).
Hypothesis b_fair : dispatcher_fair vars b.

Lemma pods_spawned k : spawned_inv (state_at b k).
Proof. apply (b_live k). Qed.
Abbreviation at_pod := (goroutine_in vars goroutines b t).

Lemma pods_weak (X Y : goroutine -> Prop) (T : Dispatcher.label -> Prop) : T ∈ disp_weak (PodDispatcher M) t ->
  (forall g l o, X g -> pod_moves g l o -> exists g', o = Some g' /\ Y g') ->
  (forall pd g, goroutines pd !! t = Some g -> X g -> exists l pd', T l /\ disp_step vars false pd l = Some pd') ->
  leads (at_pod X) (at_pod Y).
Proof.
  intros HT HXY He. apply (goroutine_weak vars goroutines pod_actor pod_moves spawned_inv (pod_goroutine_moves vars) b t pods_spawned _ _ T).
  - by apply (b_fair t).
  - cbn in HT. rewrite !elem_of_cons in HT. intros l Hl. destruct HT as [-> |[-> |[-> |[]%elem_of_nil]]]; [by subst|by destruct Hl as [x ->]|by subst].
  - exact HXY.
  - intros pd g _. apply He.
Qed.

Lemma pods_return : leads (at_pod (pod_returning i)) (at_pod (pod_answering i)).
Proof.
  apply (pods_weak _ _ (fun l => l = LReturn t)); [cbn; set_solver| |].
  - intros g l o HX Hm. destruct Hm; try done. by eexists.
  - intros pd g Hg HX. exists (LReturn t). destruct g; try done. cbn. unfold pd_step. cbn. unfold Dispatch_return. rewrite Hg. by eexists.
Qed.
Lemma pods_execute : leads (at_pod (pod_executing i)) (at_pod (pod_returning i)).
Proof.
  apply (pods_weak _ _ (fun l => exists x, l = LExecuted t x)); [cbn; set_solver| |].
  - intros g l o HX Hm. destruct Hm as [| | | |t' x req k ex r Hr| |]; try done.
    eexists. split; [done|]. cbn in *. unfold answer_id. by rewrite (executor_Execute_id _ _ _ _ Hr).
  - intros pd g Hg HX. destruct g as [| |req k ex| |]; try done. exists (LExecuted t (some_execution (snd ex))).
    cbn. unfold pd_step. cbn. unfold Dispatch_executed. rewrite Hg.
    destruct ex as [n []]; simpl; eexists; (split; [by eexists|reflexivity]).
Qed.
Lemma pods_get : leads (at_pod (pod_popped i)) (fun k => at_pod (pod_executing i) k \/ at_pod (pod_waiting i) k).
Proof.
  eapply leads_trans.
  - apply (pods_weak _ (fun g => pod_executing i g \/ pod_waiting i g) (fun l => l = LGet t)); [cbn; set_solver| |].
    + intros g l o HX Hm. destruct Hm; try done; (eexists; split; [done|]); [by right|by left].
    + intros pd g Hg HX. exists (LGet t). destruct g as [|req k| | |]; try done. cbn. unfold pd_step. cbn. unfold dispatch_get. rewrite Hg.
      destruct (Get k (endpoints pd)); by eexists.
  - apply leads_impl. intros k (g & Hg & [H|H]); [left|right]; by exists g.
Qed.

(** The strong fairness of the timeout ends the search for a token. *)
Lemma pods_search : leads (at_pod (pod_searching i)) (at_pod (fun g => pod_executing i g \/ pod_answering i g)).
Proof.
  pose proof (goroutine_in_persists vars goroutines pod_actor pod_moves spawned_inv (pod_goroutine_moves vars) b t pods_spawned) as Hp.
  pose proof (goroutine_in_taken vars goroutines pod_actor pod_moves spawned_inv (pod_goroutine_moves vars) b t pods_spawned) as Ht.
  apply (strong_leads _ b (own_task (fun l => l = LTimeout t))).
  - apply (b_fair t). cbn. set_solver.
  - apply Hp. intros g l o HX Hm. destruct Hm; try done; (eexists; split; [done|]); cbn in *; unfold answer_id; naive_solver.
  - assert (forall k, at_pod (pod_waiting i) k -> enabled (dispatcher_step vars) (own_task (fun l => l = LTimeout t)) (state_at b k)) as He.
    { intros k (g & Hg & HX). destruct g as [req| | | |]; try done. exists (DStep (LTimeout t)). cbn. unfold pd_step. cbn.
      unfold dispatch_timeout. rewrite Hg. by eexists. }
    intros k (g & Hg & HX). destruct g as [req|req key'| | |]; try done.
    + exists k. split; [lia|]. right. apply He. by eexists.
    + destruct (pods_get k) as (m & Hm & [H|H]); [by eexists|..]; exists m; (split; [done|]); [left|right; by apply He].
      destruct H as (g & Hg' & HX'). exists g. auto.
  - apply Ht; [by intros l ->|]. intros g l o -> HX Hm. inversion Hm; subst; try done. eexists. split; [done|]. by right.
Qed.

Lemma pods_answer_fair n : pods_serve t i (state_at b n) -> exists m, (n <= m)%nat /\ answering t i (state_at b m).
Proof.
  intros (g & Hg & Hi).
  assert (leads (at_pod (pod_executing i)) (at_pod (pod_answering i))) as He by (eapply leads_trans; [apply pods_execute|apply pods_return]).
  assert (leads (at_pod (pod_searching i)) (at_pod (pod_answering i))) as Hs.
  { eapply leads_trans; [apply pods_search|]. intros k (g' & Hg' & [H|H]); [apply He; by exists g'|].
    exists k. split; [lia|]. by exists g'. }
  assert (exists m, (n <= m)%nat /\ at_pod (pod_answering i) m) as (m & Hm & Ha).
  { destruct g; [apply Hs|apply Hs|apply He|apply pods_return|exists n; split; [lia|]]; by eexists. }
  exists m. split; [done|]. by apply pods_answering.
Qed.
End FairPods.

#[export] Instance fair_pods_laws : FairDispatcherLaws (PodDispatcher M) Dispatcher.label.
Proof.
  split.
  - intros key req pd pd' ([Hsp Hq] & _) H. cbn in H. unfold pd_receive, Run_receive, arrive in H. cbn in H.
    rewrite Hq in H. destruct (stopped pd); simplify_eq/=. exists (spawned pd), (Waiting req). cbn.
    by rewrite lookup_insert_eq.
  - intros key vars b t i n Hl Hf. by apply (pods_answer_fair key vars b t i).
  - intros key vars t i pd l pd' [[Hsp _] _] (g & Hg & Ha)%pods_answering Hl Hs. apply pods_answering. exists g. split; [|done].
    pose proof (pod_goroutine_moves vars pd l pd' t g Hsp Hs Hg) as Hm. case_decide as Hd; [|done].
    destruct g; try done. inversion Hm; subst. simpl in Hd. congruence.
  - intros vars t T pd l Hw HT Hl. cbn. unfold pd_step.
    assert (goroutines pd !! t = None) as Hn.
    { destruct (goroutines pd !! t) as [g|] eqn:E; [|done]. pose proof (msum_ge weight (goroutines pd) t g E) as W.
      cbn in Hw. unfold pd_weight in Hw. destruct g; simpl in W; lia. }
    cbn in HT. rewrite !elem_of_cons in HT.
    destruct HT as [-> |[-> |[-> |[-> |[]%elem_of_nil]]]]; [subst|destruct Hl as [x ->]|subst..]; cbn;
      unfold dispatch_get, Dispatch_executed, Dispatch_return, dispatch_timeout; by rewrite Hn.
Qed.
End Pods.

(** * The dispatcher of a Knative service *)
Section Services.
Implicit Types kd : KnServiceDispatcher.

(** A goroutine that has started is scheduled, and every execution ends: there
    is a deadline. *)
Definition services_serve (t : nat) (i : string) kd : Prop :=
  exists g, kn_goroutines kd !! t = Some g /\ ID (kn_request_of g) = i.
#[export] Instance fair_services : FairDispatcher KnServiceDispatcher kn_label :=
  {| disp_serves := services_serve;
     disp_weak t := [fun l => exists now, l = KnStart t now; fun l => exists x, l = KnExecuted t x];
     disp_strong t := [] |}.

Definition service_actor (l : disp_label kn_label) : option nat :=
  match l with DStep (KnStart t _ | KnExecuted t _) | DAnswer t => Some t | _ => None end.
Inductive service_moves : kn_goroutine -> disp_label kn_label -> option kn_goroutine -> Prop :=
| move_start t now req dl : service_moves (KnStarted req) (DStep (KnStart t now)) (Some (KnExecuting req dl))
| move_kn_executed t x req dl e r : executor_Execute e x req = Some r ->
    service_moves (KnExecuting req dl) (DStep (KnExecuted t x)) (Some (KnAnswering r))
| move_kn_answer t r : service_moves (KnAnswering r) (DAnswer t) None.

Lemma service_goroutine_moves vars kd l kd' t g : kn_fresh kd -> dispatcher_step vars kd l = Some kd' ->
  kn_goroutines kd !! t = Some g ->
  if decide (service_actor l = Some t) then service_moves g l (kn_goroutines kd' !! t) else kn_goroutines kd' !! t = Some g.
Proof.
  intros Hsp H Hg. destruct l as [l|req|t'].
  - cbn [dispatcher_step disp_step service_dispatcher] in H. unfold kd_step in H. destruct (kn_own_step false l) eqn:Ho; [|done].
    destruct l as [| | |t' now|t' x|]; try discriminate Ho; clear Ho; cbn [kn_step] in H.
    + unfold kn_Dispatch_start in H. cbn [service_actor]. destruct (kn_goroutines kd !! t') as [[]|] eqn:Ht; try done.
      destruct (decide (Some t' = Some t)) as [Ha|Ha]; simplify_eq/=.
      * rewrite lookup_insert_eq. constructor.
      * by rewrite lookup_insert_ne by congruence.
    + unfold kn_Dispatch_executed in H. cbn [service_actor]. destruct (kn_goroutines kd !! t') as [[]|] eqn:Ht; try done.
      apply bind_Some in H as (r & Hr & [= <-]).
      destruct (decide (Some t' = Some t)) as [Ha|Ha]; simplify_eq/=.
      * rewrite lookup_insert_eq. by econstructor.
      * by rewrite lookup_insert_ne by congruence.
  - cbn in H. unfold kd_receive, kn_Run_receive, kn_arrive in H. inv_step H.
    rewrite lookup_insert_ne; [done|]. intros <-. by rewrite (Hsp (kn_spawned kd)) in Hg.
  - cbn in H. unfold kn_Dispatch_answer in H. cbn [service_actor].
    destruct (kn_goroutines kd !! t') as [[]|] eqn:Ht; try done. destruct (decide (Some t' = Some t)) as [Ha|Ha]; simplify_eq/=.
    + rewrite lookup_delete_eq. constructor.
    + rewrite lookup_delete_ne by congruence. done.
Qed.

Definition kn_started (i : string) (g : kn_goroutine) : Prop := match g with KnStarted req => ID req = i | _ => False end.
Definition kn_executing (i : string) (g : kn_goroutine) : Prop := match g with KnExecuting req _ => ID req = i | _ => False end.
Definition kn_answering (i : string) (g : kn_goroutine) : Prop := match g with KnAnswering r => answer_id r = i | _ => False end.

Lemma services_answering t i kd : answering t i kd <-> exists g, kn_goroutines kd !! t = Some g /\ kn_answering i g.
Proof.
  unfold answering. cbn. unfold kn_Dispatch_answer. split.
  - intros (r & kd' & H & <-). destruct (kn_goroutines kd !! t) as [[]|] eqn:E; simplify_eq/=. by eexists.
  - intros (g & E & Hg). destruct g as [| |r]; try done. rewrite E. by eexists _, _.
Qed.

Section FairServices.
Context (key : string) (vars : BackendVars).
Context (b : behaviour (dispatcher_step (D := KnServiceDispatcher) (DL := kn_label) vars)) (t : nat) (i : string).
Hypothesis b_live : forall k, kd_live key (state_at b k).
Hypothesis b_fair : dispatcher_fair vars b.
Abbreviation at_service := (goroutine_in vars kn_goroutines b t).

Lemma services_weak (X Y : kn_goroutine -> Prop) (T : kn_label -> Prop) : T ∈ disp_weak KnServiceDispatcher t ->
  (forall g l o, X g -> service_moves g l o -> exists g', o = Some g' /\ Y g') ->
  (forall kd g, kn_goroutines kd !! t = Some g -> X g -> exists l kd', T l /\ disp_step vars false kd l = Some kd') ->
  leads (at_service X) (at_service Y).
Proof.
  intros HT HXY He. apply (goroutine_weak vars kn_goroutines service_actor service_moves kn_fresh (service_goroutine_moves vars) b t
    (fun k => proj1 (proj1 (b_live k))) _ _ T).
  - by apply (b_fair t).
  - cbn in HT. rewrite !elem_of_cons in HT. intros l Hl. destruct HT as [-> |[-> |[]%elem_of_nil]]; by destruct Hl as [x ->].
  - exact HXY.
  - intros kd g _. apply He.
Qed.
Lemma services_start : leads (at_service (kn_started i)) (at_service (kn_executing i)).
Proof.
  apply (services_weak _ _ (fun l => exists now, l = KnStart t now)); [cbn; set_solver| |].
  - intros g l o HX Hm. destruct Hm; try done. by eexists.
  - intros kd g Hg HX. destruct g; try done. exists (KnStart t 0). cbn. unfold kd_step. cbn. unfold kn_Dispatch_start. rewrite Hg.
    eexists. split; [by eexists|reflexivity].
Qed.
Lemma services_execute : leads (at_service (kn_executing i)) (at_service (kn_answering i)).
Proof.
  apply (services_weak _ _ (fun l => exists x, l = KnExecuted t x)); [cbn; set_solver| |].
  - intros g l o HX Hm. destruct Hm as [|t' x req dl e r Hr|]; try done.
    eexists. split; [done|]. cbn in *. unfold answer_id. by rewrite (executor_Execute_id _ _ _ _ Hr).
  - intros kd g Hg HX. destruct g as [|req dl|]; try done. exists (KnExecuted t (some_execution (kn_executor kd))).
    cbn. unfold kd_step. cbn. unfold kn_Dispatch_executed. rewrite Hg.
    destruct (kn_executor kd); simpl; eexists; (split; [by eexists|reflexivity]).
Qed.
Lemma services_answer_fair n : services_serve t i (state_at b n) -> exists m, (n <= m)%nat /\ answering t i (state_at b m).
Proof.
  intros (g & Hg & Hi).
  assert (exists m, (n <= m)%nat /\ at_service (kn_answering i) m) as (m & Hm & Ha).
  { destruct g; [apply (leads_trans _ _ _ services_start services_execute)|apply services_execute|exists n; split; [lia|]];
      by eexists. }
  exists m. split; [done|]. by apply services_answering.
Qed.
End FairServices.

#[export] Instance fair_services_laws : FairDispatcherLaws KnServiceDispatcher kn_label.
Proof.
  split.
  - intros key req kd kd' ([Hsp Hq] & _) H. cbn in H. unfold kd_receive, kn_Run_receive, kn_arrive in H. cbn in H.
    rewrite Hq in H. destruct (kn_stopped kd); simplify_eq/=. exists (kn_spawned kd), (KnStarted req). cbn.
    by rewrite lookup_insert_eq.
  - intros key vars b t i n Hl Hf. by apply (services_answer_fair key vars b t i).
  - intros key vars t i kd l kd' [[Hsp _] _] (g & Hg & Ha)%services_answering Hl Hs. apply services_answering. exists g. split; [|done].
    pose proof (service_goroutine_moves vars kd l kd' t g Hsp Hs Hg) as Hm. case_decide as Hd; [|done].
    destruct g; try done. inversion Hm; subst. simpl in Hd. congruence.
  - intros vars t T kd l Hw HT Hl. cbn. unfold kd_step.
    assert (kn_goroutines kd !! t = None) as Hn.
    { destruct (kn_goroutines kd !! t) as [g|] eqn:E; [|done]. pose proof (msum_ge kn_weight (kn_goroutines kd) t g E) as W.
      cbn in Hw. unfold kd_weight in Hw. destruct g; simpl in W; lia. }
    cbn in HT. rewrite !elem_of_cons in HT.
    destruct HT as [-> |[-> |[]%elem_of_nil]]; destruct Hl as [x ->]; cbn;
      unfold kn_Dispatch_start, kn_Dispatch_executed; by rewrite Hn.
Qed.
End Services.
