(* ===== verification/Gateway.v ===== *)
(** pkg/gateway: the gateway shared by both kinds (interface.go) with its
    relay loops as a labelled transition system, the Kubernetes gateway
    (k8s.go) and the Knative gateway (knative.go). *)
From S2P Require Import Prelude F64 KdUtil Workload Handler Backend Metric Decider Scaler Autoscaler Dispatcher Ksvc.
Import Selection Types.

(** * interface.go *)
Definition tracingOutputPeriod : duration := 5 * Second.
Definition StartTracing (period : Z) : duration := int64 (period * Second).

Section Impl.
(** The callbacks of the gateway, on a state [A] of their owner. *)
Context {A : Type} (onReqIn : A -> Request -> res A) (onReqOut : A -> Response -> res A).

(** The local variables of a running [relay]. *)
Record relay_vars := mkRelay {
  nSend : Z;
  nRecv : Z;
  lastTraceSendTime : time;
  lastTraceRecvTime : time
}.

Record gatewayImpl := mkGateway {
  internalInputBuffers : gmap string (list Request);
  internalOutputBuffers : gmap string (list Response);
  externalInputs : gmap string (list Request);
  externalOutput : list Response;
  relays : gmap string relay_vars;
  owner : A
}.

Definition newGatewayImpl (a : A) : gatewayImpl := mkGateway ∅ ∅ ∅ [] ∅ a.

Definition register (key : string) (g : gatewayImpl) : gatewayImpl :=
  mkGateway (<[key := []]> (internalInputBuffers g)) (<[key := []]> (internalOutputBuffers g))
    (<[key := []]> (externalInputs g)) (externalOutput g) (relays g) (owner g).

(** [go g.relay(ctx, key)], up to its loop. *)
Definition start_relay (key : string) (now1 now2 : time) (g : gatewayImpl) : gatewayImpl :=
  mkGateway (internalInputBuffers g) (internalOutputBuffers g) (externalInputs g) (externalOutput g)
    (<[key := mkRelay 0 0 now1 now2]> (relays g)) (owner g).

(** A send on [RequestChan(target)]: the target must be registered. *)
Definition RequestChan_send (target : string) (req : Request) (g : gatewayImpl) : res gatewayImpl :=
  match externalInputs g !! target with
  | Some q => Ok (mkGateway (internalInputBuffers g) (internalOutputBuffers g)
                    (<[target := q ++ [req]]> (externalInputs g)) (externalOutput g) (relays g) (owner g))
  | None => Panic "invalid memory address or nil pointer dereference"
  end.

(** A receive on [ResponseChan]: the same channel for all targets. *)
Definition ResponseChan_recv (g : gatewayImpl) : option (Response * gatewayImpl) :=
  match externalOutput g with
  | r :: rest => Some (r, mkGateway (internalInputBuffers g) (internalOutputBuffers g) (externalInputs g) rest
                            (relays g) (owner g))
  | [] => None
  end.

(** The other ends of the internal buffers, in the dispatcher. *)
Definition dispatcher_recv (key : string) (g : gatewayImpl) : option (Request * gatewayImpl) :=
  match internalInputBuffers g !! key with
  | Some (req :: rest) =>
      Some (req, mkGateway (<[key := rest]> (internalInputBuffers g)) (internalOutputBuffers g) (externalInputs g)
                   (externalOutput g) (relays g) (owner g))
  | _ => None
  end.
Definition dispatcher_send (key : string) (r : Response) (g : gatewayImpl) : option gatewayImpl :=
  match internalOutputBuffers g !! key with
  | Some q => Some (mkGateway (internalInputBuffers g) (<[key := q ++ [r]]> (internalOutputBuffers g))
                      (externalInputs g) (externalOutput g) (relays g) (owner g))
  | None => None
  end.

(** One iteration of [relay]: [case req := <-externalInput]. *)
Definition relay_request (key : string) (now : time) (g : gatewayImpl) : option (res gatewayImpl) :=
  match relays g !! key, externalInputs g !! key, internalInputBuffers g !! key with
  | Some v, Some (req :: rest), Some q =>
      Some (
        if decide (Target req = key) then
          match onReqIn (owner g) req with
          | Ok a =>
              let req := set_GatewayRecvTS now req in
              let last := if tracingOutputPeriod <? time_sub now (lastTraceSendTime v)
                          then now else lastTraceSendTime v in
              Ok (mkGateway (<[key := q ++ [req]]> (internalInputBuffers g)) (internalOutputBuffers g)
                    (<[key := rest]> (externalInputs g)) (externalOutput g)
                    (<[key := mkRelay (nSend v + 1) (nRecv v) last (lastTraceRecvTime v)]> (relays g)) a)
          | Err e => Err e
          | Panic e => Panic e
          | Fatal e => Fatal e
          end
        else
          Ok (mkGateway (internalInputBuffers g) (internalOutputBuffers g) (<[key := rest]> (externalInputs g))
                (externalOutput g ++ [status_response req INVALID_TARGET]) (relays g) (owner g)))
  | _, _, _ => None
  end.

(** One iteration of [relay]: [case res := <-internalOutput]. *)
Definition relay_response (key : string) (g : gatewayImpl) : option (res gatewayImpl) :=
  match relays g !! key, internalOutputBuffers g !! key with
  | Some v, Some (r :: rest) =>
      Some (
        match onReqOut (owner g) r with
        | Ok a =>
            let last := if tracingOutputPeriod <? time_sub (ResGatewayRecvTS r) (lastTraceRecvTime v)
                        then ResGatewayRecvTS r else lastTraceRecvTime v in
            Ok (mkGateway (internalInputBuffers g) (<[key := rest]> (internalOutputBuffers g)) (externalInputs g)
                  (externalOutput g ++ [r])
                  (<[key := mkRelay (nSend v) (nRecv v + 1) (lastTraceSendTime v) last]> (relays g)) a)
        | Err e => Err e
        | Panic e => Panic e
        | Fatal e => Fatal e
        end)
  | _, _ => None
  end.

Inductive label :=
| LSend (target : string) (req : Request)
| LRelayRequest (key : string) (now : time)
| LRelayResponse (key : string)
| LDispatcherRecv (key : string)
| LDispatcherSend (key : string) (r : Response)
| LClientRecv.

(** Steps of a running gateway; a panic ends the process and is no step. *)
Definition ok_step (o : option (res gatewayImpl)) : option gatewayImpl :=
  match o with Some (Ok g) => Some g | _ => None end.
Definition step (g : gatewayImpl) (l : label) : option gatewayImpl :=
  match l with
  | LSend target req => ok_step (Some (RequestChan_send target req g))
  | LRelayRequest key now => ok_step (relay_request key now g)
  | LRelayResponse key => ok_step (relay_response key g)
  | LDispatcherRecv key => snd <$> dispatcher_recv key g
  | LDispatcherSend key r => dispatcher_send key r g
  | LClientRecv => snd <$> ResponseChan_recv g
  end.
End Impl.
Arguments gatewayImpl A : clear implicits.

(** * The relay: what goes in comes out, in order *)

(** What is observed of a gateway: sends of clients, requests the relay
    accepts (with the time it stamps) or refuses, requests taken by a
    dispatcher, responses given back by it, responses relayed, and responses
    received by clients. *)
Inductive observation :=
| OSent (key : string) (req : Request)
| OAccepted (key : string) (req : Request) (now : time)
| ORefused (key : string) (req : Request)
| ODelivered (key : string) (req : Request)
| OReturned (key : string) (r : Response)
| ORelayed (key : string) (r : Response)
| OReceived (r : Response).

Definition observe {A} (g : gatewayImpl A) (l : label) : list observation :=
  match l with
  | LSend key req => [OSent key req]
  | LRelayRequest key now =>
      match externalInputs g !! key with
      | Some (req :: _) => [if decide (Target req = key) then OAccepted key req now else ORefused key req]
      | _ => []
      end
  | LRelayResponse key =>
      match internalOutputBuffers g !! key with Some (r :: _) => [ORelayed key r] | _ => [] end
  | LDispatcherRecv key =>
      match internalInputBuffers g !! key with Some (req :: _) => [ODelivered key req] | _ => [] end
  | LDispatcherSend key r => [OReturned key r]
  | LClientRecv => match externalOutput g with r :: _ => [OReceived r] | [] => [] end
  end.

Definition at_key {X} (key k : string) (x : X) : option X := if decide (k = key) then Some x else None.
Definition sent (key : string) : list observation -> list Request :=
  omap (fun o => match o with OSent k r => at_key key k r | _ => None end).
Definition consumed (key : string) : list observation -> list Request :=
  omap (fun o => match o with OAccepted k r _ | ORefused k r => at_key key k r | _ => None end).
Definition accepted (key : string) : list observation -> list Request :=
  omap (fun o => match o with OAccepted k r now => at_key key k (set_GatewayRecvTS now r) | _ => None end).
Definition delivered (key : string) : list observation -> list Request :=
  omap (fun o => match o with ODelivered k r => at_key key k r | _ => None end).
Definition returned (key : string) : list observation -> list Response :=
  omap (fun o => match o with OReturned k r => at_key key k r | _ => None end).
Definition relayed (key : string) : list observation -> list Response :=
  omap (fun o => match o with ORelayed k r => at_key key k r | _ => None end).
Definition answered : list observation -> list Response :=
  omap (fun o => match o with ORefused _ r => Some (status_response r INVALID_TARGET) | ORelayed _ r => Some r | _ => None end).
Definition received : list observation -> list Response :=
  omap (fun o => match o with OReceived r => Some r | _ => None end).
(** The calls of the callbacks. *)
Definition callbacks : list observation -> list (Request + Response) :=
  omap (fun o => match o with OAccepted _ r _ => Some (inl r) | ORelayed _ r => Some (inr r) | _ => None end).
(** A request is accepted when it is for the key of its channel. *)
Definition well_targeted (o : observation) : Prop :=
  match o with
  | OAccepted k r _ => Target r = k
  | ORefused k r => Target r <> k
  | _ => True
  end.

Section Relay.
Context {A : Type} (onReqIn : A -> Request -> res A) (onReqOut : A -> Response -> res A).
Notation step := (step onReqIn onReqOut).

Definition call (a : A) (c : Request + Response) : res A :=
  match c with inl req => onReqIn a req | inr r => onReqOut a r end.

(** A gateway whose targets are registered and whose relays have started. *)
Definition fresh (g : gatewayImpl A) : Prop :=
  (forall key q, externalInputs g !! key = Some q -> q = []) /\
  (forall key q, internalInputBuffers g !! key = Some q -> q = []) /\
  (forall key q, internalOutputBuffers g !! key = Some q -> q = []) /\
  externalOutput g = [] /\
  (forall key v, relays g !! key = Some v -> nSend v = 0 /\ nRecv v = 0).

Record relay_spec (a0 : A) (g : gatewayImpl A) (h : list observation) : Prop := {
  spec_in : forall key q, externalInputs g !! key = Some q -> sent key h = consumed key h ++ q;
  spec_mid : forall key q, internalInputBuffers g !! key = Some q -> accepted key h = delivered key h ++ q;
  spec_back : forall key q, internalOutputBuffers g !! key = Some q -> returned key h = relayed key h ++ q;
  spec_out : answered h = received h ++ externalOutput g;
  spec_count : forall key v, relays g !! key = Some v ->
    nSend v = Z.of_nat (length (accepted key h)) /\ nRecv v = Z.of_nat (length (relayed key h));
  spec_calls : res_foldl call a0 (callbacks h) = Ok (owner g);
  spec_target : Forall well_targeted h
}.

Lemma fresh_spec g : fresh g -> relay_spec (owner g) g [].
Proof.
  intros (H1 & H2 & H3 & H4 & H5). split; simpl; try done.
  - intros key q ->%H1. done.
  - intros key q ->%H2. done.
  - intros key q ->%H3. done.
Qed.

Ltac obs_app := unfold sent, consumed, accepted, delivered, returned, relayed, answered, received, callbacks in *;
  rewrite ?omap_app; simpl.

Ltac by_key k :=
  let key := fresh "key" in let q := fresh "q" in let Hq := fresh "Hq" in
  intros key q Hq; obs_app; unfold at_key in *; rewrite ?app_nil_r;
  destruct (decide (k = key)) as [<-|];
  [rewrite ?lookup_insert_eq in Hq|rewrite ?lookup_insert_ne in Hq by done]; simplify_eq;
  rewrite ?app_nil_r.

Lemma spec_send a0 g h key req g' : relay_spec a0 g h -> RequestChan_send key req g = Ok g' ->
  relay_spec a0 g' (h ++ [OSent key req]).
Proof.
  intros [S1 S2 S3 S4 S5 S6 S7] Hs.
  unfold RequestChan_send in Hs. destruct (externalInputs g !! key) as [q|] eqn:E; simplify_eq/=.
  split; simpl; try (by_key key; by auto).
  - by_key key; [rewrite (S1 _ _ E); by rewrite app_assoc|by auto].
  - obs_app. by rewrite !app_nil_r.
  - obs_app. by rewrite app_nil_r.
  - apply Forall_app. split; [done|]. by repeat constructor.
Qed.

Lemma spec_refuse a0 g h key v req rest : relay_spec a0 g h -> relays g !! key = Some v ->
  externalInputs g !! key = Some (req :: rest) -> Target req <> key ->
  relay_spec a0 (mkGateway (internalInputBuffers g) (internalOutputBuffers g) (<[key := rest]> (externalInputs g))
    (externalOutput g ++ [status_response req INVALID_TARGET]) (relays g) (owner g)) (h ++ [ORefused key req]).
Proof.
  intros [S1 S2 S3 S4 S5 S6 S7] Hv E Ht. split; simpl; try (by_key key; by auto).
  - by_key key; [rewrite (S1 _ _ E); by rewrite <- app_assoc|by auto].
  - obs_app. rewrite app_nil_r, S4. by rewrite app_assoc.
  - obs_app. by rewrite app_nil_r.
  - apply Forall_app. split; [done|]. by repeat constructor.
Qed.

Lemma res_foldl_snoc {B C} (f : B -> C -> res B) b l x b' : res_foldl f b l = Ok b' ->
  res_foldl f b (l ++ [x]) = f b' x.
Proof. intros H. rewrite res_foldl_app, H. simpl. by destruct (f b' x). Qed.

Lemma spec_accept a0 g h key v req rest q a now last : relay_spec a0 g h -> relays g !! key = Some v ->
  externalInputs g !! key = Some (req :: rest) -> internalInputBuffers g !! key = Some q -> Target req = key ->
  onReqIn (owner g) req = Ok a ->
  relay_spec a0 (mkGateway (<[key := q ++ [set_GatewayRecvTS now req]]> (internalInputBuffers g))
    (internalOutputBuffers g) (<[key := rest]> (externalInputs g)) (externalOutput g)
    (<[key := mkRelay (nSend v + 1) (nRecv v) last (lastTraceRecvTime v)]> (relays g)) a)
    (h ++ [OAccepted key req now]).
Proof.
  intros [S1 S2 S3 S4 S5 S6 S7] Hv E Eq Ht Ha. split; simpl; try (by_key key; by auto).
  - by_key key; [rewrite (S1 _ _ E); by rewrite <- app_assoc|by auto].
  - by_key key; [rewrite (S2 _ _ Eq); by rewrite <- app_assoc|by auto].
  - obs_app. by rewrite !app_nil_r.
  - by_key key; [|by auto]. destruct (S5 _ _ Hv) as [-> ->]. simpl. rewrite length_app. simpl. lia.
  - obs_app. by rewrite (res_foldl_snoc _ _ _ _ _ S6).
  - apply Forall_app. split; [done|]. by repeat constructor.
Qed.

Lemma spec_relayed a0 g h key v r rest a last : relay_spec a0 g h -> relays g !! key = Some v ->
  internalOutputBuffers g !! key = Some (r :: rest) -> onReqOut (owner g) r = Ok a ->
  relay_spec a0 (mkGateway (internalInputBuffers g) (<[key := rest]> (internalOutputBuffers g)) (externalInputs g)
    (externalOutput g ++ [r]) (<[key := mkRelay (nSend v) (nRecv v + 1) (lastTraceSendTime v) last]> (relays g)) a)
    (h ++ [ORelayed key r]).
Proof.
  intros [S1 S2 S3 S4 S5 S6 S7] Hv E Ha. split; simpl; try (by_key key; by auto).
  - by_key key; [rewrite (S3 _ _ E); by rewrite <- app_assoc|by auto].
  - obs_app. rewrite app_nil_r, S4. by rewrite app_assoc.
  - by_key key; [|by auto]. destruct (S5 _ _ Hv) as [-> ->]. simpl. rewrite length_app. simpl. lia.
  - obs_app. by rewrite (res_foldl_snoc _ _ _ _ _ S6).
  - apply Forall_app. split; [done|]. by repeat constructor.
Qed.

Lemma spec_delivered a0 g h key req rest : relay_spec a0 g h -> internalInputBuffers g !! key = Some (req :: rest) ->
  relay_spec a0 (mkGateway (<[key := rest]> (internalInputBuffers g)) (internalOutputBuffers g) (externalInputs g)
    (externalOutput g) (relays g) (owner g)) (h ++ [ODelivered key req]).
Proof.
  intros [S1 S2 S3 S4 S5 S6 S7] E. split; simpl; try (by_key key; by auto).
  - by_key key; [rewrite (S2 _ _ E); by rewrite <- app_assoc|by auto].
  - obs_app. by rewrite !app_nil_r.
  - obs_app. by rewrite !app_nil_r.
  - apply Forall_app. split; [done|]. by repeat constructor.
Qed.

Lemma spec_returned a0 g h key r q : relay_spec a0 g h -> internalOutputBuffers g !! key = Some q ->
  relay_spec a0 (mkGateway (internalInputBuffers g) (<[key := q ++ [r]]> (internalOutputBuffers g))
    (externalInputs g) (externalOutput g) (relays g) (owner g)) (h ++ [OReturned key r]).
Proof.
  intros [S1 S2 S3 S4 S5 S6 S7] E. split; simpl; try (by_key key; by auto).
  - by_key key; [rewrite (S3 _ _ E); by rewrite app_assoc|by auto].
  - obs_app. by rewrite !app_nil_r.
  - obs_app. by rewrite !app_nil_r.
  - apply Forall_app. split; [done|]. by repeat constructor.
Qed.

Lemma spec_received a0 g h r rest : relay_spec a0 g h -> externalOutput g = r :: rest ->
  relay_spec a0 (mkGateway (internalInputBuffers g) (internalOutputBuffers g) (externalInputs g) rest
    (relays g) (owner g)) (h ++ [OReceived r]).
Proof.
  intros [S1 S2 S3 S4 S5 S6 S7] E. split; simpl; try (intros key q Hq; obs_app; rewrite ?app_nil_r; by auto).
  - obs_app. rewrite app_nil_r, S4, E. by rewrite <- app_assoc.
  - obs_app. by rewrite !app_nil_r.
  - apply Forall_app. split; [done|]. by repeat constructor.
Qed.

Lemma relay_spec_step a0 g h l g' : relay_spec a0 g h -> step g l = Some g' -> relay_spec a0 g' (h ++ observe g l).
Proof.
  intros HS Hs. destruct l as [key req|key now|key|key|key r|]; simpl in Hs; unfold observe.
  - destruct (RequestChan_send key req g) eqn:E; simplify_eq. by apply (spec_send a0 g h key req).
  - unfold relay_request in Hs. destruct (relays g !! key) as [v|] eqn:Hv; [|done].
    destruct (externalInputs g !! key) as [[|req rest]|] eqn:E; [done| |done].
    destruct (internalInputBuffers g !! key) as [q|] eqn:Eq; [|done]. case_decide as Ht.
    + destruct (onReqIn (owner g) req) as [a|e|e|e] eqn:Ha; simplify_eq/=. by eapply spec_accept.
    + simplify_eq/=. by eapply spec_refuse.
  - unfold relay_response in Hs. destruct (relays g !! key) as [v|] eqn:Hv; [|done].
    destruct (internalOutputBuffers g !! key) as [[|r rest]|] eqn:E; [done| |done].
    destruct (onReqOut (owner g) r) as [a|e|e|e] eqn:Ha; simplify_eq/=. by eapply spec_relayed.
  - unfold dispatcher_recv in Hs. destruct (internalInputBuffers g !! key) as [[|req rest]|] eqn:E; simplify_eq/=.
    by eapply spec_delivered.
  - unfold dispatcher_send in Hs. destruct (internalOutputBuffers g !! key) as [q|] eqn:E; simplify_eq/=.
    by eapply spec_returned.
  - unfold ResponseChan_recv in Hs. destruct (externalOutput g) as [|r rest] eqn:E; simplify_eq/=.
    by eapply spec_received.
Qed.

(** C8. The gateway relays every request and response once and in order.  For
    each target, along any run: what the relay has consumed is a prefix of
    what was sent, it accepts exactly the requests for its own key, the
    dispatcher receives exactly the accepted ones in order with their receive
    time stamped, the relayed responses are a prefix of those the dispatcher
    gave back, clients receive exactly these and the INVALID_TARGET answers
    to the refused ones, in order; the loop's counters are the numbers
    accepted and relayed, and the autoscaler's callbacks are called exactly
    once per accepted request and relayed response, never for refused ones. *)
Theorem gateway_relays_once_in_order g0 ls g :
  fresh g0 -> run step g0 ls = Some g ->
  relay_spec (owner g0) g (trace step observe g0 ls).
Proof.
  intros Hf Hr. change (trace step observe g0 ls) with ([] ++ trace step observe g0 ls).
  eapply (trace_invariant step observe (relay_spec (owner g0))); [|by apply fresh_spec|exact Hr].
  intros s h l s'. apply relay_spec_step.
Qed.
End Relay.

(** * k8s.go *)
Module K8s.

(** The two autoscalers behind the Autoscaler interface. *)
Inductive autoscaler (D Q : Type) :=
| KnativeAutoscaler (a : autoscalerImpl D Q)
| OneTimeAutoscaler (a : OneTime.OneTimeAutoscaler).
Arguments KnativeAutoscaler {D Q} a.
Arguments OneTimeAutoscaler {D Q} a.

(** autoscaler.AutoscalerConfig: a section missing from the YAML is a nil
    pointer. *)
Record AutoscalerConfig := mkASConfig {
  Knative : option Knative.KnativeAutoscalerConfig;
  OneTime : option OneTime.OneTimeAutoscalerConfig
}.

(** [os.ReadFile] and [yaml.Unmarshal] are arguments. *)
Definition NewAutoscalerConfigFrom (ReadFile : string -> res string) (Unmarshal : string -> res AutoscalerConfig)
    (configPath : string) : res (option AutoscalerConfig) :=
  if decide (configPath = "") then Ok None
  else
    configYaml ← wrap_err "failed to read gateway YAML config: " (ReadFile configPath);
    config ← wrap_err "failed to unmarshal YAML config: " (Unmarshal configYaml);
    Ok (Some config).

Definition nil_dereference : string := "invalid memory address or nil pointer dereference".

Section Gateway.
Context {B W Q S M : Type} `{!TimedFloat64Buckets B} `{!TimeWindow W} `{!WorkQueue Q}
  `{!Client S} `{!PodLister S} `{!SharedMap executor_obj M}.
Let D : Type := KPADecider B W.
Let AS : Type := autoscaler D Q.

(** [newAutoscalerFn]: the framework chosen by [NewK8sGateway], over the
    configuration it captures. *)
Inductive autoscaler_fn :=
| NewKPA (config : option AutoscalerConfig)
| NewOneTime (config : option AutoscalerConfig).

Definition run_autoscaler_fn (emptyQueue : Q) (f : autoscaler_fn) (keys : list string) : res AS :=
  match f with
  | NewKPA asConfig =>
      match asConfig with
      | None => Panic nil_dereference                (* asConfig.Knative *)
      | Some c =>
          match Knative c with
          | None => Panic nil_dereference            (* cfg.client = ... in Complete *)
          | Some cfg => Ok (KnativeAutoscaler (Knative.NewKnativeAutoscaler emptyQueue (Knative.Complete cfg) keys))
          end
      end
  | NewOneTime asConfig =>
      match asConfig with
      | None => Panic nil_dereference                (* asConfig.OneTime *)
      | Some c => Ok (OneTimeAutoscaler (OneTime.NewOneTimeAutoscaler (OneTime.Complete (OneTime c)) keys))
      end
  end.

(** The callbacks: [g.autoscaler] may be nil.  [now] is the clock the decider
    reads. *)
Definition onReqIn (now : time) (a : option AS) (req : Request) : res (option AS) :=
  match a with
  | None => Panic nil_dereference
  | Some (KnativeAutoscaler a) => a ← ReqIn a now req; Ok (Some (KnativeAutoscaler a))
  | Some (OneTimeAutoscaler a) => Ok (Some (OneTimeAutoscaler (OneTime.ReqIn a req)))
  end.
Definition onReqOut (now : time) (a : option AS) (r : Response) : res (option AS) :=
  match a with
  | None => Panic nil_dereference
  | Some (KnativeAutoscaler a) => a ← ReqOut a now r; Ok (Some (KnativeAutoscaler a))
  | Some (OneTimeAutoscaler a) => Ok (Some (OneTimeAutoscaler (OneTime.ReqOut a r)))
  end.

Record k8sGateway := mkK8s {
  impl : gatewayImpl (option AS);
  dispatchTimeout : duration;
  dispatchers : gmap string (PodDispatcher M);
  newAutoscalerFn : option autoscaler_fn
}.

Definition NewK8sGateway (ReadFile : string -> res string) (Unmarshal : string -> res AutoscalerConfig)
    (timeout : duration) (asFramework asConfigPath : string) : res k8sGateway :=
  asConfig ← wrap_err "failed to parse autoscaler config: "
               (NewAutoscalerConfigFrom ReadFile Unmarshal asConfigPath);
  Ok (mkK8s (newGatewayImpl None) timeout ∅
        (if decide (asFramework = "kpa") then Some (NewKPA asConfig)
         else if decide (asFramework = "one-time") then Some (NewOneTime asConfig)
         else None)).

(** The loop of [SetUpWithManager] over the listed deployments. *)
Definition register_target (st : gatewayImpl (option AS) * gmap string (PodDispatcher M)) (target : Object)
  : gatewayImpl (option AS) * gmap string (PodDispatcher M) :=
  let key := KeyFromObject target in
  (register key (fst st), <[key := NewPodDispatcher]> (snd st)).

Definition set_owner (a : option AS) (g : gatewayImpl (option AS)) : gatewayImpl (option AS) :=
  mkGateway (internalInputBuffers g) (internalOutputBuffers g) (externalInputs g) (externalOutput g) (relays g) a.

(** [targets] is the answer to the list call for trace deployments; the
    registration of the controller with the manager is left out. *)
Definition SetUpWithManager (emptyQueue : Q) (targets : res (list Object)) (g : k8sGateway) : res k8sGateway :=
  targets ← wrap_err "error listing deployments in k8s gateway: " targets;
  let '(i, ds) := foldl register_target (impl g, dispatchers g) targets in
  let keys := KeyFromObject <$> targets in
  match newAutoscalerFn g with
  | None => Ok (mkK8s i (dispatchTimeout g) ds None)
  | Some f =>
      a ← wrap_err "failed to create autoscaler: " (run_autoscaler_fn emptyQueue f keys);
      Ok (mkK8s (set_owner (Some a) i) (dispatchTimeout g) ds (Some f))
  end.

(** [Start]: the relays of all registered targets begin, at times read from
    the clock, and if there is an autoscaler its [Run] is started in a
    goroutine of its own, [autoscaler_Run].  Until that has run, the callbacks
    of the autoscaler panic ([autoscaler_not_started]); the caller's only
    precaution is to sleep before it sends requests. *)
Definition run_autoscaler (a : AS) : AS :=
  match a with
  | KnativeAutoscaler a => KnativeAutoscaler (Run a)
  | OneTimeAutoscaler a => OneTimeAutoscaler (OneTime.Run a)
  end.
Definition Start (now : time) (g : k8sGateway) : k8sGateway :=
  mkK8s (foldl (fun i key => start_relay key now now i) (impl g) (elements (dom (dispatchers g))))
    (dispatchTimeout g) (dispatchers g) (newAutoscalerFn g).
Definition autoscaler_Run (g : k8sGateway) : k8sGateway :=
  mkK8s (set_owner (run_autoscaler <$> owner (impl g)) (impl g)) (dispatchTimeout g) (dispatchers g) (newAutoscalerFn g).

Definition FilterEvent (object : Object) : bool := IsTraceWorkload object.

(** The names that the controller's watches enqueue for an event on a pod or
    a deployment that passes the event filter. *)
Definition enqueueWorkload (obj : Object) : res (list NamespacedName) :=
  name ← NamespacedNameFromKey (KeyFromObject obj); Ok [name].
Definition watch_event (obj : Object) : res (list NamespacedName) :=
  if FilterEvent obj then enqueueWorkload obj else Ok [].

(** How the dispatcher sees a listed pod. *)
Context (view : Autoscaler.Pod (S := S) -> Dispatcher.Pod).

(** [Reconcile] up to its call of the dispatcher's [Reconcile], if it makes
    one: the dispatcher's key and the ready pods it is given. *)
Definition Reconcile (IsNotFound : string -> bool) (api : S) (name : NamespacedName) (g : k8sGateway)
  : res (option (string * list Dispatcher.Pod)) :=
  let key := NamespacedName_String name in
  match GetDeployment api name with
  | Err e => if IsNotFound e then Ok None else Err e
  | Panic e => Panic e
  | Fatal e => Fatal e
  | Ok target =>
      let continue pods :=
        let readyPods := view <$> filter (fun p => IsPodReady p = true) pods in
        match dispatchers g !! key with
        | None => Ok None
        | Some _ => Ok (Some (key, readyPods))
        end in
      match ListPods api (dep_namespace target) (template_labels target) with
      | Ok pods => continue pods
      | Err e => continue []      (* logged only *)
      | Panic e => Panic e
      | Fatal e => Fatal e
      end
  end.

(** ** Properties *)
Lemma register_fresh {A} key (g : gatewayImpl A) : fresh g -> fresh (register key g).
Proof.
  intros (H1 & H2 & H3 & H4 & H5). unfold fresh, register. cbn.
  split; [|split; [|split; [|done]]]; intros k q; (destruct (decide (key = k)) as [->|];
    [rewrite lookup_insert_eq; by intros [= <-]|rewrite lookup_insert_ne by done; eauto]).
Qed.

Lemma start_relay_fresh {A} key now1 now2 (g : gatewayImpl A) : fresh g -> fresh (start_relay key now1 now2 g).
Proof.
  intros (H1 & H2 & H3 & H4 & H5). unfold fresh, start_relay. cbn. split_and!; try done.
  intros k v. destruct (decide (key = k)) as [->|]; [rewrite lookup_insert_eq; by intros [= <-]|
    rewrite lookup_insert_ne by done; eauto].
Qed.

Lemma newGatewayImpl_fresh {A} (a : A) : fresh (newGatewayImpl a).
Proof. split_and!; try done; intros k q; cbn; by rewrite lookup_empty. Qed.

(** Registration and relays of a list of keys. *)
Definition ready_for {A} (keys : list string) (g : gatewayImpl A) : Prop :=
  fresh g /\ forall key, key ∈ keys ->
    externalInputs g !! key = Some [] /\ internalInputBuffers g !! key = Some [] /\
    internalOutputBuffers g !! key = Some [] /\ is_Some (relays g !! key).

Lemma register_all targets i ds :
  let st := foldl register_target (i, ds) targets in
  (fresh i -> fresh (fst st)) /\ relays (fst st) = relays i /\ owner (fst st) = owner i /\
  (forall key, key ∈ KeyFromObject <$> targets ->
     externalInputs (fst st) !! key = Some [] /\ internalInputBuffers (fst st) !! key = Some [] /\
     internalOutputBuffers (fst st) !! key = Some []) /\
  dom (snd st) = dom ds ∪ list_to_set (KeyFromObject <$> targets).
Proof.
  induction targets as [|t targets IH] using rev_ind; cbv zeta.
  - simpl. split; [done|]. split; [done|]. split; [done|]. split; [|set_solver].
    by intros key ?%elem_of_nil.
  - rewrite foldl_app. cbn [foldl]. destruct (foldl register_target (i, ds) targets) as [i1 ds1].
    cbv zeta in IH. destruct IH as (H1 & H2 & H3 & H4 & H5). cbn [fst snd] in *. unfold register_target. cbn [fst snd].
    split; [intros Hi; by apply register_fresh, H1|]. split; [done|]. split; [done|]. split.
    + intros key. rewrite fmap_app, elem_of_app. unfold register. cbn.
      destruct (decide (KeyFromObject t = key)) as [->|Hne]; [by rewrite !lookup_insert_eq|].
      rewrite !lookup_insert_ne by done. intros [H|H]; [by apply H4|].
      apply list_elem_of_singleton in H. congruence.
    + rewrite dom_insert_L, H5, fmap_app, list_to_set_app_L. cbn. set_solver.
Qed.

Lemma start_all {A} now keys (i : gatewayImpl A) :
  let i' := foldl (fun i key => start_relay key now now i) i keys in
  (fresh i -> fresh i') /\ owner i' = owner i /\ externalInputs i' = externalInputs i /\
  internalInputBuffers i' = internalInputBuffers i /\ internalOutputBuffers i' = internalOutputBuffers i /\
  (forall key, key ∈ keys -> is_Some (relays i' !! key)).
Proof.
  induction keys as [|k keys IH] using rev_ind; cbv zeta.
  - split_and!; try done. by intros key ?%elem_of_nil.
  - rewrite foldl_app. cbn [foldl]. cbv zeta in IH. destruct IH as (H1 & H2 & H3 & H4 & H5 & H6).
    split; [intros Hi; by apply start_relay_fresh, H1|]. split_and!; try done.
    intros key. rewrite elem_of_app, list_elem_of_singleton. unfold start_relay. cbn.
    destruct (decide (k = key)) as [->|Hne]; [by rewrite lookup_insert_eq|].
    rewrite lookup_insert_ne by done. intros [H|H]; [by apply H6|congruence].
Qed.

(** Listing, registering and starting, with the autoscaler [a] in place. *)
Lemma start_ready now targets i a timeout f :
  fresh i -> 
  let st := foldl register_target (i, ∅) targets in
  let g := autoscaler_Run (Start now (mkK8s (set_owner a (fst st)) timeout (snd st) f)) in
  ready_for (KeyFromObject <$> targets) (impl g) /\ owner (impl g) = run_autoscaler <$> a /\
  dom (dispatchers g) = list_to_set (KeyFromObject <$> targets).
Proof.
  intros Hi. destruct (register_all targets i ∅) as (H1 & H2 & H3 & H4 & H5).
  destruct (foldl register_target (i, ∅) targets) as [i1 ds]. cbn [fst snd] in *. cbv zeta. unfold autoscaler_Run, Start.
  cbn [impl dispatchers].
  destruct (start_all now (elements (dom ds)) (set_owner a i1)) as (J1 & J2 & J3 & J4 & J5 & J6).
  set (i2 := foldl _ (set_owner a i1) _) in *. rewrite dom_empty_L, (left_id_L ∅ (∪)) in H5.
  split; [split|split; [|done]].
  - specialize (J1 (H1 Hi)). destruct J1 as (K1 & K2 & K3 & K4 & K5). by split_and!.
  - intros key Hk. cbn. rewrite J3, J4, J5. destruct (H4 key Hk) as (? & ? & ?). split_and!; try done.
    apply J6. rewrite H5, elem_of_elements, elem_of_list_to_set. done.
  - cbn. by rewrite J2.
Qed.

(** The domains of the maps of a started gateway. *)
Lemma register_all_dom targets i ds :
  let g := fst (foldl register_target (i, ds) targets) in
  let keys : gset string := list_to_set (KeyFromObject <$> targets) in
  dom (externalInputs g) = dom (externalInputs i) ∪ keys /\
  dom (internalInputBuffers g) = dom (internalInputBuffers i) ∪ keys /\
  dom (internalOutputBuffers g) = dom (internalOutputBuffers i) ∪ keys.
Proof.
  induction targets as [|t targets IH] using rev_ind; cbv zeta; [simpl; set_solver|].
  rewrite foldl_app, fmap_app, list_to_set_app_L. cbn [foldl]. cbv zeta in IH.
  destruct (foldl register_target (i, ds) targets) as [i1 ds1]. cbn in *. rewrite !dom_insert_L.
  destruct IH as (-> & -> & ->). split_and!; set_solver +.
Qed.
Lemma start_all_dom {A} now keys (i : gatewayImpl A) :
  dom (relays (foldl (fun i key => start_relay key now now i) i keys)) = dom (relays i) ∪ list_to_set keys.
Proof. revert i. induction keys as [|k keys IH]; intros i; cbn; [set_solver|]. rewrite IH. cbn. set_solver. Qed.
Lemma register_new targets i ds : map_Forall (fun _ pd => pd = NewPodDispatcher) ds ->
  map_Forall (fun _ pd => pd = NewPodDispatcher) (snd (foldl register_target (i, ds) targets)).
Proof.
  revert i ds. induction targets as [|t targets IH]; intros i ds H; [done|]. cbn [foldl]. unfold register_target at 2.
  apply IH. cbn. by apply map_Forall_insert_2.
Qed.

(** An autoscaler that takes the requests for [keys]. *)
Definition accepting (keys : gset string) (a : AS) : Prop :=
  match a with KnativeAutoscaler a => serving keys a | OneTimeAutoscaler _ => True end.

Lemma accepting_in keys a now req : accepting keys a -> Target req ∈ keys ->
  exists a', onReqIn now (Some a) req = Ok (Some a') /\ accepting keys a'.
Proof.
  destruct a as [a|a]; [|by eauto]. intros Ha Ht. destruct (serving_ReqIn keys a now req Ha Ht) as (a' & E & Ha').
  exists (KnativeAutoscaler a'). split; [simpl; by rewrite E|done].
Qed.
Lemma accepting_out keys a now r : accepting keys a -> Target (Source r) ∈ keys ->
  exists a', onReqOut now (Some a) r = Ok (Some a') /\ accepting keys a'.
Proof.
  destruct a as [a|a]; [|by eauto]. intros Ha Ht. destruct (serving_ReqOut keys a now r Ha Ht) as (a' & E & Ha').
  exists (KnativeAutoscaler a'). split; [simpl; by rewrite E|done].
Qed.
Lemma created_accepting emptyQueue f keys a : run_autoscaler_fn emptyQueue f keys = Ok a ->
  accepting (list_to_set keys) (run_autoscaler a).
Proof.
  destruct f as [[c|]|[c|]]; simpl; try done; [|by intros [= <-]].
  destruct (Knative c) as [cfg|]; [|done]. intros [= <-]. split; [done|]. intros key Hk%elem_of_list_to_set.
  apply elem_of_dom. cbn [deciders Run Knative.NewKnativeAutoscaler]. rewrite foldl_insert_lookup, decide_True by done.
  by eexists.
Qed.

(** C37. A failed pod list scales the routing to nothing: when the API server
    finds the deployment but fails to list its pods, [Reconcile] logs the
    error and goes on with no ready pod, so that the dispatcher's
    reconciliation, once done, has removed every endpoint, whatever requests
    are dispatched meanwhile; when the deployment itself cannot be read the
    endpoints are left alone. *)
Theorem list_error_removes_endpoints `{!SharedMapLaws executor_obj M} vars IsNotFound api name target e
    (g : k8sGateway) pd pd1 pd2 ls :
  GetDeployment api name = Ok target ->
  ListPods api (dep_namespace target) (template_labels target) = Err e ->
  dispatchers g !! NamespacedName_String name = Some pd ->
  reachable (Dispatcher.step vars) (.= NewPodDispatcher) pd ->
  Reconcile IsNotFound api name g = Ok (Some (NamespacedName_String name, [])) /\
  (Dispatcher.step vars pd (Dispatcher.LReconcile []) = Some pd1 -> run (Dispatcher.step vars) pd1 ls = Some pd2 -> Dispatcher.LReconciled ∉ ls ->
     forall r, reconciling pd2 = Some r -> reconcile_done r = true -> dom (Inner (endpoints pd2)) = ∅) /\
  (forall name' e', GetDeployment api name' = Err e' ->
     forall x, Reconcile IsNotFound api name' g <> Ok (Some x)).
Proof.
  intros Hg Hl Hd Hr. split; [unfold Reconcile; by rewrite Hg, Hl, Hd|].
  split; [|intros name' e' He x; unfold Reconcile; rewrite He; by destruct (IsNotFound e')].
  intros Hs Hrun Hn r Hr2 Hdone.
  assert (exists r1, reconciling pd1 = Some r1 /\ endpoints_wanted r1 = ∅) as (r1 & Hr1 & Hw1).
  { simpl in Hs. unfold Reconcile_diff in Hs. destruct (reconciling pd); simplify_eq. by eexists. }
  destruct (reconcile_wanted_run vars pd1 ls pd2 r1 Hrun Hr1 Hn) as (r2 & Hr2' & Hw2).
  assert (good pd2) as Hgood.
  { eapply good_reachable, run_reachable; [|exact Hrun]. by eapply reach_step. }
  rewrite (reconcile_done_endpoints pd2 r) by done.
  assert (r2 = r) as -> by congruence. rewrite Hw2, Hw1. set_solver.
Qed.

Definition valid_framework (f : string) : Prop := f = "kpa" \/ f = "one-time".
(** The section of the framework is in the configuration; the one-time
    autoscaler has a default. *)
Definition configured (f : string) (c : AutoscalerConfig) : Prop :=
  f = "one-time" \/ f = "kpa" /\ is_Some (Knative c).

Section Setup.
Context (ReadFile : string -> res string) (Unmarshal : string -> res AutoscalerConfig).
Context (emptyQueue : Q) (timeout : duration) (targets : list Object) (now : time).

(** Set-up and start, and the same once the autoscaler runs. *)
Definition launching (asFramework asConfigPath : string) : res k8sGateway :=
  g ← NewK8sGateway ReadFile Unmarshal timeout asFramework asConfigPath;
  g ← SetUpWithManager emptyQueue (Ok targets) g;
  Ok (Start now g).
Definition launch (asFramework asConfigPath : string) : res k8sGateway :=
  g ← launching asFramework asConfigPath; Ok (autoscaler_Run g).

(** The gateway that comes out of the set-up, for an autoscaler [a]. *)
Definition launched (a : AS) (f : autoscaler_fn) : k8sGateway :=
  let st := foldl register_target (newGatewayImpl None, ∅) targets in
  autoscaler_Run (Start now (mkK8s (set_owner (Some a) (fst st)) timeout (snd st) (Some f))).

Lemma launch_created asFramework asConfigPath text c :
  asConfigPath <> "" -> ReadFile asConfigPath = Ok text -> Unmarshal text = Ok c -> configured asFramework c ->
  exists a f, launch asFramework asConfigPath = Ok (launched a f) /\
    run_autoscaler_fn emptyQueue f (KeyFromObject <$> targets) = Ok a /\
    f = (if decide (asFramework = "kpa") then NewKPA (Some c) else NewOneTime (Some c)).
Proof.
  intros Hp Hr Hu Hc. unfold launch, launching, NewK8sGateway, NewAutoscalerConfigFrom. rewrite decide_False by done.
  rewrite Hr. simpl. rewrite Hu. simpl.
  set (f := if decide (asFramework = "kpa") then NewKPA (Some c) else NewOneTime (Some c)).
  assert ((if decide (asFramework = "kpa") then Some (NewKPA (Some c))
    else if decide (asFramework = "one-time") then Some (NewOneTime (Some c)) else None) = Some f /\
    exists a, run_autoscaler_fn emptyQueue f (KeyFromObject <$> targets) = Ok a) as [-> [a Hf]].
  { destruct Hc as [-> |[-> [cfg Hcfg]]]; simpl; (split; [reflexivity|]); eexists; simpl; rewrite ?Hcfg; reflexivity. }
  exists a, f. split; [|done]. unfold launched, SetUpWithManager. simpl.
  destruct (foldl register_target (newGatewayImpl None, ∅) targets) as [i ds]. by rewrite Hf.
Qed.
Lemma launch_configured asFramework asConfigPath text c :
  asConfigPath <> "" -> ReadFile asConfigPath = Ok text -> Unmarshal text = Ok c -> configured asFramework c ->
  exists a f, launch asFramework asConfigPath = Ok (launched a f) /\
    accepting (list_to_set (KeyFromObject <$> targets)) (run_autoscaler a).
Proof.
  intros Hp Hr Hu Hc. destruct (launch_created _ _ _ _ Hp Hr Hu Hc) as (a & f & Hl & Hf & _).
  exists a, f. split; [done|]. by eapply created_accepting.
Qed.

Lemma launched_ready a f :
  ready_for (KeyFromObject <$> targets) (impl (launched a f)) /\ owner (impl (launched a f)) = Some (run_autoscaler a) /\
  dom (dispatchers (launched a f)) = list_to_set (KeyFromObject <$> targets).
Proof. apply (start_ready now targets (newGatewayImpl None) (Some a) timeout (Some f)), newGatewayImpl_fresh. Qed.

Lemma launched_doms a f :
  let keys : gset string := list_to_set (KeyFromObject <$> targets) in
  let g := launched a f in
  dom (externalInputs (impl g)) = keys /\ dom (internalInputBuffers (impl g)) = keys /\
  dom (internalOutputBuffers (impl g)) = keys /\ dom (relays (impl g)) = keys /\
  map_Forall (fun _ pd => pd = NewPodDispatcher) (dispatchers g).
Proof.
  intros keys g. destruct (launched_ready a f) as (_ & _ & Hd). fold g in Hd. subst g. unfold launched, autoscaler_Run, Start in *.
  cbn [impl dispatchers] in *.
  destruct (register_all_dom targets (newGatewayImpl None) ∅) as (D1 & D2 & D3).
  destruct (register_all targets (newGatewayImpl None) ∅) as (_ & Hr & _).
  pose proof (register_new targets (newGatewayImpl None) ∅ (map_Forall_empty _)) as Hn.
  destruct (foldl register_target (newGatewayImpl None, ∅) targets) as [i ds]. cbn [fst snd] in *.
  destruct (start_all now (elements (dom ds)) (set_owner (Some a) i)) as (_ & _ & J3 & J4 & J5 & _).
  pose proof (start_all_dom now (elements (dom ds)) (set_owner (Some a) i)) as J6.
  set (i2 := foldl _ (set_owner (Some a) i) _) in *. cbn. rewrite J3, J4, J5, J6, Hd, list_to_set_elements_L. cbn.
  rewrite D1, D2, D3, Hr. cbn. rewrite !dom_empty_L, !(left_id_L ∅ (∪)). done.
Qed.

(** A gateway that is started while its autoscaler does not run yet. *)
Lemma autoscaler_not_started c path text g : ReadFile path = Ok text -> Unmarshal text = Ok c -> path <> "" ->
  is_Some (Knative c) -> launching "kpa" path = Ok g ->
  forall t req, onReqIn t (owner (impl g)) req = Panic "autoscaler not started".
Proof.
  intros Hr Hu Hp [cfg Hc]. unfold launching, NewK8sGateway, NewAutoscalerConfigFrom. rewrite decide_False, Hr by done. simpl.
  rewrite Hu. unfold SetUpWithManager. simpl. destruct (foldl register_target (newGatewayImpl None, ∅) targets) as [i ds].
  rewrite Hc. simpl. intros [= <-] t req. unfold Start. cbn [impl dispatchers].
  match goal with |- context [foldl _ (set_owner ?a i) ?l] => by destruct (start_all now l (set_owner a i)) as (_ & -> & _) end.
Qed.

(** C31. Setting up the Kubernetes gateway.  With a configuration file that
    has the framework's section the started gateway is ready for every listed
    deployment: empty registered channels, a running relay, a dispatcher, and,
    once its goroutine has run, an autoscaler that accepts its requests;
    before, the knative one panics for any request.  With an empty configuration
    path, which is the default, set-up dereferences a nil configuration and
    panics for both frameworks; and with an unknown framework name it
    succeeds without an autoscaler, so that the relay panics on the first
    request it accepts. *)
Theorem k8s_setup asFramework asConfigPath text c :
  (asConfigPath = "" -> valid_framework asFramework ->
     launch asFramework asConfigPath = Panic nil_dereference) /\
  (asConfigPath <> "" -> ReadFile asConfigPath = Ok text -> Unmarshal text = Ok c ->
   configured asFramework c ->
     exists g, launch asFramework asConfigPath = Ok g /\
       ready_for (KeyFromObject <$> targets) (impl g) /\
       dom (dispatchers g) = list_to_set (KeyFromObject <$> targets) /\
       (forall req t, Target req ∈ KeyFromObject <$> targets -> is_ok (onReqIn t (owner (impl g)) req) = true) /\
       exists g0, launching asFramework asConfigPath = Ok g0 /\ g = autoscaler_Run g0 /\
         (asFramework = "kpa" -> forall req t, onReqIn t (owner (impl g0)) req = Panic "autoscaler not started")) /\
  (asConfigPath = "" -> ~ valid_framework asFramework ->
     exists g, launch asFramework asConfigPath = Ok g /\
       ready_for (KeyFromObject <$> targets) (impl g) /\
       forall g' key req rest q t, relays g' !! key = relays (impl g) !! key -> owner g' = owner (impl g) ->
         key ∈ KeyFromObject <$> targets -> Target req = key ->
         externalInputs g' !! key = Some (req :: rest) -> internalInputBuffers g' !! key = Some q ->
         relay_request (onReqIn t) key t g' = Some (Panic nil_dereference)).
Proof.
  split; [|split].
  - unfold launch, launching, NewK8sGateway, NewAutoscalerConfigFrom. intros -> Hf. rewrite decide_True by done. simpl.
    destruct Hf as [-> | ->]; cbn [decide]; unfold SetUpWithManager; simpl;
      by destruct (foldl register_target _ _).
  - intros Hp Hr Hu Hc. destruct (launch_configured _ _ _ _ Hp Hr Hu Hc) as (a & f & Hl & Ha).
    destruct (launched_ready a f) as (R1 & R2 & R3). exists (launched a f). split; [exact Hl|]. split; [exact R1|].
    split; [exact R3|]. split.
    { intros req t Ht. rewrite R2. destruct (accepting_in _ _ t req Ha) as (a' & -> & _); [by apply elem_of_list_to_set|done]. }
    unfold launch in Hl. apply res_bind_ok in Hl as (g0 & Hl & Hg). exists g0. split; [exact Hl|]. split; [congruence|].
    intros ->. destruct Hc as [Hc|[_ Hc]]; [done|]. intros req t.
    exact (autoscaler_not_started c asConfigPath text g0 Hr Hu Hp Hc Hl t req).
  - unfold launch, launching, NewK8sGateway, NewAutoscalerConfigFrom. intros -> Hf. rewrite decide_True by done. simpl. unfold valid_framework in Hf.
    rewrite !decide_False by tauto. unfold SetUpWithManager. simpl.
    pose proof (start_ready now targets (newGatewayImpl None) None timeout None (newGatewayImpl_fresh None)) as Hst.
    pose proof (register_all targets (newGatewayImpl None) ∅) as (_ & _ & Ho & _).
    destruct (foldl register_target (newGatewayImpl None, ∅) targets) as [i ds]. simpl.
    assert (set_owner None i = i) as Hi by (simpl in Ho; destruct i; simpl in *; by rewrite Ho).
    cbn [fst snd] in Hst. rewrite Hi in Hst. destruct Hst as (R1 & R2 & _).
    eexists. split; [reflexivity|]. split; [exact R1|].
    intros g' key req rest q t Hrel Hown Hk Ht He Hq. destruct R1 as [_ R1]. destruct (R1 key Hk) as (_ & _ & _ & [v Hv]).
    unfold relay_request. rewrite Hrel, Hv, He, Hq, decide_True by done. rewrite Hown, R2. done.
Qed.
End Setup.

End Gateway.
End K8s.

(** * knative.go *)
Module KnativeGateway.
Section Gateway.
Context (vars : BackendVars) (NewClient : string -> res unit).

Record knativeGateway := mkKnative {
  impl : gatewayImpl unit;
  dispatchTimeout : duration;
  dispatchers : gmap string KnServiceDispatcher
}.
Definition onReqIn (a : unit) (req : Request) : res unit := Ok a.
Definition onReqOut (a : unit) (r : Response) : res unit := Ok a.

Definition NewKnativeGateway (timeout : duration) : knativeGateway := mkKnative (newGatewayImpl tt) timeout ∅.

(** A Knative service: its object and [Status.URL.String()]. *)
Definition register_service (g : knativeGateway) (service : Object * string) : res knativeGateway :=
  let key := KeyFromObject (fst service) in
  kd ← wrap_err ("failed to create knative service dispatcher for " +:+ obj_namespace (fst service) +:+ "/" +:+
                   obj_name (fst service) +:+ " (" +:+ snd service +:+ "): ")
         (NewKnServiceDispatcher vars NewClient key (dispatchTimeout g) (snd service));
  Ok (mkKnative (register key (impl g)) (dispatchTimeout g) (<[key := kd]> (dispatchers g))).

Definition SetUpWithManager (services : res (list (Object * string))) (g : knativeGateway) : res knativeGateway :=
  services ← wrap_err "error listing kn services in knative gateway: " services;
  res_foldl register_service g services.

Definition Start (now : time) (g : knativeGateway) : knativeGateway :=
  mkKnative (foldl (fun i key => start_relay key now now i) (impl g) (elements (dom (dispatchers g))))
    (dispatchTimeout g) (dispatchers g).

Definition launch (timeout : duration) (services : list (Object * string)) (now : time) : res knativeGateway :=
  g ← SetUpWithManager (Ok services) (NewKnativeGateway timeout); Ok (Start now g).

(** ** Properties *)
Definition service_keys (services : list (Object * string)) : gset string :=
  list_to_set ((fun s => KeyFromObject (fst s)) <$> services).

(** A gateway with dispatchers for [keys], all of them new. *)
Record registered (timeout : duration) (keys : gset string) (g : knativeGateway) : Prop := {
  reg_fresh : fresh (impl g);
  reg_timeout : dispatchTimeout g = timeout;
  reg_relays : relays (impl g) = ∅;
  reg_ext : dom (externalInputs (impl g)) = keys;
  reg_int : dom (internalInputBuffers (impl g)) = keys;
  reg_out : dom (internalOutputBuffers (impl g)) = keys;
  reg_dispatchers : dom (dispatchers g) = keys;
  reg_new : map_Forall (fun key kd => exists url, NewKnServiceDispatcher vars NewClient key timeout url = Ok kd) (dispatchers g)
}.

Lemma registered_new timeout : registered timeout ∅ (NewKnativeGateway timeout).
Proof. split; done. Qed.
Lemma registered_service timeout keys g service g' : registered timeout keys g -> register_service g service = Ok g' ->
  registered timeout (keys ∪ {[ KeyFromObject (fst service) ]}) g'.
Proof.
  intros [R1 R2 R3 R4 R5 R6 R7 R8] H. unfold register_service in H. apply res_bind_ok in H as (kd & Hkd & H).
  injection H as <-. rewrite R2 in Hkd.
  split; cbn; rewrite ?dom_insert_L, ?R4, ?R5, ?R6, ?R7; try apply (comm_L (∪)); try done.
  - by apply K8s.register_fresh.
  - apply map_Forall_insert_2; [|done]. exists (snd service).
    unfold wrap_err in Hkd. destruct (NewKnServiceDispatcher _ _ _ _ _); by simplify_eq/=.
Qed.
Lemma registered_all timeout services keys g g' : registered timeout keys g ->
  res_foldl register_service g services = Ok g' -> registered timeout (keys ∪ service_keys services) g'.
Proof.
  unfold service_keys. revert keys g. induction services as [|s services IH]; intros keys g R H.
  - injection H as <-. cbn. by rewrite (right_id_L ∅ (∪)).
  - cbn [res_foldl] in H. apply res_bind_ok in H as (g1 & H1 & H). cbn. rewrite (assoc_L (∪)).
    apply (IH _ g1); [|exact H]. by eapply registered_service.
Qed.

(** What [launch] gives: every service has its channels, a running relay and a
    new dispatcher. *)
Lemma launch_registered timeout services now g : launch timeout services now = Ok g ->
  fresh (impl g) /\ dom (externalInputs (impl g)) = service_keys services /\
  dom (internalInputBuffers (impl g)) = service_keys services /\
  dom (internalOutputBuffers (impl g)) = service_keys services /\ dom (relays (impl g)) = service_keys services /\
  dom (dispatchers g) = service_keys services /\
  map_Forall (fun key kd => exists url, NewKnServiceDispatcher vars NewClient key timeout url = Ok kd) (dispatchers g).
Proof.
  intros H. unfold launch in H. apply res_bind_ok in H as (g0 & H & E). apply (inj Ok) in E as <-.
  unfold SetUpWithManager in H. cbn [wrap_err mbind res_bind] in H.
  pose proof (registered_all timeout services ∅ _ g0 (registered_new timeout) H) as [R1 R2 R3 R4 R5 R6 R7 R8].
  rewrite (left_id_L ∅ (∪)) in *. unfold Start. cbn [impl dispatchers].
  destruct (K8s.start_all now (elements (dom (dispatchers g0))) (impl g0)) as (J1 & _ & J3 & J4 & J5 & _).
  pose proof (K8s.start_all_dom now (elements (dom (dispatchers g0))) (impl g0)) as J6.
  split; [exact (J1 R1)|]. rewrite J3, J4, J5, J6, R3, R7, list_to_set_elements_L, dom_empty_L, (left_id_L ∅ (∪)).
  by auto 10.
Qed.

(** Set-up succeeds exactly when every service's backend can be created. *)
Lemma launch_succeeds timeout services now :
  (forall s, s ∈ services -> is_ok (NewKnServiceDispatcher vars NewClient (KeyFromObject (fst s)) timeout (snd s)) = true) ->
  exists g, launch timeout services now = Ok g.
Proof.
  intros Hs. unfold launch, SetUpWithManager. cbn [wrap_err mbind res_bind].
  enough (forall g, dispatchTimeout g = timeout -> exists g', res_foldl register_service g services = Ok g') as H.
  { destruct (H (NewKnativeGateway timeout) eq_refl) as [g' ->]. cbn. by eexists. }
  induction services as [|s services IH]; intros g Hg; [by eexists|]. cbn [res_foldl].
  assert (exists g1, register_service g s = Ok g1 /\ dispatchTimeout g1 = timeout) as (g1 & -> & Hg1).
  { pose proof (Hs s ltac:(left)) as H0. unfold register_service. rewrite Hg.
    destruct (NewKnServiceDispatcher _ _ _ _ _) as [kd|?|?|?]; try done. by eexists. }
  apply IH; [|done]. intros s' H'. apply Hs. by right.
Qed.
End Gateway.
End KnativeGateway.

(** * Witnesses *)
Module Demo.
#[local] Existing Instance Decider.Demo.last_buckets.
#[local] Existing Instance Decider.Demo.max_window.
#[local] Existing Instance MapServer.map_client.
#[local] Existing Instance Autoscaler.Demo.list_queue.
#[local] Existing Instance Autoscaler.Demo.two_pods.

(** One target of a gateway without autoscaler. *)
Definition one_target : gatewayImpl unit :=
  start_relay "default/f" 10 10 (register "default/f" (newGatewayImpl tt)).
Definition req (i target : string) : Request := mkRequest i target 100 0 0 0 0 0.
Definition traffic : list label :=
  [LSend "default/f" (req "1" "default/f"); LSend "default/f" (req "2" "default/g");
   LSend "default/f" (req "3" "default/f");
   LRelayRequest "default/f" 20; LRelayRequest "default/f" 21; LDispatcherRecv "default/f";
   LRelayRequest "default/f" 22;
   LDispatcherSend "default/f" (status_response (req "1" "default/f") SUCCESS); LRelayResponse "default/f"].

Lemma one_target_fresh : fresh one_target.
Proof.
  split_and!; try done; intros k q; unfold one_target, start_relay, register, newGatewayImpl; cbn;
    (destruct (decide ("default/f" = k)) as [<-|]; [rewrite lookup_insert_eq; by intros [= <-]|
      rewrite lookup_insert_ne, lookup_empty by done; done]).
Qed.

Lemma gateway_relays_once_in_order_witness :
  exists g, run (step KnativeGateway.onReqIn KnativeGateway.onReqOut) one_target traffic = Some g /\
    externalOutput g = [status_response (req "2" "default/g") INVALID_TARGET;
                        status_response (req "1" "default/f") SUCCESS] /\
    accepted "default/f" (trace (step KnativeGateway.onReqIn KnativeGateway.onReqOut) observe one_target traffic)
      = [set_GatewayRecvTS 20 (req "1" "default/f"); set_GatewayRecvTS 22 (req "3" "default/f")].
Proof.
  destruct (run (step KnativeGateway.onReqIn KnativeGateway.onReqOut) one_target traffic) as [g|] eqn:E;
    [|vm_compute in E; discriminate E].
  exists g. split; [reflexivity|].
  pose proof (gateway_relays_once_in_order KnativeGateway.onReqIn KnativeGateway.onReqOut
    one_target traffic g one_target_fresh E) as [_ Hmid _ Hout _ _ _].
  vm_compute in E. injection E as <-. split.
  - rewrite <- (app_nil_l (externalOutput _)). etransitivity; [symmetry; exact Hout|]. vm_compute. reflexivity.
  - etransitivity; [apply Hmid; vm_compute; reflexivity|]. vm_compute. reflexivity.
Defined.

Definition listed : list Object :=
  [mkObject "default" "f" (list_to_map [("app", "f"); ("workload", "trace")])].
Definition demo_launch (f path : string) :=
  K8s.launch (B := list f64) (W := Z) (Q := list string) (M := gmap string executor_obj)
    (fun _ => Ok "kpa: {}") (fun _ => Ok (K8s.mkASConfig (Some Autoscaler.Demo.demo_cfg) None))
    [] (15 * Second) listed 10 f path.

Lemma k8s_setup_witness :
  demo_launch "one-time" "" = Panic K8s.nil_dereference /\
  exists g, demo_launch "kpa" "kpa.yaml" = Ok g /\ dom (K8s.dispatchers g) = {[ "default/f" ]} ∪ ∅.
Proof.
  destruct (K8s.k8s_setup (B := list f64) (W := Z) (Q := list string) (M := gmap string executor_obj)
    (fun _ => Ok "kpa: {}") (fun _ => Ok (K8s.mkASConfig (Some Autoscaler.Demo.demo_cfg) None))
    [] (15 * Second) listed 10 "one-time" "" "kpa: {}" (K8s.mkASConfig (Some Autoscaler.Demo.demo_cfg) None)) as [H _].
  split; [apply H; [reflexivity|right; reflexivity]|].
  destruct (K8s.k8s_setup (B := list f64) (W := Z) (Q := list string) (M := gmap string executor_obj)
    (fun _ => Ok "kpa: {}") (fun _ => Ok (K8s.mkASConfig (Some Autoscaler.Demo.demo_cfg) None))
    [] (15 * Second) listed 10 "kpa" "kpa.yaml" "kpa: {}" (K8s.mkASConfig (Some Autoscaler.Demo.demo_cfg) None))
    as (_ & H2 & _).
  destruct H2 as (g & Hg & _ & Hdom & _); [discriminate|reflexivity|reflexivity|right; split; [reflexivity|eexists; reflexivity]|].
  exists g. split; [exact Hg|exact Hdom].
Defined.

(** A gateway with one endpoint, and an API server whose pod list fails; its
    dispatcher before, at the start of, and at the end of a reconciliation. *)
Definition pd_with_endpoint : PodDispatcher (gmap string executor_obj) := after add_pod.
Definition pd_reconciling : PodDispatcher (gmap string executor_obj) := after (add_pod ++ [Dispatcher.LReconcile []]).
Definition pd_reconciled : PodDispatcher (gmap string executor_obj) :=
  after (add_pod ++ [Dispatcher.LReconcile []; Dispatcher.LDel Flap.key]).
Definition gateway_with_endpoint : K8s.k8sGateway (B := list f64) (W := Z) (Q := list string)
    (M := gmap string executor_obj) :=
  K8s.mkK8s (newGatewayImpl None) (15 * Second) {[ "kube/g" := pd_with_endpoint ]} None.

Lemma add_pod_then ls : computes (demo_run demo_new (add_pod ++ ls)) = true ->
  demo_run pd_with_endpoint ls = Some (after (add_pod ++ ls)).
Proof.
  intros H. apply after_run in H. rewrite run_app in H. unfold pd_with_endpoint, after at 1.
  destruct (demo_run demo_new add_pod) as [s|]; [exact H|discriminate H].
Qed.

Lemma list_error_removes_endpoints_witness :
  exists r, Dispatcher.step Flap.vars pd_with_endpoint (Dispatcher.LReconcile []) = Some pd_reconciling /\
    demo_run pd_reconciling [Dispatcher.LDel Flap.key] = Some pd_reconciled /\
    reconciling pd_reconciled = Some r /\ dom (Inner (endpoints pd_reconciled)) = ∅ /\
    is_Some (Inner (endpoints pd_with_endpoint) !! Flap.key).
Proof.
  assert (E1 : Dispatcher.step Flap.vars pd_with_endpoint (Dispatcher.LReconcile []) = Some pd_reconciling).
  { pose proof (add_pod_then [Dispatcher.LReconcile []] ltac:(vm_compute; reflexivity)) as H. cbn [run] in H.
    unfold pd_reconciling. destruct (Dispatcher.step Flap.vars pd_with_endpoint _); exact H. }
  assert (E2 : demo_run pd_reconciling [Dispatcher.LDel Flap.key] = Some pd_reconciled).
  { pose proof (add_pod_then [Dispatcher.LReconcile []; Dispatcher.LDel Flap.key] ltac:(vm_compute; reflexivity)) as H.
    cbn [run] in H. rewrite E1 in H. exact H. }
  assert (Hd : from_option reconcile_done false (reconciling pd_reconciled) = true) by (vm_compute; reflexivity).
  destruct (reconciling pd_reconciled) as [r|] eqn:Hr; [|discriminate Hd]. cbn [from_option] in Hd.
  exists r. split; [exact E1|]. split; [exact E2|]. split; [reflexivity|]. split.
  - assert (Hreach : reachable (Dispatcher.step Flap.vars) (.= NewPodDispatcher) pd_with_endpoint)
      by (apply demo_reachable; vm_compute; reflexivity).
    assert (Hn : Dispatcher.LReconciled ∉ [Dispatcher.LDel Flap.key]).
    { intros H. apply list_elem_of_singleton in H. discriminate H. }
    assert (Hg : K8s.dispatchers gateway_with_endpoint !! NamespacedName_String (mkNamespacedName "kube" "g")
      = Some pd_with_endpoint) by exact (lookup_singleton_eq "kube/g" pd_with_endpoint).
    eapply (K8s.list_error_removes_endpoints (S := MapServer.server) (fun _ => Flap.pod) Flap.vars
      (fun _ => false) Autoscaler.Demo.broken (mkNamespacedName "kube" "g")
      (mkDeployment "kube" "g" None (Some 1) ∅) "etcdserver: mvcc: required revision has been compacted"
      gateway_with_endpoint pd_with_endpoint pd_reconciling pd_reconciled [Dispatcher.LDel Flap.key]);
      [vm_compute; reflexivity|vm_compute; reflexivity|exact Hg|exact Hreach|exact E1|exact E2|exact Hn|exact Hr|exact Hd].
  - apply some_if. vm_compute. reflexivity.
Defined.
End Demo.
