(* ===== verification/Pipeline.v ===== *)
(** The request path as a whole: the gateway's relays of pkg/gateway/interface.go
    composed with the dispatchers of pkg/gateway/dispatcher over the channels
    they share, the autoscaler's callbacks, and the end of their context.  The
    internal buffers of the gateway are the request and response channels of
    the dispatchers, which are known only through the interface of [Dispatch]. *)
From S2P Require Import Prelude F64 KdUtil Workload Handler Backend Metric Decider Scaler Autoscaler Dispatcher Ksvc Dispatch Gateway.
Import Selection Types.

Section Pipeline.
(** The autoscaler behind the callbacks, and what its own goroutines do to
    it ([None]: nothing to do, or a panic, which ends the process). *)
Context {A Act : Type} (onReqIn : A -> Request -> res A) (onReqOut : A -> Response -> res A) (act : Act -> A -> option A).
Context {D DL : Type} `{!RequestDispatcher D DL} (vars : BackendVars).

Record pipeline := mkPipe {
  gw : gatewayImpl A;
  pds : gmap string D;
  ctx_cancelled : bool
}.

Inductive label :=
| PSend (target : string) (req : Request)
| PRelayRequest (key : string) (now : time)
| PRelayResponse (key : string)
| PReceive (key : string)                          (* the dispatcher's run loop *)
| PDispatch (key : string) (l : DL)                (* other steps inside the dispatcher *)
| PAnswer (key : string) (t : nat)                 (* a dispatch goroutine sends its response *)
| PClientRecv
| PAutoscaler (x : Act)
| PCancel
| PRelayStop (key : string).                       (* a relay finds the context done *)

Definition set_gw (g : gatewayImpl A) (p : pipeline) : pipeline := mkPipe g (pds p) (ctx_cancelled p).
Definition set_pd (key : string) (pd : D) (p : pipeline) : pipeline :=
  mkPipe (gw p) (<[key := pd]> (pds p)) (ctx_cancelled p).

Definition set_relays (r : gmap string relay_vars) (g : gatewayImpl A) : gatewayImpl A :=
  mkGateway (internalInputBuffers g) (internalOutputBuffers g) (externalInputs g) (externalOutput g) r (owner g).
Definition set_owner (a : A) (g : gatewayImpl A) : gatewayImpl A :=
  mkGateway (internalInputBuffers g) (internalOutputBuffers g) (externalInputs g) (externalOutput g) (relays g) a.

Definition step (p : pipeline) (l : label) : option pipeline :=
  let gstep l := g ← Gateway.step onReqIn onReqOut (gw p) l; Some (set_gw g p) in
  match l with
  | PSend target req => gstep (Gateway.LSend target req)
  | PRelayRequest key now => gstep (LRelayRequest key now)
  | PRelayResponse key => gstep (LRelayResponse key)
  | PClientRecv => gstep LClientRecv
  | PReceive key =>
      pd ← pds p !! key;
      '(req, g) ← dispatcher_recv key (gw p);
      pd ← disp_receive req pd;
      Some (set_pd key pd (set_gw g p))
  | PDispatch key l =>
      pd ← pds p !! key; pd ← disp_step vars (ctx_cancelled p) pd l; Some (set_pd key pd p)
  | PAnswer key t =>
      pd ← pds p !! key;
      '(r, pd) ← disp_answer t pd;
      g ← dispatcher_send key r (gw p);
      Some (set_pd key pd (set_gw g p))
  | PAutoscaler x => a ← act x (owner (gw p)); Some (set_gw (set_owner a (gw p)) p)
  | PCancel => Some (mkPipe (gw p) (pds p) true)
  | PRelayStop key =>
      if ctx_cancelled p then
        match relays (gw p) !! key with
        | Some _ => Some (set_gw (set_relays (delete key (relays (gw p))) (gw p)) p)
        | None => None
        end
      else None
  end.

(** What clients see. *)
Definition observe (p : pipeline) (l : label) : list (Request + Response) :=
  match l with
  | PSend _ req => [inl req]
  | PClientRecv => match externalOutput (gw p) with r :: _ => [inr r] | [] => [] end
  | _ => []
  end.
Definition sent_ids (h : list (Request + Response)) : list string :=
  omap (fun o => match o with inl req => Some (ID req) | inr _ => None end) h.
Definition received_ids (h : list (Request + Response)) : list string :=
  omap (fun o => match o with inl _ => None | inr r => Some (answer_id r) end) h.

(** * Conservation of requests *)
Context `{!RequestDispatcherLaws D DL}.
Implicit Types p : pipeline.

(** How often an id is in the queues of a gateway, and in a dispatcher
    waiting, executing or being answered. *)
Definition in_requests (i : string) (m : gmap string (list Request)) : nat := msum (fun q => count i (ID <$> q)) m.
Definition in_responses (i : string) (m : gmap string (list Response)) : nat :=
  msum (fun q => count i (answer_id <$> q)) m.
Definition in_gateway (i : string) (g : gatewayImpl A) : nat :=
  (in_requests i (externalInputs g) + in_requests i (internalInputBuffers g) +
   in_responses i (internalOutputBuffers g) + count i (answer_id <$> externalOutput g))%nat.
Definition in_flight (i : string) p : nat := (in_gateway i (gw p) + msum (disp_busy i) (pds p))%nat.

(** What a step of the gateway brings in and takes out. *)
Definition comes_in (i : string) (l : Gateway.label) : nat :=
  match l with
  | Gateway.LSend _ req => count i [ID req]
  | LDispatcherSend _ r => count i [answer_id r]
  | _ => 0
  end%nat.
Definition goes_out (i : string) (g : gatewayImpl A) (l : Gateway.label) : nat :=
  match l with
  | LDispatcherRecv key =>
      match internalInputBuffers g !! key with Some (req :: _) => count i [ID req] | _ => 0 end
  | LClientRecv => match externalOutput g with r :: _ => count i [answer_id r] | [] => 0 end
  | _ => 0
  end%nat.

Lemma count_singleton_app (i : string) l x : count i (l ++ [x]) = (count i l + count i [x])%nat.
Proof. apply count_app. Qed.
Lemma count_cons_one (i : string) x l : count i (x :: l) = (count i [x] + count i l)%nat.
Proof. change (x :: l) with ([x] ++ l). apply count_app. Qed.

Lemma in_requests_insert i m key q q' : m !! key = Some q ->
  (in_requests i (<[key := q']> m) + count i (ID <$> q) = count i (ID <$> q') + in_requests i m)%nat.
Proof. apply (msum_insert (fun q => count i (ID <$> q))). Qed.
Lemma in_responses_insert i m key q q' : m !! key = Some q ->
  (in_responses i (<[key := q']> m) + count i (answer_id <$> q) = count i (answer_id <$> q') + in_responses i m)%nat.
Proof. apply (msum_insert (fun q => count i (answer_id <$> q))). Qed.

Ltac queues i :=
  repeat match goal with
  | E : ?m !! ?k = Some ?q |- context [in_requests i (<[?k := ?q']> ?m)] =>
      let X := fresh in pose proof (in_requests_insert i m k q q' E) as X;
      generalize dependent (in_requests i (<[k := q']> m)); intros
  | E : ?m !! ?k = Some ?q |- context [in_responses i (<[?k := ?q']> ?m)] =>
      let X := fresh in pose proof (in_responses_insert i m k q q' E) as X;
      generalize dependent (in_responses i (<[k := q']> m)); intros
  end;
  repeat match goal with H : context [count i (_ <$> _)] |- _ => progress (rewrite ?fmap_app, ?fmap_cons, ?fmap_nil, ?count_app in H) end;
  rewrite ?fmap_app, ?fmap_cons, ?fmap_nil, ?count_app;
  repeat match goal with H : context [count i (?x :: (_ <$> ?l))] |- _ => rewrite (count_cons_one i x (_ <$> l)) in H end;
  change (count i (ID <$> [])) with 0%nat in *; change (count i (answer_id <$> [])) with 0%nat in *;
  change (count i []) with 0%nat in *.

Lemma gateway_conserves i g l g' : Gateway.step onReqIn onReqOut g l = Some g' ->
  (in_gateway i g' + goes_out i g l = in_gateway i g + comes_in i l)%nat.
Proof.
  intros Hs. unfold in_gateway. destruct l as [key req|key now|key|key|key r|]; simpl in Hs; cbn [comes_in goes_out].
  - unfold RequestChan_send in Hs. destruct (externalInputs g !! key) as [q|] eqn:E; simplify_eq/=. queues i. lia.
  - unfold relay_request in Hs. destruct (relays g !! key) as [v|]; [|done].
    destruct (externalInputs g !! key) as [[|req rest]|] eqn:E; [done| |done].
    destruct (internalInputBuffers g !! key) as [q|] eqn:Eq; [|done]. case_decide as Ht.
    + destruct (onReqIn (owner g) req) as [a|e|e|e]; simplify_eq/=. queues i.
      change (count i [ID (set_GatewayRecvTS now req)]) with (count i [ID req]) in *. lia.
    + simplify_eq/=. queues i. change (count i [answer_id (status_response req INVALID_TARGET)]) with (count i [ID req]) in *. lia.
  - unfold relay_response in Hs. destruct (relays g !! key) as [v|]; [|done].
    destruct (internalOutputBuffers g !! key) as [[|r rest]|] eqn:E; [done| |done].
    destruct (onReqOut (owner g) r) as [a|e|e|e]; simplify_eq/=. queues i. lia.
  - unfold dispatcher_recv in Hs. destruct (internalInputBuffers g !! key) as [[|req rest]|] eqn:E; simplify_eq/=.
    queues i. lia.
  - unfold dispatcher_send in Hs. destruct (internalOutputBuffers g !! key) as [q|] eqn:E; simplify_eq/=. queues i. lia.
  - unfold ResponseChan_recv in Hs. destruct (externalOutput g) as [|r rest] eqn:E; simplify_eq/=.
    rewrite (count_cons_one i (answer_id r) (answer_id <$> rest)). lia.
Qed.

Definition pds_ok p : Prop := map_Forall (fun _ pd => disp_ok pd) (pds p).

Lemma busy_insert i key pd pd' p : pds p !! key = Some pd ->
  (msum (disp_busy i) (<[key := pd']> (pds p)) + disp_busy i pd = disp_busy i pd' + msum (disp_busy i) (pds p))%nat.
Proof. apply (msum_insert (disp_busy i)). Qed.
Lemma in_flight_set i key pd g p :
  in_flight i (set_pd key pd (set_gw g p)) = (in_gateway i g + msum (disp_busy i) (<[key := pd]> (pds p)))%nat.
Proof. done. Qed.
Lemma recv_goes_out i key req g g' : dispatcher_recv key g = Some (req, g') ->
  goes_out i g (LDispatcherRecv key) = count i [ID req].
Proof. unfold dispatcher_recv. cbn [goes_out]. intros H. by repeat (case_match; simplify_eq/=). Qed.
Lemma observe_silent i : count i (sent_ids []) = 0%nat /\ count i (received_ids []) = 0%nat.
Proof. done. Qed.

(** A step keeps every id: in flight afterwards and received is in flight
    before and sent. *)
Lemma step_conserves i p l p' : pds_ok p -> step p l = Some p' ->
  pds_ok p' /\
  (in_flight i p' + count i (received_ids (observe p l)) = in_flight i p + count i (sent_ids (observe p l)))%nat.
Proof.
  intros Hp Hs.
  assert (forall gl, (g ← Gateway.step onReqIn onReqOut (gw p) gl; Some (set_gw g p)) = Some p' ->
    pds_ok p' /\ (in_flight i p' + goes_out i (gw p) gl = in_flight i p + comes_in i gl)%nat) as Hg.
  { intros gl Hgl. destruct (Gateway.step onReqIn onReqOut (gw p) gl) as [g|] eqn:E; simplify_eq/=.
    split; [done|]. pose proof (gateway_conserves i _ _ _ E). unfold in_flight. cbn. lia. }
  destruct l as [key req|key now|key|key|key l|key t| |x| |key]; unfold step in Hs.
  - apply Hg in Hs as [H1 H2]. split; [done|]. cbn in *. lia.
  - apply Hg in Hs as [H1 H2]. split; [done|]. cbn in *. lia.
  - apply Hg in Hs as [H1 H2]. split; [done|]. cbn in *. lia.
  - clear Hg. destruct (pds p !! key) as [pd|] eqn:Ek; [|done]. cbn [mbind option_bind] in Hs.
    destruct (dispatcher_recv key (gw p)) as [[req g]|] eqn:Er; [|done]. cbn [mbind option_bind] in Hs.
    destruct (disp_receive req pd) as [pd'|] eqn:Err; [|done]. injection Hs as <-.
    destruct (disp_receive_conserves req pd pd' (Hp _ _ Ek) Err) as [Hok Hb]. specialize (Hb i).
    split; [by apply map_Forall_insert_2|].
    pose proof (busy_insert i key pd pd' p Ek) as Hsum.
    assert (Gateway.step onReqIn onReqOut (gw p) (LDispatcherRecv key) = Some g) as Egs by (simpl; by rewrite Er).
    pose proof (gateway_conserves i _ _ _ Egs) as Hgc. rewrite (recv_goes_out i key req _ g Er) in Hgc. cbn [comes_in] in Hgc.
    rewrite in_flight_set. unfold in_flight. cbn [observe]. destruct (observe_silent i) as [-> ->]. lia.
  - clear Hg. destruct (pds p !! key) as [pd|] eqn:Ek; [|done]. cbn [mbind option_bind] in Hs.
    destruct (disp_step vars (ctx_cancelled p) pd l) as [pd'|] eqn:Ed; [|done]. injection Hs as <-.
    destruct (disp_step_conserves vars _ pd l pd' (Hp _ _ Ek) Ed) as [Hok Hb]. specialize (Hb i).
    split; [by apply map_Forall_insert_2|].
    pose proof (busy_insert i key pd pd' p Ek) as Hsum. change (set_pd key pd' p) with (set_pd key pd' (set_gw (gw p) p)).
    rewrite in_flight_set. unfold in_flight. cbn [observe]. destruct (observe_silent i) as [-> ->]. lia.
  - clear Hg. destruct (pds p !! key) as [pd|] eqn:Ek; [|done]. cbn [mbind option_bind] in Hs.
    destruct (disp_answer t pd) as [[r pd']|] eqn:Ea; [|done]. cbn [mbind option_bind] in Hs.
    destruct (dispatcher_send key r (gw p)) as [g|] eqn:Es; [|done]. injection Hs as <-.
    destruct (disp_answer_conserves t pd r pd' (Hp _ _ Ek) Ea) as [Hok Hb]. specialize (Hb i).
    split; [by apply map_Forall_insert_2|].
    pose proof (busy_insert i key pd pd' p Ek) as Hsum.
    assert (Gateway.step onReqIn onReqOut (gw p) (LDispatcherSend key r) = Some g) as Egs by done.
    pose proof (gateway_conserves i _ _ _ Egs) as Hgc. cbn [goes_out comes_in] in Hgc.
    rewrite in_flight_set. unfold in_flight. cbn [observe]. destruct (observe_silent i) as [-> ->]. lia.
  - apply Hg in Hs as [H1 H2]. split; [done|]. cbn in *.
    destruct (externalOutput (gw p)) as [|r rest]; cbn in *; change (count i []) with 0%nat in *; lia.
  - destruct (act x (owner (gw p))); simplify_eq/=. split; [done|]. cbn. unfold in_flight. cbn. change (count i []) with 0%nat. done.
  - simplify_eq. split; [done|]. cbn. unfold in_flight. cbn. change (count i []) with 0%nat. done.
  - destruct (ctx_cancelled p); [|done]. destruct (relays (gw p) !! key); simplify_eq.
    split; [done|]. cbn. unfold in_flight. cbn. change (count i []) with 0%nat. done.
Qed.

(** At any time, an id was sent as often as it is in flight or was
    received. *)
Lemma run_conserves p0 ls p : pds_ok p0 -> (forall i, in_flight i p0 = 0%nat) -> run step p0 ls = Some p ->
  pds_ok p /\ forall i, count i (sent_ids (trace step observe p0 ls)) =
                     (in_flight i p + count i (received_ids (trace step observe p0 ls)))%nat.
Proof.
  intros Hok H0 Hr. change (trace step observe p0 ls) with ([] ++ trace step observe p0 ls).
  eapply (trace_invariant step observe (fun p h => pds_ok p /\ forall i, count i (sent_ids h) =
    (in_flight i p + count i (received_ids h))%nat)); [|split; [exact Hok|intros i; by rewrite H0]|exact Hr].
  intros q h l q' [Hokq Hc] Hs. destruct (step_conserves "" q l q' Hokq Hs) as [Hok' _]. split; [done|].
  intros i. destruct (step_conserves i q l q' Hokq Hs) as [_ Hi]. specialize (Hc i).
  unfold sent_ids, received_ids in *. rewrite !omap_app, !count_app. lia.
Qed.

(** * Progress *)

(** How many steps a request has at most left: from the client's channel to
    the client's channel. *)
Definition sum_lengths {X} (k : nat) (m : gmap string (list X)) : nat := msum (fun q => (k * length q)%nat) m.
Definition pending p : nat :=
  (sum_lengths 8 (externalInputs (gw p)) + sum_lengths 7 (internalInputBuffers (gw p)) +
   sum_lengths 2 (internalOutputBuffers (gw p)) + length (externalOutput (gw p)) + msum disp_weight (pds p))%nat.

Lemma sum_lengths_insert {X} k (m : gmap string (list X)) key q q' : m !! key = Some q ->
  (sum_lengths k (<[key := q']> m) + k * length q = k * length q' + sum_lengths k m)%nat.
Proof. apply (msum_insert (fun q => (k * length q)%nat)). Qed.
Lemma sum_lengths_pos {X} k (m : gmap string (list X)) : (0 < sum_lengths k m)%nat ->
  exists key x q, m !! key = Some (x :: q).
Proof. intros H. apply msum_pos in H as (key & [|x q] & Hk & H); [simpl in H; lia|eauto]. Qed.

Lemma in_flight_pending i p : (in_flight i p <= pending p)%nat.
Proof.
  unfold in_flight, in_gateway, pending, in_requests, in_responses, sum_lengths.
  assert (forall X (f : X -> string) k (m : gmap string (list X)), (0 < k)%nat ->
    (msum (fun q => count i (f <$> q)) m <= msum (fun q => k * length q) m)%nat) as Hq.
  { intros X f k m Hk. apply msum_mono. intros q. pose proof (count_le_length i (f <$> q)) as H.
    rewrite length_fmap in H. nia. }
  pose proof (Hq _ ID 8%nat (externalInputs (gw p)) ltac:(lia)).
  pose proof (Hq _ ID 7%nat (internalInputBuffers (gw p)) ltac:(lia)).
  pose proof (Hq _ answer_id 2%nat (internalOutputBuffers (gw p)) ltac:(lia)).
  pose proof (count_le_length i (answer_id <$> externalOutput (gw p))) as H2. rewrite length_fmap in H2.
  pose proof (msum_mono _ _ (pds p) (disp_busy_weight i)). lia.
Qed.

Section Live.
(** The registered keys, and when the autoscaler accepts all their requests. *)
Context (keys : gset string) (I : A -> Prop).
Hypothesis in_ok : forall a req, I a -> Target req ∈ keys -> exists a', onReqIn a req = Ok a' /\ I a'.
Hypothesis out_ok : forall a r, I a -> Target (Source r) ∈ keys -> exists a', onReqOut a r = Ok a' /\ I a'.
Hypothesis act_ok : forall x a a', I a -> act x a = Some a' -> I a'.

Record live p : Prop := {
  live_ctx : ctx_cancelled p = false;
  live_ext : dom (externalInputs (gw p)) = keys;
  live_int : dom (internalInputBuffers (gw p)) = keys;
  live_out : dom (internalOutputBuffers (gw p)) = keys;
  live_relays : dom (relays (gw p)) = keys;
  live_pds : dom (pds p) = keys;
  live_in_targets : map_Forall (fun key q => Forall (fun req => Target req = key) q) (internalInputBuffers (gw p));
  live_out_targets : map_Forall (fun key q => Forall (fun r => Target (Source r) = key) q) (internalOutputBuffers (gw p));
  live_dispatchers : map_Forall disp_live (pds p);
  live_owner : I (owner (gw p))
}.

(** A gateway that has just been started. *)
Lemma fresh_live p : fresh (gw p) -> ctx_cancelled p = false ->
  dom (externalInputs (gw p)) = keys -> dom (internalInputBuffers (gw p)) = keys ->
  dom (internalOutputBuffers (gw p)) = keys -> dom (relays (gw p)) = keys -> dom (pds p) = keys ->
  map_Forall (fun key pd => disp_live key pd /\ disp_weight pd = 0%nat) (pds p) -> I (owner (gw p)) ->
  live p /\ pending p = 0%nat.
Proof.
  intros (F1 & F2 & F3 & F4 & _) Hc D1 D2 D3 D4 D5 Hpd Ho. split.
  - split; try done.
    + intros key q Hq. by apply F2 in Hq as ->.
    + intros key q Hq. by apply F3 in Hq as ->.
    + intros key pd Ek. apply (Hpd key pd Ek).
  - unfold pending, sum_lengths. rewrite F4, !msum_zero; [done|..].
    + intros key pd Ek. apply (Hpd key pd Ek).
    + intros key q Hq. by rewrite (F3 key q Hq).
    + intros key q Hq. by rewrite (F2 key q Hq).
    + intros key q Hq. by rewrite (F1 key q Hq).
Qed.

Lemma dom_insert_same {X} (m : gmap string X) key x y : m !! key = Some x -> dom (<[key := y]> m) = dom m.
Proof. intros H. rewrite dom_insert_L. apply elem_of_dom_2 in H. set_solver. Qed.

Lemma live_step p l p' : l <> PCancel -> live p -> step p l = Some p' -> live p'.
Proof.
  intros Hl [L1 L2 L3 L4 L5 L6 L7 L8 L9 L10] Hs.
  destruct l as [key req|key now|key|key|key l|key t| |x| |key]; simpl in Hs.
  - unfold RequestChan_send in Hs. destruct (externalInputs (gw p) !! key) as [q|] eqn:E; simplify_eq/=.
    split; cbn; try done. by rewrite (dom_insert_same _ _ q).
  - unfold relay_request in Hs. destruct (relays (gw p) !! key) as [v|] eqn:Ev; [|done].
    destruct (externalInputs (gw p) !! key) as [[|req rest]|] eqn:E; [done| |done].
    destruct (internalInputBuffers (gw p) !! key) as [q|] eqn:Eq; [|done]. case_decide as Ht.
    + destruct (in_ok (owner (gw p)) req L10) as (a & Ha & Hia).
      { rewrite Ht, <- L3. by eapply elem_of_dom_2. }
      rewrite Ha in Hs. simplify_eq/=. split; cbn; try done; try (by erewrite dom_insert_same).
      apply map_Forall_insert_2; [|done]. apply Forall_app. split; [by apply (L7 _ _ Eq)|]. by apply Forall_singleton.
    + simplify_eq/=. split; cbn; try done. by erewrite dom_insert_same.
  - unfold relay_response in Hs. destruct (relays (gw p) !! key) as [v|] eqn:Ev; [|done].
    destruct (internalOutputBuffers (gw p) !! key) as [[|r rest]|] eqn:E; [done| |done].
    pose proof (L8 _ _ E) as Hr. apply Forall_cons in Hr as [Hr Hrest].
    destruct (out_ok (owner (gw p)) r L10) as (a & Ha & Hia).
    { rewrite Hr, <- L4. by eapply elem_of_dom_2. }
    rewrite Ha in Hs. simplify_eq/=. split; cbn; try done; try (by erewrite dom_insert_same).
    by apply map_Forall_insert_2.
  - destruct (pds p !! key) as [pd|] eqn:Ek; [|done]. cbn [mbind option_bind] in Hs.
    unfold dispatcher_recv in Hs. destruct (internalInputBuffers (gw p) !! key) as [[|req rest]|] eqn:E; try done.
    cbn [mbind option_bind] in Hs. destruct (disp_receive req pd) as [pd'|] eqn:Er; [|done]. injection Hs as <-.
    pose proof (L7 _ _ E) as Hr. apply Forall_cons in Hr as [Hr Hrest].
    split; cbn; try done; try (by erewrite dom_insert_same).
    + by apply map_Forall_insert_2.
    + apply map_Forall_insert_2; [|done]. by eapply disp_live_receive; [|apply (L9 _ _ Ek)|].
  - rewrite L1 in Hs. destruct (pds p !! key) as [pd|] eqn:Ek; [|done]. cbn [mbind option_bind] in Hs.
    destruct (disp_step vars false pd l) as [pd'|] eqn:Ed; [|done]. injection Hs as <-.
    split; cbn; try done; try (by erewrite dom_insert_same).
    apply map_Forall_insert_2; [|done]. by eapply disp_live_step; [apply (L9 _ _ Ek)|].
  - destruct (pds p !! key) as [pd|] eqn:Ek; [|done]. cbn [mbind option_bind] in Hs.
    destruct (disp_answer t pd) as [[r pd']|] eqn:Ea; [|done]. cbn [mbind option_bind] in Hs.
    unfold dispatcher_send in Hs. destruct (internalOutputBuffers (gw p) !! key) as [q|] eqn:E; [|done]. injection Hs as <-.
    destruct (disp_live_answer key t pd r pd' (L9 _ _ Ek) Ea) as [Hpd Hr].
    split; cbn; try done; try (by erewrite dom_insert_same).
    + apply map_Forall_insert_2; [|done]. apply Forall_app. split; [by apply (L8 _ _ E)|]. by apply Forall_singleton.
    + by apply map_Forall_insert_2.
  - unfold ResponseChan_recv in Hs. destruct (externalOutput (gw p)) as [|r rest]; simplify_eq/=. by split.
  - destruct (act x (owner (gw p))) as [a|] eqn:E; simplify_eq/=. split; cbn; try done. by eapply act_ok.
  - done.
  - rewrite L1 in Hs. done.
Qed.

(** The steps inside the system: none is a client's send, and none ends the
    context. *)
Definition internal (l : label) : bool :=
  match l with PSend _ _ | PCancel | PRelayStop _ => false | _ => true end.
(** A step inside that brings everything nearer to the clients. *)
Definition advances p : Prop :=
  exists l p', internal l = true /\ step p l = Some p' /\ (pending p' < pending p)%nat.

Lemma some_lookup {X} (m : gmap string X) key : dom m = keys -> key ∈ keys -> exists x, m !! key = Some x.
Proof. intros <- Hk. by apply elem_of_dom in Hk. Qed.

Lemma advance_ext p key req rest : live p -> externalInputs (gw p) !! key = Some (req :: rest) -> advances p.
Proof.
  intros L E. assert (key ∈ keys) as Hk by (rewrite <- (live_ext p L); by eapply elem_of_dom_2).
  destruct (some_lookup _ _ (live_relays p L) Hk) as [v Ev], (some_lookup _ _ (live_int p L) Hk) as [q Eq].
  exists (PRelayRequest key 0). unfold step. cbn [Gateway.step]. unfold relay_request. rewrite Ev, E, Eq.
  pose proof (fun q' => sum_lengths_insert 8 _ key _ q' E) as W8. pose proof (fun q' => sum_lengths_insert 7 _ key _ q' Eq) as W7.
  case_decide as Ht.
  - destruct (in_ok (owner (gw p)) req (live_owner p L)) as (a & -> & _); [by rewrite Ht|].
    eexists. split; [done|]. split; [reflexivity|]. unfold pending. cbn.
    specialize (W8 rest). specialize (W7 (q ++ [set_GatewayRecvTS 0 req])). rewrite length_app in W7. simpl in W7, W8. lia.
  - eexists. split; [done|]. split; [reflexivity|]. unfold pending. cbn.
    specialize (W8 rest). rewrite length_app. simpl in W8 |- *. lia.
Qed.

Lemma weight_insert key pd pd' p : pds p !! key = Some pd ->
  (msum disp_weight (<[key := pd']> (pds p)) + disp_weight pd = disp_weight pd' + msum disp_weight (pds p))%nat.
Proof. apply (msum_insert disp_weight). Qed.

Lemma advance_int p key req rest : live p -> internalInputBuffers (gw p) !! key = Some (req :: rest) -> advances p.
Proof.
  intros L0 E. assert (key ∈ keys) as Hk by (rewrite <- (live_int p L0); by eapply elem_of_dom_2).
  destruct (some_lookup _ _ (live_pds p L0) Hk) as [pd Ek].
  destruct (disp_receives key req pd (live_dispatchers p L0 _ _ Ek)) as (pd' & Hr & Hw).
  exists (PReceive key). unfold step. rewrite Ek. cbn [mbind option_bind]. unfold dispatcher_recv. rewrite E.
  cbn [mbind option_bind]. rewrite Hr. eexists. split; [done|]. split; [reflexivity|].
  pose proof (weight_insert key pd pd' p Ek). pose proof (sum_lengths_insert 7 _ key _ rest E) as W. simpl in W.
  unfold pending. cbn. lia.
Qed.

Lemma advance_dispatcher p key pd : live p -> pds p !! key = Some pd -> (0 < disp_weight pd)%nat -> advances p.
Proof.
  intros L0 Ek Hw. destruct (disp_progress key vars pd (live_dispatchers p L0 _ _ Ek) Hw) as [(l & pd' & Hs & Hl)|(t & r & pd' & Ha)].
  - exists (PDispatch key l). unfold step. rewrite (live_ctx p L0), Ek. cbn [mbind option_bind].
    rewrite Hs. eexists. split; [done|]. split; [reflexivity|]. pose proof (weight_insert key pd pd' p Ek).
    unfold pending. cbn. lia.
  - assert (key ∈ keys) as Hk by (rewrite <- (live_pds p L0); by eapply elem_of_dom_2).
    destruct (some_lookup _ _ (live_out p L0) Hk) as [q Eq].
    exists (PAnswer key t). unfold step. rewrite Ek. cbn [mbind option_bind]. rewrite Ha.
    cbn [mbind option_bind]. unfold dispatcher_send. rewrite Eq. cbn [mbind option_bind].
    eexists. split; [done|]. split; [reflexivity|].
    pose proof (weight_insert key pd pd' p Ek) as W1. pose proof (disp_answer_lighter t pd r pd' Ha) as W2.
    pose proof (sum_lengths_insert 2 _ key _ (q ++ [r]) Eq) as W3. rewrite length_app in W3.
    unfold pending. cbn in *. lia.
Qed.

Lemma advance_out p key r rest : live p -> internalOutputBuffers (gw p) !! key = Some (r :: rest) -> advances p.
Proof.
  intros L E. assert (key ∈ keys) as Hk by (rewrite <- (live_out p L); by eapply elem_of_dom_2).
  destruct (some_lookup _ _ (live_relays p L) Hk) as [v Ev].
  pose proof (live_out_targets p L _ _ E) as Hr. apply Forall_cons in Hr as [Hr _].
  destruct (out_ok (owner (gw p)) r (live_owner p L)) as (a & Ha & _); [by rewrite Hr|].
  exists (PRelayResponse key). unfold step. cbn [Gateway.step]. unfold relay_response. rewrite Ev, E, Ha.
  eexists. split; [done|]. split; [reflexivity|]. pose proof (sum_lengths_insert 2 _ key _ rest E) as W. simpl in W.
  unfold pending. cbn. rewrite length_app. simpl. lia.
Qed.

Lemma live_advances p : live p -> (0 < pending p)%nat -> advances p.
Proof.
  intros L Hp. unfold pending in Hp.
  destruct (decide (0 < sum_lengths 8 (externalInputs (gw p)))%nat) as [H|H1];
    [apply sum_lengths_pos in H as (key & x & q & E); by eapply advance_ext|].
  destruct (decide (0 < sum_lengths 7 (internalInputBuffers (gw p)))%nat) as [H|H2];
    [apply sum_lengths_pos in H as (key & x & q & E); by eapply advance_int|].
  destruct (decide (0 < sum_lengths 2 (internalOutputBuffers (gw p)))%nat) as [H|H3];
    [apply sum_lengths_pos in H as (key & x & q & E); by eapply advance_out|].
  destruct (externalOutput (gw p)) as [|r rest] eqn:E.
  - simpl in Hp. destruct (msum_pos disp_weight (pds p)) as (key & pd & Ek & Hw); [lia|]. by eapply advance_dispatcher.
  - exists PClientRecv. unfold step. cbn [Gateway.step]. unfold ResponseChan_recv. rewrite E.
    eexists. split; [done|]. split; [reflexivity|]. unfold pending. cbn. rewrite E. simpl. lia.
Qed.

Lemma live_drains p : live p -> exists ls p', Forall (fun l => internal l = true) ls /\ run step p ls = Some p' /\
  pending p' = 0%nat.
Proof.
  remember (pending p) as n eqn:Hn. revert p Hn. induction (lt_wf n) as [n _ IH]. intros p -> L.
  destruct (decide (pending p = 0%nat)) as [E|E]; [by exists [], p|].
  destruct (live_advances p L) as (l & p1 & Hi & Hs & Hlt); [lia|].
  destruct (IH (pending p1) Hlt p1 eq_refl) as (ls & p2 & Hls & Hr & H0).
  { apply (live_step p l); [by destruct l|done|exact Hs]. }
  exists (l :: ls), p2. split; [by constructor|]. split; [|done]. cbn [run]. by rewrite Hs.
Qed.

Lemma live_run p ls p' : PCancel ∉ ls -> live p -> run step p ls = Some p' -> live p'.
Proof.
  revert p. induction ls as [|l ls IH]; intros p Hn L Hr; [by simplify_eq/=|].
  apply not_elem_of_cons in Hn as [Hl Hn]. cbn [run] in Hr. destruct (step p l) as [p1|] eqn:E; [|done].
  apply (IH p1); [done| |exact Hr]. by apply (live_step p l); [congruence| |].
Qed.

Lemma live_pds_ok p : live p -> pds_ok p.
Proof. intros L0 key pd Ek. by apply (disp_live_ok key), (live_dispatchers p L0). Qed.

(** Requests are conserved, and all of them can be answered, as long as the
    context lasts. *)
Lemma conserved_and_answered p0 ls p : live p0 -> pending p0 = 0%nat -> run step p0 ls = Some p ->
  let h := trace step observe p0 ls in
  (forall i, count i (sent_ids h) = (in_flight i p + count i (received_ids h))%nat) /\
  (PCancel ∉ ls -> exists ls' p', Forall (fun l => internal l = true) ls' /\ run step p ls' = Some p' /\
     forall i, count i (received_ids (h ++ trace step observe p ls')) = count i (sent_ids h)).
Proof.
  intros L H0 Hr h.
  assert (forall i p, pending p = 0%nat -> in_flight i p = 0%nat) as Hz
    by (intros i q Hq; pose proof (in_flight_pending i q); lia).
  destruct (run_conserves p0 ls p (live_pds_ok p0 L) (fun i => Hz i p0 H0) Hr) as [_ Hc]. split; [exact Hc|].
  intros Hn. destruct (live_drains p (live_run p0 ls p Hn L Hr)) as (ls' & p' & Hi & Hr' & Hp').
  exists ls', p'. split; [done|]. split; [done|]. intros i.
  assert (run step p0 (ls ++ ls') = Some p') as Hr2 by (by rewrite run_app, Hr).
  destruct (run_conserves p0 (ls ++ ls') p' (live_pds_ok p0 L) (fun i => Hz i p0 H0) Hr2) as [_ Hc2].
  specialize (Hc2 i). rewrite (trace_app _ _ _ _ _ _ Hr), (Hz i p' Hp') in Hc2. fold h in Hc2. simpl in Hc2.
  rewrite <- Hc2. unfold sent_ids. rewrite omap_app, count_app.
  assert (sent_ids (trace step observe p ls') = []) as Hs; [|unfold sent_ids in Hs; rewrite Hs; simpl; by rewrite Nat.add_0_r].
  clear -Hi. revert p. induction Hi as [|l ls' Hl _ IH]; intros p; [done|]. cbn [trace].
  destruct (step p l) as [p1|]; [|done]. unfold sent_ids in *. rewrite omap_app, IH, app_nil_r.
  destruct l; try done. simpl. by destruct (externalOutput (gw p)).
Qed.
End Live.
End Pipeline.

(** * The Kubernetes gateway, started *)
Module K8sRun.
Section Run.
Context {B W Q S M : Type} `{!TimedFloat64Buckets B} `{!TimeWindow W} `{!WorkQueue Q}
  `{!Client S} `{!PodLister S} `{!Scaler S} `{!SharedMap executor_obj M}.
Abbreviation AS := (K8s.autoscaler (KPADecider B W) Q).

(** What the callbacks work on: the gateway's autoscaler, the API server it
    scales deployments through, and the clock. *)
Record world := mkWorld { scaler : option AS; api : S; clock : time }.

Definition onReqIn (w : world) (req : Request) : res world :=
  a ← K8s.onReqIn (clock w) (scaler w) req; Ok (mkWorld a (api w) (clock w)).
Definition onReqOut (w : world) (r : Response) : res world :=
  a ← K8s.onReqOut (clock w) (scaler w) r; Ok (mkWorld a (api w) (clock w)).

(** What goes on beside the request path: the clock, everything else that
    uses the API server, the tickers and the worker of the Knative
    autoscaler, and the scaling goroutines of the one-time autoscaler. *)
Inductive background :=
| BClock (now : time)
| BApi (api : S)
| BTicker (key : string)
| BWorker (key : string)
| BScaling (call : string * Z).

Definition run_background (x : background) (w : world) : option world :=
  let knative l :=
    match scaler w with
    | Some (K8s.KnativeAutoscaler a) =>
        '(a, api) ← Impl.step (a, api w) l; Some (mkWorld (Some (K8s.KnativeAutoscaler a)) api (clock w))
    | _ => None
    end in
  match x with
  | BClock now => Some (mkWorld (scaler w) (api w) now)
  | BApi api => Some (mkWorld (scaler w) api (clock w))
  | BTicker key => knative (LTicker key)
  | BWorker key => knative (LWorker (clock w) key)
  | BScaling call =>
      match scaler w with
      | Some (K8s.OneTimeAutoscaler a) =>
          if decide (call ∈ OneTime.scaling a)
          then Some (mkWorld (scaler w) (OneTime.run_scalings (api w) [call]) (clock w)) else None
      | _ => None
      end
  end.

(** The pipeline of a gateway after its [Start]. *)
Definition with_world (w : S) (now : time) (g : gatewayImpl (option AS)) : gatewayImpl world :=
  mkGateway (internalInputBuffers g) (internalOutputBuffers g) (externalInputs g) (externalOutput g) (relays g)
    (mkWorld (owner g) w now).
Definition started (w : S) (now : time) (g : K8s.k8sGateway (B := B) (W := W) (Q := Q) (M := M))
  : pipeline (D := PodDispatcher M) :=
  mkPipe (with_world w now (K8s.impl g)) (K8s.dispatchers g) false.
Definition k8s_step (vars : BackendVars)
  : pipeline (D := PodDispatcher M) -> label (DL := Dispatcher.label) -> option pipeline :=
  step onReqIn onReqOut run_background vars.

Definition accepts (keys : gset string) (w : world) : Prop :=
  match scaler w with Some a => K8s.accepting keys a | None => False end.

Lemma in_accepted keys w req : accepts keys w -> Target req ∈ keys ->
  exists w', onReqIn w req = Ok w' /\ accepts keys w'.
Proof.
  unfold accepts. destruct w as [[a|] s now]; [|done]. simpl. intros Ha Ht.
  destruct (K8s.accepting_in keys a now req Ha Ht) as (a' & E & Ha'). exists (mkWorld (Some a') s now).
  split; [|done]. unfold onReqIn. cbn [clock scaler]. by rewrite E.
Qed.
Lemma out_accepted keys w r : accepts keys w -> Target (Source r) ∈ keys ->
  exists w', onReqOut w r = Ok w' /\ accepts keys w'.
Proof.
  unfold accepts. destruct w as [[a|] s now]; [|done]. simpl. intros Ha Ht.
  destruct (K8s.accepting_out keys a now r Ha Ht) as (a' & E & Ha'). exists (mkWorld (Some a') s now).
  split; [|done]. unfold onReqOut. cbn [clock scaler]. by rewrite E.
Qed.
Lemma background_accepted keys x w w' : accepts keys w -> run_background x w = Some w' -> accepts keys w'.
Proof.
  unfold accepts. destruct w as [[a|] s now]; [|done]. simpl. intros Ha Hs.
  destruct x as [t|s'|key|key|call]; unfold run_background in Hs; cbn [scaler api clock] in Hs;
    [injection Hs as <-; exact Ha|injection Hs as <-; exact Ha| | |].
  - destruct a as [a|a]; [|done]. destruct (Impl.step (a, s) _) as [[a' s']|] eqn:E; [|done].
    cbn [mbind option_bind] in Hs. injection Hs as <-. exact (serving_step _ _ _ _ _ _ Ha E).
  - destruct a as [a|a]; [|done]. destruct (Impl.step (a, s) _) as [[a' s']|] eqn:E; [|done].
    cbn [mbind option_bind] in Hs. injection Hs as <-. exact (serving_step _ _ _ _ _ _ Ha E).
  - destruct a as [a|a]; [done|]. case_decide; by simplify_eq/=.
Qed.
Context `{!SharedMapLaws executor_obj M}.

Lemma launched_live timeout targets now w a f :
  K8s.accepting (list_to_set (KeyFromObject <$> targets)) (K8s.run_autoscaler a) ->
  let keys := list_to_set (KeyFromObject <$> targets) in
  let p := started w now (K8s.launched timeout targets now a f) in
  live keys (accepts keys) p /\ pending p = 0%nat.
Proof.
  intros Ha keys p.
  destruct (K8s.launched_ready timeout targets now a f) as ([F _] & Ho & Hd).
  destruct (K8s.launched_doms (M := M) timeout targets now a f) as (D1 & D2 & D3 & D4 & D5).
  apply fresh_live; try done.
  - intros key pd Ek. rewrite (D5 key pd Ek). split; [apply new_pd_live|done].
  - unfold accepts. change (scaler (owner (gw p))) with (owner (K8s.impl (K8s.launched (M := M) timeout targets now a f))).
    by rewrite Ho.
Qed.

(** C2. The Kubernetes gateway loses no request and, while its context lasts,
    can answer all of them.  Take a gateway set up and started from a
    configuration that has its framework's section, and any interleaving of
    clients' sends and receives, relay iterations, dispatcher goroutines, pod
    events and reconciliations, ticks, workers, scaling calls, changes of the
    cluster and of the clock, and the end of the context.  Then at every
    moment each request id has been sent exactly as often as it is in flight
    (in one of the gateway's channels, or waiting, executing or being answered
    in a dispatcher) or has been received in a response: nothing is lost or
    answered twice.  And if the context is not done, then there are steps of
    the system itself, with no further request, after which every request has
    been answered. *)
Theorem k8s_conserves_and_answers ReadFile Unmarshal emptyQueue timeout targets now vars
    asFramework asConfigPath text c (w : S) :
  asConfigPath <> "" -> ReadFile asConfigPath = Ok text -> Unmarshal text = Ok c -> K8s.configured asFramework c ->
  exists g, K8s.launch ReadFile Unmarshal emptyQueue timeout targets now asFramework asConfigPath = Ok g /\
    forall ls p, run (k8s_step vars) (started w now g) ls = Some p ->
      let h := trace (k8s_step vars) observe (started w now g) ls in
      (forall i, count i (sent_ids h) = (in_flight i p + count i (received_ids h))%nat) /\
      (PCancel ∉ ls -> exists ls' p', Forall (fun l => internal l = true) ls' /\ run (k8s_step vars) p ls' = Some p' /\
         forall i, count i (received_ids (h ++ trace (k8s_step vars) observe p ls')) = count i (sent_ids h)).
Proof.
  intros Hp Hr Hu Hc.
  destruct (K8s.launch_configured ReadFile Unmarshal emptyQueue timeout targets now _ _ _ _ Hp Hr Hu Hc)
    as (a & f & Hl & Ha).
  eexists. split; [exact Hl|]. intros ls p Hrun.
  destruct (launched_live timeout targets now w a f Ha) as [L H0].
  exact (conserved_and_answered _ _ _ vars _ _ (in_accepted _) (out_accepted _) (background_accepted _) _ ls p L H0 Hrun).
Qed.

(** C21. The state of a running Kubernetes gateway stays well formed.  After
    any steps that do not end the context the registered keys are exactly the
    listed deployments in every map; what is queued for a dispatcher, in it,
    or on its way back is for the dispatcher's own target; no dispatcher has
    stopped, and its goroutine identifiers are fresh; and the autoscaler has
    a decider for every target, so that neither callback can panic. *)
Theorem k8s_stays_well_formed ReadFile Unmarshal emptyQueue timeout targets now vars
    asFramework asConfigPath text c (w : S) :
  asConfigPath <> "" -> ReadFile asConfigPath = Ok text -> Unmarshal text = Ok c -> K8s.configured asFramework c ->
  let keys : gset string := list_to_set (KeyFromObject <$> targets) in
  exists g, K8s.launch ReadFile Unmarshal emptyQueue timeout targets now asFramework asConfigPath = Ok g /\
    forall ls p, PCancel ∉ ls -> run (k8s_step vars) (started w now g) ls = Some p ->
      dom (externalInputs (gw p)) = keys /\ dom (internalInputBuffers (gw p)) = keys /\
      dom (internalOutputBuffers (gw p)) = keys /\ dom (relays (gw p)) = keys /\ dom (pds p) = keys /\
      (forall key q, internalInputBuffers (gw p) !! key = Some q -> Forall (fun req => Target req = key) q) /\
      (forall key q, internalOutputBuffers (gw p) !! key = Some q -> Forall (fun r => Target (Source r) = key) q) /\
      (forall key pd, pds p !! key = Some pd -> stopped pd = false /\ spawned_inv pd /\ for_target key pd) /\
      (forall req, Target req ∈ keys -> is_ok (onReqIn (owner (gw p)) req) = true) /\
      (forall r, Target (Source r) ∈ keys -> is_ok (onReqOut (owner (gw p)) r) = true).
Proof.
  intros Hp Hr Hu Hc keys.
  destruct (K8s.launch_configured ReadFile Unmarshal emptyQueue timeout targets now _ _ _ _ Hp Hr Hu Hc)
    as (a & f & Hl & Ha).
  eexists. split; [exact Hl|]. intros ls p Hn Hrun.
  destruct (launched_live timeout targets now w a f Ha) as [L0 _].
  destruct (live_run _ _ _ vars _ _ (in_accepted _) (out_accepted _) (background_accepted _) _ ls p Hn L0 Hrun)
    as [_ L2 L3 L4 L5 L6 L7 L8 L9 L10].
  do 5 (split; [done|]). split; [exact L7|]. split; [exact L8|]. split; [|split].
  - intros key pd Hpd. by destruct (L9 key pd Hpd) as ([? _] & ? & ?).
  - intros req Ht. by destruct (in_accepted keys (owner (gw p)) req L10 Ht) as (? & -> & _).
  - intros r Ht. by destruct (out_accepted keys (owner (gw p)) r L10 Ht) as (? & -> & _).
Qed.
End Run.
End K8sRun.

(** * The Knative gateway, started *)
Module KnativeRun.
Section Run.
Context (vars : BackendVars) (NewClient : string -> res unit).

(** Nothing runs beside the request path: the Knative gateway has no
    autoscaler of its own. *)
Definition run_background (x : Empty_set) (a : unit) : option unit := match x with end.
Definition started (g : KnativeGateway.knativeGateway) : pipeline (D := KnServiceDispatcher) :=
  mkPipe (KnativeGateway.impl g) (KnativeGateway.dispatchers g) false.
Definition knative_step
  : pipeline (D := KnServiceDispatcher) -> label (DL := kn_label) -> option pipeline :=
  step KnativeGateway.onReqIn KnativeGateway.onReqOut run_background vars.

Lemma knative_launched_live timeout services now g : KnativeGateway.launch vars NewClient timeout services now = Ok g ->
  live (KnativeGateway.service_keys services) (fun _ => True) (started g) /\ pending (started g) = 0%nat.
Proof.
  intros H. destruct (KnativeGateway.launch_registered vars NewClient timeout services now g H)
    as (F & D1 & D2 & D3 & D4 & D5 & D6).
  apply fresh_live; try done. intros key kd Ek. destruct (D6 key kd Ek) as [url Hkd].
  split; [by eapply new_kd_live|]. unfold NewKnServiceDispatcher in Hkd. apply res_bind_ok in Hkd as (e & _ & E).
  by injection E as <-.
Qed.

Lemma knative_in_accepted (keys : gset string) (a : unit) req : True -> Target req ∈ keys ->
  exists a', KnativeGateway.onReqIn a req = Ok a' /\ True.
Proof. by eexists. Qed.
Lemma knative_out_accepted (keys : gset string) (a : unit) r : True -> Target (Source r) ∈ keys ->
  exists a', KnativeGateway.onReqOut a r = Ok a' /\ True.
Proof. by eexists. Qed.
Lemma knative_background_accepted x (a a' : unit) : True -> run_background x a = Some a' -> True.
Proof. done. Qed.

(** C20. The Knative gateway loses no request and, while its context lasts,
    can answer all of them.  Take services whose backends can all be created.
    Then set-up and start succeed, and along any interleaving of clients'
    sends and receives, relay iterations, the run loops and goroutines of the
    services' dispatchers and the end of the context each request id has been
    sent exactly as often as it is in flight (in one of the gateway's
    channels, or in a goroutine of a dispatcher) or has been received in a
    response; and if the context is not done, there are steps of the system
    itself, with no further request, after which every request has been
    answered. *)
Theorem knative_conserves_and_answers timeout services now :
  (forall s, s ∈ services ->
     is_ok (NewKnServiceDispatcher vars NewClient (KeyFromObject (fst s)) timeout (snd s)) = true) ->
  exists g, KnativeGateway.launch vars NewClient timeout services now = Ok g /\
    forall ls p, run knative_step (started g) ls = Some p ->
      let h := trace knative_step observe (started g) ls in
      (forall i, count i (sent_ids h) = (in_flight i p + count i (received_ids h))%nat) /\
      (PCancel ∉ ls -> exists ls' p', Forall (fun l => internal l = true) ls' /\ run knative_step p ls' = Some p' /\
         forall i, count i (received_ids (h ++ trace knative_step observe p ls')) = count i (sent_ids h)).
Proof.
  intros Hs. destruct (KnativeGateway.launch_succeeds vars NewClient timeout services now Hs) as [g Hg].
  exists g. split; [exact Hg|]. intros ls p Hrun. destruct (knative_launched_live timeout services now g Hg) as [L0 H0].
  exact (conserved_and_answered _ _ _ vars _ _ (knative_in_accepted _) (knative_out_accepted _) knative_background_accepted _ ls p L0 H0 Hrun).
Qed.
End Run.
End KnativeRun.

(** * Witness *)
Module Demo.
#[local] Existing Instance Decider.Demo.last_buckets.
#[local] Existing Instance Decider.Demo.max_window.
#[local] Existing Instance MapServer.map_client.
#[local] Existing Instance Autoscaler.Demo.list_queue.
#[local] Existing Instance Autoscaler.Demo.two_pods.

Definition demo_launch : res (K8s.k8sGateway (B := list f64) (W := Z) (Q := list string) (M := gmap string executor_obj)) :=
  K8s.launch (fun _ => Ok "{}") (fun _ => Ok (K8s.mkASConfig None None))
    [] (15 * Second) Gateway.Demo.listed 10 "one-time" "one-time.yaml".
Definition demo_gateway : K8s.k8sGateway (B := list f64) (W := Z) (Q := list string) (M := gmap string executor_obj) :=
  match demo_launch with Ok g => g | _ => K8s.mkK8s (newGatewayImpl None) 0 ∅ None end.
Definition demo_start := K8sRun.started Autoscaler.Demo.broken 10 demo_gateway.
Lemma demo_launched g : demo_launch = Ok g -> g = demo_gateway.
Proof. intros H. unfold demo_gateway. by rewrite H. Qed.

(** Two requests, one of them for another target. *)
Definition traffic : list (label (Act := K8sRun.background (S := MapServer.server)) (DL := Dispatcher.label)) :=
  [PSend "default/f" (Gateway.Demo.req "1" "default/f"); PAutoscaler (K8sRun.BClock 30);
   PRelayRequest "default/f" 30; PSend "default/f" (Gateway.Demo.req "2" "default/g");
   PRelayRequest "default/f" 31; PAutoscaler (K8sRun.BScaling ("default/f", 1)); PReceive "default/f"; PClientRecv].
Definition demo_end : pipeline (D := PodDispatcher (gmap string executor_obj)) := default demo_start (run (K8sRun.k8s_step Flap.vars) demo_start traffic).
Definition demo_history := trace (K8sRun.k8s_step Flap.vars) observe demo_start traffic.

Lemma k8s_conserves_and_answers_witness :
  run (K8sRun.k8s_step Flap.vars) demo_start traffic = Some demo_end /\
  in_flight "1" demo_end = 1%nat /\ in_flight "2" demo_end = 0%nat /\
  exists ls' p', run (K8sRun.k8s_step Flap.vars) demo_end ls' = Some p' /\
    count "1" (received_ids (demo_history ++ trace (K8sRun.k8s_step Flap.vars) observe demo_end ls')) = 1%nat.
Proof.
  destruct (K8sRun.k8s_conserves_and_answers (B := list f64) (W := Z) (Q := list string) (S := MapServer.server)
    (M := gmap string executor_obj)
    (fun _ => Ok "{}") (fun _ => Ok (K8s.mkASConfig None None))
    [] (15 * Second) Gateway.Demo.listed 10 Flap.vars "one-time" "one-time.yaml" "{}"
    (K8s.mkASConfig None None) Autoscaler.Demo.broken) as (g & Hg & H);
    [discriminate|reflexivity|reflexivity|left; reflexivity|].
  pose proof (demo_launched g Hg) as Eg. subst g.
  assert (Hp : run (K8sRun.k8s_step Flap.vars) demo_start traffic = Some demo_end) by (vm_compute; reflexivity).
  assert (Hn : PCancel ∉ traffic).
  { unfold traffic. repeat (apply not_elem_of_cons; split; [discriminate|]). apply not_elem_of_nil. }
  destruct (H traffic demo_end Hp) as [Hc Ha]. destruct (Ha Hn) as (ls' & p' & _ & Hr' & Hall).
  assert (Hh : count "1" (sent_ids demo_history) = 1%nat /\ count "1" (received_ids demo_history) = 0%nat /\
    count "2" (sent_ids demo_history) = 1%nat /\ count "2" (received_ids demo_history) = 1%nat)
    by (split; [|split; [|split]]; vm_compute; reflexivity).
  destruct Hh as (H1 & H2 & H3 & H4). pose proof (Hc "1") as C1. pose proof (Hc "2") as C2.
  change (trace _ _ _ traffic) with demo_history in C1, C2.
  split; [exact Hp|]. split; [lia|]. split; [lia|].
  exists ls', p'. split; [exact Hr'|]. etransitivity; [exact (Hall "1")|exact H1].
Defined.

Lemma k8s_stays_well_formed_witness :
  dom (pds demo_end) = {[ "default/f" ]} ∪ ∅ /\
  is_ok (K8sRun.onReqIn (owner (gw demo_end)) (Gateway.Demo.req "3" "default/f")) = true.
Proof.
  destruct (K8sRun.k8s_stays_well_formed (B := list f64) (W := Z) (Q := list string) (S := MapServer.server)
    (M := gmap string executor_obj)
    (fun _ => Ok "{}") (fun _ => Ok (K8s.mkASConfig None None))
    [] (15 * Second) Gateway.Demo.listed 10 Flap.vars "one-time" "one-time.yaml" "{}"
    (K8s.mkASConfig None None) Autoscaler.Demo.broken) as (g & Hg & H);
    [discriminate|reflexivity|reflexivity|left; reflexivity|].
  pose proof (demo_launched g Hg) as Eg. subst g.
  assert (Hp : run (K8sRun.k8s_step Flap.vars) demo_start traffic = Some demo_end) by (vm_compute; reflexivity).
  destruct (H traffic demo_end) as (_ & _ & _ & _ & Hd & _ & _ & _ & Hin & _); [|exact Hp|].
  - unfold traffic. repeat (apply not_elem_of_cons; split; [discriminate|]). apply not_elem_of_nil.
  - split; [exact Hd|]. apply Hin. apply elem_of_union. left. apply elem_of_singleton. reflexivity.
Defined.

(** One service over gRPC, and a client that sends two requests, one of them
    for another target. *)
Definition kn_vars : BackendVars := Use "grpc" initial_backend_vars.
Definition kn_services : list (Object * string) :=
  [(mkObject "default" "f" (list_to_map [("app", "f"); ("workload", "trace")]), "http://f.default.example.com")].
Definition kn_gateway : KnativeGateway.knativeGateway :=
  match KnativeGateway.launch kn_vars (fun _ => Ok tt) (15 * Second) kn_services 10 with
  | Ok g => g
  | _ => KnativeGateway.NewKnativeGateway 0
  end.
Definition kn_traffic : list (label (Act := Empty_set) (DL := kn_label)) :=
  [PSend "default/f" (Gateway.Demo.req "1" "default/f"); PRelayRequest "default/f" 30;
   PSend "default/f" (Gateway.Demo.req "2" "default/g"); PRelayRequest "default/f" 31;
   PReceive "default/f"; PDispatch "default/f" (KnStart 0 40); PClientRecv].
Definition kn_end : pipeline (D := KnServiceDispatcher) :=
  default (KnativeRun.started kn_gateway) (run (KnativeRun.knative_step kn_vars) (KnativeRun.started kn_gateway) kn_traffic).
Definition kn_history := trace (KnativeRun.knative_step kn_vars) observe (KnativeRun.started kn_gateway) kn_traffic.

Lemma knative_conserves_and_answers_witness :
  run (KnativeRun.knative_step kn_vars) (KnativeRun.started kn_gateway) kn_traffic = Some kn_end /\
  in_flight "1" kn_end = 1%nat /\ in_flight "2" kn_end = 0%nat /\
  exists ls' p', run (KnativeRun.knative_step kn_vars) kn_end ls' = Some p' /\
    count "1" (received_ids (kn_history ++ trace (KnativeRun.knative_step kn_vars) observe kn_end ls')) = 1%nat.
Proof.
  destruct (KnativeRun.knative_conserves_and_answers kn_vars (fun _ => Ok tt) (15 * Second) kn_services 10) as (g & Hg & H).
  { intros x [->|Hx]%elem_of_cons; [reflexivity|]. apply elem_of_nil in Hx. destruct Hx. }
  assert (Eg : g = kn_gateway) by (unfold kn_gateway; rewrite Hg; reflexivity). subst g.
  assert (Hp : run (KnativeRun.knative_step kn_vars) (KnativeRun.started kn_gateway) kn_traffic = Some kn_end)
    by (vm_compute; reflexivity).
  assert (Hn : PCancel ∉ kn_traffic).
  { unfold kn_traffic. repeat (apply not_elem_of_cons; split; [discriminate|]). apply not_elem_of_nil. }
  destruct (H kn_traffic kn_end Hp) as [Hc Ha]. destruct (Ha Hn) as (ls' & p' & _ & Hr' & Hall).
  assert (Hh : count "1" (sent_ids kn_history) = 1%nat /\ count "1" (received_ids kn_history) = 0%nat /\
    count "2" (sent_ids kn_history) = 1%nat /\ count "2" (received_ids kn_history) = 1%nat)
    by (split; [|split; [|split]]; vm_compute; reflexivity).
  destruct Hh as (H1 & H2 & H3 & H4). pose proof (Hc "1") as C1. pose proof (Hc "2") as C2.
  change (trace _ _ _ kn_traffic) with kn_history in C1, C2.
  split; [exact Hp|]. split; [lia|]. split; [lia|].
  exists ls', p'. split; [exact Hr'|]. etransitivity; [exact (Hall "1")|exact H1].
Defined.
End Demo.
