(* ===== verification/FairPipeline.v ===== *)
(** The gateways under fairness: in every behaviour in which the relays, the
    run loops of the dispatchers, their goroutines and the client that
    receives responses are scheduled fairly, and the context is not ended,
    every request that is sent is answered. *)
From S2P Require Import Prelude Fair F64 KdUtil Workload Handler Backend Metric Decider Scaler Autoscaler Dispatcher Ksvc Dispatch FairDispatch Gateway Pipeline.
Import Selection Types.

Section FairPipeline.
Context {A Act : Type} (onReqIn : A -> Request -> res A) (onReqOut : A -> Response -> res A) (act : Act -> A -> option A).
Context {D DL : Type} `{!RequestDispatcher D DL, !FairDispatcher D DL} (vars : BackendVars).
Abbreviation pstep := (@step A Act onReqIn onReqOut act D DL _ vars).
Abbreviation plabel := (Pipeline.label (Act := Act) (DL := DL)).
Implicit Types b : behaviour pstep.

(** ** The tasks *)
Definition relays_request (key : string) (l : plabel) : Prop := exists now, l = PRelayRequest key now.
Definition relays_response (key : string) (l : plabel) : Prop := l = PRelayResponse key.
Definition receives_request (key : string) (l : plabel) : Prop := l = PReceive key.
Definition sends_response (key : string) (t : nat) (l : plabel) : Prop := l = PAnswer key t.
Definition client_receives (l : plabel) : Prop := l = PClientRecv.
Definition dispatches (key : string) (T : DL -> Prop) (l : plabel) : Prop :=
  match l with PDispatch k l => k = key /\ T l | _ => False end.

(** Each case of a relay's select that stays ready is chosen at some time,
    every run loop and goroutine is scheduled, and the client goes on
    receiving. *)
Definition fair b : Prop :=
  (forall key, weakly_fair _ (relays_request key) b /\ weakly_fair _ (relays_response key) b /\
     weakly_fair _ (receives_request key) b) /\
  (forall key t, weakly_fair _ (sends_response key t) b) /\
  weakly_fair _ client_receives b /\
  (forall key t, (forall T, T ∈ disp_weak D t -> weakly_fair _ (dispatches key T) b) /\
                 (forall T, T ∈ disp_strong D t -> strongly_fair _ (dispatches key T) b)).
(** The context is not ended. *)
Definition uncancelled b : Prop := forall n, label_at b n <> Some PCancel.
(** At its [n]th step a client receives a response for a request id. *)
Definition received_at b (n : nat) (i : string) : Prop :=
  label_at b n = Some PClientRecv /\
  exists r rest, externalOutput (gw (state_at b n)) = r :: rest /\ answer_id r = i.

(** ** The queues of a gateway *)
Definition waiting_ids (key : string) (p : pipeline (A := A) (D := D)) : list string :=
  ID <$> default [] (externalInputs (gw p) !! key).
Definition accepted_ids (key : string) (p : pipeline (A := A) (D := D)) : list string :=
  ID <$> default [] (internalInputBuffers (gw p) !! key).
Definition returned_ids (key : string) (p : pipeline (A := A) (D := D)) : list string :=
  answer_id <$> default [] (internalOutputBuffers (gw p) !! key).
Definition output_ids (p : pipeline (A := A) (D := D)) : list string := answer_id <$> externalOutput (gw p).
Definition served (key : string) (i : string) (p : pipeline (A := A) (D := D)) : Prop :=
  exists t d, pds p !! key = Some d /\ disp_serves t i d.

Context `{!RequestDispatcherLaws D DL, !FairDispatcherLaws D DL}.
Context (keys : gset string) (I : A -> Prop).
Hypothesis in_ok : forall a req, I a -> Target req ∈ keys -> exists a', onReqIn a req = Ok a' /\ I a'.
Hypothesis out_ok : forall a r, I a -> Target (Source r) ∈ keys -> exists a', onReqOut a r = Ok a' /\ I a'.
Hypothesis act_ok : forall x a a', I a -> act x a = Some a' -> I a'.

Lemma prefix_same {X} (q : list X) : q `prefix_of` q.
Proof. by exists []; rewrite app_nil_r. Qed.
Lemma prefix_fmap_snoc {X Y} (f : X -> Y) (q : list X) x : (f <$> q) `prefix_of` (f <$> q ++ [x]).
Proof. rewrite fmap_app. by apply prefix_app_r. Qed.
#[local] Hint Resolve prefix_same prefix_fmap_snoc : core.


Ltac by_queue key :=
  repeat match goal with
  | |- context [<[?k := _]> _ !! key] =>
      destruct (decide (k = key)) as [<-|];
      [try congruence; rewrite ?lookup_insert_eq in *|rewrite ?lookup_insert_ne by done]
  end;
  repeat match goal with E : _ !! ?k = Some _ |- context [_ !! ?k] => rewrite E end; simpl; auto.
Ltac pipe_step :=
  match goal with Hs : pstep _ _ = Some _ |- _ =>
    cbn [step Gateway.step ok_step] in Hs;
    unfold ok_step, RequestChan_send, relay_request, relay_response, dispatcher_recv, dispatcher_send, ResponseChan_recv in Hs;
    simplify_eq/=
  end;
  repeat match goal with
  | Hs : context [match ?x with _ => _ end] |- _ =>
      match type of Hs with
      | _ = Some _ => let E := fresh "E" in destruct x eqn:E; simplify_eq/=
      | _ = Ok _ => let E := fresh "E" in destruct x eqn:E; simplify_eq/=
      end
  | Hs : (?x ≫= _) = Some _ |- _ => let E := fresh "E" in destruct x eqn:E; simplify_eq/=
  end.

(** The label takes nothing of the queue at [key]. *)
Ltac keeps key := left; split; [by intros [=]|by_queue key].

Lemma waiting_step key p l p' : pstep p l = Some p' ->
  ~ relays_request key l /\ waiting_ids key p `prefix_of` waiting_ids key p' \/
  exists x rest, waiting_ids key p = x :: rest /\ rest `prefix_of` waiting_ids key p' /\
    (x ∈ accepted_ids key p' \/ x ∈ output_ids p').
Proof.
  intros Hs. unfold waiting_ids, accepted_ids, output_ids, relays_request.
  destruct l as [key' req|key' now|key'|key'|key' l|key' t| |x| |key'].
  2: { destruct (decide (key' = key)) as [<-|Hk].
    - right. pipe_step; eexists _, _; (split; [reflexivity|]); rewrite ?lookup_insert_eq; simpl; (split; [done|]).
      + left. rewrite fmap_app. set_solver.
      + right. rewrite fmap_app. set_solver.
    - left. split; [by intros [? [=]]|]. pipe_step; by_queue key. }
  all: left; split; [by intros [? [=]]|]; pipe_step; by_queue key.
Qed.

Lemma accepted_step key p l p' : live keys I p -> pstep p l = Some p' ->
  ~ receives_request key l /\ accepted_ids key p `prefix_of` accepted_ids key p' \/
  exists x rest, accepted_ids key p = x :: rest /\ rest `prefix_of` accepted_ids key p' /\ served key x p'.
Proof.
  intros L Hs. unfold accepted_ids, receives_request, served.
  destruct l as [key' req|key' now|key'|key'|key' l|key' t| |x| |key'].
  4: { destruct (decide (key' = key)) as [<-|Hk].
    - right. pipe_step. eexists _, _; (split; [reflexivity|]); rewrite ?lookup_insert_eq; simpl; (split; [done|]).
      destruct (disp_receive_serves key' _ d d0 (live_dispatchers _ _ _ L _ _ E0) E1) as (t & Ht). by exists t, d0.
    - left. split; [congruence|]. pipe_step; by_queue key. }
  all: left; split; [done|]; pipe_step; by_queue key.
Qed.

Lemma returned_step key p l p' : pstep p l = Some p' ->
  ~ relays_response key l /\ returned_ids key p `prefix_of` returned_ids key p' \/
  exists x rest, returned_ids key p = x :: rest /\ rest `prefix_of` returned_ids key p' /\ x ∈ output_ids p'.
Proof.
  intros Hs. unfold returned_ids, output_ids, relays_response.
  destruct l as [key' req|key' now|key'|key'|key' l|key' t| |x| |key'].
  3: { destruct (decide (key' = key)) as [<-|Hk].
    - right. pipe_step. eexists _, _; (split; [reflexivity|]); rewrite ?lookup_insert_eq; simpl; (split; [done|]).
      rewrite fmap_app. set_solver.
    - left. split; [congruence|]. pipe_step; by_queue key. }
  all: left; split; [done|]; pipe_step; by_queue key.
Qed.

Lemma output_step p l p' : pstep p l = Some p' ->
  ~ client_receives l /\ output_ids p `prefix_of` output_ids p' \/
  exists r rest, externalOutput (gw p) = r :: rest /\ l = PClientRecv /\ output_ids p' = answer_id <$> rest.
Proof.
  intros Hs. unfold output_ids, client_receives. destruct l as [key' req|key' now|key'|key'|key' l|key' t| |x| |key'].
  7: { right. pipe_step. by eexists _, _. }
  all: left; split; [done|]; pipe_step; auto.
Qed.

(** ** A dispatcher in the pipeline *)
Section Project.
Context (key : string) (d0 : D).
Definition dispatcher_of (p : pipeline (A := A) (D := D)) : D := default d0 (pds p !! key).
Definition dispatcher_label (p : pipeline (A := A) (D := D)) (l : plabel) : option (disp_label DL) :=
  match l with
  | PDispatch k l => if decide (k = key) then Some (DStep l) else None
  | PReceive k =>
      if decide (k = key) then
        match internalInputBuffers (gw p) !! key with Some (req :: _) => Some (DReceive req) | _ => None end
      else None
  | PAnswer k t => if decide (k = key) then Some (DAnswer t) else None
  | _ => None
  end.
Lemma dispatcher_projects p l p' : live keys I p -> pstep p l = Some p' ->
  match dispatcher_label p l with
  | Some l' => dispatcher_step vars (dispatcher_of p) l' = Some (dispatcher_of p')
  | None => dispatcher_of p' = dispatcher_of p
  end.
Proof.
  intros L Hs. unfold dispatcher_label, dispatcher_of.
  destruct l as [key' req|key' now|key'|key'|key' l|key' t| |x| |key']; pipe_step; try done;
    case_decide as Hk; subst; rewrite ?lookup_insert_ne by done; try done;
    rewrite ?lookup_insert_eq; repeat match goal with E : _ = Some _ |- _ => rewrite E; clear E end; try done.
  - by rewrite (live_ctx _ _ _ L) in E0.
  - simpl. by match goal with E : disp_answer t d = _ |- _ => rewrite E end.
Qed.
End Project.

(** A goroutine that is about to send its response stays so until it sends. *)
Definition about_to_answer (key : string) (t : nat) (i : string) (p : pipeline (A := A) (D := D)) : Prop :=
  exists d, pds p !! key = Some d /\ answering (DL := DL) t i d.
Lemma live_lookup {X} (m : gmap string X) key : key ∈ dom m -> exists x, m !! key = Some x.
Proof. by intros ?%elem_of_dom. Qed.
Lemma dispatcher_label_answer key t p (l : plabel) : dispatcher_label key p l = Some (DAnswer t) <-> l = PAnswer key t.
Proof.
  split; [|by intros ->; simpl; rewrite decide_True].
  destruct l; simpl; try done; repeat (case_match; simplify_eq/=; try done). by intros [= ->].
Qed.
Lemma live_dispatcher key (d : D) (p : pipeline (A := A) (D := D)) : live keys I p -> pds p !! key = Some d -> disp_live (L := DL) key d.
Proof. intros L. apply (live_dispatchers _ _ _ L). Qed.

Lemma answering_step key t i p l p' : live keys I p -> live keys I p' -> pstep p l = Some p' ->
  about_to_answer key t i p -> ~ sends_response key t l /\ about_to_answer key t i p' \/ i ∈ returned_ids key p'.
Proof.
  intros L L' Hs (d & Ek & Ha). unfold sends_response, about_to_answer.
  pose proof (dispatcher_projects key d p l p' L Hs) as Hp. unfold dispatcher_of in Hp. rewrite Ek in Hp. simpl in Hp.
  destruct (live_lookup (pds p') key) as [d' Ek'].
  { rewrite (live_pds _ _ _ L'), <- (live_pds _ _ _ L). by eapply elem_of_dom_2. }
  rewrite Ek' in Hp. simpl in Hp. destruct (dispatcher_label key p l) as [l'|] eqn:El.
  2: { left. split; [intros ->; by rewrite (proj2 (dispatcher_label_answer key t p _) eq_refl) in El|]. exists d'. split; [done|]. by subst d'. }
  assert (l' = DAnswer t \/ l' <> DAnswer t) as [->|Hl'].
  { destruct l' as [|req|t']; [by right..|]. destruct (decide (t' = t)) as [->|]; [by left|right; congruence]. }
  - right. apply dispatcher_label_answer in El as ->. destruct Ha as (r & d1 & Ha & <-). unfold returned_ids. pipe_step.
    rewrite lookup_insert_eq. simpl. rewrite fmap_app. apply elem_of_app. right. by apply list_elem_of_singleton.
  - left. split; [intros ->; rewrite (proj2 (dispatcher_label_answer key t p _) eq_refl) in El; congruence|].
    exists d'. split; [done|]. by apply (disp_answering_stays key vars t i d l' d' (live_dispatcher key d p L Ek) Ha).
Qed.

(** In a live pipeline every task with something to do is enabled. *)
Lemma queue_nonempty {X Y} (f : X -> Y) (o : option (list X)) : f <$> default [] o <> [] -> exists x q, o = Some (x :: q).
Proof. destruct o as [[|x q]|]; simpl; try done. by exists x, q. Qed.

Lemma waiting_enabled key p : live keys I p -> waiting_ids key p <> [] -> enabled pstep (relays_request key) p.
Proof.
  intros L (req & rest & E)%queue_nonempty.
  assert (key ∈ keys) as Hk by (rewrite <- (live_ext _ _ _ L); by eapply elem_of_dom_2).
  destruct (live_lookup (relays (gw p)) key) as [v Ev]; [by rewrite (live_relays _ _ _ L)|].
  destruct (live_lookup (internalInputBuffers (gw p)) key) as [q Eq]; [by rewrite (live_int _ _ _ L)|].
  exists (PRelayRequest key 0). cbn [step Gateway.step]. unfold relay_request. rewrite Ev, E, Eq.
  case_decide as Ht; [|by eexists; split; [by eexists|]].
  destruct (in_ok (owner (gw p)) req (live_owner _ _ _ L)) as (a & -> & _); [by rewrite Ht|].
  by eexists; split; [by eexists|].
Qed.
Lemma accepted_enabled key p : live keys I p -> accepted_ids key p <> [] -> enabled pstep (receives_request key) p.
Proof.
  intros L (req & rest & E)%queue_nonempty.
  assert (key ∈ keys) as Hk by (rewrite <- (live_int _ _ _ L); by eapply elem_of_dom_2).
  destruct (live_lookup (pds p) key) as [d Ek]; [by rewrite (live_pds _ _ _ L)|].
  destruct (disp_receives key req d (live_dispatcher key d p L Ek)) as (d' & Hr & _).
  exists (PReceive key). cbn [step]. rewrite Ek. unfold dispatcher_recv. rewrite E. cbn [mbind option_bind]. rewrite Hr.
  by eexists.
Qed.
Lemma returned_enabled key p : live keys I p -> returned_ids key p <> [] -> enabled pstep (relays_response key) p.
Proof.
  intros L (r & rest & E)%queue_nonempty.
  assert (key ∈ keys) as Hk by (rewrite <- (live_out _ _ _ L); by eapply elem_of_dom_2).
  destruct (live_lookup (relays (gw p)) key) as [v Ev]; [by rewrite (live_relays _ _ _ L)|].
  pose proof (live_out_targets _ _ _ L _ _ E) as Hr. apply Forall_cons in Hr as [Hr _].
  destruct (out_ok (owner (gw p)) r (live_owner _ _ _ L)) as (a & Ha & _); [by rewrite Hr|].
  exists (PRelayResponse key). cbn [step Gateway.step]. unfold relay_response. rewrite Ev, E, Ha. by eexists.
Qed.
Lemma output_enabled p : output_ids p <> [] -> enabled pstep client_receives p.
Proof.
  unfold output_ids. intros H. destruct (externalOutput (gw p)) as [|r rest] eqn:E; [done|].
  exists PClientRecv. cbn [step Gateway.step]. unfold ResponseChan_recv. rewrite E. by eexists.
Qed.
Lemma answer_enabled key t i p : live keys I p -> about_to_answer key t i p -> enabled pstep (sends_response key t) p.
Proof.
  intros L (d & Ek & r & d' & Ha & _).
  assert (key ∈ keys) as Hk by (rewrite <- (live_pds _ _ _ L); by eapply elem_of_dom_2).
  destruct (live_lookup (internalOutputBuffers (gw p)) key) as [q Eq]; [by rewrite (live_out _ _ _ L)|].
  exists (PAnswer key t). cbn [step]. rewrite Ek. cbn [mbind option_bind]. rewrite Ha. cbn [mbind option_bind].
  unfold dispatcher_send. rewrite Eq. by eexists.
Qed.

(** * Every request is answered *)
Section Answered.
Context (b : behaviour pstep).
Hypothesis b_live : forall k, live keys I (state_at b k).
Hypothesis b_fair : fair b.

Lemma waiting_leads key i : leads (fun k => i ∈ waiting_ids key (state_at b k))
  (fun k => i ∈ accepted_ids key (state_at b k) \/ i ∈ output_ids (state_at b k)).
Proof.
  apply (queue_leads _ b (waiting_ids key) (relays_request key)
    (fun i k => i ∈ accepted_ids key (state_at b k) \/ i ∈ output_ids (state_at b k))).
  - apply b_fair.
  - intros k l Hl. by apply waiting_step, behaviour_step.
  - intros k. by apply waiting_enabled.
Qed.
Lemma accepted_leads key i : leads (fun k => i ∈ accepted_ids key (state_at b k)) (fun k => served key i (state_at b k)).
Proof.
  apply (queue_leads _ b (accepted_ids key) (receives_request key) (fun i k => served key i (state_at b k))).
  - apply b_fair.
  - intros k l Hl. by apply accepted_step, behaviour_step.
  - intros k. by apply accepted_enabled.
Qed.
Lemma returned_leads key i : leads (fun k => i ∈ returned_ids key (state_at b k)) (fun k => i ∈ output_ids (state_at b k)).
Proof.
  apply (queue_leads _ b (returned_ids key) (relays_response key) (fun i k => i ∈ output_ids (state_at b k))).
  - apply b_fair.
  - intros k l Hl. by apply returned_step, behaviour_step.
  - intros k. by apply returned_enabled.
Qed.
Lemma output_leads i : leads (fun k => i ∈ output_ids (state_at b k)) (fun k => exists m, k = S m /\ received_at b m i).
Proof.
  apply (queue_leads _ b output_ids client_receives (fun i k => exists m, k = S m /\ received_at b m i)).
  - apply b_fair.
  - intros k l Hl. destruct (output_step _ _ _ (behaviour_step _ b k l Hl)) as [H|(r & rest & E & -> & H)]; [by left|].
    right. exists (answer_id r), (answer_id <$> rest). unfold output_ids. rewrite E. split; [done|].
    split; [rewrite <- H; apply prefix_same|]. exists k. split; [done|]. split; [done|]. by exists r, rest.
  - intros k. apply output_enabled.
Qed.
Lemma answer_leads key t i : leads (fun k => about_to_answer key t i (state_at b k)) (fun k => i ∈ returned_ids key (state_at b k)).
Proof.
  apply (weak_leads _ b (sends_response key t)).
  - apply b_fair.
  - intros k H. destruct (label_at b k) as [l|] eqn:E; [|left; by rewrite (behaviour_stutter _ b k E)].
    destruct (answering_step key t i _ l _ (b_live k) (b_live (S k)) (behaviour_step _ b k l E) H) as [[_ ?]|?]; auto.
  - intros k. by apply answer_enabled.
  - intros k l H E Hl.
    by destruct (answering_step key t i _ l _ (b_live k) (b_live (S k)) (behaviour_step _ b k l E) H) as [[? _]|?].
Qed.

(** The dispatcher of a key, by itself, is fair. *)
Section Served.
Context (key : string) (d0 : D).
Hypothesis registered : key ∈ keys.
Definition dispatcher_behaviour : behaviour (dispatcher_step (D := D) (DL := DL) vars) :=
  project pstep (dispatcher_step vars) b (dispatcher_of key d0) (dispatcher_label key)
    (fun n l s' _ Hs => dispatcher_projects key d0 _ l s' (b_live n) Hs).

Lemma dispatcher_at k : exists d, pds (state_at b k) !! key = Some d /\ state_at dispatcher_behaviour k = d.
Proof.
  destruct (live_lookup (pds (state_at b k)) key) as [d Ek]; [by rewrite (live_pds _ _ _ (b_live k))|].
  exists d. split; [done|]. simpl. unfold dispatcher_of. by rewrite Ek.
Qed.
Lemma dispatcher_task_enabled (T : DL -> Prop) k :
  enabled (dispatcher_step vars) (own_task T) (dispatcher_of key d0 (state_at b k)) -> enabled pstep (dispatches key T) (state_at b k).
Proof.
  destruct (dispatcher_at k) as (d & Ek & Hd). simpl in Hd. rewrite Hd. intros ([l| |] & d' & Hin & Hs); [|done..].
  exists (PDispatch key l). cbn [step]. rewrite Ek, (live_ctx _ _ _ (b_live k)). cbn [mbind option_bind]. simpl in Hs. rewrite Hs.
  by eexists.
Qed.
Lemma dispatcher_task_taken (T : DL -> Prop) k l : label_at b k = Some l -> dispatches key T l ->
  exists l', dispatcher_label key (state_at b k) l = Some l' /\ own_task T l'.
Proof. intros _ H. destruct l; try done. destruct H as [-> H]. simpl. rewrite decide_True by done. by eexists. Qed.
Lemma dispatcher_behaviour_fair : dispatcher_fair vars dispatcher_behaviour.
Proof.
  destruct b_fair as (_ & _ & _ & Hf). intros t. split; intros T HT.
  - apply (project_weakly_fair _ _ _ _ _ _ (dispatches key T)); [apply dispatcher_task_enabled|apply dispatcher_task_taken|].
    by apply (Hf key t).
  - apply (project_strongly_fair _ _ _ _ _ _ (dispatches key T)); [apply dispatcher_task_enabled|apply dispatcher_task_taken|].
    by apply (Hf key t).
Qed.
End Served.

Lemma served_leads key i : leads (fun k => served key i (state_at b k)) (fun k => i ∈ returned_ids key (state_at b k)).
Proof.
  intros n (t & d & Ek & Hs).
  assert (key ∈ keys) as Hk by (rewrite <- (live_pds _ _ _ (b_live n)); by eapply elem_of_dom_2).
  destruct (disp_fair_answers key vars (dispatcher_behaviour key d) t i n) as (m & Hm & Ha).
  - intros k. destruct (dispatcher_at key d Hk k) as (d' & Ek' & ->). by apply (live_dispatcher key d' _ (b_live k)).
  - by apply dispatcher_behaviour_fair.
  - destruct (dispatcher_at key d Hk n) as (d' & Ek' & ->). rewrite Ek in Ek'. by simplify_eq.
  - destruct (dispatcher_at key d Hk m) as (d' & Ek' & Hd'). rewrite Hd' in Ha.
    destruct (answer_leads key t i m) as (m' & Hm' & Hr); [by exists d'|]. exists m'. split; [lia|done].
Qed.

Lemma sent_answered n key req : label_at b n = Some (PSend key req) -> exists m, (n < m)%nat /\ received_at b m (ID req).
Proof.
  intros Hl. pose proof (behaviour_step _ b n _ Hl) as Hs.
  assert (ID req ∈ waiting_ids key (state_at b (S n))) as Hw.
  { unfold waiting_ids. pipe_step. rewrite <- Hs. simpl. rewrite lookup_insert_eq. simpl. rewrite fmap_app. set_solver. }
  assert (leads (fun k => ID req ∈ returned_ids key (state_at b k)) (fun k => ID req ∈ output_ids (state_at b k))) as H4
    by apply returned_leads.
  assert (leads (fun k => ID req ∈ accepted_ids key (state_at b k)) (fun k => ID req ∈ output_ids (state_at b k))) as H2.
  { eapply leads_trans; [apply accepted_leads|]. eapply leads_trans; [apply served_leads|]. apply H4. }
  assert (leads (fun k => ID req ∈ waiting_ids key (state_at b k)) (fun k => exists m, k = S m /\ received_at b m (ID req))) as H1.
  { eapply leads_trans; [apply waiting_leads|]. eapply leads_trans; [apply leads_or; [exact H2|apply leads_refl]|apply output_leads]. }
  destruct (H1 (S n) Hw) as (k & Hk & m & -> & Hm). exists m. split; [|done].
  destruct (decide (m = n)) as [->|]; [|lia]. destruct Hm as [Hm _]. congruence.
Qed.
End Answered.

(** ** Once *)
Section Once.
Context (b : behaviour pstep).
Hypothesis started_live : live keys I (state_at b 0).
Hypothesis started_idle : pending (state_at b 0) = 0%nat.

(** An id that is received was sent: as often, at any moment. *)
Lemma received_sent i n : (count i (received_ids (history _ observe b n)) <= count i (sent_ids (history _ observe b n)))%nat.
Proof.
  destruct (run_conserves onReqIn onReqOut act vars (state_at b 0) (labels_before _ b n) (state_at b n)) as [_ H].
  - by apply (live_pds_ok keys I).
  - intros j. pose proof (in_flight_pending j (state_at b 0)). lia.
  - apply labels_before_run.
  - specialize (H i). unfold history. lia.
Qed.
Lemma received_before m i : received_at b m i -> forall n, (m < n)%nat ->
  (count i (received_ids (history _ observe b m)) < count i (received_ids (history _ observe b n)))%nat.
Proof.
  intros [Hl (r & rest & E & Hr)] n Hn. induction Hn as [|n _ IH]; rewrite history_next; unfold received_ids in *; rewrite omap_app, count_app.
  - rewrite Hl. cbn [observe]. rewrite E. simpl. rewrite Hr, count_cons, decide_True by done. lia.
  - lia.
Qed.
Lemma sent_once i n : (forall n' key req, label_at b n' = Some (PSend key req) -> ID req = i -> n' = n) -> forall k,
  (count i (sent_ids (history _ observe b k)) <= if decide (n < k) then 1 else 0)%nat.
Proof.
  intros Hu k. induction k as [|k IH]; [by rewrite decide_False by lia|]. rewrite history_next. unfold sent_ids in *.
  rewrite omap_app, count_app. destruct (label_at b k) as [l|] eqn:E; [|change (count i _) with 0%nat at 2; repeat case_decide; lia].
  assert (count i (omap (fun o : Request + Response => match o with inl req => Some (ID req) | inr _ => None end)
    (observe (state_at b k) l)) <= if decide (n = k) then 1 else 0)%nat as Ho; [|repeat case_decide; lia].
  destruct l as [key req|key' now|key'|key'|key' l|key' t| |x| |key']; cbn [observe]; try (change (count i _) with 0%nat; lia).
  - simpl. rewrite count_cons. change (count i []) with 0%nat. destruct (decide (i = ID req)) as [->|]; [|lia].
    by rewrite (Hu k key req E eq_refl), decide_True.
  - destruct (externalOutput (gw (state_at b k))); change (count i _) with 0%nat; lia.
Qed.
Lemma received_once i n m m' : (forall n' key req, label_at b n' = Some (PSend key req) -> ID req = i -> n' = n) ->
  received_at b m i -> received_at b m' i -> m' = m.
Proof.
  intros Hu Hm Hm'.
  assert (forall x y, received_at b x i -> received_at b y i -> (x < y)%nat -> False) as Hlt; [|destruct (Nat.lt_total m m') as [H|[H|H]]; [by destruct (Hlt m m')|done|by destruct (Hlt m' m)]].
  intros x y Hx Hy H. pose proof (received_before x i Hx y H). pose proof (received_before y i Hy (S y) ltac:(lia)).
  pose proof (received_sent i (S y)). pose proof (sent_once i n Hu (S y)). case_decide; lia.
Qed.
End Once.

(** ** Fair behaviours exist *)
Lemma pending_queues key p : pending p = 0%nat ->
  waiting_ids key p = [] /\ accepted_ids key p = [] /\ returned_ids key p = [] /\ output_ids p = [] /\
  forall d, pds p !! key = Some d -> disp_weight d = 0%nat.
Proof.
  unfold pending. intros H.
  assert (forall X Y (f : X -> Y) c (m : gmap string (list X)), sum_lengths (S c) m = 0%nat -> f <$> default [] (m !! key) = []) as Hq.
  { intros X Y f c m Hz. destruct (m !! key) as [q|] eqn:E; [|done].
    pose proof (msum_ge (fun q => (S c * length q)%nat) m key q E) as Hg. unfold sum_lengths in Hz. destruct q; [done|]. simpl in *. lia. }
  split_and!; [apply (Hq _ _ _ 7%nat); lia|apply (Hq _ _ _ 6%nat); lia|apply (Hq _ _ _ 1%nat); lia| |].
  - unfold output_ids. destruct (externalOutput (gw p)); [done|]. simpl in H. lia.
  - intros d Ek. pose proof (msum_ge disp_weight (pds p) key d Ek). lia.
Qed.
Lemma idle_disabled p : live keys I p -> pending p = 0%nat ->
  (forall key, ~ enabled pstep (relays_request key) p /\ ~ enabled pstep (relays_response key) p /\ ~ enabled pstep (receives_request key) p) /\
  (forall key t, ~ enabled pstep (sends_response key t) p) /\ ~ enabled pstep client_receives p /\
  (forall key t T, T ∈ disp_weak D t ++ disp_strong D t -> ~ enabled pstep (dispatches key T) p).
Proof.
  intros L H0. pose proof (fun key => pending_queues key p H0) as Hz. split_and!.
  - intros key. destruct (Hz key) as (H1 & H2 & H3 & _). split_and!; intros (l & p' & Hin & Hs).
    + destruct (waiting_step key p l p' Hs) as [[? _]|(x & rest & E & _)]; [done|congruence].
    + destruct (returned_step key p l p' Hs) as [[? _]|(x & rest & E & _)]; [done|congruence].
    + destruct (accepted_step key p l p' L Hs) as [[? _]|(x & rest & E & _)]; [done|congruence].
  - intros key t (l & p' & -> & Hs). pipe_step.
    match goal with E : disp_answer t _ = Some _ |- _ => apply disp_answer_lighter in E end.
    match goal with E : pds p !! key = Some _ |- _ => apply (Hz key) in E end. lia.
  - intros (l & p' & -> & Hs). destruct (Hz inhabitant) as (_ & _ & _ & H4 & _). unfold output_ids in H4. pipe_step.
  - intros key t T HT (l & p' & Hin & Hs). destruct l; try done. destruct Hin as [-> Hin]. pipe_step.
    rewrite (live_ctx _ _ _ L) in *.
    match goal with E : pds p !! key = Some _ |- _ => apply (Hz key) in E end.
    match goal with E : disp_step _ _ ?d _ = Some _, H : disp_weight ?d = _ |- _ => rewrite (disp_idle vars t T d _ H HT Hin) in E end. done.
Qed.

Lemma fair_extension p0 ls p : live keys I p0 -> PCancel ∉ ls -> run pstep p0 ls = Some p ->
  exists b, state_at b 0 = p0 /\ uncancelled b /\ fair b /\ forall n, (n < length ls)%nat -> label_at b n = ls !! n.
Proof.
  intros L0 Hn Hr. pose proof (live_run _ _ _ vars _ _ in_ok out_ok act_ok p0 ls p Hn L0 Hr) as L.
  destruct (live_drains _ _ _ vars _ _ in_ok out_ok act_ok p L) as (ls' & p' & Hi & Hr' & Hp).
  assert (PCancel ∉ ls ++ ls') as Hn'.
  { intros [H|H]%elem_of_app; [done|]. rewrite Forall_forall in Hi. by apply Hi in H. }
  assert (run pstep p0 (ls ++ ls') = Some p') as Hrun by (by rewrite run_app, Hr).
  pose proof (live_run _ _ _ vars _ _ in_ok out_ok act_ok p0 _ p' Hn' L0 Hrun) as L'.
  destruct (idle_disabled p' L' Hp) as (H1 & H2 & H3 & H4).
  exists (finite_behaviour pstep p0 (ls ++ ls') p' Hrun). split; [apply finite_behaviour_start|]. split_and!.
  - intros n H. simpl in H. by apply Hn', (list_elem_of_lookup_2 _ n).
  - split_and!.
    + intros key. destruct (H1 key) as (? & ? & ?). split_and!; by apply finite_weakly_fair.
    + intros key t. by apply finite_weakly_fair.
    + by apply finite_weakly_fair.
    + intros key t. split; intros T HT; [apply finite_weakly_fair|apply finite_strongly_fair]; apply (H4 key t); apply elem_of_app; auto.
  - intros n H. simpl. by apply lookup_app_l.
Qed.

Lemma uncancelled_live b : live keys I (state_at b 0) -> uncancelled b -> forall k, live keys I (state_at b k).
Proof.
  intros L0 Hu. apply behaviour_invariant; [|done]. intros n l p' Hl L Hs.
  eapply (live_step _ _ _ vars _ _ in_ok out_ok act_ok _ l p'); [|exact L|exact Hs]. intros ->. by destruct (Hu n).
Qed.

(** Every behaviour begun can be continued fairly, and in the fair ones every
    request is answered, once if its id is sent once. *)
Lemma fairly_answered p0 : live keys I p0 -> pending p0 = 0%nat ->
  (forall ls p, PCancel ∉ ls -> run pstep p0 ls = Some p ->
     exists b, state_at b 0 = p0 /\ uncancelled b /\ fair b /\ forall n, (n < length ls)%nat -> label_at b n = ls !! n) /\
  (forall b, state_at b 0 = p0 -> uncancelled b -> fair b ->
     forall n key req, label_at b n = Some (PSend key req) ->
     exists m, (n < m)%nat /\ received_at b m (ID req) /\
       ((forall n' key' req', label_at b n' = Some (PSend key' req') -> ID req' = ID req -> n' = n) ->
        forall m', received_at b m' (ID req) -> m' = m)).
Proof.
  intros L0 H0. split; [intros ls p; by apply fair_extension|].
  intros b Hb Hu Hf n key req Hl. rewrite <- Hb in L0, H0.
  destruct (sent_answered b (uncancelled_live b L0 Hu) Hf n key req Hl) as (m & Hm & Hrec).
  exists m. split; [done|]. split; [done|]. intros Hone m' Hm'. by apply (received_once b L0 H0 (ID req) n).
Qed.
End FairPipeline.

(** * The Kubernetes gateway *)
Module FairK8s.
Section Run.
Context {B W Q S M : Type} `{!TimedFloat64Buckets B} `{!TimeWindow W} `{!WorkQueue Q}
  `{!Client S} `{!PodLister S} `{!Scaler S} `{!SharedMap executor_obj M} `{!SharedMapLaws executor_obj M}.
Context (vars : BackendVars).

(** C1. Every request to the Kubernetes gateway is answered in every fair
    behaviour.  After a launch with a configured autoscaler, take any infinite
    behaviour of clients, relays, dispatchers with their goroutines,
    reconciliations, autoscaler, API server and clock in which the context is
    not ended, the relays' cases, run loops, goroutines and the receiving
    client are scheduled (weak fairness), every execution ends and every
    dispatch timeout that stays possible again and again comes (strong
    fairness).  Then after each send of a request there is a moment at which
    a client receives a response for its id, and only one if the id is sent
    only once; no pod need ever be ready.  And fairness asks for nothing that
    cannot be had: every finite run from the start, with any requests in it,
    can be continued to such a behaviour. *)
Theorem k8s_fairly_answers ReadFile Unmarshal emptyQueue timeout targets now asFramework asConfigPath text c (w : S) :
  asConfigPath <> "" -> ReadFile asConfigPath = Ok text -> Unmarshal text = Ok c -> K8s.configured asFramework c ->
  exists g, K8s.launch (B := B) (W := W) (Q := Q) (M := M) ReadFile Unmarshal emptyQueue timeout targets now asFramework asConfigPath = Ok g /\
    (forall b, state_at b 0 = K8sRun.started w now g -> uncancelled _ _ _ _ b ->
       fair K8sRun.onReqIn K8sRun.onReqOut K8sRun.run_background vars b ->
       forall n key req, label_at b n = Some (PSend key req) ->
       exists m, (n < m)%nat /\ received_at _ _ _ _ b m (ID req) /\
         ((forall n' key' req', label_at b n' = Some (PSend key' req') -> ID req' = ID req -> n' = n) ->
          forall m', received_at _ _ _ _ b m' (ID req) -> m' = m)) /\
    (forall ls p, PCancel ∉ ls -> run (K8sRun.k8s_step vars) (K8sRun.started w now g) ls = Some p ->
       exists b, state_at b 0 = K8sRun.started w now g /\ uncancelled _ _ _ _ b /\
         fair K8sRun.onReqIn K8sRun.onReqOut K8sRun.run_background vars b /\
         forall n, (n < length ls)%nat -> label_at b n = ls !! n).
Proof.
  intros Hp Hr Hu Hc.
  destruct (K8s.launch_configured ReadFile Unmarshal emptyQueue timeout targets now _ _ _ _ Hp Hr Hu Hc) as (a & f & Hl & Ha).
  eexists. split; [exact Hl|]. destruct (K8sRun.launched_live timeout targets now w a f Ha) as [L H0].
  destruct (fairly_answered _ _ _ vars _ _ (K8sRun.in_accepted _) (K8sRun.out_accepted _) (K8sRun.background_accepted _) _ L H0)
    as [He Hf].
  split; [exact Hf|exact He].
Qed.
End Run.
End FairK8s.

(** * The Knative gateway *)
Module FairKnative.
Section Run.
Context (vars : BackendVars) (NewClient : string -> res unit).

(** C16. Every request to the Knative gateway is answered in every fair
    behaviour in which its context is not ended, once if its id is sent once;
    and every finite run can be continued to a fair behaviour. *)
Theorem knative_fairly_answers timeout services now :
  (forall s, s ∈ services ->
     is_ok (NewKnServiceDispatcher vars NewClient (KeyFromObject (fst s)) timeout (snd s)) = true) ->
  exists g, KnativeGateway.launch vars NewClient timeout services now = Ok g /\
    (forall b, state_at b 0 = KnativeRun.started g -> uncancelled _ _ _ _ b ->
       fair KnativeGateway.onReqIn KnativeGateway.onReqOut KnativeRun.run_background vars b ->
       forall n key req, label_at b n = Some (PSend key req) ->
       exists m, (n < m)%nat /\ received_at _ _ _ _ b m (ID req) /\
         ((forall n' key' req', label_at b n' = Some (PSend key' req') -> ID req' = ID req -> n' = n) ->
          forall m', received_at _ _ _ _ b m' (ID req) -> m' = m)) /\
    (forall ls p, PCancel ∉ ls -> run (KnativeRun.knative_step vars) (KnativeRun.started g) ls = Some p ->
       exists b, state_at b 0 = KnativeRun.started g /\ uncancelled _ _ _ _ b /\
         fair KnativeGateway.onReqIn KnativeGateway.onReqOut KnativeRun.run_background vars b /\
         forall n, (n < length ls)%nat -> label_at b n = ls !! n).
Proof.
  intros Hs. destruct (KnativeGateway.launch_succeeds vars NewClient timeout services now Hs) as [g Hg].
  exists g. split; [exact Hg|]. destruct (KnativeRun.knative_launched_live vars NewClient timeout services now g Hg) as [L H0].
  destruct (fairly_answered _ _ _ vars _ _ (KnativeRun.knative_in_accepted _) (KnativeRun.knative_out_accepted _)
    KnativeRun.knative_background_accepted _ L H0) as [He Hf].
  split; [exact Hf|exact He].
Qed.
End Run.
End FairKnative.

(** * Witnesses: the requests of [Pipeline.Demo] *)
Module FairDemo.
#[local] Existing Instance Decider.Demo.last_buckets.
#[local] Existing Instance Decider.Demo.max_window.
#[local] Existing Instance MapServer.map_client.
#[local] Existing Instance Autoscaler.Demo.list_queue.
#[local] Existing Instance Autoscaler.Demo.two_pods.

Lemma k8s_fairly_answers_witness :
  exists (b : behaviour (K8sRun.k8s_step (B := list f64) (W := Z) (Q := list string) (S := MapServer.server)
            (M := gmap string executor_obj) Flap.vars)) m,
    state_at b 0 = Pipeline.Demo.demo_start /\
    label_at b 0 = Some (PSend "default/f" (Gateway.Demo.req "1" "default/f")) /\
    (0 < m)%nat /\ received_at _ _ _ _ b m "1".
Proof.
  destruct (FairK8s.k8s_fairly_answers (B := list f64) (W := Z) (Q := list string) (S := MapServer.server)
    (M := gmap string executor_obj) Flap.vars
    (fun _ => Ok "{}") (fun _ => Ok (K8s.mkASConfig None None))
    [] (15 * Second) Gateway.Demo.listed 10 "one-time" "one-time.yaml" "{}"
    (K8s.mkASConfig None None) Autoscaler.Demo.broken) as (g & Hg & Hfair & Hext);
    [discriminate|reflexivity|reflexivity|left; reflexivity|].
  pose proof (Pipeline.Demo.demo_launched g Hg) as Eg. subst g.
  destruct (Hext Pipeline.Demo.traffic Pipeline.Demo.demo_end) as (b & Hb & Hu & Hf & Hl); [|vm_compute; reflexivity|].
  { unfold Pipeline.Demo.traffic. repeat (apply not_elem_of_cons; split; [discriminate|]). apply not_elem_of_nil. }
  assert (H0 : label_at b 0 = Some (PSend "default/f" (Gateway.Demo.req "1" "default/f"))).
  { rewrite Hl; [reflexivity|]. apply Nat.ltb_lt. vm_compute. reflexivity. }
  destruct (Hfair b Hb Hu Hf 0%nat _ _ H0) as (m & Hm & Hrec & _).
  exists b, m. split; [exact Hb|]. split; [exact H0|]. split; [exact Hm|exact Hrec].
Defined.

Lemma knative_fairly_answers_witness :
  exists (b : behaviour (KnativeRun.knative_step Pipeline.Demo.kn_vars)) m,
    state_at b 0 = KnativeRun.started Pipeline.Demo.kn_gateway /\
    label_at b 2 = Some (PSend "default/f" (Gateway.Demo.req "2" "default/g")) /\
    (2 < m)%nat /\ received_at _ _ _ _ b m "2".
Proof.
  destruct (FairKnative.knative_fairly_answers Pipeline.Demo.kn_vars (fun _ => Ok tt) (15 * Second) Pipeline.Demo.kn_services 10)
    as (g & Hg & Hfair & Hext).
  { intros x [->|Hx]%elem_of_cons; [reflexivity|]. apply elem_of_nil in Hx. destruct Hx. }
  assert (Eg : g = Pipeline.Demo.kn_gateway) by (unfold Pipeline.Demo.kn_gateway; rewrite Hg; reflexivity). subst g.
  destruct (Hext Pipeline.Demo.kn_traffic Pipeline.Demo.kn_end) as (b & Hb & Hu & Hf & Hl); [|vm_compute; reflexivity|].
  { unfold Pipeline.Demo.kn_traffic. repeat (apply not_elem_of_cons; split; [discriminate|]). apply not_elem_of_nil. }
  assert (H2 : label_at b 2 = Some (PSend "default/f" (Gateway.Demo.req "2" "default/g"))).
  { rewrite Hl; [reflexivity|]. apply Nat.ltb_lt. vm_compute. reflexivity. }
  destruct (Hfair b Hb Hu Hf 2%nat _ _ H2) as (m & Hm & Hrec & _).
  exists b, m. split; [exact Hb|]. split; [exact H2|]. split; [exact Hm|exact Hrec].
Defined.
End FairDemo.
