(* ===== verification/ColdStart.v ===== *)
(** Scaling from zero, end to end: a request that waits for an endpoint is
    served as soon as the gateway's reconciliation sees a ready pod, without
    running into its timeout.  First for one pod dispatcher, then for the
    running Kubernetes gateway of [Pipeline]. *)
From S2P Require Import Prelude F64 KdUtil Workload Handler Backend Metric Decider Scaler Autoscaler Dispatcher Ksvc Dispatch Gateway Pipeline.
Import Selection Types.

(** * The dispatcher *)
Section Dispatcher.
Context {M : Type} `{!SharedMap executor_obj M} `{!SharedMapLaws executor_obj M} (vars : BackendVars).
Implicit Types s : PodDispatcher M.

(** Steps that a dispatcher takes by itself while its context lasts. *)
Definition goes s s' : Prop :=
  exists ls, run (Dispatcher.step vars) s ls = Some s' /\ Forall (fun l => own_step false l = true) ls.
#[global] Instance goes_preorder : PreOrder goes.
Proof.
  split.
  - intros s. exists []. by split.
  - intros s1 s2 s3 (ls & H1 & O1) (ls' & H2 & O2). exists (ls ++ ls'). split; [by rewrite run_app, H1|by apply Forall_app].
Qed.
Lemma goes_step s l s' : Dispatcher.step vars s l = Some s' -> own_step false l = true -> goes s s'.
Proof. intros H Ho. exists [l]. split; [cbn; by rewrite H|by repeat constructor]. Qed.
Lemma goes_reachable s s' : reachable (Dispatcher.step vars) (.= NewPodDispatcher) s -> goes s s' ->
  reachable (Dispatcher.step vars) (.= NewPodDispatcher) s'.
Proof. intros H (ls & Hr & _). by eapply run_reachable. Qed.

(** The execution every executor can make: the RPC is answered. *)
Definition success_execution (e : Executor) : execution :=
  match e with fakeBackend => ExecFake 0 0 0 | grpcBackend _ => ExecGrpc (Ok tt) 0 (RpcReply 0) 0 end.
Definition succeeds (req : Request) (r : Response) : Prop := answer_id r = ID req /\ Status r = SUCCESS.
Lemma success_execution_ok e req : exists r, executor_Execute e (success_execution e) req = Some r /\ succeeds req r.
Proof. destruct e; (eexists; split; [reflexivity|]; by split). Qed.

Lemma executing_answers s t req k ex : goroutines s !! t = Some (Executing req k ex) ->
  exists s' r, goes s s' /\ goroutines s' !! t = Some (Answering r) /\ succeeds req r /\ endpoints s' = endpoints s /\
    tokens s' = tokens s ++ [k] /\ forall t', t' <> t -> goroutines s' !! t' = goroutines s !! t'.
Proof.
  intros Et. destruct (success_execution_ok (snd ex) req) as (r & Hr & Hs).
  set (s1 := set_goroutine t (Some (Returning k r)) s).
  assert (goes s s1) as H1.
  { eapply (goes_step s (LExecuted t (success_execution (snd ex)))); [|done]. simpl. unfold Dispatch_executed.
    by rewrite Et, Hr. }
  assert (goes s1 (set_goroutine t (Some (Answering r)) (set_tokens (tokens s1 ++ [k]) s1))) as H2.
  { eapply (goes_step _ (LReturn t)); [|done]. simpl. unfold Dispatch_return. subst s1. cbn. by rewrite lookup_insert_eq. }
  eexists _, r. split; [etransitivity; [exact H1|exact H2]|]. cbn. rewrite lookup_insert_eq. split_and!; try done.
  intros t' Ht. by rewrite !lookup_insert_ne by done.
Qed.

(** A live endpoint's token comes to the channel without disturbing a waiting
    request. *)
Lemma token_comes s t req key ex : reachable (Dispatcher.step vars) (.= NewPodDispatcher) s ->
  goroutines s !! t = Some (Waiting req) -> Get key (endpoints s) = Some ex ->
  exists s', goes s s' /\ goroutines s' !! t = Some (Waiting req) /\ endpoints s' = endpoints s /\ key ∈ tokens s'.
Proof.
  intros Hr Et Hk. destruct (live_endpoint_token vars s key Hr ltac:(by eexists)) as [H|[(t' & g & Eg & Hg)|(r & Er & Ht)]].
  - by exists s.
  - assert (forall s1, goes s s1 -> goroutines s1 !! t = Some (Waiting req) -> endpoints s1 = endpoints s ->
      forall req' ex', goroutines s1 !! t' = Some (Executing req' key ex') ->
      exists s', goes s s' /\ goroutines s' !! t = Some (Waiting req) /\ endpoints s' = endpoints s /\ key ∈ tokens s') as Hex.
    { intros s1 H1 W1 E1 req' ex' Et'. destruct (executing_answers s1 t' req' key ex' Et') as (s' & r & H2 & _ & _ & E2 & T2 & O2).
      exists s'. split; [by etransitivity|]. rewrite O2 by congruence. split; [done|]. split; [congruence|]. rewrite T2. set_solver. }
    destruct g as [?|req' k|req' k ex'|k r|?]; simpl in Hg; try done; case_decide; subst; try done.
    + assert (goes s (set_goroutine t' (Some (Executing req' k ex)) s)) as H1.
      { eapply (goes_step s (LGet t')); [|done]. simpl. unfold dispatch_get. by rewrite Eg, Hk. }
      eapply (Hex _ H1); cbn; [rewrite lookup_insert_ne by congruence; done|done|by rewrite lookup_insert_eq].
    + by eapply (Hex s).
    + eexists. split; [eapply (goes_step s (LReturn t')); [|done]; simpl; unfold Dispatch_return; by rewrite Eg|].
      cbn. rewrite lookup_insert_ne by congruence. split; [done|]. split; [done|]. set_solver.
  - destruct (remove_one_is_Some key (to_token r) Ht) as [q Hq].
    eexists. split; [eapply (goes_step s (LToken key)); [|done]; simpl; unfold Reconcile_token; by rewrite Er, Hq|].
    cbn. split; [done|]. split; [done|]. set_solver.
Qed.

(** The waiting request takes tokens, dropping those of removed endpoints,
    until it has one of a live endpoint. *)
Lemma takes_token q : forall s t req key ex, tokens s = q -> key ∈ q ->
  goroutines s !! t = Some (Waiting req) -> Get key (endpoints s) = Some ex ->
  exists s' k ex', goes s s' /\ goroutines s' !! t = Some (Executing req k ex').
Proof.
  induction q as [|k q IH]; intros s t req key ex Hq Hin Et Hk; [by apply elem_of_nil in Hin|].
  set (s1 := set_goroutine t (Some (Popped req k)) (set_tokens q s)).
  assert (goes s s1) as H1.
  { eapply (goes_step s (LPop t)); [|done]. simpl. unfold dispatch_pop. by rewrite Et, Hq. }
  assert (goroutines s1 !! t = Some (Popped req k)) as E1 by apply lookup_insert_eq.
  destruct (Get k (endpoints s)) as [ex'|] eqn:E.
  - exists (set_goroutine t (Some (Executing req k ex')) s1), k, ex'. split; [|apply lookup_insert_eq].
    etransitivity; [exact H1|]. eapply (goes_step s1 (LGet t)); [|done]. simpl. unfold dispatch_get. rewrite E1.
    subst s1. cbn. by rewrite E.
  - apply elem_of_cons in Hin as [->|Hin]; [congruence|].
    set (s2 := set_goroutine t (Some (Waiting req)) s1).
    assert (goes s1 s2) as H2.
    { eapply (goes_step s1 (LGet t)); [|done]. simpl. unfold dispatch_get. rewrite E1. subst s1 s2. cbn. by rewrite E. }
    destruct (IH s2 t req key ex) as (s' & k' & ex' & H3 & E3); [done|done|apply lookup_insert_eq|exact Hk|].
    exists s', k', ex'. split; [|done]. etransitivity; [exact H1|]. by etransitivity.
Qed.

(** With a live endpoint a waiting request can be served. *)
Lemma waiting_request_served s t req key : reachable (Dispatcher.step vars) (.= NewPodDispatcher) s ->
  goroutines s !! t = Some (Waiting req) -> is_Some (Get key (endpoints s)) ->
  exists s' r, goes s s' /\ goroutines s' !! t = Some (Answering r) /\ succeeds req r.
Proof.
  intros Hr Et [ex Hk]. destruct (token_comes s t req key ex Hr Et Hk) as (s1 & H1 & E1 & P1 & T1).
  destruct (takes_token _ s1 t req key ex eq_refl T1 E1 ltac:(congruence)) as (s2 & k & ex' & H2 & E2).
  destruct (executing_answers s2 t req k ex' E2) as (s3 & r & H3 & E3 & Hs & _).
  exists s3, r. split; [|done]. etransitivity; [exact H1|]. by etransitivity.
Qed.

(** A reconciliation that runs can be ended, and a new one brings a ready pod
    into the endpoints. *)
Lemma reconciliation_ends s t g : reachable (Dispatcher.step vars) (.= NewPodDispatcher) s -> can_create vars ->
  goroutines s !! t = Some g -> exists s', goes s s' /\ goroutines s' !! t = Some g /\ reconciling s' = None.
Proof.
  intros Hr Hc Et. destruct (reconciling s) as [r|] eqn:Er; [|by exists s].
  remember (remaining r) as n eqn:Hn. revert s r Hr Et Er Hn.
  induction (lt_wf n) as [n _ IH]. intros s r Hr Et Er ->. destruct (reconcile_done r) eqn:Ed.
  - exists (set_reconciling None s). split; [|done]. eapply (goes_step s LReconciled); [|done].
    simpl. unfold Reconcile_return. by rewrite Er, Ed.
  - destruct (reconcile_step_enabled vars s r Hc Er Ed) as (l & s1 & Hs & k & d & Hl).
    destruct (reconcile_step_decreases vars s l s1 r Hs Er) as (r1 & Er1 & [Hlt|[_ Hne]]);
      [by destruct Hl as [-> | [-> | ->]]| |destruct (Hne k d) as (? & ? & ?); naive_solver].
    assert (own_step false l = true) as Ho by (by destruct Hl as [-> | [-> | ->]]).
    assert (goroutines s1 !! t = Some g) as Et1.
    { rewrite <- Et. f_equal. destruct Hl as [-> | [-> | ->]]; simpl in Hs;
        unfold Reconcile_add, Reconcile_token, Reconcile_del in Hs; rewrite Er in Hs;
        repeat (case_match; simplify_eq/=; try done). }
    pose proof (goes_step s l s1 Hs Ho) as H1.
    destruct (IH (remaining r1) Hlt s1 r1 (goes_reachable _ _ Hr H1) Et1 Er1 eq_refl) as (s' & H2 & E2 & R2).
    exists s'. split; [by etransitivity|done].
Qed.

Lemma ready_pod_becomes_endpoint s t g pods key : reachable (Dispatcher.step vars) (.= NewPodDispatcher) s ->
  can_create vars -> goroutines s !! t = Some g -> reconciling s = None -> key ∈ dom (ready_endpoints pods) ->
  exists s1 s', Dispatcher.step vars s (LReconcile pods) = Some s1 /\ goes s1 s' /\ goroutines s' !! t = Some g /\
    is_Some (Get key (endpoints s')).
Proof.
  intros Hr Hc Et Er Hk. simpl. unfold Reconcile_diff. rewrite Er. eexists.
  destruct (decide (key ∈ dom (Inner (endpoints s)))) as [Hin|Hout].
  - eexists. split; [reflexivity|]. split; [reflexivity|]. cbn. split; [done|]. rewrite get_inner. by apply elem_of_dom.
  - destruct (NewBackend_created vars (default "" (ready_endpoints pods !! key)) Hc) as [e He].
    eexists. split; [reflexivity|]. split.
    + eapply (goes_step _ (LAdd key (Ok tt))); [|done]. simpl. unfold Reconcile_add. cbn.
      rewrite decide_True by set_solver. rewrite He. reflexivity.
    + cbn. split; [done|]. rewrite get_inner, inner_set, lookup_insert_eq. by eexists.
Qed.
End Dispatcher.

(** * The gateway *)
Section Pipeline.
Context {A Act : Type} (onReqIn : A -> Request -> res A) (onReqOut : A -> Response -> res A) (act : Act -> A -> option A).
Context {M : Type} `{!SharedMap executor_obj M} `{!SharedMapLaws executor_obj M} (vars : BackendVars).
Abbreviation pipe := (pipeline (A := A) (D := PodDispatcher M)).
Abbreviation lab := (Pipeline.label (Act := Act) (DL := Dispatcher.label)).
Abbreviation pstep := (Pipeline.step onReqIn onReqOut act vars).
Implicit Types p : pipe.
Abbreviation from_new := (reachable (Dispatcher.step vars) (.= NewPodDispatcher)).

(** Dispatchers of a pipeline are in states they reach by their own rules. *)
Lemma pds_reachable_step p (l : lab) p' : map_Forall (fun _ pd => from_new pd) (pds p) -> pstep p l = Some p' ->
  map_Forall (fun _ pd => from_new pd) (pds p').
Proof.
  intros Hp Hs.
  assert (forall gl, (g ← Gateway.step onReqIn onReqOut (gw p) gl; Some (set_gw g p)) = Some p' -> pds p' = pds p) as Hg.
  { intros gl H. destruct (Gateway.step _ _ _ _); by simplify_eq/=. }
  assert (forall pd l pd', from_new pd -> Dispatcher.step vars pd l = Some pd' -> from_new pd') as Hd
    by (intros; by eapply reach_step).
  destruct l as [key req|key now|key|key|key l|key t| |x| |key]; unfold Pipeline.step in Hs; cbv zeta in Hs;
    try (apply Hg in Hs; by rewrite Hs).
  - destruct (pds p !! key) as [pd|] eqn:Ek; [|done]. cbn [mbind option_bind] in Hs.
    destruct (dispatcher_recv key (gw p)) as [[req g]|]; [|done]. cbn [mbind option_bind] in Hs.
    destruct (disp_receive req pd) as [pd'|] eqn:Er; [|done]. injection Hs as <-.
    apply map_Forall_insert_2; [|done]. apply (Hd (arrive req pd) Dispatcher.LReceive); [|exact Er].
    by apply (Hd pd (Dispatcher.LArrive req)); [apply (Hp _ _ Ek)|].
  - destruct (pds p !! key) as [pd|] eqn:Ek; [|done]. cbn [mbind option_bind] in Hs.
    destruct (disp_step vars _ pd l) as [pd'|] eqn:Ed; [|done]. injection Hs as <-.
    apply map_Forall_insert_2; [|done]. cbn in Ed. unfold pd_step in Ed. destruct (own_step _ l); [|done].
    by eapply Hd; [apply (Hp _ _ Ek)|].
  - destruct (pds p !! key) as [pd|] eqn:Ek; [|done]. cbn [mbind option_bind] in Hs.
    destruct (disp_answer t pd) as [[r pd']|] eqn:Ea; [|done]. cbn [mbind option_bind] in Hs.
    destruct (dispatcher_send key r (gw p)) as [g|]; [|done]. injection Hs as <-.
    apply map_Forall_insert_2; [|done]. apply pd_answer_inv in Ea as [_ Ea].
    by apply (Hd pd (Dispatcher.LAnswer t)); [apply (Hp _ _ Ek)|].
  - destruct (act x _); by simplify_eq/=.
  - by simplify_eq/=.
  - destruct (ctx_cancelled p); [|done]. destruct (relays (gw p) !! key); by simplify_eq/=.
Qed.
Lemma pds_reachable p ls p' : map_Forall (fun _ pd => from_new pd) (pds p) -> run pstep p ls = Some p' ->
  map_Forall (fun _ pd => from_new pd) (pds p').
Proof.
  revert p. induction ls as [|l ls IH]; intros p Hp Hr; [by injection Hr as <-|].
  cbn [run] in Hr. destruct (pstep p l) as [p1|] eqn:E; [|done]. apply (IH p1); [by eapply pds_reachable_step|exact Hr].
Qed.

(** Internal steps, and what clients see of them. *)
Definition gets p (ls : list lab) p' : Prop := run pstep p ls = Some p' /\ Forall (fun l => internal l = true) ls.
Lemma gets_nil p : gets p [] p.
Proof. by split. Qed.
Lemma gets_app p ls p1 ls' p2 : gets p ls p1 -> gets p1 ls' p2 -> gets p (ls ++ ls') p2.
Proof. intros [H1 I1] [H2 I2]. split; [by rewrite run_app, H1|by apply Forall_app]. Qed.
Lemma gets_one p l p' : pstep p l = Some p' -> internal l = true -> gets p [l] p'.
Proof. intros H Hi. split; [cbn [run]; by rewrite H|by repeat constructor]. Qed.

(** The steps of one dispatcher are steps of the pipeline. *)
Lemma goes_gets p key pd pd' : ctx_cancelled p = false -> pds p !! key = Some pd -> goes vars pd pd' ->
  exists ls, gets p ls (set_pd key pd' p).
Proof.
  intros Hc Ek (ls & Hr & Ho). exists (PDispatch key <$> ls). split; [|by apply Forall_fmap, Forall_true].
  revert p pd Hc Ek Hr. induction Ho as [|l ls Hl _ IH]; intros p pd Hc Ek Hr.
  - injection Hr as <-. destruct p as [g m c]. unfold set_pd. cbn in *. by rewrite insert_id.
  - cbn [run] in Hr. destruct (Dispatcher.step vars pd l) as [pd1|] eqn:E; [|done].
    assert (pstep p (PDispatch key l) = Some (set_pd key pd1 p)) as Hs.
    { unfold Pipeline.step. rewrite Ek. cbn [mbind option_bind disp_step pod_dispatcher]. unfold pd_step.
      by rewrite Hc, Hl, E. }
    change (PDispatch key <$> l :: ls) with (PDispatch (Act := Act) key l :: (PDispatch key <$> ls)). cbn [run]. rewrite Hs.
    etransitivity; [apply (IH (set_pd key pd1 p) pd1); [done|apply lookup_insert_eq|exact Hr]|].
    unfold set_pd. cbn. by rewrite insert_insert_eq.
Qed.

Section Delivery.
Context (keys : gset string) (I : A -> Prop).
Hypothesis in_ok : forall a req, I a -> Target req ∈ keys -> exists a', onReqIn a req = Ok a' /\ I a'.
Hypothesis out_ok : forall a r, I a -> Target (Source r) ∈ keys -> exists a', onReqOut a r = Ok a' /\ I a'.
Hypothesis act_ok : forall x a a', I a -> act x a = Some a' -> I a'.

Lemma gets_live p ls p' : live keys I p -> gets p ls p' -> live keys I p'.
Proof.
  intros L [Hr Hi]. apply (live_run onReqIn onReqOut act vars keys I in_ok out_ok act_ok p ls p'); [|exact L|exact Hr].
  intros Hin. rewrite Forall_forall in Hi. by apply Hi in Hin.
Qed.

(** A response in the common channel is received. *)
Lemma response_received p q r q' : externalOutput (gw p) = q ++ r :: q' ->
  exists ls p', gets p ls p' /\ inr r ∈ trace pstep Pipeline.observe p ls.
Proof.
  revert p. induction q as [|r0 q IH]; intros p E.
  - assert (exists p', pstep p PClientRecv = Some p') as [p' Hs].
    { unfold Pipeline.step. cbn [Gateway.step]. unfold ResponseChan_recv. rewrite E. by eexists. }
    exists [PClientRecv], p'. split; [by apply gets_one|]. cbn [trace Pipeline.observe]. rewrite Hs, E. set_solver.
  - assert (exists p', pstep p PClientRecv = Some p' /\ externalOutput (gw p') = q ++ r :: q') as (p1 & Hs & E1).
    { unfold Pipeline.step. cbn [Gateway.step]. unfold ResponseChan_recv. rewrite E. by eexists. }
    destruct (IH p1 E1) as (ls & p' & [Hr Hi] & Hin). exists (PClientRecv :: ls), p'.
    split; [|cbn [trace]; rewrite Hs; set_solver]. apply (gets_app p [PClientRecv] p1); [by apply gets_one|by split].
Qed.

Lemma response_relayed p key q r q' : live keys I p -> internalOutputBuffers (gw p) !! key = Some (q ++ r :: q') ->
  exists ls p' q1, gets p ls p' /\ externalOutput (gw p') = q1 ++ [r].
Proof.
  revert p. induction q as [|r0 q IH]; intros p L E; cbn [app] in E.
  - assert (key ∈ keys) as Hk by (rewrite <- (live_out _ _ p L); by eapply elem_of_dom_2).
    assert (is_Some (relays (gw p) !! key)) as [v Ev] by (apply elem_of_dom; by rewrite (live_relays _ _ p L)).
    pose proof (live_out_targets _ _ p L _ _ E) as Ht. apply Forall_cons in Ht as [Ht _].
    destruct (out_ok (owner (gw p)) r (live_owner _ _ p L)) as (a & Ha & _); [by rewrite Ht|].
    eexists [PRelayResponse key], _, (externalOutput (gw p)). split; [apply gets_one; [|done]|].
    + unfold Pipeline.step. cbn [Gateway.step]. unfold relay_response. rewrite Ev, E, Ha. reflexivity.
    + done.
  - assert (key ∈ keys) as Hk by (rewrite <- (live_out _ _ p L); by eapply elem_of_dom_2).
    assert (is_Some (relays (gw p) !! key)) as [v Ev] by (apply elem_of_dom; by rewrite (live_relays _ _ p L)).
    pose proof (live_out_targets _ _ p L _ _ E) as Ht. apply Forall_cons in Ht as [Ht _].
    destruct (out_ok (owner (gw p)) r0 (live_owner _ _ p L)) as (a & Ha & _); [by rewrite Ht|].
    assert (exists p1, pstep p (PRelayResponse key) = Some p1 /\ internalOutputBuffers (gw p1) !! key = Some (q ++ r :: q'))
      as (p1 & Hs & E1).
    { unfold Pipeline.step. cbn [Gateway.step]. unfold relay_response. rewrite Ev, E, Ha. cbn.
      eexists. split; [reflexivity|]. cbn. by rewrite lookup_insert_eq. }
    assert (gets p [PRelayResponse key] p1) as H1 by (by apply gets_one).
    destruct (IH p1 (gets_live _ _ _ L H1) E1) as (ls & p' & q1 & H2 & E2).
    exists ([PRelayResponse key] ++ ls), p', q1. split; [by eapply gets_app|done].
Qed.

(** From a finished execution to the client. *)
Lemma answer_delivered p key pd t r : live keys I p -> pds p !! key = Some pd -> goroutines pd !! t = Some (Answering r) ->
  exists ls p', gets p ls p' /\ inr r ∈ trace pstep Pipeline.observe p ls.
Proof.
  intros L Ek Et. assert (key ∈ keys) as Hk by (rewrite <- (live_pds _ _ p L); by eapply elem_of_dom_2).
  assert (is_Some (internalOutputBuffers (gw p) !! key)) as [q Eq] by (apply elem_of_dom; by rewrite (live_out _ _ p L)).
  assert (exists p1, pstep p (PAnswer key t) = Some p1 /\ internalOutputBuffers (gw p1) !! key = Some (q ++ [r])) as (p1 & Hs & E1).
  { unfold Pipeline.step. rewrite Ek. cbn [mbind option_bind disp_answer pod_dispatcher]. unfold pd_answer, Dispatch_answer.
    rewrite Et. cbn [mbind option_bind]. unfold dispatcher_send. rewrite Eq. cbn [mbind option_bind].
    eexists. split; [reflexivity|]. cbn. by rewrite lookup_insert_eq. }
  assert (gets p [PAnswer key t] p1) as H1 by (by apply gets_one).
  destruct (response_relayed p1 key q r [] (gets_live _ _ _ L H1) E1) as (ls2 & p2 & q2 & H2 & E2).
  destruct (response_received p2 q2 r [] E2) as (ls3 & p3 & H3 & Hin).
  pose proof (gets_app _ _ _ _ _ H1 H2) as H12. pose proof (gets_app _ _ _ _ _ H12 H3) as H123.
  exists (([PAnswer key t] ++ ls2) ++ ls3), p3. split; [exact H123|].
  rewrite (trace_app _ _ _ _ _ _ (proj1 H12)). set_solver.
Qed.

(** A waiting request is served once a reconciliation has a ready pod. *)
Lemma reconciled_request_answered p key pd t req pods : live keys I p ->
  from_new pd -> pds p !! key = Some pd -> goroutines pd !! t = Some (Waiting req) -> can_create vars -> pods <> [] ->
  exists ls1 p1 ls2 p2 r, gets p ls1 p1 /\ gw p1 = gw p /\ gets p1 (PDispatch key (LReconcile pods) :: ls2) p2 /\
    inr r ∈ trace pstep Pipeline.observe p1 (PDispatch key (LReconcile pods) :: ls2) /\ succeeds req r.
Proof.
  intros L Hn Ek Et Hc Hpods.
  destruct (reconciliation_ends vars pd t _ Hn Hc Et) as (pd1 & G1 & E1 & R1).
  assert (exists k, k ∈ dom (ready_endpoints pods)) as [k Hk].
  { destruct pods as [|pod pods _] using rev_ind; [done|]. exists (fst (podEndpointKeyFunc pod)).
    unfold ready_endpoints. rewrite foldl_app. cbn. rewrite dom_insert_L. set_solver. }
  destruct (ready_pod_becomes_endpoint vars pd1 t _ pods k (goes_reachable vars _ _ Hn G1) Hc E1 R1 Hk)
    as (pd2 & pd3 & S2 & G3 & E3 & K3).
  assert (goes vars pd1 pd2) as G2 by (by eapply goes_step).
  assert (from_new pd3) as Hn3 by (eapply goes_reachable; [exact Hn|]; etransitivity; [exact G1|]; by etransitivity).
  destruct (waiting_request_served vars pd3 t req k Hn3 E3 K3) as (pd4 & r & G4 & E4 & Hs).
  destruct (goes_gets p key pd pd1 (live_ctx _ _ p L) Ek G1) as [ls1 H1].
  set (p1 := set_pd key pd1 p) in *. pose proof (gets_live _ _ _ L H1) as L1.
  assert (pds p1 !! key = Some pd1) as Ek1 by apply lookup_insert_eq.
  set (p2 := set_pd key pd2 p1). assert (gets p1 [PDispatch key (LReconcile pods)] p2) as H2.
  { apply gets_one; [|done]. unfold Pipeline.step. rewrite Ek1. cbn [mbind option_bind disp_step pod_dispatcher].
    unfold pd_step. cbn [own_step]. rewrite S2. done. }
  pose proof (gets_live _ _ _ L1 H2) as L2.
  destruct (goes_gets p2 key pd2 pd4 (live_ctx _ _ p2 L2)) as [ls3 H3]; [apply lookup_insert_eq|by etransitivity|].
  pose proof (gets_live _ _ _ L2 H3) as L3.
  destruct (answer_delivered (set_pd key pd4 p2) key pd4 t r L3) as (ls4 & p4 & H4 & Hin); [apply lookup_insert_eq|exact E4|].
  pose proof (gets_app _ _ _ _ _ H2 (gets_app _ _ _ _ _ H3 H4)) as H234.
  exists ls1, p1, (ls3 ++ ls4), p4, r. split; [exact H1|]. split; [done|]. split; [exact H234|]. split; [|exact Hs].
  change (PDispatch key (LReconcile pods) :: ls3 ++ ls4) with ([PDispatch key (LReconcile pods)] ++ ls3 ++ ls4).
  rewrite (trace_app _ _ _ _ _ _ (proj1 H2)), (trace_app _ _ _ _ _ _ (proj1 H3)). set_solver.
Qed.
End Delivery.
End Pipeline.

(** * The Kubernetes gateway *)
Section K8sGateway.
Context {B W Q S M : Type} `{!TimedFloat64Buckets B} `{!TimeWindow W} `{!WorkQueue Q}
  `{!Client S} `{!PodLister S} `{!Scaler S} `{!SharedMap executor_obj M} `{!SharedMapLaws executor_obj M}.
Context (view : Autoscaler.Pod (S := S) -> Dispatcher.Pod).

(** Whatever the autoscaler, on a gateway after its set-up. *)
Lemma launched_request_served timeout targets now vars a f (w : S) ls p key pd t req :
  K8s.accepting (list_to_set (KeyFromObject <$> targets)) (K8s.run_autoscaler a) -> can_create vars ->
  let g := K8s.launched (B := B) (W := W) (Q := Q) (M := M) timeout targets now a f in
  PCancel ∉ ls -> run (K8sRun.k8s_step vars) (K8sRun.started w now g) ls = Some p ->
  pds p !! key = Some pd -> goroutines pd !! t = Some (Waiting req) ->
  forall IsNotFound name target listed pod, NamespacedName_String name = key ->
    GetDeployment (K8sRun.api (owner (gw p))) name = Ok target ->
    ListPods (K8sRun.api (owner (gw p))) (dep_namespace target) (template_labels target) = Ok listed ->
    pod ∈ listed -> Autoscaler.IsPodReady pod = true ->
  exists readyPods,
    K8s.Reconcile view IsNotFound (K8sRun.api (owner (gw p))) name g = Ok (Some (key, readyPods)) /\
    exists ls1 p1 ls2 p2 r,
      run (K8sRun.k8s_step vars) p ls1 = Some p1 /\ gw p1 = gw p /\
      run (K8sRun.k8s_step vars) p1 (PDispatch key (LReconcile readyPods) :: ls2) = Some p2 /\
      Forall (fun l => internal l = true) (ls1 ++ ls2) /\
      inr r ∈ trace (K8sRun.k8s_step vars) Pipeline.observe p1 (PDispatch key (LReconcile readyPods) :: ls2) /\
      answer_id r = ID req /\ Status r = SUCCESS.
Proof.
  intros Ha Hcan g Hn Hrun Ek Et IsNotFound name target listed pod Hname Hd Hpods Hin Hready. subst g.
  destruct (K8sRun.launched_live timeout targets now w a f Ha) as [L0 _].
  pose proof (live_run _ _ _ vars _ _ (K8sRun.in_accepted _) (K8sRun.out_accepted _) (K8sRun.background_accepted _) _ ls p Hn L0 Hrun) as L.
  destruct (K8s.launched_doms (M := M) timeout targets now a f) as (_ & _ & _ & _ & Hnew).
  assert (map_Forall (fun _ pd => reachable (Dispatcher.step vars) (.= NewPodDispatcher) pd) (pds p)) as Hreach.
  { apply (pds_reachable K8sRun.onReqIn K8sRun.onReqOut K8sRun.run_background vars _ ls p) in Hrun; [done|].
    intros k x Hx. rewrite (Hnew k x Hx). by apply reach_init. }
  exists (view <$> filter (fun p => Autoscaler.IsPodReady p = true) listed). split.
  - assert (is_Some (K8s.dispatchers (K8s.launched (M := M) timeout targets now a f) !! key)) as [d Hdd].
    { apply elem_of_dom. rewrite (proj2 (proj2 (K8s.launched_ready timeout targets now a f))).
      rewrite <- (live_pds _ _ p L). by eapply elem_of_dom_2. }
    unfold K8s.Reconcile. by rewrite Hd, Hpods, Hname, Hdd.
  - destruct (reconciled_request_answered K8sRun.onReqIn K8sRun.onReqOut K8sRun.run_background vars _ _
      (K8sRun.in_accepted _) (K8sRun.out_accepted _) (K8sRun.background_accepted _) p key pd t req
      (view <$> filter (fun p => Autoscaler.IsPodReady p = true) listed) L (Hreach _ _ Ek) Ek Et Hcan)
      as (ls1 & p1 & ls2 & p2 & r & [H1 I1] & Eg & [H2 I2] & Hobs & Hid & Hst).
    { intros E. apply fmap_nil_inv in E.
      assert (pod ∈ filter (fun p => Autoscaler.IsPodReady p = true) listed) as Hf by (by apply list_elem_of_filter).
      rewrite E in Hf. by apply elem_of_nil in Hf. }
    exists ls1, p1, ls2, p2, r. split; [exact H1|]. split; [exact Eg|]. split; [exact H2|].
    split; [|by split]. apply Forall_app. split; [done|]. by apply Forall_cons in I2 as [_ ?].
Qed.

(** Scaling from zero ends in an answer.  Take a running Kubernetes
    gateway after any steps that do not end its context, and a request that
    waits in the dispatcher of its target, with or without endpoints, and
    whatever is being dispatched and reconciled.  If the API server then lists
    a ready pod for the target's deployment, the controller's Reconcile hands
    it to the dispatcher, and there are steps of the system itself, the
    dispatcher's reconciliation among them, after which the request has been
    executed on an endpoint and its client has received the successful
    response: no timeout is needed. *)
Theorem cold_start_served ReadFile Unmarshal emptyQueue timeout targets now vars
    asFramework asConfigPath text c (w : S) :
  asConfigPath <> "" -> ReadFile asConfigPath = Ok text -> Unmarshal text = Ok c -> K8s.configured asFramework c ->
  can_create vars ->
  exists g, K8s.launch (B := B) (W := W) ReadFile Unmarshal emptyQueue timeout targets now asFramework asConfigPath = Ok g /\
    forall ls p key pd t req, PCancel ∉ ls -> run (K8sRun.k8s_step vars) (K8sRun.started w now g) ls = Some p ->
      pds p !! key = Some pd -> goroutines pd !! t = Some (Waiting req) ->
    forall IsNotFound name target listed pod, NamespacedName_String name = key ->
      GetDeployment (K8sRun.api (owner (gw p))) name = Ok target ->
      ListPods (K8sRun.api (owner (gw p))) (dep_namespace target) (template_labels target) = Ok listed ->
      pod ∈ listed -> Autoscaler.IsPodReady pod = true ->
    exists readyPods,
      K8s.Reconcile view IsNotFound (K8sRun.api (owner (gw p))) name g = Ok (Some (key, readyPods)) /\
      exists ls1 p1 ls2 p2 r,
        run (K8sRun.k8s_step vars) p ls1 = Some p1 /\ gw p1 = gw p /\
        run (K8sRun.k8s_step vars) p1 (PDispatch key (LReconcile readyPods) :: ls2) = Some p2 /\
        Forall (fun l => internal l = true) (ls1 ++ ls2) /\
        inr r ∈ trace (K8sRun.k8s_step vars) Pipeline.observe p1 (PDispatch key (LReconcile readyPods) :: ls2) /\
        succeeds req r.
Proof.
  intros Hp Hr Hu Hc Hcan.
  destruct (K8s.launch_configured ReadFile Unmarshal emptyQueue timeout targets now _ _ _ _ Hp Hr Hu Hc) as (a & f & Hl & Ha).
  eexists. split; [exact Hl|]. intros ls p key pd t req. by apply launched_request_served.
Qed.
End K8sGateway.

(** * Witness *)
Module Demo.
#[local] Existing Instance Decider.Demo.last_buckets.
#[local] Existing Instance Decider.Demo.max_window.
#[local] Existing Instance MapServer.map_client.
#[local] Existing Instance Autoscaler.Demo.list_queue.
#[local] Existing Instance Autoscaler.Demo.two_pods.

(** A request waits at a deployment that has no endpoint yet. *)
Definition waiting_steps : list (Pipeline.label (Act := K8sRun.background (S := MapServer.server)) (DL := Dispatcher.label)) :=
  [PSend "default/f" (Gateway.Demo.req "1" "default/f"); PRelayRequest "default/f" 30; PReceive "default/f"].
Definition cold_start := K8sRun.started MapServer.demo 10 Pipeline.Demo.demo_gateway.
Definition waiting_state : pipeline (D := PodDispatcher (gmap string executor_obj)) :=
  default cold_start (run (K8sRun.k8s_step Flap.vars) cold_start waiting_steps).
Definition waiting_pd : PodDispatcher (gmap string executor_obj) :=
  default NewPodDispatcher (pds waiting_state !! "default/f").

Lemma cold_start_served_witness :
  exists readyPods ls1 p1 ls2 p2 r,
    run (K8sRun.k8s_step Flap.vars) waiting_state ls1 = Some p1 /\
    run (K8sRun.k8s_step Flap.vars) p1 (PDispatch "default/f" (LReconcile readyPods) :: ls2) = Some p2 /\
    inr r ∈ trace (K8sRun.k8s_step Flap.vars) Pipeline.observe p1 (PDispatch "default/f" (LReconcile readyPods) :: ls2) /\
    answer_id r = "1" /\ Status r = SUCCESS.
Proof.
  destruct (cold_start_served (B := list f64) (W := Z) (Q := list string) (S := MapServer.server)
    (M := gmap string executor_obj) (fun _ => Flap.pod)
    (fun _ => Ok "{}") (fun _ => Ok (K8s.mkASConfig None None))
    [] (15 * Second) Gateway.Demo.listed 10 Flap.vars "one-time" "one-time.yaml" "{}"
    (K8s.mkASConfig None None) MapServer.demo) as (g & Hg & H);
    [discriminate|reflexivity|reflexivity|left; reflexivity|left; reflexivity|].
  pose proof (Pipeline.Demo.demo_launched g Hg) as Eg. subst g.
  assert (Hn : PCancel ∉ waiting_steps).
  { unfold waiting_steps. repeat (apply not_elem_of_cons; split; [discriminate|]). apply not_elem_of_nil. }
  assert (Hp : run (K8sRun.k8s_step Flap.vars) cold_start waiting_steps = Some waiting_state) by (vm_compute; reflexivity).
  assert (Ek : pds waiting_state !! "default/f" = Some waiting_pd) by (vm_compute; reflexivity).
  assert (Et : goroutines waiting_pd !! 0%nat = Some (Waiting (set_GatewayRecvTS 30 (Gateway.Demo.req "1" "default/f"))))
    by (vm_compute; reflexivity).
  destruct (H waiting_steps waiting_state "default/f" waiting_pd 0%nat _ Hn Hp Ek Et (fun _ => false)
    (mkNamespacedName "default" "f") (mkDeployment "default" "f" None (Some 1) ∅) [true; false] true)
    as (readyPods & _ & ls1 & p1 & ls2 & p2 & r & H1 & _ & H2 & _ & H3 & H4 & H5);
    [reflexivity|vm_compute; reflexivity|vm_compute; reflexivity|apply list_elem_of_here|reflexivity|].
  exists readyPods, ls1, p1, ls2, p2, r. split; [exact H1|]. split; [exact H2|]. split; [exact H3|]. split; [exact H4|exact H5].
Defined.
End Demo.
