(* ===== verification/Activation.v ===== *)
(** The autoscaler's part in scaling from zero: no request reaches a
    dispatcher of the running Kubernetes gateway without the autoscaler having
    been set in motion for its target, and from there the request is served
    once the cluster has a ready pod. *)
From Stdlib Require Import Ascii.
From S2P Require Import Prelude F64 KdUtil Workload Handler Backend Metric Decider Scaler Autoscaler Dispatcher Ksvc Dispatch Gateway Pipeline ColdStart.
Import Selection Types.

(** * Demand *)
Section Demand.
Context {A Act M : Type} `{!SharedMap executor_obj M}
  (onReqIn : A -> Request -> res A) (onReqOut : A -> Response -> res A) (act : Act -> A -> option A) (vars : BackendVars).
Abbreviation pipe := (pipeline (A := A) (D := PodDispatcher M)).
Abbreviation pstep := (Pipeline.step (DL := Dispatcher.label) onReqIn onReqOut act vars).
Implicit Types p : pipe.

(** The targets for which an autoscaler has been set in motion: each request
    that comes in does that for its own target, and nothing undoes it. *)
Context (I : A -> Prop) (demand : A -> string -> Prop).
Hypothesis in_demand : forall a req a', I a -> onReqIn a req = Ok a' ->
  I a' /\ demand a' (Target req) /\ forall k, demand a k -> demand a' k.
Hypothesis out_demand : forall a r a', I a -> onReqOut a r = Ok a' -> I a' /\ forall k, demand a k -> demand a' k.
Hypothesis act_demand : forall x a a', I a -> act x a = Some a' -> I a' /\ forall k, demand a k -> demand a' k.

(** Requests for [key] have passed the relay. *)
Definition reached p (key : string) : Prop :=
  (exists pd, pds p !! key = Some pd /\ (0 < spawned pd)%nat) \/
  (exists req q, internalInputBuffers (gw p) !! key = Some (req :: q)).
Definition demand_inv p : Prop := I (owner (gw p)) /\ forall key, reached p key -> demand (owner (gw p)) key.

(** A step that lets no new key be reached keeps the invariant. *)
Lemma demand_kept p p' : demand_inv p -> I (owner (gw p')) ->
  (forall k, demand (owner (gw p)) k -> demand (owner (gw p')) k) -> (forall k, reached p' k -> reached p k) -> demand_inv p'.
Proof. intros [_ H] HI Hd Hr. split; [done|]. intros k Hk. by apply Hd, H, Hr. Qed.

(** Replacing a dispatcher by one that has started goroutines only if it had. *)
Lemma reached_pd p key pd pd' k : pds p !! key = Some pd ->
  ((0 < spawned pd')%nat -> (0 < spawned pd)%nat \/ reached p key) ->
  reached (set_pd key pd' p) k -> reached p k.
Proof.
  intros Ek Hsp [(pd0 & E0 & H0)|H0]; [|by right]. unfold set_pd in E0. cbn in E0.
  destruct (decide (key = k)) as [<-|Hne]; [|rewrite lookup_insert_ne in E0 by done; left; eauto].
  rewrite lookup_insert_eq in E0. injection E0 as <-. destruct (Hsp H0); [left; eauto|done].
Qed.

Lemma demand_step p l p' : demand_inv p -> pstep p l = Some p' -> demand_inv p'.
Proof.
  intros Hinv Hs. pose proof Hinv as [HI Hd].
  destruct l as [key req|key now|key|key|key l|key t| |x| |key]; cbn [Pipeline.step Gateway.step] in Hs.
  - unfold RequestChan_send in Hs. destruct (externalInputs (gw p) !! key); simplify_eq/=. by apply (demand_kept p).
  - unfold relay_request in Hs. destruct (relays (gw p) !! key) as [v|]; [|done].
    destruct (externalInputs (gw p) !! key) as [[|req rest]|]; [done| |done].
    destruct (internalInputBuffers (gw p) !! key) as [q|] eqn:Eq; [|done]. case_decide as Ht.
    + destruct (onReqIn (owner (gw p)) req) as [a|?|?|?] eqn:Ea; simplify_eq/=.
      destruct (in_demand _ _ _ HI Ea) as (HI' & Hnew & Hold). split; [done|]. intros k [Hk|Hk]; [by apply Hold, Hd; left|].
      cbn in Hk |- *. destruct (decide (Target req = k)) as [<-|Hne]; [done|]. rewrite lookup_insert_ne in Hk by done.
      by apply Hold, Hd; right.
    + simplify_eq/=. by apply (demand_kept p).
  - unfold relay_response in Hs. destruct (relays (gw p) !! key) as [v|]; [|done].
    destruct (internalOutputBuffers (gw p) !! key) as [[|r rest]|]; [done| |done].
    destruct (onReqOut (owner (gw p)) r) as [a|?|?|?] eqn:Ea; simplify_eq/=.
    destruct (out_demand _ _ _ HI Ea) as [HI' Hold]. by apply (demand_kept p).
  - destruct (pds p !! key) as [pd|] eqn:Ek; [|done]. cbn [mbind option_bind] in Hs.
    unfold dispatcher_recv in Hs. destruct (internalInputBuffers (gw p) !! key) as [[|req rest]|] eqn:E; try done.
    cbn [mbind option_bind] in Hs. destruct (disp_receive req pd) as [pd'|] eqn:Er; [|done]. injection Hs as <-.
    apply (demand_kept p); [done..|]. intros k [(pd0 & E0 & H0)|(req0 & q0 & E0)].
    + apply (reached_pd p key pd pd' k Ek); [|left; by exists pd0]. intros _. right. right. by eauto.
    + cbn in E0. destruct (decide (key = k)) as [<-|Hne]; [right; by eauto|]. rewrite lookup_insert_ne in E0 by done. right. by eauto.
  - destruct (pds p !! key) as [pd|] eqn:Ek; [|done]. cbn [mbind option_bind disp_step pod_dispatcher] in Hs.
    unfold pd_step in Hs. destruct (own_step (ctx_cancelled p) l) eqn:Ho; [|done].
    destruct (Dispatcher.step vars pd l) as [pd'|] eqn:Ed; [|done]. injection Hs as <-. apply (demand_kept p); [done..|].
    intros k. apply (reached_pd p key pd pd' k Ek). rewrite (spawned_step vars _ _ _ Ed). destruct l; try discriminate Ho; by left.
  - destruct (pds p !! key) as [pd|] eqn:Ek; [|done]. cbn [mbind option_bind disp_answer pod_dispatcher] in Hs.
    destruct (pd_answer t pd) as [[r pd']|] eqn:Ea; [|done]. cbn [mbind option_bind] in Hs.
    unfold dispatcher_send in Hs. destruct (internalOutputBuffers (gw p) !! key) as [q|]; [|done]. injection Hs as <-.
    apply pd_answer_inv in Ea as [_ Ea]. apply (demand_kept p); [done..|]. intros k [Hk|Hk]; [|by right].
    apply (reached_pd p key pd pd' k Ek); [|by left].
    rewrite (spawned_step vars pd (Dispatcher.LAnswer t) pd' Ea). by left.
  - unfold ResponseChan_recv in Hs. destruct (externalOutput (gw p)); simplify_eq/=. by apply (demand_kept p).
  - destruct (act x (owner (gw p))) as [a|] eqn:E; simplify_eq/=. destruct (act_demand _ _ _ HI E) as [HI' Hold].
    by apply (demand_kept p).
  - simplify_eq/=. by apply (demand_kept p).
  - destruct (ctx_cancelled p); [|done]. destruct (relays (gw p) !! key); simplify_eq/=. by apply (demand_kept p).
Qed.
End Demand.

(** * The Kubernetes gateway's autoscalers *)
Section K8sGateway.
Context {B W Q S M : Type} `{!TimedFloat64Buckets B} `{!TimeWindow W} `{!WorkQueue Q}
  `{!Client S} `{!PodLister S} `{!Scaler S} `{!ScalerLaws S} `{!SharedMap executor_obj M} `{!SharedMapLaws executor_obj M}.
Context (view : Autoscaler.Pod (S := S) -> Dispatcher.Pod).
Abbreviation AS := (K8s.autoscaler (KPADecider B W) Q).
Abbreviation world := (K8sRun.world (B := B) (W := W) (Q := Q) (S := S)).

(** The autoscaler has started its ticker for the target, or the scaling
    call. *)
Definition demanded (w : world) (key : string) : Prop :=
  match K8sRun.scaler w with
  | Some (K8s.KnativeAutoscaler a) => key ∈ tickers a
  | Some (K8s.OneTimeAutoscaler a) => (key, OneTime.initialScale a) ∈ OneTime.scaling a
  | None => False
  end.
(** [n] is the initial scale of the one-time autoscaler. *)
Definition tended (n : Z) (w : world) : Prop :=
  match K8sRun.scaler w with
  | Some (K8s.KnativeAutoscaler a) => exists keys, ticker_inv keys a
  | Some (K8s.OneTimeAutoscaler a) =>
      OneTime.initialScale a = n /\ forall k, default false (OneTime.seen a !! k) = true -> (k, n) ∈ OneTime.scaling a
  | None => False
  end.

Lemma tended_in n (w : world) req w' : tended n w -> K8sRun.onReqIn w req = Ok w' ->
  tended n w' /\ demanded w' (Target req) /\ forall k, demanded w k -> demanded w' k.
Proof.
  destruct w as [[[a|a]|] s now]; [| |done]; unfold tended, demanded, K8sRun.onReqIn; cbn [K8sRun.scaler K8sRun.clock K8sRun.api K8s.onReqIn].
  - intros [keys Hi] H. destruct (ReqIn a now req) as [a'|?|?|?] eqn:E; [|done..]. injection H as <-. cbn [K8sRun.scaler].
    pose proof (ticker_inv_reqin keys a now req a' Hi E) as Hi'. split; [by eexists|].
    destruct Hi as (_ & _ & Hk & _), Hi' as (_ & _ & Hk' & _). split; [rewrite Hk'; set_solver|]. intros k. rewrite Hk, Hk'. set_solver.
  - intros [Hn Hs] H. injection H as <-. cbn [K8sRun.scaler]. unfold OneTime.ReqIn.
    destruct (default false (OneTime.seen a !! Target req)) eqn:E; cbn [OneTime.seen OneTime.scaling OneTime.initialScale].
    + split; [done|]. split; [|done]. rewrite Hn. by apply Hs.
    + split; [|set_solver]. split; [done|]. intros k Hk. destruct (decide (Target req = k)) as [<-|Hne].
      * rewrite Hn. set_solver.
      * rewrite lookup_insert_ne in Hk by done. apply elem_of_app. left. by apply Hs.
Qed.
Lemma tended_out n (w : world) r w' : tended n w -> K8sRun.onReqOut w r = Ok w' ->
  tended n w' /\ forall k, demanded w k -> demanded w' k.
Proof.
  destruct w as [[[a|a]|] s now]; [| |done]; unfold tended, demanded, K8sRun.onReqOut; cbn [K8sRun.scaler K8sRun.clock K8sRun.api K8s.onReqOut].
  - intros [keys Hi] H. destruct (ReqOut a now r) as [a'|?|?|?] eqn:E; [|done..]. injection H as <-. cbn [K8sRun.scaler].
    assert (Impl.step (a, s) (LReqOut now r) = Some (a', s)) as Hst by (cbn; by rewrite E).
    pose proof (ticker_inv_step keys a s _ a' s Hi Hst) as Hi'. cbn in Hi'. rewrite app_nil_r in Hi'. split; [by eexists|].
    destruct Hi as (_ & _ & Hk & _), Hi' as (_ & _ & Hk' & _). intros k. by rewrite Hk, Hk'.
  - intros Hi H. by injection H as <-.
Qed.
Lemma tended_background n x (w w' : world) : tended n w -> K8sRun.run_background x w = Some w' ->
  tended n w' /\ forall k, demanded w k -> demanded w' k.
Proof.
  destruct w as [[[a|a]|] s now]; [| |done]; unfold tended, demanded; cbn [K8sRun.scaler].
  - intros [keys Hi] H.
    assert (forall l a' s', requested [l] = [] -> Impl.step (a, s) l = Some (a', s') ->
      (exists keys, ticker_inv keys a') /\ forall k, k ∈ tickers a -> k ∈ tickers a') as Hstep.
    { intros l a' s' Hl Hst. pose proof (ticker_inv_step keys a s l a' s' Hi Hst) as Hi'. rewrite Hl, app_nil_r in Hi'.
      split; [by eexists|]. destruct Hi as (_ & _ & Hk & _), Hi' as (_ & _ & Hk' & _). intros k. by rewrite Hk, Hk'. }
    destruct x as [t|s'|key|key|call]; unfold K8sRun.run_background in H; cbn [K8sRun.scaler K8sRun.api K8sRun.clock] in H;
      [injection H as <-; split; [by eexists|done]|injection H as <-; split; [by eexists|done]| | |done];
      (destruct (Impl.step (a, s) _) as [[a' s']|] eqn:E; [|done]); cbn [mbind option_bind] in H; injection H as <-;
      cbn [K8sRun.scaler]; (eapply Hstep; [|exact E]; reflexivity).
  - intros Hi H. destruct x as [t|s'|key|key|call]; unfold K8sRun.run_background in H;
      cbn [K8sRun.scaler K8sRun.api K8sRun.clock] in H; try done; try (by injection H as <-).
    case_decide; [|done]. by injection H as <-.
Qed.

Lemma created_tended emptyQueue f c keys (a : AS) (s : S) now :
  f = K8s.NewKPA (Some c) \/ f = K8s.NewOneTime (Some c) ->
  K8s.run_autoscaler_fn emptyQueue f keys = Ok a ->
  tended (OneTime.InitialScale (OneTime.Complete (K8s.OneTime c))) (K8sRun.mkWorld (Some (K8s.run_autoscaler a)) s now).
Proof.
  intros [-> | ->]; cbn [K8s.run_autoscaler_fn].
  - destruct (K8s.Knative c) as [cfg|]; [|done]. intros [= <-]. unfold tended. cbn [K8sRun.scaler K8s.run_autoscaler].
    exists []. split; [done|]. split; [constructor|]. split; [done|]. intros key d.
    cbn [deciders Impl.Run Knative.NewKnativeAutoscaler]. rewrite foldl_insert_lookup. case_decide; [|by rewrite lookup_empty].
    intros [= <-]. by rewrite bool_decide_false by apply not_elem_of_nil.
  - intros [= <-]. unfold tended. cbn [K8sRun.scaler K8s.run_autoscaler]. split; [done|]. intros k.
    cbn [OneTime.seen OneTime.Run OneTime.NewOneTimeAutoscaler].
    rewrite (foldl_insert_lookup (fun _ => false)). by case_decide; rewrite ?lookup_empty.
Qed.

(** Every request that a dispatcher has received has a demanding target. *)
Lemma reached_demanded n timeout targets now vars a f (w : S) ls p key :
  tended n (K8sRun.mkWorld (Some (K8s.run_autoscaler a)) w now) ->
  run (K8sRun.k8s_step vars) (K8sRun.started w now (K8s.launched (M := M) timeout targets now a f)) ls = Some p ->
  reached p key -> tended n (owner (gw p)) /\ demanded (owner (gw p)) key.
Proof.
  intros Ht Hrun Hre. set (p0 := K8sRun.started w now (K8s.launched (M := M) timeout targets now a f)) in *.
  assert (demand_inv (tended n) demanded p0) as H0.
  { destruct (K8s.launched_ready (M := M) timeout targets now a f) as ([(F1 & F2 & _) _] & Ho & _).
    destruct (K8s.launched_doms (M := M) timeout targets now a f) as (_ & _ & _ & _ & Hnew). split.
    - unfold p0, K8sRun.started, K8sRun.with_world. cbn [gw owner]. rewrite Ho. exact Ht.
    - intros k [(pd & Ek & Hsp)|(req & q & Eq)].
      + rewrite (Hnew k pd Ek) in Hsp. cbn in Hsp. lia.
      + by apply F2 in Eq. }
  clearbody p0. revert p0 H0 Hrun. induction ls as [|l ls IH]; intros p0 H0 Hrun.
  - cbn in Hrun. injection Hrun as <-. destruct H0 as [HI Hd]. split; [done|]. by apply Hd.
  - apply bind_Some in Hrun as (p1 & Hs & Hrun). apply (IH p1); [|exact Hrun].
    eapply demand_step; [apply tended_in|apply tended_out|apply tended_background|exact H0|exact Hs].
Qed.

(** A goroutine of a dispatcher has been started. *)
Lemma goroutine_reached (p : pipeline (A := world) (D := PodDispatcher M)) key pd t g :
  pds p !! key = Some pd -> spawned_inv pd -> goroutines pd !! t = Some g -> reached p key.
Proof.
  intros Ek Hf Et. left. exists pd. split; [done|]. destruct (decide (spawned pd = 0%nat)) as [E|]; [|lia].
  rewrite Hf in Et by lia. done.
Qed.

(** Steps of the autoscaler and of the cluster leave the dispatchers alone. *)
Lemma autoscaler_steps_pds vars acts (p p1 : pipeline (A := world) (D := PodDispatcher M)) :
  run (K8sRun.k8s_step vars) p (PAutoscaler <$> acts) = Some p1 -> pds p1 = pds p.
Proof.
  revert p. induction acts as [|x acts IH]; intros p H; [by injection H as <-|].
  rewrite fmap_cons in H. apply bind_Some in H as (p2 & Hs & H). rewrite (IH p2 H).
  unfold K8sRun.k8s_step in Hs. cbn [Pipeline.step] in Hs.
  destruct (K8sRun.run_background x (owner (gw p))) as [w|]; [|done]. by injection Hs as <-.
Qed.
(** The scaling that a waiting request has set off, as a step. *)
Definition scaling_offered vars n (key : string) (p : pipeline (A := world) (D := PodDispatcher M)) : Prop :=
  match K8sRun.scaler (owner (gw p)) with
  | Some (K8s.OneTimeAutoscaler a) =>
      exists p1, K8sRun.k8s_step vars p (PAutoscaler (K8sRun.BScaling (key, n))) = Some p1 /\
        forall s b, Scale (K8sRun.api (owner (gw p))) key n = (s, Ok b) ->
          K8sRun.api (owner (gw p1)) = s /\ scaled_to (K8sRun.api (owner (gw p))) key n s b
  | Some (K8s.KnativeAutoscaler a) =>
      exists p1 a1, K8sRun.k8s_step vars p (PAutoscaler (K8sRun.BTicker key)) = Some p1 /\
        K8sRun.scaler (owner (gw p1)) = Some (K8s.KnativeAutoscaler a1) /\ queue a1 = Add key (queue a) /\
        forall a2 s, Impl.scale a1 (K8sRun.api (owner (gw p1))) (K8sRun.clock (owner (gw p1))) key = (a2, s, Ok tt) ->
          exists p2 d count desired changed, K8sRun.k8s_step vars p1 (PAutoscaler (K8sRun.BWorker key)) = Some p2 /\
            K8sRun.api (owner (gw p2)) = s /\ deciders a1 !! key = Some d /\
            snd (dec_Reconcile d (K8sRun.clock (owner (gw p1))) count) = Ok desired /\
            scaled_to (K8sRun.api (owner (gw p1))) key desired s changed
  | None => False
  end.
Lemma demanded_offered vars n key p : tended n (owner (gw p)) -> demanded (owner (gw p)) key -> scaling_offered vars n key p.
Proof.
  unfold tended, demanded, scaling_offered.
  destruct (K8sRun.scaler (owner (gw p))) as [[a|a]|] eqn:Ea; [| |done].
  - intros _ Hk.
    eexists (set_gw (set_owner (K8sRun.mkWorld (Some (K8s.KnativeAutoscaler (tickAutoScaler key a))) (K8sRun.api (owner (gw p)))
      (K8sRun.clock (owner (gw p)))) (gw p)) p), (tickAutoScaler key a).
    split; [|split; [done|split; [done|]]].
    + unfold K8sRun.k8s_step. cbn [Pipeline.step]. unfold K8sRun.run_background. rewrite Ea. cbn [Impl.step]. by rewrite decide_True.
    + cbn [gw set_gw set_owner owner K8sRun.api K8sRun.clock]. intros a2 s Hs.
      pose proof (scale_applied (tickAutoScaler key a) (K8sRun.api (owner (gw p))) (K8sRun.clock (owner (gw p))) key) as Happ.
      rewrite Hs in Happ. destruct (Happ eq_refl) as (d & target & pods & desired & Hd & _ & _ & Hr & changed & _ & Hrep).
      eexists _, d, (count_ready pods), desired, changed. split; [|split; [|split; [exact Hd|split; [by rewrite Hr|exact Hrep]]]].
      * unfold K8sRun.k8s_step. cbn [Pipeline.step gw set_gw set_owner owner]. unfold K8sRun.run_background. cbn [K8sRun.scaler].
        cbn [Impl.step]. unfold processNextItem. cbn [K8sRun.api K8sRun.clock]. rewrite Hs. reflexivity.
      * done.
  - intros [Hn _] Hk. rewrite Hn in Hk. eexists. split.
    + unfold K8sRun.k8s_step. cbn [Pipeline.step]. unfold K8sRun.run_background. rewrite Ea. rewrite decide_True by done. reflexivity.
    + intros s b Hs. split; [|by apply scale_ok]. cbn. by rewrite Hs.
Qed.

Lemma event_name obj : str_has "/"%char (obj_namespace obj) = false -> str_has "/"%char (label obj "app") = false ->
  K8s.FilterEvent obj = true -> K8s.watch_event obj = Ok [mkNamespacedName (obj_namespace obj) (label obj "app")].
Proof.
  intros H1 H2 Hf. unfold K8s.watch_event, K8s.enqueueWorkload, NamespacedNameFromKey. by rewrite Hf, key_slash_free.
Qed.

(** C4. The loop of scaling from zero is closed.  Take a running Kubernetes
    gateway, with either autoscaler, after any steps that do not end its
    context, and a request that waits in the dispatcher of its target.  Then
    the autoscaler has been set in motion for that target: the scaling call of
    the one-time autoscaler, or the ticker of the Knative one and after it a
    worker, is a step of the system, which unless a call of it fails leaves
    the deployment at the API server with the initial scale, or with the
    decider's answer, or has read the deployment with that scale and leaves it
    alone.  And whatever autoscaler and cluster do then, once the API server
    lists a ready pod of the deployment, the event of an object of that
    deployment makes the controller enqueue its name, Reconcile hands the
    ready pods to the dispatcher, and there is a run of the system itself from
    there in which the client receives the successful response to the
    request. *)
Theorem first_request_scaled_and_served ReadFile Unmarshal emptyQueue timeout targets now vars
    asFramework asConfigPath text c (w : S) :
  asConfigPath <> "" -> ReadFile asConfigPath = Ok text -> Unmarshal text = Ok c -> K8s.configured asFramework c ->
  can_create vars ->
  exists g, K8s.launch (B := B) (W := W) ReadFile Unmarshal emptyQueue timeout targets now asFramework asConfigPath = Ok g /\
    forall ls p key pd t req, PCancel ∉ ls -> run (K8sRun.k8s_step vars) (K8sRun.started w now g) ls = Some p ->
      pds p !! key = Some pd -> goroutines pd !! t = Some (Waiting req) ->
    scaling_offered vars (OneTime.InitialScale (OneTime.Complete (K8s.OneTime c))) key p /\
    forall acts p1 IsNotFound obj target listed pod,
      run (K8sRun.k8s_step vars) p (PAutoscaler <$> acts) = Some p1 ->
      KeyFromObject obj = key -> K8s.FilterEvent obj = true ->
      str_has "/"%char (obj_namespace obj) = false -> str_has "/"%char (label obj "app") = false ->
      let api1 := K8sRun.api (owner (gw p1)) in
      let name := mkNamespacedName (obj_namespace obj) (label obj "app") in
      GetDeployment api1 name = Ok target ->
      ListPods api1 (dep_namespace target) (template_labels target) = Ok listed ->
      pod ∈ listed -> Autoscaler.IsPodReady pod = true ->
    K8s.watch_event obj = Ok [name] /\
    exists readyPods, K8s.Reconcile view IsNotFound api1 name g = Ok (Some (key, readyPods)) /\
      exists ls1 p2 ls2 p3 r,
        run (K8sRun.k8s_step vars) p1 ls1 = Some p2 /\
        run (K8sRun.k8s_step vars) p2 (PDispatch key (LReconcile readyPods) :: ls2) = Some p3 /\
        Forall (fun l => internal l = true) (ls1 ++ ls2) /\
        inr r ∈ trace (K8sRun.k8s_step vars) Pipeline.observe p2 (PDispatch key (LReconcile readyPods) :: ls2) /\
        answer_id r = ID req /\ Status r = SUCCESS.
Proof.
  intros Hp Hr Hu Hc Hcan.
  destruct (K8s.launch_created ReadFile Unmarshal emptyQueue timeout targets now _ _ _ _ Hp Hr Hu Hc) as (a & f & Hl & Hf & Ef).
  eexists. split; [exact Hl|]. intros ls p key pd t req Hn Hrun Ek Et.
  pose proof (K8s.created_accepting _ _ _ _ Hf) as Ha.
  assert (tended (OneTime.InitialScale (OneTime.Complete (K8s.OneTime c))) (K8sRun.mkWorld (Some (K8s.run_autoscaler a)) w now)) as Ht.
  { eapply created_tended; [|exact Hf]. rewrite Ef. case_decide; [by left|by right]. }
  destruct (K8sRun.launched_live timeout targets now w a f Ha) as [L0 _].
  pose proof (live_run _ _ _ vars _ _ (K8sRun.in_accepted _) (K8sRun.out_accepted _) (K8sRun.background_accepted _) _ ls p Hn L0 Hrun) as L.
  destruct (live_dispatchers _ _ p L key pd Ek) as ([Hsp _] & _ & _).
  destruct (reached_demanded _ timeout targets now vars a f w ls p key Ht Hrun (goroutine_reached p key pd t _ Ek Hsp Et)) as [Ht' Hd].
  split; [by apply demanded_offered|].
  intros acts p1 IsNotFound obj target listed pod Hacts Hkey Hfil Hs1 Hs2 api1 name Hdep Hlist Hin Hready.
  split; [by apply event_name|].
  assert (run (K8sRun.k8s_step vars) (K8sRun.started w now (K8s.launched (M := M) timeout targets now a f)) (ls ++ (PAutoscaler <$> acts))
    = Some p1) as Hrun1 by (by rewrite run_app, Hrun).
  assert (PCancel ∉ ls ++ (PAutoscaler <$> acts)) as Hn1.
  { rewrite elem_of_app, list_elem_of_fmap. intros [?|(x & Hx & _)]; done. }
  rewrite <- (autoscaler_steps_pds vars acts p p1 Hacts) in Ek.
  destruct (launched_request_served view timeout targets now vars a f w _ p1 key pd t req Ha Hcan Hn1 Hrun1 Ek Et IsNotFound name target listed pod
    Hkey Hdep Hlist Hin Hready) as (readyPods & HR & ls1 & p2 & ls2 & p3 & r & H1 & _ & H2 & H3).
  exists readyPods. split; [exact HR|]. by exists ls1, p2, ls2, p3, r.
Qed.
End K8sGateway.

(** * Witness *)
Module Demo.
#[local] Existing Instance Decider.Demo.last_buckets.
#[local] Existing Instance Decider.Demo.max_window.
#[local] Existing Instance MapServer.map_client.
#[local] Existing Instance MapServer.map_client_laws.
#[local] Existing Instance Autoscaler.Demo.list_queue.
#[local] Existing Instance Autoscaler.Demo.two_pods.
Import ColdStart.Demo.

(** A deployment that is scaled to zero, with a request that waits. *)
Definition zero : MapServer.server := fun ns nm =>
  if decide (ns = "default" /\ nm = "f") then Some (mkDeployment ns nm None (Some 0) ∅) else None.
Definition zero_start := K8sRun.started zero 10 Pipeline.Demo.demo_gateway.
Definition zero_waiting : pipeline (D := PodDispatcher (gmap string executor_obj)) :=
  default zero_start (run (K8sRun.k8s_step Flap.vars) zero_start waiting_steps).
Definition zero_pd : PodDispatcher (gmap string executor_obj) := default NewPodDispatcher (pds zero_waiting !! "default/f").
Definition zero_autoscaler : OneTime.OneTimeAutoscaler :=
  match K8sRun.scaler (owner (gw zero_waiting)) with
  | Some (K8s.OneTimeAutoscaler a) => a
  | _ => OneTime.NewOneTimeAutoscaler (OneTime.mkConfig 1) []
  end.
(** The scaling call, and then the cluster and the clock. *)
Definition reactions : list (K8sRun.background (S := MapServer.server)) :=
  [K8sRun.BScaling ("default/f", 1); K8sRun.BClock 40].
Definition zero_scaled : pipeline (D := PodDispatcher (gmap string executor_obj)) :=
  default zero_waiting (run (K8sRun.k8s_step Flap.vars) zero_waiting (PAutoscaler <$> reactions)).
Definition pod_object : Object :=
  mkObject "default" "f-1" (list_to_map [("app", "f"); ("workload", "trace")]).

Lemma first_request_scaled_and_served_witness :
  (exists p1, K8sRun.k8s_step Flap.vars zero_waiting (PAutoscaler (K8sRun.BScaling ("default/f", 1))) = Some p1 /\
     deployment_replicas (K8sRun.api (owner (gw p1))) "default/f" = Some 1) /\
  K8s.watch_event pod_object = Ok [mkNamespacedName "default" "f"] /\
  exists ls p r, run (K8sRun.k8s_step Flap.vars) zero_scaled ls = Some p /\
    inr r ∈ trace (K8sRun.k8s_step Flap.vars) Pipeline.observe zero_scaled ls /\ answer_id r = "1" /\ Status r = SUCCESS.
Proof.
  destruct (first_request_scaled_and_served (B := list f64) (W := Z) (Q := list string) (S := MapServer.server)
    (M := gmap string executor_obj) (fun _ => Flap.pod)
    (fun _ => Ok "{}") (fun _ => Ok (K8s.mkASConfig None None))
    [] (15 * Second) Gateway.Demo.listed 10 Flap.vars "one-time" "one-time.yaml" "{}"
    (K8s.mkASConfig None None) zero) as (g & Hg & H);
    [discriminate|reflexivity|reflexivity|left; reflexivity|left; reflexivity|].
  pose proof (Pipeline.Demo.demo_launched g Hg) as Eg. subst g.
  assert (Hn : PCancel ∉ waiting_steps).
  { unfold waiting_steps. repeat (apply not_elem_of_cons; split; [discriminate|]). apply not_elem_of_nil. }
  assert (Hp : run (K8sRun.k8s_step Flap.vars) zero_start waiting_steps = Some zero_waiting) by (vm_compute; reflexivity).
  assert (Ek : pds zero_waiting !! "default/f" = Some zero_pd) by (vm_compute; reflexivity).
  assert (Et : goroutines zero_pd !! 0%nat = Some (Waiting (set_GatewayRecvTS 30 (Gateway.Demo.req "1" "default/f"))))
    by (vm_compute; reflexivity).
  destruct (H waiting_steps zero_waiting "default/f" zero_pd 0%nat _ Hn Hp Ek Et) as [Hoff Hserve]. split.
  - assert (Ea : K8sRun.scaler (owner (gw zero_waiting)) = Some (K8s.OneTimeAutoscaler zero_autoscaler)) by (vm_compute; reflexivity).
    unfold scaling_offered in Hoff. rewrite Ea in Hoff. destruct Hoff as (p1 & Hs & Hrep). exists p1. split; [exact Hs|].
    destruct (Hrep (fst (Scale (K8sRun.api (owner (gw zero_waiting))) "default/f" 1)) true) as [-> Hr];
      [vm_compute; reflexivity|exact Hr].
  - assert (Hr : run (K8sRun.k8s_step Flap.vars) zero_waiting (PAutoscaler <$> reactions) = Some zero_scaled) by (vm_compute; reflexivity).
    destruct (Hserve reactions zero_scaled (fun _ => false) pod_object (mkDeployment "default" "f" None (Some 1) ∅) [true; false] true Hr)
      as (Hev & readyPods & _ & ls1 & p2 & ls2 & p3 & r & H1 & H2 & _ & H3 & H4 & H5);
      [reflexivity|reflexivity|reflexivity|reflexivity|vm_compute; reflexivity|vm_compute; reflexivity|apply list_elem_of_here|reflexivity|].
    split; [exact Hev|]. exists (ls1 ++ PDispatch "default/f" (LReconcile readyPods) :: ls2), p3, r.
    split; [rewrite run_app, H1; exact H2|]. split; [|split; [exact H4|exact H5]].
    rewrite (trace_app _ _ _ _ _ _ H1). apply elem_of_app. right. exact H3.
Defined.
End Demo.
