(* ===== verification/Replay.v ===== *)
(** pkg/replay: the workers that replay a trace against the gateway
    (worker.go) and the client that pairs deployments with traces, collects
    the responses and writes them out (client.go). *)
From Stdlib Require Import Ascii.
From S2P Require Import Prelude F64 Workload.
Import Selection Types.

(** * worker.go *)
Definition maxInvocationsPerSecondPerSender : Z := 1000.

Record worker := mkWorker {
  target : string;
  trace_spec : TraceSpec;
  clientStartTime : time;
  nSenders : Z;
  senderInvocations : list (list InvocationSpec)
}.

(** [math.Ceil(float64(n) / 60 / maxInvocationsPerSecondPerSender)], as an
    int. *)
Definition senders_for (n : nat) : Z :=
  f2i (fceil (fdiv (fdiv (of_Z (Z.of_nat n)) (of_Z 60)) (of_Z maxInvocationsPerSecondPerSender))).

(** The sharding loop, invocation [i] to bin [i % k]. *)
Definition shard_one {A} (k : nat) (bins : list (list A)) (x : nat * A) : list (list A) :=
  alter (fun bin => bin ++ [snd x]) (fst x mod k)%nat bins.
Definition shard {A} (k : nat) (l : list A) : list (list A) :=
  foldl (shard_one k) (replicate k []) (imap pair l).

(** [make] panics for a negative length, [i % 0] for a zero divisor. *)
Definition newWorker (key : string) (trace : TraceSpec) : res worker :=
  let n := senders_for (length (Invocations trace)) in
  if n <? 0 then Panic "makeslice: len out of range"
  else if (n =? 0) && negb (bool_decide (Invocations trace = [])) then Panic "integer divide by zero"
  else Ok (mkWorker key trace zero_time n (shard (Z.to_nat n) (Invocations trace))).

(** [time.Duration(s * float64(time.Second))]. *)
Definition seconds_to_duration (s : f64) : duration := f2i (fmul s (of_Z Second)).

(** [next]: the time a request is due, and how long to wait for it. *)
Definition nextSendTS (w : worker) (nextRequestTime : f64) : time :=
  time_add (clientStartTime w) (seconds_to_duration nextRequestTime).
Definition next_wait (w : worker) (nextRequestTime : f64) (now : time) : duration :=
  time_sub (nextSendTS w nextRequestTime) now.

Definition request_id (w : worker) (senderID reqID : nat) : string :=
  target w +:+ "-" +:+ pretty senderID +:+ "/" +:+ pretty reqID.

(** One iteration of [send], whose timer fires at [now]. *)
Definition send_request (w : worker) (senderID reqID : nat) (spec : InvocationSpec) (now : time) : Request :=
  mkRequest (request_id w senderID reqID) (target w) (RuntimeMilliSec spec) now zero_time zero_time
    (time_sub now (clientStartTime w)) (seconds_to_duration (ArrivalTimeSec spec)).

(** [send]: the requests of a sender, whose timers fire at the given times. *)
Definition send (w : worker) (senderID : nat) (fired : list time) : res (list Request) :=
  match senderInvocations w !! senderID with
  | None => Panic "index out of range"
  | Some specs => Ok (imap (fun reqID '(spec, now) => send_request w senderID reqID spec now) (zip specs fired))
  end.

Definition set_start (start : time) (w : worker) : worker :=
  mkWorker (target w) (trace_spec w) start (nSenders w) (senderInvocations w).

(** [replay]: all senders, [fired i] the timers of sender [i]; the requests
    grouped by sender. *)
Definition replay (w : worker) (start : time) (fired : nat -> list time) : res (list (list Request)) :=
  let w := set_start start w in
  res_foldl (fun acc i => reqs ← send w i (fired i); Ok (acc ++ [reqs])) [] (seq 0 (Z.to_nat (nSenders w))).

(** * client.go *)
Definition initial_sampleOutputFactor : Z := 1.
Definition SampleOutput (factor : Z) : Z := factor.

Record ReplayClient := mkClient {
  traces : list TraceSpec;
  workers : gmap string worker
}.

(** [NewClient]: [load] is [LoadTraceFromConfig], [Create] whether the output
    file can be created. *)
Definition NewClient (load : string -> res (list TraceSpec)) (Create : string -> res unit)
    (loaderConfig outputPath : string) : res ReplayClient :=
  traces ← load loaderConfig;
  _ ← wrap_err ("failed to create output file " +:+ outputPath +:+ ": ") (Create outputPath);
  Ok (mkClient traces ∅).

(** The loop over the listed deployments: deployment [i] gets trace [i]. *)
Definition setup_worker (c : ReplayClient) (x : nat * Object) : res ReplayClient :=
  let key := KeyFromObject (snd x) in
  match traces c !! fst x with
  | None => Panic "index out of range"
  | Some trace =>
      wrk ← newWorker key trace;
      Ok (mkClient (traces c) (<[key := wrk]> (workers c)))
  end.

Definition SetupWithManager (targets : res (list Object)) (c : ReplayClient) : res ReplayClient :=
  targets ← wrap_err "error listing deployments in client: " targets;
  if (length (traces c) <? length targets)%nat
  then Err ("mismatched deployments and traces: expected " +:+ pretty (Z.of_nat (length (traces c))) +:+ ", got " +:+
            pretty (Z.of_nat (length targets)))
  else res_foldl setup_worker c (imap pair targets).

(** [recv]: a response received at [now] goes to the writer. *)
Definition recv_one (now : time) (r : Response) : Response := set_ClientRecvTS now r.

(** The loop of [write], up to a nil response or the end of the channel:
    counters and the output file's contents. *)
Record writer := mkWriter { nTotal : Z; nFailed : Z; output : list string }.
Definition write_one (sampleOutputFactor : Z) (WriteFails : string -> bool) (w : writer) (r : Response) : res writer :=
  let total := int64 (nTotal w + 1) in
  let failed := if decide (Status r = SUCCESS) then nFailed w else int64 (nFailed w + 1) in
  if sampleOutputFactor =? 0 then Panic "integer divide by zero"
  else if Z.rem total sampleOutputFactor =? 0 then
    line ← Summary r;
    if WriteFails line then Panic "Failed to write response"
    else Ok (mkWriter total failed (output w ++ [line]))
  else Ok (mkWriter total failed (output w)).

Fixpoint until_nil {A} (l : list (option A)) : list A :=
  match l with
  | Some x :: l' => x :: until_nil l'
  | _ => []
  end.

Definition write_summary (w : writer) : string :=
  "Summary: total " +:+ pretty (nTotal w) +:+ " success " +:+ pretty (nTotal w - nFailed w) +:+
  " fail " +:+ pretty (nFailed w) +:+ String (ascii_of_nat 10) "".

(** [write]; [WriteFails] says whether writing a line fails. *)
Definition write (sampleOutputFactor : Z) (WriteFails : string -> bool) (responses : list (option Response))
  : res (list string) :=
  w ← res_foldl (write_one sampleOutputFactor WriteFails) (mkWriter 0 0 []) (until_nil responses);
  if WriteFails (write_summary w) then Panic "Failed to write request summary"
  else Ok (output w ++ [write_summary w]).

(** * Properties *)

(** ** Sharding *)
Section Sharding.
Context {A : Type}.
Implicit Types l : list A.

Lemma senders_pos n : (0 < n)%nat -> Z.of_nat n < 2 ^ 53 -> 1 <= senders_for n < 2 ^ 62.
Proof.
  intros Hn Hb. unfold senders_for, maxInvocationsPerSecondPerSender.
  destruct (fmag_of_Z (Z.of_nat n)) as (m0 & e0 & -> & H0 & V0); [unfold exact_int; lia|lia|].
  destruct (fmag_of_Z 60) as (m1 & e1 & E1 & _ & V1); [done|done|].
  assert (fmag m1 e1 = 6) as H1 by (vm_compute in E1; injection E1 as <- <-; reflexivity).
  destruct (fmag_of_Z 1000) as (m2 & e2 & E2 & _ & V2); [done|done|].
  assert (fmag m2 e2 = 10) as H2 by (vm_compute in E2; injection E2 as <- <-; reflexivity).
  rewrite E1, E2. destruct (fdiv_mag false m0 e0 false m1 e1 V0 V1) as (m3 & e3 & E3 & H3); [lia|].
  pose proof (fdiv_valid _ _ V0 V1) as V3. rewrite E3 in V3 |- *.
  destruct (fdiv_mag false m3 e3 false m2 e2 V3 V2) as (m4 & e4 & E4 & H4); [lia|].
  pose proof (fdiv_valid _ _ V3 V2) as V4. simpl xorb in *. rewrite E4 in V4 |- *.
  apply f2i_ceil_pos; [done|lia].
Qed.

Lemma shard_length k l : length (shard k l) = k.
Proof.
  unfold shard. induction l as [|x l IH] using rev_ind; [simpl; apply length_replicate|].
  rewrite imap_app, foldl_app. simpl. unfold shard_one at 1. by rewrite length_alter.
Qed.

Lemma shard_snoc k l x : shard k (l ++ [x]) = alter (fun bin => bin ++ [x]) (length l mod k)%nat (shard k l).
Proof. unfold shard. rewrite imap_app, foldl_app. simpl. unfold shard_one at 1. simpl. by rewrite Nat.add_0_r. Qed.

(** Shard [i] holds the elements at positions i, i+k, i+2k, ... *)
Lemma shard_lookup k l : (0 < k)%nat -> forall i bin j, shard k l !! i = Some bin -> bin !! j = l !! (i + j * k)%nat.
Proof.
  intros Hk. induction l as [|x l IH] using rev_ind; intros i bin j Hi.
  - unfold shard in Hi. simpl in Hi. apply lookup_replicate in Hi as [-> _]. done.
  - rewrite shard_snoc in Hi. assert (i < k)%nat as Hik.
    { rewrite <- (shard_length k (l ++ [x])), shard_snoc. by eapply lookup_lt_Some. }
    destruct (decide (length l mod k = i)%nat) as [Hm|Hm].
    + rewrite <- Hm, list_lookup_alter in Hi. destruct (shard k l !! (length l mod k)%nat) as [b|] eqn:E; simplify_eq/=; [|by case_decide].
      rewrite decide_True in Hi by done. simplify_eq.
      pose proof (Nat.div_mod_eq (length l) k) as Hdm.
      assert (length b = length l / k)%nat as Hlen.
      { apply Nat.le_antisymm; apply Nat.nlt_ge; intros Hlt.
        - destruct (b !! (length l / k)%nat) as [y|] eqn:Ey; [|apply lookup_ge_None in Ey; lia].
          rewrite (IH _ _ _ E) in Ey. apply lookup_lt_Some in Ey. lia.
        - assert (b !! length b = None) as Hn by (apply lookup_ge_None; lia).
          rewrite (IH _ _ _ E) in Hn. apply lookup_ge_None in Hn. nia. }
      destruct (Nat.lt_trichotomy j (length b)) as [Hj|[Hj|Hj]].
      * rewrite (lookup_app_l b) by done. rewrite (IH _ _ _ E), (lookup_app_l l); [done|]. nia.
      * subst j. rewrite (list_lookup_middle b) by done.
        replace (length l mod k + length b * k)%nat with (length l) by lia. by rewrite list_lookup_middle.
      * rewrite lookup_ge_None_2 by (rewrite length_app; simpl; lia).
        symmetry. apply lookup_ge_None_2. rewrite length_app. simpl. nia.
    + rewrite list_lookup_alter_ne in Hi by done. rewrite (IH _ _ _ Hi).
      destruct (Nat.lt_trichotomy (i + j * k) (length l)) as [Hj|[Hj|Hj]].
      * by rewrite lookup_app_l by done.
      * exfalso. apply Hm. rewrite <- Hj. rewrite Nat.Div0.mod_add. by apply Nat.mod_small.
      * rewrite !lookup_ge_None_2; [done|rewrite length_app; simpl; lia|lia].
Qed.

Lemma alter_concat k (bins : list (list A)) x : (k < length bins)%nat ->
  concat (alter (fun bin => bin ++ [x]) k bins) ≡ₚ concat bins ++ [x].
Proof.
  revert k. induction bins as [|b bins IH]; intros k Hk; simpl in Hk; [lia|].
  destruct k as [|k]; simpl.
  - rewrite <- !(assoc_L (++)). apply Permutation_app_head. apply Permutation_app_comm.
  - rewrite <- !(assoc_L (++)). apply Permutation_app_head. apply IH. lia.
Qed.

Lemma shard_Permutation k l : (0 < k)%nat -> concat (shard k l) ≡ₚ l.
Proof.
  intros Hk. induction l as [|x l IH] using rev_ind.
  - unfold shard. simpl. clear. by induction k.
  - rewrite shard_snoc, alter_concat; [by rewrite IH|]. rewrite shard_length. apply Nat.mod_upper_bound. lia.
Qed.
End Sharding.

(** ** Request ids *)
Lemma pretty_N_go_no_slash x s : str_has "/"%char s = false -> str_has "/"%char (pretty_N_go x s) = false.
Proof.
  revert s. induction (N.lt_wf_0 x) as [x _ IH]; intros s Hs.
  assert (x = 0 \/ 0 < x)%N as [->|Hx] by lia; [by rewrite pretty_N_go_0|].
  rewrite pretty_N_go_step by done. apply IH; [by apply N.div_lt|].
  cbn [str_has]. apply orb_false_iff. split; [|done]. unfold pretty_N_char. by repeat case_match.
Qed.
Lemma pretty_nat_no_slash (n : nat) : str_has "/"%char (pretty n) = false.
Proof.
  change (pretty n) with (pretty (N.of_nat n)). unfold pretty, pretty_N.
  case_decide; [done|]. by apply pretty_N_go_no_slash.
Qed.

Lemma request_id_inj w s r s' r' : request_id w s r = request_id w s' r' -> s = s' /\ r = r'.
Proof.
  unfold request_id. intros H%str_app_inj_l%str_app_inj_l.
  change ("/" +:+ pretty r) with (String "/"%char (pretty r)) in H.
  change ("/" +:+ pretty r') with (String "/"%char (pretty r')) in H.
  assert (split_on "/"%char (pretty s +:+ String "/"%char (pretty r)) =
          split_on "/"%char (pretty s' +:+ String "/"%char (pretty r'))) as Hs by (by rewrite H).
  rewrite !split_on_app, !split_on_none in Hs by apply pretty_nat_no_slash.
  injection Hs as H1 H2. split; by eapply (inj pretty).
Qed.

(** ** Replay *)
Lemma newWorker_ok key trace : Z.of_nat (length (Invocations trace)) < 2 ^ 53 ->
  exists k, newWorker key trace = Ok (mkWorker key trace zero_time (Z.of_nat k) (shard k (Invocations trace))) /\
    (Invocations trace <> [] -> (0 < k)%nat) /\ (Invocations trace = [] -> k = 0%nat).
Proof.
  intros Hb. unfold newWorker. destruct (Invocations trace) as [|x l] eqn:E.
  - exists 0%nat. simpl. change (senders_for 0) with 0. by split.
  - pose proof (senders_pos (length (x :: l)) ltac:(simpl; lia) Hb) as Hs.
    set (n := senders_for (length (x :: l))) in *. exists (Z.to_nat n).
    rewrite (proj2 (Z.ltb_ge n 0)), (proj2 (Z.eqb_neq n 0)) by lia. cbn [andb].
    rewrite Z2Nat.id by lia. split; [done|]. split; [lia|done].
Qed.

(** The workers of a client that is set up: each is for a listed deployment,
    and its senders hold all the invocations of its trace. *)
Definition wf_worker (w : worker) : Prop :=
  length (senderInvocations w) = Z.to_nat (nSenders w) /\
  length (concat (senderInvocations w)) = length (Invocations (trace_spec w)).
Lemma newWorker_wf key trace w : newWorker key trace = Ok w -> target w = key /\ wf_worker w.
Proof.
  unfold newWorker. destruct (_ <? 0) eqn:E1; [done|]. destruct (_ && _) eqn:E2; [done|]. intros [= <-]. split; [done|].
  unfold wf_worker. cbn. rewrite shard_length. split; [done|].
  set (n := senders_for (length (Invocations trace))) in *. apply Z.ltb_ge in E1.
  destruct (n =? 0) eqn:En; cbn [andb] in E2.
  - apply Z.eqb_eq in En. rewrite En. apply negb_false_iff, bool_decide_eq_true in E2. by rewrite E2.
  - apply Z.eqb_neq in En. apply Permutation_length, shard_Permutation. lia.
Qed.
Lemma SetupWithManager_workers targets traces c :
  SetupWithManager (Ok targets) (mkClient traces ∅) = Ok c ->
  forall key w, workers c !! key = Some w -> key ∈ KeyFromObject <$> targets /\ target w = key /\ wf_worker w.
Proof.
  unfold SetupWithManager. cbn [wrap_err mbind res_bind]. destruct (_ <? _)%nat; [done|]. intros H.
  set (P := fun c : ReplayClient => forall key w, workers c !! key = Some w ->
    key ∈ KeyFromObject <$> targets /\ target w = key /\ wf_worker w).
  change (P c). apply (res_foldl_invariant setup_worker P (imap pair targets) (mkClient traces ∅) c); [| |exact H].
  - intros c1 [i t] c2 Hin Hc1 Hs. unfold setup_worker in Hs. destruct (Replay.traces c1 !! _) as [trace|]; [|done].
    apply res_bind_ok in Hs as (wrk & Hw & Hs). injection Hs as <-. intros key w. cbn [workers snd].
    destruct (decide (KeyFromObject t = key)) as [<-|Hne]; [|rewrite lookup_insert_ne by done; apply Hc1].
    rewrite lookup_insert_eq. intros [= <-]. destruct (newWorker_wf _ _ _ Hw) as [-> Hwf]. split; [|by split].
    apply list_elem_of_fmap. exists t. split; [done|]. apply elem_of_lookup_imap in Hin as (j & y & [= -> ->] & Hy).
    by eapply list_elem_of_lookup_2.
  - intros key w Hw. cbn in Hw. by rewrite lookup_empty in Hw.
Qed.

Lemma replay_senders w (fired : nat -> list time) ids acc :
  (forall i, i ∈ ids -> (i < length (senderInvocations w))%nat) ->
  res_foldl (fun acc i => reqs ← send w i (fired i); Ok (acc ++ [reqs])) acc ids =
  Ok (acc ++ ((fun i => imap (fun r '(spec, now) => send_request w i r spec now)
                 (zip (default [] (senderInvocations w !! i)) (fired i))) <$> ids)).
Proof.
  revert acc. induction ids as [|i ids IH]; intros acc Hi; [simpl; by rewrite app_nil_r|].
  destruct (lookup_lt_is_Some_2 (senderInvocations w) i) as [specs Hs]; [apply Hi; left|].
  cbn [res_foldl]. assert (send w i (fired i) =
    Ok (imap (fun r '(spec, now) => send_request w i r spec now) (zip specs (fired i)))) as ->
    by (unfold send; by rewrite Hs).
  cbn [mbind res_bind]. rewrite IH by (intros j Hj; apply Hi; by right). simpl. by rewrite Hs, <- (assoc_L (++)).
Qed.

(** The requests of sender [i] when its timers fire at [fired i]. *)
Lemma sent_runtimes w i specs (times : list time) : (length specs <= length times)%nat ->
  DurationMilliSec <$> imap (fun r '(spec, now) => send_request w i r spec now) (zip specs times) = RuntimeMilliSec <$> specs.
Proof.
  intros Hl. rewrite fmap_imap.
  rewrite (imap_ext _ (fun _ x => RuntimeMilliSec (fst x))) by (by intros ? [??] ?).
  rewrite <- (fst_zip specs times Hl) at 2. generalize (zip specs times). intros l.
  induction l as [|x l IH]; [done|]. simpl. f_equal. apply IH.
Qed.

(** The senders together, once all their timers have fired, have sent the
    invocations of all the shards. *)
Lemma all_runtimes w (fired : nat -> list time) (bins : list (list InvocationSpec)) :
  (forall i bin, bins !! i = Some bin -> (length bin <= length (fired i))%nat) ->
  DurationMilliSec <$> concat ((fun i => imap (fun r '(spec, now) => send_request w i r spec now)
      (zip (default [] (bins !! i)) (fired i))) <$> seq 0 (length bins)) = RuntimeMilliSec <$> concat bins.
Proof.
  induction bins as [|bin bins IH] using rev_ind; intros Hf; [done|].
  rewrite length_app, seq_app, fmap_app, !concat_app, !fmap_app. simpl. rewrite !app_nil_r, list_lookup_middle by done.
  rewrite <- IH by (intros i b Hb; apply Hf; by apply lookup_app_l_Some). f_equal.
  - do 2 f_equal. apply list_fmap_ext. intros j i [-> Hi]%lookup_seq. by rewrite lookup_app_l by done.
  - apply sent_runtimes, Hf. by rewrite list_lookup_middle.
Qed.

(** Request [r] of sender [s], as a list lookup. *)
Lemma sent_request w k (fired : nat -> list time) s r req (bins : list (list InvocationSpec)) : length bins = k ->
  (exists sent, ((fun i => imap (fun r '(spec, now) => send_request w i r spec now)
      (zip (default [] (bins !! i)) (fired i))) <$> seq 0 k) !! s = Some sent /\ sent !! r = Some req) <->
  exists bin spec now, bins !! s = Some bin /\ bin !! r = Some spec /\ fired s !! r = Some now /\
    req = send_request w s r spec now.
Proof.
  intros Hk. split.
  - intros (sent & Hs & Hr). apply list_lookup_fmap_Some in Hs as (i & -> & Hi).
    apply lookup_seq in Hi as [-> Hs]. simpl in Hr. rewrite list_lookup_imap in Hr.
    destruct (zip _ (fired s) !! r) as [[spec now]|] eqn:E; simplify_eq/=.
    apply lookup_zip_Some in E as [E1 E2]. destruct (lookup_lt_is_Some_2 bins s) as [bin Hbin]; [lia|].
    rewrite Hbin in E1. by exists bin, spec, now.
  - intros (bin & spec & now & Hb & Hr & Hn & ->). eexists. split.
    + rewrite list_lookup_fmap, lookup_seq_lt by (apply lookup_lt_Some in Hb; lia). reflexivity.
    + rewrite list_lookup_imap. cbn [Nat.add]. rewrite Hb. simpl. by rewrite (proj2 (lookup_zip_Some bin (fired s) r spec now)).
Qed.

(** C18. A replay sends every invocation of its trace exactly once: a worker
    can be made for every trace (of fewer than 2^53 invocations), it has a
    sender as soon as there is an invocation, invocation [r*k+s] of the trace
    is request [r] of sender [s] among [k], and the senders together hold a
    permutation of the trace. Whatever the times [fired s] at which the
    timers of sender [s] fire (they stop when the client is cancelled), each
    invocation whose timer has fired is sent, as that request of that sender,
    to the worker's target, with the invocation's runtime and the time of the
    firing; there is no other request, no two of them have the same id, and
    when the timer of every invocation fires the runtimes sent are exactly
    those of the trace. *)
Theorem replay_sends_each_once key trace start fired :
  Z.of_nat (length (Invocations trace)) < 2 ^ 53 ->
  exists w k, newWorker key trace = Ok w /\ nSenders w = Z.of_nat k /\
    (Invocations trace <> [] -> (0 < k)%nat) /\
    (forall s bin, senderInvocations w !! s = Some bin ->
       forall r, bin !! r = Invocations trace !! (s + r * k)%nat) /\
    concat (senderInvocations w) ≡ₚ Invocations trace /\
    exists reqs, replay w start fired = Ok reqs /\ length reqs = k /\
      (forall p spec now, Invocations trace !! p = Some spec -> fired (p mod k)%nat !! (p / k)%nat = Some now ->
         exists sent req, reqs !! (p mod k)%nat = Some sent /\ sent !! (p / k)%nat = Some req /\
           Target req = key /\ DurationMilliSec req = RuntimeMilliSec spec /\ ClientSendTS req = now) /\
      ((forall s bin, senderInvocations w !! s = Some bin -> (length bin <= length (fired s))%nat) ->
         DurationMilliSec <$> concat reqs ≡ₚ RuntimeMilliSec <$> Invocations trace) /\
      (forall s sent r req, reqs !! s = Some sent -> sent !! r = Some req ->
         exists spec now, Invocations trace !! (s + r * k)%nat = Some spec /\ fired s !! r = Some now /\
           Target req = key /\ DurationMilliSec req = RuntimeMilliSec spec /\ ClientSendTS req = now) /\
      (forall s sent r req s' sent' r' req',
         reqs !! s = Some sent -> sent !! r = Some req -> reqs !! s' = Some sent' -> sent' !! r' = Some req' ->
         ID req = ID req' -> s = s' /\ r = r').
Proof.
  intros Hb. destruct (newWorker_ok key trace Hb) as (k & Hw & Hpos & Hzero).
  eexists _, k. split; [exact Hw|]. split; [done|]. split; [done|]. cbn [senderInvocations].
  assert (forall s bin, shard k (Invocations trace) !! s = Some bin ->
    forall r, bin !! r = Invocations trace !! (s + r * k)%nat) as Hl.
  { intros s bin Hs r. apply (shard_lookup k (Invocations trace)); [|done].
    apply lookup_lt_Some in Hs. rewrite shard_length in Hs. lia. }
  split; [exact Hl|].
  assert (concat (shard k (Invocations trace)) ≡ₚ Invocations trace) as Hperm.
  { destruct (decide (Invocations trace = [])) as [E|E]; [rewrite E, (Hzero E); reflexivity|].
    apply shard_Permutation. by apply Hpos. }
  split; [exact Hperm|]. eexists. split.
  { unfold replay. apply replay_senders. intros i. rewrite elem_of_seq. simpl. rewrite shard_length. lia. }
  simpl. rewrite Nat2Z.id. split; [by rewrite length_fmap, length_seq|].
  set (w := set_start start _). pose proof (shard_length k (Invocations trace)) as Hk.
  set (reqs := _ <$> seq 0 k).
  assert (forall s sent r req, reqs !! s = Some sent -> sent !! r = Some req ->
      exists spec now, Invocations trace !! (s + r * k)%nat = Some spec /\
        fired s !! r = Some now /\ req = send_request w s r spec now) as Hreq.
  { intros s sent r req Hs Hr. destruct (proj1 (sent_request w k fired s r req _ Hk)) as (bin & spec & now & H1 & H2 & H3 & H4); [by exists sent|].
    exists spec, now. by rewrite <- (Hl _ _ H1). }
  repeat split.
  - intros p spec now Hp Hf. assert (k <> 0%nat) as Hk0.
    { specialize (Hpos ltac:(intros E; by rewrite E in Hp)). lia. }
    destruct (lookup_lt_is_Some_2 (shard k (Invocations trace)) (p mod k)) as [bin Hbin]; [rewrite Hk; by apply Nat.mod_upper_bound|].
    destruct (proj2 (sent_request w k fired (p mod k) (p / k) (send_request w (p mod k) (p / k) spec now) _ Hk)) as (sent & H1 & H2);
      [|by exists sent, (send_request w (p mod k) (p / k) spec now)].
    exists bin, spec, now. rewrite (Hl _ _ Hbin), (Nat.mul_comm (p / k) k), Nat.add_comm. by rewrite <- Nat.div_mod_eq.
  - intros Hf. rewrite <- Hperm. unfold reqs. rewrite <- Hk at 1. by rewrite all_runtimes.
  - intros s sent r req Hs Hr. destruct (Hreq s sent r req Hs Hr) as (spec & now & H1 & H2 & ->). by exists spec, now.
  - destruct (Hreq _ _ _ _ H H0) as (spec & now & _ & _ & ->), (Hreq _ _ _ _ H1 H2) as (spec' & now' & _ & _ & ->).
    apply request_id_inj in H3. apply H3.
  - destruct (Hreq _ _ _ _ H H0) as (spec & now & _ & _ & ->), (Hreq _ _ _ _ H1 H2) as (spec' & now' & _ & _ & ->).
    apply request_id_inj in H3. apply H3.
Qed.

(** No request is sent before its time: when the timer that [next] armed
    at [asked] fires no earlier than the wait it was given, the request's
    relative send time is at least its time in the trace, for every arrival
    time whatsoever (one that overflows the conversion included). *)
Theorem request_not_early w senderID reqID spec asked fired :
  - 2 ^ 63 <= nextSendTS w (ArrivalTimeSec spec) - asked < 2 ^ 63 ->
  asked + next_wait w (ArrivalTimeSec spec) asked <= fired ->
  let req := send_request w senderID reqID spec fired in
  TraceRelTime req <= ClientRelTime req /\
  (fired - clientStartTime w < 2 ^ 63 -> ClientSendTS req = clientStartTime w + ClientRelTime req).
Proof.
  unfold next_wait, nextSendTS, time_add, seconds_to_duration. intros Ha Hf. simpl.
  unfold seconds_to_duration. pose proof (f2i_range (fmul (ArrivalTimeSec spec) (of_Z Second))) as Hr.
  set (d := f2i (fmul (ArrivalTimeSec spec) (of_Z Second))) in *.
  rewrite time_sub_exact in Hf by lia. unfold time_sub, minInt64, maxInt64 in *. lia.
Qed.

(** ** The output file *)
Lemma Summary_ok r : exists line, Summary r = Ok line.
Proof. unfold Summary. destruct (Status r); simpl; eauto. Qed.

(** The lines of the responses whose number, counted from 1, is a multiple of
    the sampling factor. *)
Definition sampled (factor : Z) (rs : list Response) : list string :=
  omap (fun x => match Summary (snd x) with
                 | Ok line => if Z.rem (Z.of_nat (S (fst x))) factor =? 0 then Some line else None
                 | _ => None
                 end) (imap pair rs).
Definition failures (rs : list Response) : Z := Z.of_nat (length (filter (fun r => Status r <> SUCCESS) rs)).

Lemma write_loop factor WriteFails rs : factor <> 0 -> (forall line, WriteFails line = false) ->
  Z.of_nat (length rs) < 2 ^ 62 ->
  res_foldl (write_one factor WriteFails) (mkWriter 0 0 []) rs =
  Ok (mkWriter (Z.of_nat (length rs)) (failures rs) (sampled factor rs)).
Proof.
  intros Hf Hw. induction rs as [|r rs IH] using rev_ind; intros Hb; [done|].
  rewrite length_app in Hb. simpl in Hb. rewrite res_foldl_app, IH by lia. simpl. unfold write_one. cbn [nTotal nFailed output].
  assert (0 <= failures rs <= Z.of_nat (length rs)) as Hfr.
  { unfold failures. pose proof (length_filter (fun r => Status r <> SUCCESS) rs). lia. }
  rewrite !int64_id by lia. rewrite (proj2 (Z.eqb_neq factor 0)) by done.
  assert (Z.of_nat (length (rs ++ [r])) = Z.of_nat (length rs) + 1) as Hlen by (rewrite length_app; simpl; lia).
  assert (failures (rs ++ [r]) = if decide (Status r = SUCCESS) then failures rs else failures rs + 1) as Hfail.
  { unfold failures. rewrite filter_app, length_app. simpl. unfold filter. simpl. repeat case_decide; simpl; try done; lia. }
  destruct (Summary_ok r) as [line Hline].
  assert (sampled factor (rs ++ [r]) = sampled factor rs ++
    (if Z.rem (Z.of_nat (length rs) + 1) factor =? 0 then [line] else [])) as Hs.
  { unfold sampled. rewrite imap_app, omap_app. f_equal. simpl. rewrite Hline, Nat.add_0_r.
    replace (Z.of_nat (S (length rs))) with (Z.of_nat (length rs) + 1) by lia. by destruct (_ =? 0). }
  rewrite Hlen, Hfail, Hs. destruct (Z.rem (Z.of_nat (length rs) + 1) factor =? 0).
  - rewrite Hline. simpl. by rewrite Hw.
  - by rewrite app_nil_r.
Qed.

Lemma until_nil_all {A} (l : list A) : until_nil (Some <$> l) = l.
Proof. induction l as [|x l IH]; [done|]. cbn. by rewrite IH. Qed.
Lemma write_all_ok factor WriteFails rs : factor <> 0 -> (forall line, WriteFails line = false) ->
  Z.of_nat (length rs) < 2 ^ 62 ->
  write factor WriteFails (Some <$> rs) =
    Ok (sampled factor rs ++ [write_summary (mkWriter (Z.of_nat (length rs)) (failures rs) [])]).
Proof. intros Hf Hw Hb. unfold write. rewrite until_nil_all, write_loop by done. simpl. by rewrite Hw. Qed.
Lemma write_one_ok factor WriteFails w r : factor <> 0 -> (forall line, WriteFails line = false) ->
  exists w', write_one factor WriteFails w r = Ok w'.
Proof.
  intros Hf Hw. unfold write_one. rewrite (proj2 (Z.eqb_neq factor 0)) by done. destruct (_ =? 0); [|by eexists].
  destruct (Summary_ok r) as [line ->]. cbn. rewrite Hw. by eexists.
Qed.

(** The output file: with a nonzero sampling factor and a file that can
    be written, [write] stops at a nil response or at the end, its lines are
    those of every factor-th response in order, and its last line counts all
    responses received, the successes and the failures, sampled or not; with
    a zero factor the first response makes it panic. *)
Theorem write_output factor WriteFails responses :
  let rs := until_nil responses in
  (factor <> 0 -> (forall line, WriteFails line = false) -> Z.of_nat (length rs) < 2 ^ 62 ->
   write factor WriteFails responses =
     Ok (sampled factor rs ++ [write_summary (mkWriter (Z.of_nat (length rs)) (failures rs) [])]) /\
   0 <= failures rs <= Z.of_nat (length rs)) /\
  (factor = 0 -> rs <> [] -> write factor WriteFails responses = Panic "integer divide by zero").
Proof.
  cbv zeta. split.
  - intros Hf Hw Hb. unfold write. rewrite write_loop by done. simpl. rewrite Hw. split; [done|].
    unfold failures. pose proof (length_filter (fun r => Status r <> SUCCESS) (until_nil responses)). lia.
  - intros -> Hn. unfold write. by destruct (until_nil responses).
Qed.

(** ** Witnesses *)
Definition demo_trace : TraceSpec :=
  mkTraceSpec 1 [mkInvocationSpec (of_ratio 1 2) 100; mkInvocationSpec (of_Z 1) 200; mkInvocationSpec (of_Z 1) 300].

Lemma replay_sends_each_once_witness :
  exists w k reqs, newWorker "default/f" demo_trace = Ok w /\ nSenders w = Z.of_nat k /\ (0 < k)%nat /\
    concat (senderInvocations w) ≡ₚ Invocations demo_trace /\
    replay w 100 (fun _ => [600; 1100; 1200]) = Ok reqs /\ DurationMilliSec <$> concat reqs ≡ₚ [100; 200; 300].
Proof.
  destruct (replay_sends_each_once "default/f" demo_trace 100 (fun _ => [600; 1100; 1200]) ltac:(done))
    as (w & k & H1 & H2 & H3 & Hl & H4 & reqs & H5 & _ & _ & H6 & _).
  exists w, k, reqs. split; [exact H1|]. split; [exact H2|]. split; [apply H3; discriminate|]. split; [exact H4|].
  split; [exact H5|]. apply H6. intros s bin Hs. clear - H1 Hs.
  vm_compute in H1. injection H1 as <-. destruct s as [|s]; [|done]. injection Hs as <-. simpl. lia.
Defined.

Definition demo_worker : worker := mkWorker "default/f" demo_trace (1000 * Second) 1 [Invocations demo_trace].
Lemma request_not_early_witness :
  500 * Millisecond <= ClientRelTime (send_request demo_worker 0 0 (mkInvocationSpec (of_ratio 1 2) 100)
                                        (1000 * Second + 501 * Millisecond)).
Proof.
  refine (proj1 (request_not_early demo_worker 0 0 (mkInvocationSpec (of_ratio 1 2) 100) (1000 * Second)
    (1000 * Second + 501 * Millisecond) _ _)); vm_compute; repeat split; discriminate.
Defined.

Definition demo_response (s : ResponseStatus) : Response :=
  mkResponse (mkRequest "f-0/0" "default/f" 100 10 20 30 0 0) s 40 50 7.
Lemma write_output_witness :
  exists lines, write 2 (fun _ => false) [Some (demo_response SUCCESS); Some (demo_response FAIL_SEND);
      Some (demo_response SUCCESS); None; Some (demo_response SUCCESS)] =
    Ok (lines ++ [write_summary (mkWriter 3 1 [])]) /\ length lines = 1%nat.
Proof.
  eexists. split.
  - refine (proj1 (proj1 (write_output 2 (fun _ => false) [Some (demo_response SUCCESS);
      Some (demo_response FAIL_SEND); Some (demo_response SUCCESS); None; Some (demo_response SUCCESS)]) _ _ _)); done.
  - vm_compute. reflexivity.
Defined.
