(* ===== verification/Kubelet.v ===== *)
(** cmd/kubelet: the custom kubelet, which marks pods ready after a delay by
    copying the status of a pod of the workload pool or simulating one
    (kubelet.go, kubedirect.go).  Every handler is a function from the server's
    state and what it observes of the API server, the informer caches and the
    clock to the new state, the effects it starts and its result. *)
From S2P Require Import Prelude F64 KdUtil Workload Kube.

(** * kubelet.go *)
Definition CustomKubeletServicePort : string := ":25010".
Definition PodLifecycleManagerCustom : string := "custom".
Definition nWorkers : nat := 64.
Definition WorkloadPoolLabel : string := "kubedirect/workload-pool".

Record PendingPod := mkPending { pending_Namespace : string; pending_Name : string }.
#[export] Instance PendingPod_eq : EqDecision PendingPod.
Proof. solve_decision. Defined.
Definition PendingPod_String (p : PendingPod) : string := pending_Namespace p +:+ "/" +:+ pending_Name p.
Definition NewPendingPodFromAPIServer (pod : Pod) : PendingPod := mkPending (pod_Namespace pod) (pod_Name pod).

Section Server.
Context `{!Kubedirect}.
(** The maps of clients, of timers and of in-memory pods; a client is named by
    a number. *)
Context {MC MT MP : Type} `{!SharedMap nat MC} `{!SharedMap time MT} `{!SharedMap PodInfo MP}.

Record KubedirectServer := mkServer {
  clientPool : MC;
  clients : nat;                 (* clients made so far *)
  inMemCache : MP;
  nodeName : string;
  readyDelay : duration;
  readyTimers : MT;
  simulate : bool;
  patch : bool
}.

Definition NewKubedirectServer (node : string) : KubedirectServer :=
  mkServer NewSharedMap 0 NewSharedMap node 0 NewSharedMap false false.
Definition WithReadyDelay (delay : duration) (s : KubedirectServer) : KubedirectServer :=
  mkServer (clientPool s) (clients s) (inMemCache s) (nodeName s) delay (readyTimers s) (simulate s) (patch s).
Definition Simulate (s : KubedirectServer) : KubedirectServer :=
  mkServer (clientPool s) (clients s) (inMemCache s) (nodeName s) (readyDelay s) (readyTimers s) true (patch s).
Definition UsePatch (s : KubedirectServer) : KubedirectServer :=
  mkServer (clientPool s) (clients s) (inMemCache s) (nodeName s) (readyDelay s) (readyTimers s) (simulate s) true.

(** main.go, from the parsed flags to the server that is started. *)
Definition server_main (node : string) (simulate patch : bool) (readyDelayMilliseconds : Z) (os_hostname : res string)
  : res KubedirectServer :=
  node ← (if decide (node = "") then or_fatal "Failed to get hostname: " os_hostname else Ok node);
  let kdServer := WithReadyDelay (int64 (readyDelayMilliseconds * Millisecond)) (NewKubedirectServer node) in
  let kdServer := if simulate then Simulate kdServer else kdServer in
  Ok (if patch then UsePatch kdServer else kdServer).

Definition set_timers (t : MT) (s : KubedirectServer) : KubedirectServer :=
  mkServer (clientPool s) (clients s) (inMemCache s) (nodeName s) (readyDelay s) t (simulate s) (patch s).
Definition set_cache (c : MP) (s : KubedirectServer) : KubedirectServer :=
  mkServer (clientPool s) (clients s) c (nodeName s) (readyDelay s) (readyTimers s) (simulate s) (patch s).
Definition set_clients (c : MC) (n : nat) (s : KubedirectServer) : KubedirectServer :=
  mkServer c n (inMemCache s) (nodeName s) (readyDelay s) (readyTimers s) (simulate s) (patch s).

(** What a handler does to the outside. *)
Inductive effect :=
| EAdd (p : PendingPod)
| EAddAfter (p : PendingPod) (d : duration)
| EAddRateLimited (p : PendingPod)
| EForget (p : PendingPod)
| EDone (p : PendingPod)
| EDelete (namespace name : string)
| EExpose (pod : Pod)
| EMarkReady (client : nat) (byPatch : bool) (pod : Pod) (status : PodStatus).

(** What a handler observes. *)
Record env := mkEnv {
  GetPod : string -> string -> api Pod;                       (* podLister.Pods(ns).Get(name) *)
  ListPool : string -> string -> res (list Pod);              (* ... .List(pool label = ...) *)
  GetUnnamedTemplateFor : string -> string -> bool -> api Pod;
  GetNode : string -> api (gmap string string);               (* nodeLister.Get: its annotations *)
  DeleteResult : api unit;
  MarshalPatch : PodStatus -> res string;                     (* json.Marshal of the pod's uid and the status *)
  MarkResult : res unit;
  now_created : time;                                         (* clock of GetOrCreate *)
  now_waited : time;                                          (* clock of time.Until *)
  now_status : time;                                          (* clock of tweakRefPodStatus *)
  Intn : nat -> nat
}.

Definition nil_dereference : string := "invalid memory address or nil pointer dereference".
Definition label_of (pod : Pod) (k : string) : string := default "" (pod_Labels pod !! k).

Definition enqueueFilter (pod : Pod) : bool :=
  bool_decide (NodeName pod <> "") && bool_decide (label_of pod PodLifecycleManagerLabel = PodLifecycleManagerCustom).

Definition isResponsibleFor (e : env) (s : KubedirectServer) (pod : Pod) : res bool :=
  if decide (NodeName pod = "") then Ok false
  else if decide (NodeName pod = nodeName s) then Ok true
  else
    match GetNode e (nodeName s), GetNode e (NodeName pod) with
    | Found thisNode, Found thatNode =>
        Ok (bool_decide (default "" (thisNode !! KubeletServiceAddrAnnotation) =
                         default "" (thatNode !! KubeletServiceAddrAnnotation)))
    | _, _ => Err "failed to get node object"
    end.

(** The objects an event handler may be given. *)
Inductive event_obj :=
| ObjPod (pod : Pod)
| ObjTombstone (pod : option Pod)   (* DeletedFinalStateUnknown *)
| ObjOther.
Definition unwrapPodObj (obj : event_obj) : option Pod :=
  match obj with
  | ObjPod pod | ObjTombstone (Some pod) => if enqueueFilter pod then Some pod else None
  | _ => None
  end.

Definition handlePodEvent (s : KubedirectServer) (obj : event_obj) (isDelete : bool) : KubedirectServer * list effect :=
  match unwrapPodObj obj with
  | None => (s, [])
  | Some pod =>
      let pending := NewPendingPodFromAPIServer pod in
      let '(s, es) :=
        if isDelete then (set_timers (fst (Del (PendingPod_String pending) (readyTimers s))) s, [])
        else (s, [EAdd pending]) in
      if IsManaged (pod_object pod) && IsPersistent (pod_object pod)
      then (set_cache (fst (Del (pod_Name pod) (inMemCache s))) s, es)
      else (s, es)
  end.

(** * kubedirect.go: statuses *)
Definition tweak_container (now : time) (init : bool) (c : ContainerStatus) : ContainerStatus :=
  mkContainerStatus (cs_Name c) (cs_Image c) (cs_Started c) (cs_Ready c)
    (match cs_State c with
     | Running _ => Running now
     | Terminated code reason started finished =>
         if init then Terminated code reason now now else Terminated code reason started finished
     | Waiting => Waiting
     end).
Definition tweakRefPodStatus (now : time) (st : PodStatus) : PodStatus :=
  mkStatus (Phase st)
    ((fun c => mkCondition (cond_Type c) (cond_Status c) now) <$> Conditions st)
    (HostIP st) (PodIP st) (Some now)
    (tweak_container now false <$> ContainerStatuses st)
    (tweak_container now true <$> InitContainerStatuses st).

Definition simulateRefPodStatus (now : time) (pod : Pod) : PodStatus :=
  tweakRefPodStatus now (mkStatus "Running"
    ([mkCondition "Ready" "True" zero_time; mkCondition "ContainersReady" "True" zero_time;
      mkCondition "PodScheduled" "True" zero_time; mkCondition "Initialized" "True" zero_time] ++
     ((fun gate => mkCondition gate "True" zero_time) <$> ReadinessGates pod))
    "127.0.0.1" "127.0.0.1" None
    ((fun c => mkContainerStatus (fst c) (snd c) (Some true) true (Running zero_time)) <$> Containers pod)
    ((fun c => mkContainerStatus (fst c) (snd c) (Some true) true
                 (Terminated 0 "Completed" zero_time zero_time)) <$> InitContainers pod)).

Definition getRefPodStatus (e : env) (pod : Pod) : res PodStatus :=
  workloadPool ← wrap_err "failed to list pods from workload pool: "
                   (ListPool e (pod_Namespace pod) (label_of pod "workload"));
  let readyPods := filter (fun p => IsPodReady p = true) workloadPool in
  if decide (readyPods = []) then Err "no ready pod matches the workload"
  else
    match readyPods !! Intn e (length readyPods) with
    | Some refPod => Ok (tweakRefPodStatus (now_status e) (Status refPod))
    | None => Panic "index out of range"
    end.

(** [markPodReady], by patch or by update: the client of the pod's node may be
    nil. *)
Definition GetClient (node : string) (s : KubedirectServer) : option nat := Get node (clientPool s).
Definition markPodReadyByUpdate (e : env) (s : KubedirectServer) (pod : Pod) (refStatus : PodStatus)
  : list effect * res unit :=
  match GetClient (NodeName pod) s with
  | None => ([], Panic nil_dereference)
  | Some c => ([EMarkReady c false pod refStatus], wrap_err "failed to update status: " (MarkResult e))
  end.
(** [%q] of a string without special characters. *)
Definition quoted (x : string) : string := String (Ascii.ascii_of_nat 34) (x +:+ String (Ascii.ascii_of_nat 34) EmptyString).
Definition prepareMergePatchBytesForPodStatus (e : env) (namespace name : string) (newPodStatus : PodStatus) : res string :=
  wrap_err ("failed to Marshal newData for pod " +:+ quoted namespace +:+ "/" +:+ quoted name +:+ ": ") (MarshalPatch e newPodStatus).
Definition markPodReadyByPatch (e : env) (s : KubedirectServer) (pod : Pod) (refStatus : PodStatus)
  : list effect * res unit :=
  match prepareMergePatchBytesForPodStatus e (pod_Namespace pod) (pod_Name pod) refStatus with
  | Ok patchBytes =>
      match GetClient (NodeName pod) s with
      | None => ([], Panic nil_dereference)
      | Some c => ([EMarkReady c true pod refStatus],
                   wrap_err ("failed to patch status " +:+ patchBytes +:+ ": ") (MarkResult e))
      end
  | Err m => ([], Err m)
  | Panic m => ([], Panic m)
  | Fatal m => ([], Fatal m)
  end.
Definition markPodReady (e : env) (s : KubedirectServer) (pod : Pod) (refStatus : PodStatus)
  : list effect * res unit :=
  if patch s then markPodReadyByPatch e s pod refStatus else markPodReadyByUpdate e s pod refStatus.

(** * [SyncPod] *)

(** The pod to work on: the one of the API server, or an in-memory one. *)
Definition find_pod (e : env) (s : KubedirectServer) (pending : PendingPod) : res (option (Pod * bool)) :=
  match GetPod e (pending_Namespace pending) (pending_Name pending) with
  | Found apiPod => Ok (Some (apiPod, false))
  | NotFound =>
      match Get (pending_Name pending) (inMemCache s) with
      | None => Ok None
      | Some podInfo =>
          match GetUnnamedTemplateFor e (info_Namespace podInfo) (info_OwnerName podInfo) true with
          | NotFound => Ok None
          | Found template => Ok (Some (AsPersistentPod podInfo template, true))
          | AlreadyExists => Err "already exists"
          | Failed m => Err m
          end
      end
  | AlreadyExists => Err "already exists"
  | Failed m => Err m
  end.

Definition del_timer (pending : PendingPod) (s : KubedirectServer) : KubedirectServer :=
  set_timers (fst (Del (PendingPod_String pending) (readyTimers s))) s.

(** The last part of [SyncPod], once the ready delay is over. *)
Definition sync_ready (e : env) (s : KubedirectServer) (pod : Pod) (isInMem : bool) : list effect * res unit :=
  if isInMem then ([], Ok tt)
  else
    match (if simulate s then Ok (simulateRefPodStatus (now_status e) pod) else getRefPodStatus e pod) with
    | Ok refStatus => markPodReady e s pod refStatus
    | Err m => ([], Err m)
    | Panic m => ([], Panic m)
    | Fatal m => ([], Fatal m)
    end.

Definition sync_delay (e : env) (s : KubedirectServer) (pending : PendingPod) (pod : Pod) (isInMem : bool)
  : KubedirectServer * list effect * res unit :=
  let '(timers, readyTime, fresh) :=
    GetOrCreate (PendingPod_String pending) (time_add (now_created e) (readyDelay s)) (readyTimers s) in
  let s := set_timers timers s in
  let expose := if fresh && isInMem then [EExpose pod] else [] in
  let waitTime := time_sub readyTime (now_waited e) in
  if 0 <? waitTime then (s, expose ++ [EAddAfter pending waitTime], Ok tt)
  else
    let '(es, r) := sync_ready e s pod isInMem in
    (s, expose ++ es, r).

Definition SyncPod (e : env) (s : KubedirectServer) (pending : PendingPod)
  : KubedirectServer * list effect * res unit :=
  match find_pod e s pending with
  | Ok None => (s, [], Ok tt)
  | Err m => (s, [], Err m)
  | Panic m => (s, [], Panic m)
  | Fatal m => (s, [], Fatal m)
  | Ok (Some (pod, isInMem)) =>
      match isResponsibleFor e s pod with
      | Err m => (s, [], Err m)
      | Panic m => (s, [], Panic m)
      | Fatal m => (s, [], Fatal m)
      | Ok false => (s, [], Ok tt)
      | Ok true =>
          if decide (DeletionTimestamp pod <> None) then
            let es := [EDelete (pod_Namespace pod) (pod_Name pod)] in
            match DeleteResult e with
            | Found _ | NotFound => (del_timer pending s, es, Ok tt)
            | AlreadyExists => (s, es, Err "already exists")
            | Failed m => (s, es, Err m)
            end
          else if negb (IsPodActive pod) then (del_timer pending s, [], Ok tt)
          else if IsPodReady pod then (del_timer pending s, [], Ok tt)
          else sync_delay e s pending pod isInMem
      end
  end.

(** [processNextItem] on an item of the queue. *)
Definition processNextItem (e : env) (s : KubedirectServer) (pending : PendingPod)
  : KubedirectServer * list effect * res bool :=
  let '(s, es, err) := SyncPod e s pending in
  match err with
  | Ok _ => (s, es ++ [EForget pending; EDone pending], Ok true)
  | Err _ => (s, es ++ [EAddRateLimited pending; EDone pending], Ok true)
  | Panic m => (s, es ++ [EDone pending], Panic m)
  | Fatal m => (s, es, Fatal m)
  end.

(** * kubedirect.go: the RPC handlers *)
Definition NewClientset (node : string) (s : KubedirectServer) : KubedirectServer :=
  let '(pool, _, fresh) := GetOrCreate node (clients s) (clientPool s) in
  set_clients pool (if fresh : bool then S (clients s) else clients s) s.
Definition DelClient (node : string) (s : KubedirectServer) : KubedirectServer :=
  set_clients (fst (Del node (clientPool s))) (clients s) s.

(** [Handshake]: [pods] is the in-memory cache's list for the node. *)
Record KubeletHandshakeResponse := mkHandshake { hs_Epoch : string; hs_Name : string; hs_Pods : list PodInfo }.
Definition Handshake (AsPodInfosProtoOnNode : MP -> string -> list PodInfo) (destination epoch : string)
    (s : KubedirectServer) : KubedirectServer * KubeletHandshakeResponse :=
  let s := NewClientset destination s in
  (s, mkHandshake epoch destination (AsPodInfosProtoOnNode (inMemCache s) destination)).

(** [BindPod]: gRPC status codes are the errors. *)
Inductive bind_result := BindOk | BindNotFound | BindInvalidArgument.
Definition NewPendingPodFromInMemCache (podInfo : PodInfo) : PendingPod :=
  mkPending (info_Namespace podInfo) (info_Name podInfo).
Definition BindPod (e : env) (ownerNamespace ownerName : string) (rlock : res unit) (podInfo : PodInfo)
    (s : KubedirectServer) : KubedirectServer * list effect * bind_result :=
  match GetUnnamedTemplateFor e ownerNamespace ownerName false with
  | Found _ =>
      match rlock with
      | Ok _ =>
          let '(cache, _, fresh) := GetOrCreate (info_Name podInfo) podInfo (inMemCache s) in
          let s := set_cache cache s in
          if negb fresh then (s, [], BindOk)
          else (s, [EAdd (NewPendingPodFromInMemCache podInfo)], BindOk)
      | _ => (s, [], BindInvalidArgument)
      end
  | _ => (s, [], BindNotFound)
  end.

(** [ExposeManagedPod]: the successive attempts, one per second until one ends
    the polling. Each of them asks for the client of the pod's node again:
    [at_server] is the server at its time, and [at_answer] what the API server
    answers if there is a client. *)
Record attempt := mkAttempt { at_server : KubedirectServer; at_answer : api unit }.
Inductive expose_result := NotExposed | Exposed (attempts : nat) | Polling (attempts : nat).
Fixpoint tryCreate (pod : Pod) (n : nat) (attempts : list attempt) : res expose_result :=
  match attempts with
  | [] => Ok (Polling n)
  | a :: attempts' =>
      match GetClient (NodeName pod) (at_server a) with
      | None => Panic nil_dereference
      | Some _ =>
          match at_answer a with
          | Found _ | AlreadyExists => Ok (Exposed (S n))
          | NotFound | Failed _ => tryCreate pod (S n) attempts'
          end
      end
  end.
Definition ExposeManagedPod (pod : Pod) (attempts : list attempt) : res expose_result :=
  if decide (ResourceVersion pod <> "") then Ok NotExposed else tryCreate pod 0 attempts.

(** * [ListenAndServe]: publishing the service address; a node's addresses with
    their types, and its annotations *)
Definition publishServiceAddr (node : api (list (string * string) * gmap string string))
    (Update : gmap string string -> res unit) (s : KubedirectServer) : res bool :=
  match node with
  | NotFound => Err ("node " +:+ nodeName s +:+ " not found")
  | Found (addresses, annotations) =>
      let hostIP := default "" (snd <$> head (filter (fun a => fst a = "InternalIP") addresses)) in
      if decide (hostIP = "") then Err ("node " +:+ nodeName s +:+ " has no internal IP")
      else Ok (is_ok (Update (<[KubeletServiceAddrAnnotation := hostIP +:+ CustomKubeletServicePort]> annotations)))
  | _ => Panic nil_dereference
  end.

(** * Runs of the server: an event handler, a handshake, a binding and a
    whole synchronisation are one step each *)
Inductive label :=
| LSync (e : env) (pending : PendingPod)       (* a worker processes an item *)
| LEvent (obj : event_obj) (isDelete : bool)   (* an informer event *)
| LNodeDeleted (node : string)
| LHandshake (destination : string)
| LBind (e : env) (ownerNamespace ownerName : string) (rlock : res unit) (podInfo : PodInfo).

Definition step (s : KubedirectServer) (l : label) : option KubedirectServer :=
  match l with
  | LSync e pending => let '(s, _, r) := processNextItem e s pending in match r with Ok _ => Some s | _ => None end
  | LEvent obj isDelete => Some (fst (handlePodEvent s obj isDelete))
  | LNodeDeleted node => Some (DelClient node s)
  | LHandshake destination => Some (NewClientset destination s)
  | LBind e ns owner rlock info => Some (fst (fst (BindPod e ns owner rlock info s)))
  end.

(** What is seen of a timer, and of a pod's exposure and readiness. *)
Inductive observation :=
| OStarted (key : string) (now : time)    (* a timer is created *)
| OCleared (key : string)                 (* a timer is removed *)
| OExposed (key : string)
| OMarked (key : string) (now : time).    (* readiness is written *)

Definition timer_change (key : string) (now : time) (old new : option time) : list observation :=
  match old, new with
  | None, Some _ => [OStarted key now]
  | Some _, None => [OCleared key]
  | _, _ => []
  end.
Definition observe_effect (key : string) (now : time) (x : effect) : option observation :=
  match x with
  | EExpose _ => Some (OExposed key)
  | EMarkReady _ _ _ _ => Some (OMarked key now)
  | _ => None
  end.
Definition observe (s : KubedirectServer) (l : label) : list observation :=
  match l with
  | LSync e pending =>
      let key := PendingPod_String pending in
      let '(s', es, _) := processNextItem e s pending in
      timer_change key (now_created e) (Inner (readyTimers s) !! key) (Inner (readyTimers s') !! key) ++
      omap (observe_effect key (now_waited e)) es
  | LEvent obj isDelete =>
      match unwrapPodObj obj with
      | Some pod =>
          let key := PendingPod_String (NewPendingPodFromAPIServer pod) in
          timer_change key 0 (Inner (readyTimers s) !! key)
            (Inner (readyTimers (fst (handlePodEvent s obj isDelete))) !! key)
      | None => []
      end
  | _ => []
  end.
End Server.

(** * The history of a pod's timer *)
Section History.
Variable d : duration.
Implicit Types (k : string) (h : list observation) (T : gmap string time).

Definition at_started k (acc : option time) (o : observation) : option time :=
  match o with
  | OStarted k' t => if decide (k' = k) then Some t else acc
  | OCleared k' => if decide (k' = k) then None else acc
  | _ => acc
  end.
(** Since when the current timer of [k] runs. *)
Definition last_started k h : option time := foldl (at_started k) None h.

Definition is_start k (o : observation) : nat :=
  match o with OStarted k' _ => if decide (k' = k) then 1 else 0 | _ => 0 end%nat.
Definition is_clear k (o : observation) : nat :=
  match o with OCleared k' => if decide (k' = k) then 1 else 0 | _ => 0 end%nat.
Definition is_expose k (o : observation) : nat :=
  match o with OExposed k' => if decide (k' = k) then 1 else 0 | _ => 0 end%nat.
Definition tally (f : observation -> nat) h : nat := sum_list_with f h.

(** Every readiness write is at least [d] after the start of the timer then
    running. *)
Definition marks_ok h : Prop :=
  forall h1 k t h2, h = h1 ++ OMarked k t :: h2 -> exists t0, last_started k h1 = Some t0 /\ t0 + d <= t.

Definition exposes_ok k h : Prop :=
  (tally (is_expose k) h <= tally (is_start k) h)%nat /\
  tally (is_start k) h = (tally (is_clear k) h + (if last_started k h then 1 else 0))%nat.

Definition history_ok T h : Prop :=
  (forall k, T !! k = (fun t0 : time => time_add t0 d) <$> last_started k h) /\ marks_ok h /\ (forall k, exposes_ok k h).

Lemma last_started_snoc k h o : last_started k (h ++ [o]) = at_started k (last_started k h) o.
Proof. unfold last_started. by rewrite foldl_app. Qed.
Lemma tally_snoc f h o : tally f (h ++ [o]) = (tally f h + f o)%nat.
Proof. unfold tally. rewrite sum_list_with_app. simpl. lia. Qed.

Lemma marks_ok_snoc h o : marks_ok h ->
  (forall k t, o = OMarked k t -> exists t0, last_started k h = Some t0 /\ t0 + d <= t) -> marks_ok (h ++ [o]).
Proof.
  intros Hh Ho h1 k t h2 E. destruct h2 as [|o' h2 _] using rev_ind.
  - apply app_inj_tail in E as [-> ->]. by apply Ho.
  - rewrite app_comm_cons, app_assoc in E. apply app_inj_tail in E as [E _]. by eapply Hh.
Qed.

Lemma history_started T h k now : history_ok T h -> T !! k = None ->
  history_ok (<[k := time_add now d]> T) (h ++ [OStarted k now]).
Proof.
  intros (H1 & H2 & H3) Hk. split; [|split].
  - intros k'. rewrite last_started_snoc. simpl. destruct (decide (k = k')) as [->|].
    + by rewrite lookup_insert_eq.
    + by rewrite lookup_insert_ne.
  - apply marks_ok_snoc; [done|]. intros. simplify_eq.
  - intros k'. destruct (H3 k') as [E1 E2]. unfold exposes_ok. rewrite !tally_snoc, last_started_snoc. simpl.
    specialize (H1 k'). destruct (decide (k = k')) as [->|]; [|lia]. rewrite Hk in H1.
    destruct (last_started k' h); [done|]. lia.
Qed.

Lemma history_cleared T h k t : history_ok T h -> T !! k = Some t ->
  history_ok (delete k T) (h ++ [OCleared k]).
Proof.
  intros (H1 & H2 & H3) Hk. split; [|split].
  - intros k'. rewrite last_started_snoc. simpl. destruct (decide (k = k')) as [->|].
    + by rewrite lookup_delete_eq.
    + by rewrite lookup_delete_ne.
  - apply marks_ok_snoc; [done|]. intros. simplify_eq.
  - intros k'. destruct (H3 k') as [E1 E2]. unfold exposes_ok. rewrite !tally_snoc, last_started_snoc. simpl.
    specialize (H1 k'). destruct (decide (k = k')) as [->|]; [|lia]. rewrite Hk in H1.
    destruct (last_started k' h); [|done]. lia.
Qed.

Lemma history_marked T h k t now : history_ok T h -> T !! k = Some t -> t <= now ->
  history_ok T (h ++ [OMarked k now]).
Proof.
  intros (H1 & H2 & H3) Hk Hle. split; [|split].
  - intros k'. by rewrite last_started_snoc.
  - apply marks_ok_snoc; [done|]. intros ? ? [= <- <-]. rewrite H1 in Hk.
    destruct (last_started k h) as [t0|]; simplify_eq/=. eauto.
  - intros k'. destruct (H3 k') as [E1 E2]. unfold exposes_ok. rewrite !tally_snoc, last_started_snoc. simpl. lia.
Qed.

Lemma history_exposed T h k now : history_ok T h -> T !! k = None ->
  history_ok (<[k := time_add now d]> T) (h ++ [OStarted k now; OExposed k]).
Proof.
  intros H Hk. destruct (history_started T h k now H Hk) as (S1 & S2 & S3). destruct H as (H1 & H2 & H3).
  change (h ++ [OStarted k now; OExposed k]) with (h ++ [OStarted k now] ++ [OExposed k]). rewrite app_assoc.
  split; [|split].
  - intros k'. by rewrite last_started_snoc.
  - apply marks_ok_snoc; [done|]. intros. simplify_eq.
  - intros k'. destruct (S3 k') as [E1 E2]. destruct (H3 k') as [F1 F2]. specialize (H1 k').
    unfold exposes_ok in *. rewrite !tally_snoc, !last_started_snoc in *. simpl in *.
    destruct (decide (k = k')) as [->|]; [|lia]. rewrite Hk in H1. destruct (last_started k' h); [done|]. lia.
Qed.
End History.

(** * The server keeps the history *)
Section Theorems.
Context `{!Kubedirect}.
Context {MC MT MP : Type} `{!SharedMap nat MC} `{!SharedMap time MT} `{!SharedMap PodInfo MP}.
Context `{!SharedMapLaws nat MC} `{!SharedMapLaws time MT} `{!SharedMapLaws PodInfo MP}.
Notation KubedirectServer := (@KubedirectServer MC MT MP).
Implicit Types s : KubedirectServer.

Definition timers s : gmap string time := Inner (readyTimers s).

(** What a step that works on one key adds to the history. *)
Definition keeps_history key now s s' (os : list observation) : Prop :=
  readyDelay s' = readyDelay s /\
  forall h, history_ok (readyDelay s) (timers s) h ->
    history_ok (readyDelay s) (timers s') (h ++ timer_change key now (timers s !! key) (timers s' !! key) ++ os).

Lemma keeps_same key now s s' os : readyDelay s' = readyDelay s -> timers s' = timers s ->
  (forall h, history_ok (readyDelay s) (timers s) h -> history_ok (readyDelay s) (timers s) (h ++ os)) ->
  keeps_history key now s s' os.
Proof.
  intros Hd Ht Ho. split; [done|]. intros h Hh. rewrite Ht. unfold timer_change.
  destruct (timers s !! key); simpl; by apply Ho.
Qed.
Lemma keeps_nothing key now s s' : readyDelay s' = readyDelay s -> timers s' = timers s ->
  keeps_history key now s s' [].
Proof. intros. apply keeps_same; [done..|]. intros h. by rewrite app_nil_r. Qed.

Lemma timers_del key s : timers (set_timers (fst (Del key (readyTimers s))) s) = delete key (timers s).
Proof. unfold timers. simpl. apply inner_del. Qed.

Lemma keeps_deleted key now s s' : readyDelay s' = readyDelay s -> timers s' = delete key (timers s) ->
  keeps_history key now s s' [].
Proof.
  intros Hd Ht. split; [done|]. intros h Hh. rewrite Ht, lookup_delete_eq, app_nil_r. unfold timer_change.
  destruct (timers s !! key) as [t|] eqn:E; [by eapply history_cleared|].
  rewrite app_nil_r, delete_id by done. done.
Qed.

(** The observations of the last part of a synchronisation. *)
Lemma sync_ready_effects e s key pod isInMem :
  let '(es, r) := sync_ready e s pod isInMem in
  omap (observe_effect key (now_waited e)) es = [] \/
  isInMem = false /\ omap (observe_effect key (now_waited e)) es = [OMarked key (now_waited e)].
Proof.
  unfold sync_ready. destruct isInMem; [by left|].
  destruct (if simulate s then _ else _) as [st|m|m|m]; [|by left..].
  unfold markPodReady, markPodReadyByPatch, markPodReadyByUpdate.
  destruct (patch s); [unfold prepareMergePatchBytesForPodStatus; destruct (MarshalPatch e st); simpl; [|by left..]|];
    destruct (GetClient (NodeName pod) s); first [by left|by right].
Qed.

Lemma sync_delay_keeps e s pending pod isInMem :
  let key := PendingPod_String pending in
  let '(s', es, r) := sync_delay e s pending pod isInMem in
  keeps_history key (now_created e) s s' (omap (observe_effect key (now_waited e)) es).
Proof.
  intros key. unfold sync_delay. fold key.
  pose proof (get_or_create key (time_add (now_created e) (readyDelay s)) (readyTimers s)) as Hg.
  destruct (GetOrCreate key _ (readyTimers s)) as [[T t] fresh]. fold (timers s) in Hg.
  pose proof (sync_ready_effects e (set_timers T s) key pod isInMem) as Hr.
  destruct (sync_ready e (set_timers T s) pod isInMem) as [es r].
  assert (forall os, (os = [] \/ isInMem = false /\ os = [OMarked key (now_waited e)] /\ t <= now_waited e) ->
    keeps_history key (now_created e) s (set_timers T s)
      ((if fresh && isInMem then [OExposed key] else []) ++ os)) as Hk.
  { intros os Hos. split; [done|]. intros h Hh. change (timers (set_timers T s)) with (Inner T).
    destruct (timers s !! key) as [old|] eqn:E.
    - destruct Hg as (-> & -> & ->). rewrite E. simpl.
      destruct Hos as [->|(_ & -> & Hle)]; [by rewrite app_nil_r|]. by eapply history_marked.
    - destruct Hg as (-> & -> & ->). rewrite lookup_insert_eq. simpl.
      destruct Hos as [->|(-> & -> & Hle)].
      + rewrite app_nil_r. destruct isInMem; [by apply history_exposed|by apply history_started].
      + simpl. change (h ++ [OStarted key (now_created e); OMarked key (now_waited e)])
          with (h ++ [OStarted key (now_created e)] ++ [OMarked key (now_waited e)]). rewrite app_assoc.
        eapply history_marked; [by apply history_started|by rewrite lookup_insert_eq|done]. }
  destruct (Z.ltb_spec 0 (time_sub t (now_waited e))) as [Hlt|Hge].
  - rewrite omap_app. specialize (Hk []). rewrite app_nil_r in Hk. simpl.
    rewrite app_nil_r. destruct (fresh && isInMem); apply Hk; by left.
  - rewrite omap_app.
    assert (omap (observe_effect key (now_waited e)) (if fresh && isInMem then [EExpose pod] else []) =
      (if fresh && isInMem then [OExposed key] else [])) as -> by (by destruct (fresh && isInMem)).
    apply Hk. destruct Hr as [->|[-> ->]]; [by left|right]. split; [done|]. split; [done|].
    apply Z.nlt_ge. intros Hc. apply (proj2 (time_sub_pos t (now_waited e))) in Hc. lia.
Qed.

Lemma SyncPod_keeps e s pending :
  let key := PendingPod_String pending in
  let '(s', es, r) := SyncPod e s pending in
  keeps_history key (now_created e) s s' (omap (observe_effect key (now_waited e)) es).
Proof.
  intros key. unfold SyncPod.
  destruct (find_pod e s pending) as [[[pod isInMem]|]|m|m|m]; try by apply keeps_nothing.
  destruct (isResponsibleFor e s pod) as [[]|m|m|m]; try by apply keeps_nothing.
  assert (keeps_history key (now_created e) s (del_timer pending s) []) as Hdel
    by (apply keeps_deleted; [done|apply timers_del]).
  case_decide.
  - destruct (DeleteResult e); [exact Hdel|exact Hdel|by apply keeps_nothing|by apply keeps_nothing].
  - destruct (negb (IsPodActive pod)); [exact Hdel|]. destruct (IsPodReady pod); [exact Hdel|].
    apply sync_delay_keeps.
Qed.

Lemma handlePodEvent_keeps s obj isDelete pod : unwrapPodObj obj = Some pod ->
  keeps_history (PendingPod_String (NewPendingPodFromAPIServer pod)) 0 s (fst (handlePodEvent s obj isDelete)) [].
Proof.
  intros Hu. unfold handlePodEvent. rewrite Hu.
  destruct isDelete; destruct (IsManaged (pod_object pod) && IsPersistent (pod_object pod)); simpl;
    try (by apply keeps_nothing); (apply keeps_deleted; [done|exact (timers_del _ s)]).
Qed.

Lemma NewClientset_frame node s : timers (NewClientset node s) = timers s /\ readyDelay (NewClientset node s) = readyDelay s.
Proof. unfold NewClientset. by destruct (GetOrCreate node (clients s) (clientPool s)) as [[pool v] fresh]. Qed.

Lemma BindPod_frame e ns owner rlock info s :
  let s' := fst (fst (BindPod e ns owner rlock info s)) in
  timers s' = timers s /\ readyDelay s' = readyDelay s /\ clientPool s' = clientPool s.
Proof.
  unfold BindPod. destruct (GetUnnamedTemplateFor e ns owner false); try done. destruct rlock; try done.
  destruct (GetOrCreate _ info (inMemCache s)) as [[c v] fresh]. by destruct fresh.
Qed.

Definition server_ok d s h : Prop := readyDelay s = d /\ history_ok d (timers s) h.

Lemma keeps_server_ok d key now s s' os h : keeps_history key now s s' os -> server_ok d s h ->
  server_ok d s' (h ++ timer_change key now (timers s !! key) (timers s' !! key) ++ os).
Proof. intros [Hd Hk] [<- Hh]. split; [done|]. by apply Hk. Qed.

Lemma server_ok_step d s h l s' : server_ok d s h -> step s l = Some s' -> server_ok d s' (h ++ observe s l).
Proof.
  intros Hok Hs. destruct l as [e pending|obj isDelete|node|dest|e ns owner rlock info]; simpl in Hs; unfold observe.
  - unfold processNextItem in *. pose proof (SyncPod_keeps e s pending) as Hk.
    destruct (SyncPod e s pending) as [[s1 es] r]. cbv zeta in Hk.
    assert (forall es2, omap (observe_effect (PendingPod_String pending) (now_waited e)) es2 = [] ->
      omap (observe_effect (PendingPod_String pending) (now_waited e)) (es ++ es2) =
      omap (observe_effect (PendingPod_String pending) (now_waited e)) es) as Happ
      by (intros es2 He2; by rewrite omap_app, He2, app_nil_r).
    destruct r; simplify_eq/=; rewrite Happ by done; by apply keeps_server_ok.
  - simplify_eq. destruct (unwrapPodObj obj) as [pod|] eqn:Hu.
    + pose proof (keeps_server_ok d _ _ _ _ _ h (handlePodEvent_keeps s obj isDelete pod Hu) Hok) as Hev.
      by rewrite app_nil_r in Hev.
    + unfold handlePodEvent. rewrite Hu, app_nil_r. done.
  - simplify_eq. by rewrite app_nil_r.
  - simplify_eq. rewrite app_nil_r. destruct (NewClientset_frame dest s) as [E1 E2]. unfold server_ok. by rewrite E1, E2.
  - simplify_eq. rewrite app_nil_r. destruct (BindPod_frame e ns owner rlock info s) as (E1 & E2 & _).
    cbv zeta in E1, E2. unfold server_ok. by rewrite E1, E2.
Qed.

Lemma history_ok_new d : history_ok d ∅ [].
Proof. split; [|split; [|done]]; [intros k; by rewrite lookup_empty|]. intros h1 k t h2 E. by destruct h1. Qed.


(** C25. Only pods that need it are marked ready: a synchronisation writes a
    status only for a pod the API server has, never for an in-memory one,
    which is bound to this kubelet, neither being deleted nor inactive nor
    ready, through the client of the pod's node; the status is the simulated
    one, or that of a ready pod of the workload pool with the timestamps
    renewed. *)
Theorem marks_only_unready_pods e s pending c byPatch pod st :
  EMarkReady c byPatch pod st ∈ snd (fst (SyncPod e s pending)) ->
  GetPod e (pending_Namespace pending) (pending_Name pending) = Found pod /\
  isResponsibleFor e s pod = Ok true /\ DeletionTimestamp pod = None /\
  IsPodActive pod = true /\ IsPodReady pod = false /\
  GetClient (NodeName pod) s = Some c /\ byPatch = patch s /\
  (if simulate s then st = simulateRefPodStatus (now_status e) pod
   else exists pool ref, ListPool e (pod_Namespace pod) (label_of pod "workload") = Ok pool /\
          ref ∈ pool /\ IsPodReady ref = true /\ st = tweakRefPodStatus (now_status e) (Status ref)).
Proof.
  unfold SyncPod. destruct (find_pod e s pending) as [[[p isInMem]|]|m|m|m] eqn:Hf; try (by intros ?%elem_of_nil).
  destruct (isResponsibleFor e s p) as [[]|m|m|m] eqn:Hr; try (by intros ?%elem_of_nil).
  case_decide as Hdt.
  { destruct (DeleteResult e); simpl; intros Hin%list_elem_of_singleton; done. }
  destruct (IsPodActive p) eqn:Ha; simpl; [|by intros ?%elem_of_nil].
  destruct (IsPodReady p) eqn:Hrd; simpl; [by intros ?%elem_of_nil|].
  unfold sync_delay. destruct (GetOrCreate _ _ (readyTimers s)) as [[T t] fresh].
  assert (forall es, EMarkReady c byPatch pod st ∈ (if fresh && isInMem then [EExpose p] else []) ++ es ->
    EMarkReady c byPatch pod st ∈ es) as Hex.
  { intros es [Hin|Hin]%elem_of_app; [|done]. destruct (fresh && isInMem); [|by apply elem_of_nil in Hin].
    by apply list_elem_of_singleton in Hin. }
  destruct (0 <? _); simpl.
  { intros Hm%Hex%list_elem_of_singleton. done. }
  unfold sync_ready. destruct isInMem; [intros Hm%Hex; by apply elem_of_nil in Hm|]. simpl.
  assert (GetPod e (pending_Namespace pending) (pending_Name pending) = Found p) as Hg.
  { unfold find_pod in Hf. repeat case_match; simplify_eq/=; done. }
  assert (DeletionTimestamp p = None) as Hd by exact Hdt.
  destruct (if simulate s then Ok (simulateRefPodStatus (now_status e) p) else getRefPodStatus e p) as [st'|m|m|m] eqn:Hst;
    [|intros Hm%Hex; by apply elem_of_nil in Hm..].
  intros Hm. assert (pod = p /\ st = st' /\ GetClient (NodeName p) s = Some c /\ byPatch = patch s) as (-> & -> & Hc & Hb).
  { unfold markPodReady, markPodReadyByPatch, markPodReadyByUpdate in Hm.
    change (patch (set_timers T s)) with (patch s) in Hm.
    change (GetClient (NodeName p) (set_timers T s)) with (GetClient (NodeName p) s) in Hm.
    rewrite andb_false_r in Hm.
    destruct (patch s); [unfold prepareMergePatchBytesForPodStatus in Hm; destruct (MarshalPatch e st'); simpl in Hm; [|by apply elem_of_nil in Hm..]|];
      (destruct (GetClient (NodeName p) s) as [cl|]; [|by apply elem_of_nil in Hm]);
      apply list_elem_of_singleton in Hm; by simplify_eq. }
  split_and!; try done. destruct (simulate s); [by simplify_eq/=|].
  unfold getRefPodStatus in Hst.
  destruct (ListPool e (pod_Namespace p) (label_of p "workload")) as [pool|m|m|m] eqn:Hl; simplify_eq/=.
  case_decide; simplify_eq/=. destruct (_ !! Intn e _) as [ref|] eqn:Hi; simplify_eq/=.
  apply list_elem_of_lookup_2, list_elem_of_filter in Hi as [Hrr Hpool]. by exists pool, ref.
Qed.

(** ** Clients of nodes *)
Lemma NewClientset_clients node s n :
  GetClient n (NewClientset node s) =
  if decide (n = node) then Some (default (clients s) (GetClient node s)) else GetClient n s.
Proof.
  unfold NewClientset, GetClient. pose proof (get_or_create node (clients s) (clientPool s)) as Hg.
  destruct (GetOrCreate node (clients s) (clientPool s)) as [[pool v] fresh]. simpl.
  rewrite !get_inner. destruct (Inner (clientPool s) !! node) as [c|] eqn:E.
  - destruct Hg as (_ & _ & ->). case_decide; [by subst; rewrite E|done].
  - destruct Hg as (_ & _ & ->). case_decide; [by subst; rewrite lookup_insert_eq|by rewrite lookup_insert_ne].
Qed.

Lemma SyncPod_clients e s pending : clientPool (fst (fst (SyncPod e s pending))) = clientPool s.
Proof.
  unfold SyncPod. destruct (find_pod e s pending) as [[[p m]|]|?|?|?]; try done.
  destruct (isResponsibleFor e s p) as [[]|?|?|?]; try done.
  case_decide; [by destruct (DeleteResult e)|].
  destruct (negb (IsPodActive p)); [done|]. destruct (IsPodReady p); [done|].
  unfold sync_delay. destruct (GetOrCreate _ _ (readyTimers s)) as [[T t] fresh].
  destruct (0 <? _); [done|]. by destruct (sync_ready e (set_timers T s) p m).
Qed.

Lemma step_clients s l s' n : step s l = Some s' ->
  GetClient n s' = match l with
                   | LHandshake n' => GetClient n (NewClientset n' s)
                   | LNodeDeleted n' => if decide (n = n') then None else GetClient n s
                   | _ => GetClient n s
                   end.
Proof.
  intros Hs. destruct l as [e pending|obj isDelete|node|dest|e ns owner rlock info]; simpl in Hs.
  - unfold processNextItem in Hs. pose proof (SyncPod_clients e s pending) as Hc.
    destruct (SyncPod e s pending) as [[s1 es] r]. unfold GetClient. destruct r; simplify_eq/=; by rewrite Hc.
  - simplify_eq. unfold handlePodEvent, GetClient. destruct (unwrapPodObj obj) as [pod|]; [|done].
    destruct isDelete; by destruct (IsManaged (pod_object pod) && IsPersistent (pod_object pod)).
  - simplify_eq. unfold GetClient, DelClient. simpl. rewrite !get_inner, inner_del. case_decide; subst;
      [apply lookup_delete_eq|by apply lookup_delete_ne].
  - by simplify_eq.
  - simplify_eq. unfold GetClient. by destruct (BindPod_frame e ns owner rlock info s) as (_ & _ & ->).
Qed.

Lemma server_main_clients node sim byPatch ms host s0 n :
  server_main node sim byPatch ms host = Ok s0 -> GetClient n s0 = None.
Proof.
  unfold server_main. intros (nd & _ & [= <-])%res_bind_ok. unfold GetClient.
  by destruct sim, byPatch; simpl; rewrite get_inner, inner_new, lookup_empty.
Qed.

Lemma no_handshake_no_client s0 ls s n : GetClient n s0 = None -> run step s0 ls = Some s ->
  LHandshake n ∉ ls -> GetClient n s = None.
Proof.
  revert s0. induction ls as [|l ls IH]; intros s0 H0 Hr Hn; [by simplify_eq/=|].
  apply not_elem_of_cons in Hn as [Hl Hn]. cbn [run] in Hr. destruct (step s0 l) as [s1|] eqn:E; [|done].
  apply (IH s1); [|exact Hr|done]. rewrite (step_clients s0 l s1 n E). destruct l; try done.
  - by case_decide.
  - rewrite NewClientset_clients, decide_False; [done|]. congruence.
Qed.

(** The write of a status needs the client of the pod's node, however it is
    written. *)
Lemma markPodReady_nil e s pod st : GetClient (NodeName pod) s = None ->
  (patch s = true -> is_ok (MarshalPatch e st) = true) -> markPodReady e s pod st = ([], Panic nil_dereference).
Proof.
  intros Hc Hp. unfold markPodReady, markPodReadyByPatch, markPodReadyByUpdate, prepareMergePatchBytesForPodStatus.
  rewrite Hc. destruct (patch s); [|done]. specialize (Hp eq_refl). by destruct (MarshalPatch e st).
Qed.

(** C34. A node must shake hands before its pods can become ready.  For the
    server that main starts, whatever its flags, the server has a client for
    a node from a handshake for it until the node is deleted and never before
    the first handshake.  So take a pod of the API server on a node that never
    shook hands, which the kubelet is responsible for, that is alive, active
    and not ready, and whose ready delay is over.  As soon as there is a
    status to write for it, the simulated one with [simulate] and one of a
    ready pod of its pool without, which can be marshalled when it is written
    by patch, the worker dereferences a nil client and panics, with [patch]
    and without. *)
Theorem client_needs_handshake node sim byPatch ms host s0 ls s n e pending pod st (t : time) :
  server_main node sim byPatch ms host = Ok s0 -> run step s0 ls = Some s ->
  (forall l s', step s l = Some s' ->
     (l = LHandshake n -> is_Some (GetClient n s')) /\
     (is_Some (GetClient n s) -> l <> LNodeDeleted n -> GetClient n s' = GetClient n s)) /\
  (LHandshake n ∉ ls -> GetClient n s = None /\
     (find_pod e s pending = Ok (Some (pod, false)) -> NodeName pod = n -> isResponsibleFor e s pod = Ok true ->
      DeletionTimestamp pod = None -> IsPodActive pod = true -> IsPodReady pod = false ->
      Get (PendingPod_String pending) (readyTimers s) = Some t -> t <= now_waited e ->
      (if simulate s then st = simulateRefPodStatus (now_status e) pod else getRefPodStatus e pod = Ok st) ->
      (patch s = true -> is_ok (MarshalPatch e st) = true) ->
      snd (processNextItem e s pending) = Panic nil_dereference)).
Proof.
  intros Hm Hr. split.
  - intros l s' Hs. rewrite (step_clients s l s' n Hs). split.
    + intros ->. rewrite NewClientset_clients, decide_True by done. eauto.
    + intros [c Hc] Hl. destruct l; try done; [case_decide; [by subst|done]|].
      rewrite NewClientset_clients. case_decide; [by subst; rewrite Hc|done].
  - intros Hn. assert (GetClient n s = None) as Hc
      by (eapply no_handshake_no_client; [by eapply server_main_clients|done..]).
    split; [done|]. intros Hf Hnode Hresp Hdt Ha Hrd Ht Hle Hst Hpatch.
    unfold processNextItem, SyncPod. rewrite Hf, Hresp, Hdt. cbn [decide]. rewrite decide_False by (by intros []).
    rewrite Ha, Hrd. simpl. unfold sync_delay.
    pose proof (get_or_create (PendingPod_String pending) (time_add (now_created e) (readyDelay s)) (readyTimers s)) as Hg.
    destruct (GetOrCreate _ _ (readyTimers s)) as [[T t'] fresh]. rewrite get_inner in Ht.
    rewrite Ht in Hg.
    destruct Hg as (-> & -> & _).
    rewrite (proj2 (Z.ltb_ge 0 _)) by (apply Z.nlt_ge; rewrite time_sub_pos; lia).
    unfold sync_ready. change (simulate (set_timers T s)) with (simulate s).
    assert ((if simulate s then Ok (simulateRefPodStatus (now_status e) pod) else getRefPodStatus e pod) = Ok st) as ->
      by (destruct (simulate s); [by subst|done]).
    rewrite markPodReady_nil; [done| |exact Hpatch]. by rewrite Hnode.
Qed.

(** [BindPod] changes nothing when the template pod is unknown (NotFound)
    or the epoch does not match (InvalidArgument); otherwise the pod is in the
    in-memory cache afterwards, queued if and only if it was not there before,
    and delivering the same binding again changes nothing. *)
Theorem bind_pod_idempotent e ns owner rlock info s :
  let '(s', es, r) := BindPod e ns owner rlock info s in
  (r <> BindOk -> s' = s /\ es = []) /\
  (r = BindInvalidArgument -> is_ok rlock = false) /\
  (r = BindOk ->
     match Inner (inMemCache s) !! info_Name info with
     | Some old => es = [] /\ Inner (inMemCache s') = Inner (inMemCache s)
     | None => es = [EAdd (NewPendingPodFromInMemCache info)] /\
               Inner (inMemCache s') = <[info_Name info := info]> (Inner (inMemCache s))
     end /\
     timers s' = timers s /\
     (forall info', info_Name info' = info_Name info ->
        let '(s'', es', r') := BindPod e ns owner rlock info' s' in
        es' = [] /\ r' = BindOk /\ Inner (inMemCache s'') = Inner (inMemCache s'))).
Proof.
  unfold BindPod. destruct (GetUnnamedTemplateFor e ns owner false); [|by split_and!..].
  destruct rlock; [|by split_and!..].
  pose proof (get_or_create (info_Name info) info (inMemCache s)) as Hg.
  destruct (GetOrCreate (info_Name info) info (inMemCache s)) as [[C v] fresh].
  assert (forall X : KubedirectServer, inMemCache X = C -> is_Some (Inner C !! info_Name info) ->
    forall info', info_Name info' = info_Name info ->
      let '(s'', es', r') := (let '(cache, _, fresh) := GetOrCreate (info_Name info') info' (inMemCache X) in
        let s := set_cache cache X in
        if negb fresh then (s, [], BindOk) else (s, [EAdd (NewPendingPodFromInMemCache info')], BindOk)) in
      es' = [] /\ r' = BindOk /\ Inner (inMemCache s'') = Inner (inMemCache X)) as Hagain.
  { intros X HX [w Hw] info' Hn. pose proof (get_or_create (info_Name info') info' (inMemCache X)) as Hg'.
    destruct (GetOrCreate (info_Name info') info' (inMemCache X)) as [[C' v'] fresh'].
    rewrite HX, Hn, Hw in Hg'. destruct Hg' as (_ & -> & Hi). simpl. by rewrite HX. }
  destruct (Inner (inMemCache s) !! info_Name info) as [old|] eqn:E; destruct Hg as (-> & -> & Hi); simpl;
    (split; [done|split; [done|intros _; split; [done|split; [done|]]]]);
    apply (Hagain (set_cache C s)); try done; rewrite Hi.
  - by rewrite E.
  - rewrite lookup_insert_eq. eauto.
Qed.

(** The simulated status is that of a running pod: every condition is
    true, Ready among them and every readiness gate of the pod; there is
    exactly one container status per container, in order and with its name
    and image, running, and one per init container, completed; all timestamps
    are the current time, and renewing them again at the same time changes
    nothing. *)
Theorem simulated_status_complete now (pod : Pod) :
  let st := simulateRefPodStatus now pod in
  Phase st = "Running" /\ StartTime st = Some now /\
  Forall (fun c => cond_Status c = "True" /\ LastTransitionTime c = now) (Conditions st) /\
  (forall ty, ty ∈ (cond_Type <$> Conditions st) <->
     ty ∈ ["Ready"; "ContainersReady"; "PodScheduled"; "Initialized"] \/ ty ∈ ReadinessGates pod) /\
  ((fun c => (cs_Name c, cs_Image c)) <$> ContainerStatuses st) = Containers pod /\
  ((fun c => (cs_Name c, cs_Image c)) <$> InitContainerStatuses st) = InitContainers pod /\
  Forall (fun c => cs_Ready c = true /\ cs_State c = Running now) (ContainerStatuses st) /\
  Forall (fun c => cs_Ready c = true /\ cs_State c = Terminated 0 "Completed" now now) (InitContainerStatuses st) /\
  tweakRefPodStatus now st = st.
Proof.
  cbv zeta. unfold simulateRefPodStatus, tweakRefPodStatus. cbn [Phase StartTime Conditions ContainerStatuses InitContainerStatuses HostIP PodIP].
  assert (forall (A B : Type) (f g : A -> B) (l : list A), (forall x, f x = g x) -> f <$> l = g <$> l) as Hext
    by (intros A B f g l Hfg; by apply list_fmap_ext; intros; apply Hfg).
  split; [done|]. split; [done|]. split.
  { rewrite Forall_fmap. apply Forall_app. split; [by repeat constructor|]. rewrite Forall_fmap. by apply Forall_true. }
  split.
  { intros ty. rewrite <- list_fmap_compose, fmap_app, elem_of_app. rewrite <- list_fmap_compose.
    assert ((fun c => cond_Type (mkCondition (cond_Type c) (cond_Status c) now)) ∘ (fun gate => mkCondition gate "True" zero_time)
      <$> ReadinessGates pod = ReadinessGates pod) as Hg by apply list_fmap_id.
    unfold compose in *. simpl in *. rewrite Hg. done. }
  split. { rewrite <- !list_fmap_compose. etransitivity; [|apply list_fmap_id]. apply Hext. by intros []. }
  split. { rewrite <- !list_fmap_compose. etransitivity; [|apply list_fmap_id]. apply Hext. by intros []. }
  split. { rewrite !Forall_fmap. by apply Forall_true. }
  split. { rewrite !Forall_fmap. by apply Forall_true. }
  f_equal; rewrite <- !list_fmap_compose; by apply Hext.
Qed.
End Theorems.

(** * The theorems at concrete inputs *)
Module Demo.
#[local] Existing Instance Kube.Demo.kubedirect.
Notation server := (@KubedirectServer (gmap string nat) (gmap string time) (gmap string PodInfo)).

Definition pending_status : PodStatus := mkStatus "Pending" [] "" "" None [] [].
Definition pod1 : Pod :=
  mkPod "default" "fn-1" {["workload" := "fn"]} "7" None "node-1" ["kubedirect/gate"]
        [("main", "fn:latest")] [("init", "busybox")] pending_status.
Definition env_at (t : time) : env :=
  mkEnv (fun _ name => if decide (name = "fn-1") then Found pod1 else NotFound) (fun _ _ => Ok []) (fun _ _ _ => Found pod1)
        (fun _ => Found ∅) (Found tt) (fun _ => Ok "{}") (Ok tt) t t t (fun _ => 0%nat).
Definition item : PendingPod := mkPending "default" "fn-1".
Definition sec : Z := 1000000000.
Definition start : server := Simulate (WithReadyDelay (2 * sec) (NewKubedirectServer "node-1")).
Definition labels : list label := [LEvent (ObjPod pod1) false; LSync (env_at 0) item; LHandshake "node-1"].
Definition shaken : server :=
  mkServer {["node-1" := 0%nat]} 1 ∅ "node-1" (2 * sec) {["default/fn-1" := 2 * sec]} true false.

(** The pod's readiness is written three seconds after its first
    synchronisation, the delay being two. *)
Definition timed : server := WithReadyDelay (2 * sec) (NewKubedirectServer "node-1").
Definition env_pool (t : time) : env :=
  mkEnv (GetPod (env_at t)) (fun _ _ => Ok [mkPod "default" "ref" ∅ "3" None "node-2" [] [] []
          (mkStatus "Running" [mkCondition "Ready" "True" 0] "" "" (Some 0) [] [])])
        (GetUnnamedTemplateFor (env_at t)) (GetNode (env_at t)) (DeleteResult (env_at t)) (MarshalPatch (env_at t))
        (Ok tt) t t t (fun _ => 0%nat).
Definition timed_labels : list label := [LSync (env_pool 0) item; LHandshake "node-1"; LSync (env_pool (3 * sec)) item].
Definition timed_end : server :=
  mkServer {["node-1" := 0%nat]} 1 ∅ "node-1" (2 * sec) {["default/fn-1" := 2 * sec]} false false.


Lemma marks_only_unready_pods_witness : IsPodReady pod1 = false /\ GetClient (NodeName pod1) shaken = Some 0%nat.
Proof.
  assert (EMarkReady 0 false pod1 (simulateRefPodStatus (3 * sec) pod1)
          ∈ snd (fst (SyncPod (env_at (3 * sec)) shaken item))) as Hin by (vm_compute; left).
  destruct (marks_only_unready_pods (env_at (3 * sec)) shaken item 0 false pod1 _ Hin)
    as (_ & _ & _ & _ & Hr & Hc & _). split; [exact Hr|exact Hc].
Defined.

(** Both ways to get a status and to write it: the default flags (a pod of the
    pool, by patch) and the simulated status, by update. *)
Definition quiet (sim byPatch : bool) (t : gmap string time) : server := mkServer ∅ 0 ∅ "node-1" (2 * sec) t sim byPatch.
Definition before_handshake : list label := [LEvent (ObjPod pod1) false; LSync (env_pool 0) item].
Lemma client_needs_handshake_witness :
  (exists s : server, run step (quiet false true ∅) before_handshake = Some s /\
    snd (processNextItem (env_pool (3 * sec)) s item) = Panic nil_dereference) /\
  (exists s : server, run step (quiet true false ∅) before_handshake = Some s /\
    snd (processNextItem (env_pool (3 * sec)) s item) = Panic nil_dereference).
Proof.
  assert (forall sim byPatch, run step (quiet sim byPatch ∅) before_handshake =
    Some (quiet sim byPatch {["default/fn-1" := 2 * sec]})) as Hr by (intros [] []; vm_compute; reflexivity).
  assert (forall sim byPatch, server_main "" sim byPatch 2000 (Ok "node-1") = Ok (quiet sim byPatch ∅)) as Hm
    by (intros [] []; vm_compute; reflexivity).
  assert (LHandshake "node-1" ∉ before_handshake) as Hn
    by (intros [Hc|[Hc|Hc%elem_of_nil]%elem_of_cons]%elem_of_cons; done).
  split; (eexists; split; [apply Hr|]).
  - refine (proj2 (proj2 (client_needs_handshake "" false true 2000 (Ok "node-1") _ _ _ "node-1" (env_pool (3 * sec)) item pod1
      _ (2 * sec) (Hm false true) (Hr false true)) Hn) _ _ _ _ _ _ _ _ _ _); try (vm_compute; reflexivity).
    vm_compute. discriminate.
  - refine (proj2 (proj2 (client_needs_handshake "" true false 2000 (Ok "node-1") _ _ _ "node-1" (env_pool (3 * sec)) item pod1
      _ (2 * sec) (Hm true false) (Hr true false)) Hn) _ _ _ _ _ _ _ _ _ _); try (vm_compute; reflexivity).
    vm_compute. discriminate.
Defined.

Definition info2 : PodInfo := mkPodInfo "default" "fn-2" "fn" "node-1" 0.
Lemma bind_pod_idempotent_witness :
  snd (BindPod (env_at 0) "default" "fn" (Ok tt) info2 shaken) = BindOk /\
  snd (fst (BindPod (env_at 0) "default" "fn" (Ok tt) info2 shaken)) = [EAdd (mkPending "default" "fn-2")].
Proof.
  pose proof (bind_pod_idempotent (env_at 0) "default" "fn" (Ok tt) info2 shaken) as Hb.
  assert (snd (BindPod (env_at 0) "default" "fn" (Ok tt) info2 shaken) = BindOk) as Hr by (vm_compute; reflexivity).
  destruct (BindPod (env_at 0) "default" "fn" (Ok tt) info2 shaken) as [[s' es] r].
  split; [exact Hr|]. destruct Hb as (_ & _ & Hb). destruct (Hb Hr) as [[He _] _]. exact He.
Defined.
End Demo.
