(* ===== verification/KubeletMain.v ===== *)
(** cmd/kubelet: the custom kubelet as a process (ListenAndServe and the worker
    loops of kubelet.go, main.go), and what its workers do with a pod that is
    not ready yet. *)
From S2P Require Import Prelude F64 KdUtil Workload Kube Kubelet.

Section Server.
Context `{!Kubedirect}.
Context {MC MT MP : Type} `{!SharedMap nat MC} `{!SharedMap time MT} `{!SharedMap PodInfo MP}.
Abbreviation server := (KubedirectServer (MC := MC) (MT := MT) (MP := MP)).
Implicit Types s : server.

(** * Node events *)

(** What the handler of deleted nodes is given. *)
Inductive node_obj :=
| ObjNode (name : string)
| NodeTombstone (name : option string)   (* DeletedFinalStateUnknown *)
| NodeOther.
Definition unwrapNodeObj (obj : node_obj) : option string :=
  match obj with
  | ObjNode name | NodeTombstone (Some name) => Some name
  | _ => None
  end.
Definition handleNodeDeleted (obj : node_obj) s : server :=
  match unwrapNodeObj obj with Some name => DelClient name s | None => s end.

(** * Workers *)

(** What [queue.Get] returns. *)
Inductive got := GotItem (pending : PendingPod) | GotShutdown.
Definition process_got (e : env) s (g : got) : server * list effect * res bool :=
  match g with
  | GotShutdown => (s, [], Ok false)
  | GotItem pending => processNextItem e s pending
  end.

(** [workerLoop] over the answers of successive calls of [Get]; [None]: it
    waits for the next one. *)
Fixpoint workerLoop s (gets : list (env * got)) : server * list effect * option (res unit) :=
  match gets with
  | [] => (s, [], None)
  | (e, g) :: gets =>
      let '(s, es, r) := process_got e s g in
      match r with
      | Ok true => let '(s, es', r) := workerLoop s gets in (s, es ++ es', r)
      | Ok false => (s, es, Some (Ok tt))
      | Err m => (s, es, Some (Err m))
      | Panic m => (s, es, Some (Panic m))
      | Fatal m => (s, es, Some (Fatal m))
      end
  end.

(** * [ListenAndServe] *)

(** One attempt to publish the address: the node that the lister has, and the
    answer to its update. *)
Definition publish_attempt : Type := api (list (string * string) * gmap string string) * (gmap string string -> res unit).
Definition publishes s (attempts : list publish_attempt) : list (res bool) :=
  (fun a => publishServiceAddr (fst a) (snd a) s) <$> attempts.

(** [synced] are the informers with the answers of [WaitForCacheSync], in the
    order in which the map is ranged over, [attempts] the attempts to publish
    until the context ends, [serve] what serving the RPCs returns.  The first
    component is the number of workers started. *)
Definition ListenAndServe `{!Poller} (synced : list (string * bool)) (attempts : list publish_attempt) (serve : res unit) s
  : nat * res unit :=
  match List.find (fun x => negb (snd x)) synced with
  | Some (k, _) => (0%nat, Err ("error syncing " +:+ k))
  | None =>
      match wrap_err "failed to publish custom kubelet service address: " (PollUntilContextCancel (publishes s attempts)) with
      | Ok _ => (nWorkers, serve)
      | r => (0%nat, r)
      end
  end.

(** * main.go *)
Record kubelet_flags := mkKubeletFlags {
  flag_node : string;
  flag_simulate : bool;
  flag_patch : bool;
  flag_ready_after : Z
}.
Definition default_kubelet_flags : kubelet_flags := mkKubeletFlags "" false true 100.
Definition kubelet_process `{!Poller} (f : kubelet_flags) (os_hostname : res string) (synced : list (string * bool))
    (attempts : list publish_attempt) (serve : res unit) (clientset : res unit) : res unit :=
  kdServer ← server_main (MC := MC) (MT := MT) (MP := MP) (flag_node f) (flag_simulate f) (flag_patch f) (flag_ready_after f) os_hostname;
  _ ← clientset;                                     (* NewClientsetOrDie *)
  or_fatal "Failed to listen & serve: " (snd (ListenAndServe synced attempts serve kdServer)).

(** ** Start-up *)
Lemma find_unsynced (synced : list (string * bool)) :
  match List.find (fun x => negb (snd x)) synced with
  | Some (k, b) => (k, false) ∈ synced
  | None => Forall (fun x => snd x = true) synced
  end.
Proof.
  induction synced as [|[k []] synced IH]; cbn; [by constructor| |left].
  destruct (List.find _ synced) as [[k' b]|]; [by right|by constructor].
Qed.

(** The first internal address of a node. *)
Definition internal_ip (addresses : list (string * string)) : option string :=
  snd <$> head (filter (fun a => fst a = "InternalIP") addresses).
Lemma publish_found s addresses annotations ip Update : internal_ip addresses = Some ip -> ip <> "" ->
  publishServiceAddr (Found (addresses, annotations)) Update s =
    Ok (is_ok (Update (<[KubeletServiceAddrAnnotation := ip +:+ CustomKubeletServicePort]> annotations))).
Proof. intros Hin Hip. unfold publishServiceAddr, internal_ip in *. rewrite Hin. cbn. by rewrite decide_False. Qed.

(** The start of the custom kubelet.  Its workers start, and it serves,
    only when all informer caches are synced and the address of the kubelet
    service has been published; before that it retries a failed update and
    gives up when the node is unknown or has no internal address, and its
    process then ends with the error.  The address that is published is the
    node's first internal address at the kubelet's port. *)
Theorem kubelet_startup `{!Poller} `{!PollerLaws} s synced attempts serve :
  let out := ListenAndServe synced attempts serve s in
  (forall k, (k, false) ∈ synced -> fst out = 0%nat /\ exists k', snd out = Err ("error syncing " +:+ k') /\ (k', false) ∈ synced) /\
  (Forall (fun x => snd x = true) synced ->
     (forall failed node Update later, attempts = failed ++ (node, Update) :: later ->
        Forall (.= Ok false) (publishes s failed) ->
        (publishServiceAddr node Update s = Ok true -> out = (nWorkers, serve)) /\
        (forall e, publishServiceAddr node Update s = Err e ->
           out = (0%nat, Err ("failed to publish custom kubelet service address: " +:+ e)))) /\
     (Forall (.= Ok false) (publishes s attempts) -> fst out = 0%nat /\ exists e, snd out = Err e)) /\
  (forall addresses annotations ip Update, internal_ip addresses = Some ip -> ip <> "" ->
     publishServiceAddr (Found (addresses, annotations)) Update s =
       Ok (is_ok (Update (<[KubeletServiceAddrAnnotation := ip +:+ ":25010"]> annotations)))) /\
  (forall addresses annotations Update, internal_ip addresses = None ->
     publishServiceAddr (Found (addresses, annotations)) Update s = Err ("node " +:+ nodeName s +:+ " has no internal IP")) /\
  (forall f os_hostname,
     server_main (flag_node f) (flag_simulate f) (flag_patch f) (flag_ready_after f) os_hostname = Ok s ->
     kubelet_process f os_hostname synced attempts serve (Ok tt) =
       match snd out with Err e => Fatal ("Failed to listen & serve: " +:+ e) | r => r end).
Proof.
  cbv zeta. split; [|split; [|split; [|split]]].
  - intros k Hk. unfold ListenAndServe. pose proof (find_unsynced synced) as Hsync.
    destruct (List.find _ synced) as [[k' b]|]; [by eauto|]. rewrite Forall_forall in Hsync. by apply Hsync in Hk.
  - intros Hs. unfold ListenAndServe. pose proof (find_unsynced synced) as Hsync.
    destruct (List.find _ synced) as [[k' b]|]; [rewrite Forall_forall in Hs; by apply Hs in Hsync|]. clear Hsync. split.
    + intros failed node Update later -> Hf. unfold publishes. rewrite fmap_app, fmap_cons. cbn [fst snd]. split.
      * intros ->. by rewrite poll_done.
      * intros e ->. by rewrite poll_failed.
    + intros Hf. destruct (poll_cancelled (publishes s attempts) Hf) as [e ->]. cbn. by eauto.
  - intros addresses annotations ip Update. apply publish_found.
  - intros addresses annotations Update Hin. unfold publishServiceAddr, internal_ip in *. by rewrite Hin.
  - intros f os_hostname Hs. unfold kubelet_process. rewrite Hs. cbn [mbind res_bind]. by destruct (snd (ListenAndServe synced attempts serve s)).
Qed.

(** ** Workers and pods that are not ready *)
Context `{!SharedMapLaws nat MC} `{!SharedMapLaws time MT} `{!SharedMapLaws PodInfo MP}.

(** A pod that its kubelet has to make ready. *)
Record needs_readiness (e : env) s (pending : PendingPod) (pod : Pod) (isInMem : bool) : Prop := {
  need_found : find_pod e s pending = Ok (Some (pod, isInMem));
  need_responsible : isResponsibleFor e s pod = Ok true;
  need_kept : DeletionTimestamp pod = None;
  need_active : IsPodActive pod = true;
  need_unready : IsPodReady pod = false
}.
(** When the pod's delay is over. *)
Definition ready_time (e : env) s (pending : PendingPod) : time :=
  default (time_add (now_created e) (readyDelay s)) (timers s !! PendingPod_String pending).

Lemma sync_needed e s pending pod isInMem : needs_readiness e s pending pod isInMem ->
  SyncPod e s pending = sync_delay e s pending pod isInMem.
Proof.
  intros [H1 H2 H3 H4 H5]. unfold SyncPod. rewrite H1, H2, decide_False, H4, H5; [done|]. rewrite H3. naive_solver.
Qed.

(** [sync_delay] with the timer's outcome spelled out. *)
Lemma sync_delay_timer e s pending pod isInMem :
  let t := ready_time e s pending in
  exists T, Inner T = <[PendingPod_String pending := t]> (timers s) /\
    sync_delay e s pending pod isInMem =
      (let expose := if bool_decide (timers s !! PendingPod_String pending = None) && isInMem then [EExpose pod] else [] in
       if decide (now_waited e < t) then (set_timers T s, expose ++ [EAddAfter pending (time_sub t (now_waited e))], Ok tt)
       else (set_timers T s, expose ++ fst (sync_ready e s pod isInMem), snd (sync_ready e s pod isInMem))).
Proof.
  cbv zeta. unfold sync_delay, ready_time.
  pose proof (get_or_create (PendingPod_String pending) (time_add (now_created e) (readyDelay s)) (readyTimers s)) as Hg.
  destruct (GetOrCreate _ _ (readyTimers s)) as [[T t] fresh]. fold (timers s) in Hg. exists T.
  assert (forall u : time, (0 <? time_sub u (now_waited e)) = bool_decide (now_waited e < u)) as Hw.
  { intros u. pose proof (time_sub_pos u (now_waited e)) as Hp.
    destruct (Z.ltb_spec 0 (time_sub u (now_waited e))); symmetry; [by apply bool_decide_true, Hp|].
    apply bool_decide_false. intros Hu%Hp. lia. }
  change (sync_ready e (set_timers T s) pod isInMem) with (sync_ready e s pod isInMem). rewrite Hw.
  destruct (sync_ready e s pod isInMem) as [es r].
  destruct (timers s !! PendingPod_String pending) as [old|] eqn:E; destruct Hg as (-> & -> & ->); cbn [default fst snd].
  - split; [by rewrite insert_id|]. rewrite (bool_decide_false (Some old = None)) by done. by do 2 case_decide.
  - split; [done|]. rewrite (bool_decide_true (None = None)) by done. by do 2 case_decide.
Qed.

Lemma processed_timer e s pending pod isInMem : needs_readiness e s pending pod isInMem ->
  timers (fst (fst (processNextItem e s pending))) = <[PendingPod_String pending := ready_time e s pending]> (timers s).
Proof.
  intros Hn. unfold processNextItem. rewrite (sync_needed _ _ _ _ _ Hn).
  destruct (sync_delay_timer e s pending pod isInMem) as (T & HT & ->). cbv zeta.
  case_decide; [done|]. by destruct (snd (sync_ready e s pod isInMem)).
Qed.

(** Writing the status of a pod succeeds. *)
Definition can_mark (e : env) s (pod : Pod) (status : PodStatus) : Prop :=
  is_Some (GetClient (NodeName pod) s) /\ MarkResult e = Ok tt /\ (patch s = true -> is_ok (MarshalPatch e status) = true).
Lemma markPodReady_marks e s pod status : can_mark e s pod status ->
  exists c, markPodReady e s pod status = ([EMarkReady c (patch s) pod status], Ok tt).
Proof.
  intros ([c Hc] & Hm & Hp). exists c. unfold markPodReady, markPodReadyByPatch, markPodReadyByUpdate. rewrite Hc, Hm.
  destruct (patch s); [|done]. unfold prepareMergePatchBytesForPodStatus. by destruct (MarshalPatch e status); [|specialize (Hp eq_refl)..].
Qed.
Lemma markPodReady_answer e s pod status :
  let '(es, r) := markPodReady e s pod status in
  r = Ok tt -> exists c, es = [EMarkReady c (patch s) pod status].
Proof.
  unfold markPodReady, markPodReadyByPatch, markPodReadyByUpdate.
  destruct (patch s); [unfold prepareMergePatchBytesForPodStatus; destruct (MarshalPatch e status); simpl; try done|]; destruct (GetClient (NodeName pod) s); by eauto.
Qed.

Lemma sync_ready_answer e s pod isInMem :
  let '(es, r) := sync_ready e s pod isInMem in
  r = Ok tt -> isInMem = true \/ exists c status, es = [EMarkReady c (patch s) pod status].
Proof.
  unfold sync_ready. destruct isInMem; [by left|].
  destruct (if simulate s then _ else _) as [status|m|m|m]; try done.
  pose proof (markPodReady_answer e s pod status) as Hm. destruct (markPodReady e s pod status) as [es r].
  intros Hr. right. destruct (Hm Hr) as [c ->]. by eauto.
Qed.

(** The timer of a key is left alone by all steps but the synchronisations of
    the pod and its deletion. *)
Definition clears (key : string) (l : label) : bool :=
  match l with
  | LSync _ pending => bool_decide (PendingPod_String pending = key)
  | LEvent obj _ =>
      match unwrapPodObj obj with
      | Some pod => bool_decide (PendingPod_String (NewPendingPodFromAPIServer pod) = key)
      | None => false
      end
  | _ => false
  end.
Lemma SyncPod_other e s pending key : PendingPod_String pending <> key ->
  timers (fst (fst (SyncPod e s pending))) !! key = timers s !! key.
Proof.
  intros Hk. assert (timers (del_timer pending s) !! key = timers s !! key) as Hdel
    by (unfold del_timer; rewrite timers_del; by apply lookup_delete_ne).
  unfold SyncPod. destruct (find_pod e s pending) as [[[p m]|]|?|?|?]; try done.
  destruct (isResponsibleFor e s p) as [[]|?|?|?]; try done.
  case_decide; [by destruct (DeleteResult e)|].
  destruct (negb (IsPodActive p)); [done|]. destruct (IsPodReady p); [done|].
  destruct (sync_delay_timer e s pending p m) as (T & HT & ->). cbv zeta.
  case_decide; unfold timers in *; simpl; rewrite HT; by apply lookup_insert_ne.
Qed.
Lemma timer_untouched key s ls s' : Forall (fun l => clears key l = false) ls -> run step s ls = Some s' ->
  timers s' !! key = timers s !! key.
Proof.
  revert s. induction ls as [|l ls IH]; intros s Hls Hr; [by simplify_eq/=|].
  apply Forall_cons in Hls as [Hl Hls]. apply bind_Some in Hr as (s1 & Hs & Hr). rewrite (IH s1 Hls Hr). clear IH Hr Hls.
  destruct l as [e pending|obj isDelete|node|dest|e ns owner rlock info]; simpl in Hs, Hl.
  - apply bool_decide_eq_false in Hl. pose proof (SyncPod_other e s pending key Hl) as Ho.
    unfold processNextItem in Hs. destruct (SyncPod e s pending) as [[s2 es] r]. by destruct r; simplify_eq/=.
  - simplify_eq. unfold handlePodEvent. destruct (unwrapPodObj obj) as [pod|]; [|done].
    apply bool_decide_eq_false in Hl. destruct isDelete, (IsManaged (pod_object pod) && IsPersistent (pod_object pod)); try done;
      unfold timers; simpl; rewrite inner_del; by apply lookup_delete_ne.
  - by simplify_eq.
  - simplify_eq. by destruct (NewClientset_frame dest s) as [-> _].
  - simplify_eq. by destruct (BindPod_frame e ns owner rlock info s) as [-> _].
Qed.

(** Once its delay is over, a simulated pod is made ready by its
    synchronisation, and nothing else is done. *)
Lemma due_pod_marked e s pending pod : needs_readiness e s pending pod false ->
  ready_time e s pending <= now_waited e -> simulate s = true ->
  can_mark e s pod (simulateRefPodStatus (now_status e) pod) ->
  exists s' c, processNextItem e s pending =
    (s', [EMarkReady c (patch s) pod (simulateRefPodStatus (now_status e) pod); EForget pending; EDone pending], Ok true).
Proof.
  intros Hn Hdue Hsim Hmark. unfold processNextItem. rewrite (sync_needed _ _ _ _ _ Hn).
  destruct (sync_delay_timer e s pending pod false) as (T & _ & ->).
  rewrite decide_False by lia. unfold sync_ready. rewrite Hsim.
  destruct (markPodReady_marks e s pod _ Hmark) as [c ->]. rewrite andb_false_r. by eexists _, c.
Qed.

(** A pod that is not ready yet is not forgotten.  Whenever a worker has
    looked at such a pod its timer runs; before the delay is over the worker
    asks the queue for the pod again at the remaining time, afterwards it
    writes the pod's readiness, keeps an in-memory pod as it is, or queues the
    pod again with a back-off.  So a simulated pod is made ready by the first
    synchronisation after its delay, whatever the workers, the handlers and
    the informers did for other pods in between. *)
Theorem unready_pod_not_forgotten e s pending pod isInMem :
  needs_readiness e s pending pod isInMem ->
  let due := ready_time e s pending in
  let '(s', es, r) := processNextItem e s pending in
  timers s' !! PendingPod_String pending = Some due /\
  (isInMem = true -> timers s !! PendingPod_String pending = None -> EExpose pod ∈ es) /\
  (now_waited e < due -> r = Ok true /\ EAddAfter pending (time_sub due (now_waited e)) ∈ es) /\
  (due <= now_waited e -> r = Ok true ->
     isInMem = true \/ (exists c status, EMarkReady c (patch s) pod status ∈ es /\ EForget pending ∈ es) \/
     EAddRateLimited pending ∈ es) /\
  (forall ls s1 e1 pod1, run step s' ls = Some s1 -> Forall (fun l => clears (PendingPod_String pending) l = false) ls ->
     needs_readiness e1 s1 pending pod1 false -> due <= now_waited e1 -> simulate s1 = true ->
     can_mark e1 s1 pod1 (simulateRefPodStatus (now_status e1) pod1) ->
     let '(_, es1, r1) := processNextItem e1 s1 pending in
     r1 = Ok true /\ exists c, EMarkReady c (patch s1) pod1 (simulateRefPodStatus (now_status e1) pod1) ∈ es1).
Proof.
  intros Hn due. pose proof (processed_timer e s pending pod isInMem Hn) as Ht. fold due in Ht.
  destruct (processNextItem e s pending) as [[s' es] r] eqn:Hp. cbn [fst] in Ht.
  assert (timers s' !! PendingPod_String pending = Some due) as Hs' by (rewrite Ht; apply lookup_insert_eq).
  split; [exact Hs'|]. match goal with |- ?A /\ ?B /\ ?C /\ ?D => enough ((A /\ B /\ C) /\ D) as [(? & ? & ?) ?] by done; split end.
  - unfold processNextItem in Hp. rewrite (sync_needed _ _ _ _ _ Hn) in Hp.
    destruct (sync_delay_timer e s pending pod isInMem) as (T & _ & Hd). fold due in Hd. rewrite Hd in Hp. clear Hd. cbv zeta in Hp.
    assert (forall es', isInMem = true -> timers s !! PendingPod_String pending = None ->
      EExpose pod ∈ (if bool_decide (timers s !! PendingPod_String pending = None) && isInMem then [EExpose pod] else []) ++ es') as Hx
      by (intros es' -> ->; left).
    destruct (decide (now_waited e < due)) as [Hlt|Hge].
    + simplify_eq. split_and!; [intros; rewrite <- app_assoc; by apply Hx| |lia].
      intros _. split; [done|]. set_solver.
    + pose proof (sync_ready_answer e s pod isInMem) as Hr. destruct (sync_ready e s pod isInMem) as [es0 r0]. cbn [fst snd] in Hp.
      assert (exists es', es = (if bool_decide (timers s !! PendingPod_String pending = None) && isInMem then [EExpose pod] else []) ++ es')
        as [es' Hes] by (destruct r0; simplify_eq; rewrite <- ?app_assoc; eauto).
      split_and!; [intros; rewrite Hes; by apply Hx|lia|]. intros _ ->.
      destruct r0 as [[]|m|m|m]; injection Hp as <- <-; try done; [|right; right; apply elem_of_app; right; left].
      destruct (Hr eq_refl) as [?|(c & status & ->)]; [by left|]. right. left. exists c, status. set_solver.
  - intros ls s1 e1 pod1 Hrun Hls Hn1 Hdue Hsim Hmark.
    pose proof (timer_untouched _ s' ls s1 Hls Hrun) as Ht1. rewrite Hs' in Ht1.
    assert (ready_time e1 s1 pending = due) as Hd1 by (unfold ready_time; by rewrite Ht1).
    destruct (due_pod_marked e1 s1 pending pod1 Hn1) as (s2 & c & ->); [by rewrite Hd1|done..|].
    split; [done|]. exists c. left.
Qed.
End Server.

(** * The theorems at concrete inputs *)
Module Demo.
#[local] Existing Instance Kube.Demo.kubedirect.
Import Kubelet.Demo.

Definition addresses : list (string * string) := [("Hostname", "node-1"); ("InternalIP", "10.0.0.7"); ("InternalIP", "fd00::7")].
Definition flaky (ok : bool) : publish_attempt :=
  (Found (addresses, ∅), fun _ => if ok then Ok tt else Err "conflict").
Lemma kubelet_startup_witness :
  ListenAndServe [("pods", true); ("nodes", true)] [flaky false; flaky false; flaky true] (Err "server stopped") start =
    (64%nat, Err "server stopped") /\
  fst (ListenAndServe [("pods", true); ("nodes", false)] [flaky true] (Ok tt) start) = 0%nat.
Proof.
  split.
  - destruct (kubelet_startup start [("pods", true); ("nodes", true)] [flaky false; flaky false; flaky true] (Err "server stopped"))
      as (_ & Hgo & _).
    destruct Hgo as [Hgo _]; [by repeat constructor|].
    refine (proj1 (Hgo [flaky false; flaky false] (fst (flaky true)) (snd (flaky true)) [] _ _) _); try (vm_compute; reflexivity).
    by repeat constructor.
  - refine (proj1 (proj1 (kubelet_startup start [("pods", true); ("nodes", false)] [flaky true] (Ok tt)) "nodes" _)). right. left.
Defined.

(** The pod is looked at after half a second and, its node having shaken
    hands and another one too, again after three seconds. *)
Definition joined : server := NewClientset "node-1" start.
Definition waiting : server := fst (fst (processNextItem (env_at 500) joined item)).
Definition later : server := default waiting (run step waiting [LHandshake "node-2"]).
Lemma pod1_needs (s : server) t : find_pod (env_at t) s item = Ok (Some (pod1, false)) -> isResponsibleFor (env_at t) s pod1 = Ok true ->
  needs_readiness (env_at t) s item pod1 false.
Proof. by split. Qed.
Lemma unready_pod_not_forgotten_witness :
  EAddAfter item (2 * sec) ∈ snd (fst (processNextItem (env_at 500) joined item)) /\
  exists c, EMarkReady c false pod1 (simulateRefPodStatus (3 * sec) pod1)
              ∈ snd (fst (processNextItem (env_at (3 * sec)) later item)).
Proof.
  assert (needs_readiness (env_at 500) joined item pod1 false) as Hn by (by apply pod1_needs; vm_compute).
  pose proof (unready_pod_not_forgotten (env_at 500) joined item pod1 false Hn) as Hf. cbv zeta in Hf.
  assert (waiting = fst (fst (processNextItem (env_at 500) joined item))) as Hw by reflexivity.
  destruct (processNextItem (env_at 500) joined item) as [[s' es] r]. cbn [fst snd] in Hw |- *. rewrite <- Hw in Hf.
  destruct Hf as (_ & _ & Hwait & _ & Hlater). split.
  - replace (2 * sec) with (time_sub (ready_time (env_at 500) joined item) (now_waited (env_at 500))) by (vm_compute; reflexivity).
    apply Hwait. vm_compute. reflexivity.
  - specialize (Hlater [LHandshake "node-2"] later (env_at (3 * sec)) pod1).
    destruct (processNextItem (env_at (3 * sec)) later item) as [[s1 es1] r1]. apply Hlater.
    + vm_compute. reflexivity.
    + by repeat constructor.
    + apply pod1_needs; vm_compute; reflexivity.
    + vm_compute. discriminate.
    + vm_compute. reflexivity.
    + split; [exists 0%nat; vm_compute; reflexivity|by split].
Defined.
End Demo.
