(* ===== verification/KubeletRun.v ===== *)
(** cmd/kubelet: the running custom kubelet, its handlers and workers around
    the work queue.  The queue is client-go's: a class whose laws are its
    documented behaviour. *)
From S2P Require Import Prelude F64 KdUtil Workload Kube Kubelet KubeletMain.

#[export] Instance PendingPod_countable : Countable PendingPod.
Proof.
  refine (inj_countable' (fun p => (pending_Namespace p, pending_Name p)) (fun x => mkPending (fst x) (snd x)) _).
  by intros [].
Defined.

(** * The work queue *)

(** What a queue holds: the items that wait to be got, first the next one, the
    items being processed, those of them that were added again meanwhile, and
    the items that are added when their time has come. *)
Record queue_view := mkView {
  v_ready : list PendingPod;
  v_processing : list PendingPod;
  v_again : list PendingPod;
  v_delayed : gmap PendingPod time
}.
Definition view_new : queue_view := mkView [] [] [] ∅.
(** An item that waits is not added twice; one that is being processed is
    added when that is done. *)
Definition view_Add (p : PendingPod) (v : queue_view) : queue_view :=
  if decide (p ∈ v_ready v \/ p ∈ v_again v) then v
  else if decide (p ∈ v_processing v) then mkView (v_ready v) (v_processing v) (v_again v ++ [p]) (v_delayed v)
  else mkView (v_ready v ++ [p]) (v_processing v) (v_again v) (v_delayed v).
(** An item is delayed once, until the first of its times. *)
Definition view_AddAfter (now : time) (p : PendingPod) (d : duration) (v : queue_view) : queue_view :=
  if decide (d <= 0) then view_Add p v
  else mkView (v_ready v) (v_processing v) (v_again v)
         (<[p := match v_delayed v !! p with Some t => Z.min t (time_add now d) | None => time_add now d end]> (v_delayed v)).
Definition view_Get (v : queue_view) : option (PendingPod * queue_view) :=
  match v_ready v with
  | [] => None
  | p :: rest => Some (p, mkView rest (v_processing v ++ [p]) (v_again v) (v_delayed v))
  end.
Definition without (p : PendingPod) (l : list PendingPod) : list PendingPod := filter (fun q => q <> p) l.
Definition view_Done (p : PendingPod) (v : queue_view) : queue_view :=
  if decide (p ∈ v_again v)
  then mkView (v_ready v ++ [p]) (without p (v_processing v)) (without p (v_again v)) (v_delayed v)
  else mkView (v_ready v) (without p (v_processing v)) (v_again v) (v_delayed v).
(** All delayed items whose time has come, [ps], are added. *)
Definition view_Wake (now : time) (ps : list PendingPod) (v : queue_view) : queue_view :=
  foldl (fun v p => view_Add p v)
    (mkView (v_ready v) (v_processing v) (v_again v) (filter (fun x => now < snd x) (v_delayed v))) ps.

(** The queue's operations; the time is the one of the call.  [wq_Wake] is
    what its own goroutine does when the time of an item has come. *)
Class WorkQueue (Q : Type) := {
  wq_new : Q;
  wq_Add : PendingPod -> Q -> Q;
  wq_AddAfter : time -> PendingPod -> duration -> Q -> Q;
  wq_AddRateLimited : time -> PendingPod -> Q -> Q;
  wq_Forget : PendingPod -> Q -> Q;
  wq_Get : Q -> option (PendingPod * Q);
  wq_Done : PendingPod -> Q -> Q;
  wq_Wake : time -> Q -> option Q;
  wq_view : Q -> queue_view
}.
Class WorkQueueLaws (Q : Type) `{!WorkQueue Q} := {
  view_new_law : wq_view wq_new = view_new;
  view_add_law : forall p q, wq_view (wq_Add p q) = view_Add p (wq_view q);
  view_add_after_law : forall now p d q, wq_view (wq_AddAfter now p d q) = view_AddAfter now p d (wq_view q);
  (* the rate limiter chooses the delay *)
  view_rate_limited_law : forall now p q, exists d, wq_view (wq_AddRateLimited now p q) = view_AddAfter now p d (wq_view q);
  view_forget_law : forall p q, wq_view (wq_Forget p q) = wq_view q;
  view_get_law : forall q,
    view_Get (wq_view q) = (fun x => (fst x, wq_view (snd x))) <$> wq_Get q;
  view_done_law : forall p q, wq_view (wq_Done p q) = view_Done p (wq_view q);
  view_wake_law : forall now q,
    match wq_Wake now q with
    | None => map_Forall (fun _ t => now < t) (v_delayed (wq_view q))
    | Some q' => exists ps, wq_view q' = view_Wake now ps (wq_view q) /\
        (forall p, p ∈ ps <-> exists t, v_delayed (wq_view q) !! p = Some t /\ t <= now)
    end
}.

(** A queue that satisfies them: a view, with the failures of the items, whose
    delay doubles with each one. *)
Record counting_queue := mkCounting { cq_view : queue_view; cq_failures : gmap PendingPod nat }.
Definition cq_due (now : time) (q : counting_queue) : list PendingPod :=
  fst <$> filter (fun x => snd x <= now) (map_to_list (v_delayed (cq_view q))).
Definition cq_delay (failures : nat) : duration := Z.min (1000 * 1000000000) (5 * Millisecond * 2 ^ Z.of_nat failures).
#[export] Instance counting_work_queue : WorkQueue counting_queue := {
  wq_new := mkCounting view_new ∅;
  wq_Add p q := mkCounting (view_Add p (cq_view q)) (cq_failures q);
  wq_AddAfter now p d q := mkCounting (view_AddAfter now p d (cq_view q)) (cq_failures q);
  wq_AddRateLimited now p q :=
    let n := default 0%nat (cq_failures q !! p) in
    mkCounting (view_AddAfter now p (cq_delay n) (cq_view q)) (<[p := S n]> (cq_failures q));
  wq_Forget p q := mkCounting (cq_view q) (delete p (cq_failures q));
  wq_Get q := (fun x => (fst x, mkCounting (snd x) (cq_failures q))) <$> view_Get (cq_view q);
  wq_Done p q := mkCounting (view_Done p (cq_view q)) (cq_failures q);
  wq_Wake now q :=
    match cq_due now q with
    | [] => None
    | ps => Some (mkCounting (view_Wake now ps (cq_view q)) (cq_failures q))
    end;
  wq_view := cq_view
}.
#[export] Instance counting_work_queue_laws : WorkQueueLaws counting_queue.
Proof.
  assert (forall now q p, p ∈ cq_due now q <-> exists t, v_delayed (cq_view q) !! p = Some t /\ t <= now) as Hdue.
  { intros now q p. unfold cq_due. rewrite list_elem_of_fmap. split.
    - intros ([p' t] & -> & [Ht Hin]%list_elem_of_filter). exists t. by apply elem_of_map_to_list in Hin.
    - intros (t & Hin & Ht). exists (p, t). split; [done|]. apply list_elem_of_filter. by rewrite elem_of_map_to_list. }
  split; try done.
  - intros now p q. by eexists.
  - intros q. simpl. by destruct (view_Get (cq_view q)) as [[p v]|].
  - intros now q. simpl. specialize (Hdue now q). destruct (cq_due now q) as [|p ps] eqn:E; [|by exists (p :: ps)].
    intros p t Hp. assert (~ t <= now) as Hn; [|lia]. intros Ht.
    eapply not_elem_of_nil, Hdue. by exists t.
Qed.

(** * The kubelet around its queue *)
Section Run.
Context `{!Kubedirect}.
Context {MC MT MP : Type} `{!SharedMap nat MC} `{!SharedMap time MT} `{!SharedMap PodInfo MP}.
Context {Q : Type} `{!WorkQueue Q}.
Abbreviation server := (KubedirectServer (MC := MC) (MT := MT) (MP := MP)).
Implicit Types s : server.

(** What the handlers do to the queue. *)
Definition queue_effect (now : time) (q : Q) (x : effect) : Q :=
  match x with
  | EAdd p => wq_Add p q
  | EAddAfter p d => wq_AddAfter now p d q
  | EAddRateLimited p => wq_AddRateLimited now p q
  | EForget p => wq_Forget p q
  | EDone p => wq_Done p q
  | EDelete _ _ | EExpose _ | EMarkReady _ _ _ _ => q
  end.
Definition queue_effects (now : time) (q : Q) (es : list effect) : Q := foldl (queue_effect now) q es.

(** The kubelet's state with the clock and the items that its workers have got
    and not yet synchronised. *)
Record kubelet := mkKubelet {
  k_server : server;
  k_queue : Q;
  k_working : list PendingPod;
  k_clock : time
}.
Definition kubelet_start s (now : time) : kubelet := mkKubelet s wq_new [] now.

Inductive klabel :=
| KInput (l : label)                      (* a handler of the informers or of an RPC *)
| KGet                                    (* an idle worker gets an item *)
| KSync (p : PendingPod) (e : env)        (* the worker that has [p] processes it *)
| KWake                                   (* the queue adds the delayed items that are due *)
| KTick (now : time).

(** The handlers that run outside of the workers. *)
Definition input s (l : label) : option (server * list effect) :=
  match l with
  | LSync _ _ => None
  | LEvent obj isDelete => Some (handlePodEvent s obj isDelete)
  | LNodeDeleted node => Some (DelClient node s, [])
  | LHandshake destination => Some (NewClientset destination s, [])
  | LBind e ns owner rlock info => let '(s', es, _) := BindPod e ns owner rlock info s in Some (s', es)
  end.

(** A synchronisation reads its clocks in turn. *)
Definition clocks_from (now : time) (e : env) : Prop :=
  now <= now_created e /\ now_created e <= now_waited e /\ now_waited e <= now_status e.
#[export] Instance clocks_from_dec now e : Decision (clocks_from now e).
Proof. unfold clocks_from. apply _. Defined.

Definition kubelet_step (k : kubelet) (l : klabel) : option kubelet :=
  match l with
  | KInput l =>
      '(s, es) ← input (k_server k) l;
      Some (mkKubelet s (queue_effects (k_clock k) (k_queue k) es) (k_working k) (k_clock k))
  | KGet =>
      if decide (length (k_working k) < nWorkers)%nat then
        '(p, q) ← wq_Get (k_queue k);
        Some (mkKubelet (k_server k) q (k_working k ++ [p]) (k_clock k))
      else None
  | KSync p e =>
      if decide (p ∈ k_working k /\ clocks_from (k_clock k) e) then
        let '(s, es, r) := processNextItem e (k_server k) p in
        match r with
        | Ok _ => Some (mkKubelet s (queue_effects (now_status e) (k_queue k) es) (without p (k_working k)) (now_status e))
        | _ => None
        end
      else None
  | KWake => q ← wq_Wake (k_clock k) (k_queue k); Some (mkKubelet (k_server k) q (k_working k) (k_clock k))
  | KTick now =>
      if decide (k_clock k <= now) then Some (mkKubelet (k_server k) (k_queue k) (k_working k) now) else None
  end.

(** What it does to the server is a step of the server. *)
Definition server_label (l : klabel) : option label :=
  match l with
  | KInput l => Some l
  | KSync p e => Some (LSync e p)
  | _ => None
  end.
Lemma kubelet_server_step k l k' : kubelet_step k l = Some k' ->
  match server_label l with
  | Some l' => step (k_server k) l' = Some (k_server k')
  | None => k_server k' = k_server k
  end.
Proof.
  destruct l as [l| |p e| |now]; cbn [kubelet_step server_label]; intros Hs.
  - apply bind_Some in Hs as ([s es] & Hi & [= <-]). cbn [k_server].
    destruct l as [|obj d|node|dest|e ns owner rlock info]; cbn [input step] in *; try done; try by simplify_eq.
    + injection Hi as Hi. by rewrite Hi.
    + destruct (BindPod e ns owner rlock info (k_server k)) as [[s1 es1] r1]. by simplify_eq/=.
  - case_decide; [|done]. by apply bind_Some in Hs as ([p q] & _ & [= <-]).
  - case_decide; [|done]. cbn [step]. destruct (processNextItem e (k_server k) p) as [[s es] r]. by destruct r; simplify_eq/=.
  - by apply bind_Some in Hs as (q & _ & [= <-]).
  - case_decide; by simplify_eq/=.
Qed.

(** ** What the queue keeps *)
Context `{!WorkQueueLaws Q}.
Implicit Types v : queue_view.

(** Waiting items keep their places, delayed ones come no later. *)
Definition grows v v' : Prop :=
  v_ready v `prefix_of` v_ready v' /\
  forall p t, v_delayed v !! p = Some t -> exists t', v_delayed v' !! p = Some t' /\ t' <= t.
#[local] Instance grows_preorder : PreOrder grows.
Proof.
  split; [intros v; split; [done|by eauto with lia]|]. intros v1 v2 v3 [R1 D1] [R2 D2]. split; [by etrans|].
  intros p t (t' & Ht' & ?)%D1. destruct (D2 p t' Ht') as (t'' & ? & ?). exists t''. split; [done|lia].
Qed.
Lemma view_Add_grows p v : grows v (view_Add p v).
Proof. unfold view_Add. repeat case_decide; (split; [|by eauto with lia]); [done..|by apply prefix_app_r]. Qed.
Lemma view_Done_grows p v : grows v (view_Done p v).
Proof. unfold view_Done. case_decide; (split; [|by eauto with lia]); [by apply prefix_app_r|done]. Qed.
Lemma view_AddAfter_grows now p d v : grows v (view_AddAfter now p d v).
Proof.
  unfold view_AddAfter. case_decide; [apply view_Add_grows|]. split; [done|]. cbn [v_delayed]. intros q t Hq.
  destruct (decide (q = p)) as [-> |Hn]; [|rewrite lookup_insert_ne by done; by eauto with lia].
  rewrite lookup_insert_eq, Hq. eexists. split; [done|lia].
Qed.
(** An added item waits, or is added again when it has been processed. *)
Definition added p v : Prop := p ∈ v_ready v \/ p ∈ v_again v.
Lemma view_Add_added p v : added p (view_Add p v).
Proof. unfold view_Add, added. repeat case_decide; simpl; set_solver. Qed.
Lemma view_Add_keeps p q v : added p v -> added p (view_Add q v).
Proof. unfold view_Add, added. repeat case_decide; simpl; set_solver. Qed.
Lemma view_AddAfter_adds now p d v :
  added p (view_AddAfter now p d v) \/ is_Some (v_delayed (view_AddAfter now p d v) !! p).
Proof.
  unfold view_AddAfter. case_decide; [left; apply view_Add_added|right]. simpl. rewrite lookup_insert_eq. by eauto.
Qed.
Lemma view_Done_added p v : added p v -> p ∈ v_ready (view_Done p v).
Proof. unfold view_Done, added. case_decide; simpl; set_solver. Qed.

Lemma queue_effect_grows now q x : grows (wq_view q) (wq_view (queue_effect now q x)).
Proof.
  destruct x; simpl; try done.
  - rewrite view_add_law. apply view_Add_grows.
  - rewrite view_add_after_law. apply view_AddAfter_grows.
  - destruct (view_rate_limited_law now p q) as [d ->]. apply view_AddAfter_grows.
  - by rewrite view_forget_law.
  - rewrite view_done_law. apply view_Done_grows.
Qed.
Lemma queue_effects_grow now q es : grows (wq_view q) (wq_view (queue_effects now q es)).
Proof.
  revert q. induction es as [|x es IH]; intros q; [done|]. etrans; [apply (queue_effect_grows now q x)|apply IH].
Qed.

(** Only items that are being processed are added again. *)
Definition again_processing v : Prop := v_again v ⊆ v_processing v.
Definition is_done (x : effect) : bool := match x with EDone _ => true | _ => false end.
Lemma view_Add_processing p v : again_processing v ->
  v_processing (view_Add p v) = v_processing v /\ again_processing (view_Add p v).
Proof. unfold view_Add, again_processing. repeat case_decide; simpl; split; set_solver. Qed.
Lemma view_AddAfter_processing now p d v : again_processing v ->
  v_processing (view_AddAfter now p d v) = v_processing v /\ again_processing (view_AddAfter now p d v).
Proof. unfold view_AddAfter. case_decide; [apply view_Add_processing|done]. Qed.
Lemma view_Done_processing p v : again_processing v ->
  v_processing (view_Done p v) = without p (v_processing v) /\ again_processing (view_Done p v).
Proof.
  unfold view_Done, again_processing, without. intros Ha. case_decide; simpl; (split; [done|]); intros q Hq.
  - apply list_elem_of_filter in Hq as [Hn Hq]. apply list_elem_of_filter. auto.
  - apply list_elem_of_filter. split; [by intros ->|auto].
Qed.
Lemma queue_effect_processing now q x : again_processing (wq_view q) -> is_done x = false ->
  v_processing (wq_view (queue_effect now q x)) = v_processing (wq_view q) /\ again_processing (wq_view (queue_effect now q x)).
Proof.
  intros Ha Hx. destruct x; simpl in Hx |- *; try done.
  - rewrite view_add_law. by apply view_Add_processing.
  - rewrite view_add_after_law. by apply view_AddAfter_processing.
  - destruct (view_rate_limited_law now p q) as [d ->]. by apply view_AddAfter_processing.
  - by rewrite view_forget_law.
Qed.
Lemma queue_effects_processing now es q : again_processing (wq_view q) -> Forall (fun x => is_done x = false) es ->
  v_processing (wq_view (queue_effects now q es)) = v_processing (wq_view q) /\ again_processing (wq_view (queue_effects now q es)).
Proof.
  intros Ha Hes. revert q Ha. induction Hes as [|x es Hx _ IH]; intros q Ha; [done|].
  destruct (queue_effect_processing now q x Ha Hx) as [<- Ha']. apply (IH _ Ha').
Qed.
Lemma queue_effects_app now q es es' : queue_effects now q (es ++ es') = queue_effects now (queue_effects now q es) es'.
Proof. apply foldl_app. Qed.

(** Due items are added when the queue wakes. *)
Lemma view_Wake_spec now ps v : again_processing v ->
  (forall p, p ∈ ps <-> exists t, v_delayed v !! p = Some t /\ t <= now) ->
  let v' := view_Wake now ps v in
  v_ready v `prefix_of` v_ready v' /\ v_processing v' = v_processing v /\ again_processing v' /\
  (forall p t, v_delayed v !! p = Some t -> if decide (t <= now) then added p v' else v_delayed v' !! p = Some t).
Proof.
  intros Ha Hps. cbv zeta. unfold view_Wake.
  set (v0 := mkView _ _ _ _). assert (again_processing v0) as Ha0 by done.
  assert (forall l u, again_processing u -> let w := foldl (fun v p => view_Add p v) u l in
    grows u w /\ v_processing w = v_processing u /\ again_processing w /\
    forall p, p ∈ l \/ added p u -> added p w) as Hfold.
  { induction l as [|q l IH]; intros u Hu; cbv zeta; simpl; [by split_and!; set_solver|].
    destruct (view_Add_processing q u Hu) as [Hp Hu']. destruct (IH _ Hu') as (G & P & A & M). rewrite Hp in P.
    split_and!; [by etrans; [apply (view_Add_grows q)|]|done..|].
    intros p [[-> |Hin]%elem_of_cons|Had]; apply M; [right; apply view_Add_added|by left|right; by apply view_Add_keeps]. }
  destruct (Hfold ps v0 Ha0) as ((R & _) & P & A & M). cbv zeta in *. split_and!; [exact R|exact P|exact A|].
  intros p t Ht. case_decide as Hle; [apply M; left; apply Hps; by eauto|].
  clear M P R A. assert (forall l u, v_delayed (foldl (fun v p => view_Add p v) u l) = v_delayed u) as ->.
  { induction l as [|q l IH]; intros u; [done|]. simpl. rewrite IH. unfold view_Add. by repeat case_decide. }
  apply map_lookup_filter_Some. split; [done|]. simpl. lia.
Qed.

(** What a synchronisation does to the queue before it is done. *)
Lemma markPodReady_quiet e s pod st : Forall (fun x => is_done x = false) (fst (markPodReady e s pod st)).
Proof.
  unfold markPodReady, markPodReadyByPatch, markPodReadyByUpdate. destruct (patch s).
  - destruct (prepareMergePatchBytesForPodStatus e _ _ st); simpl; try constructor.
    destruct (GetClient _ s); simpl; by repeat constructor.
  - destruct (GetClient _ s); simpl; by repeat constructor.
Qed.
Lemma SyncPod_quiet e s p : Forall (fun x => is_done x = false) (snd (fst (SyncPod e s p))).
Proof.
  unfold SyncPod. destruct (find_pod e s p) as [[[pod m]|]|?|?|?]; try by constructor.
  destruct (isResponsibleFor e s pod) as [[]|?|?|?]; try by constructor.
  case_decide; [destruct (DeleteResult e); by repeat constructor|].
  destruct (negb (IsPodActive pod)); [constructor|]. destruct (IsPodReady pod); [constructor|].
  unfold sync_delay. destruct (GetOrCreate _ _ (readyTimers s)) as [[T t] fresh].
  assert (Forall (fun x => is_done x = false) (if fresh && m then [EExpose pod] else [])) as Hx
    by (destruct (fresh && m); by repeat constructor).
  destruct (0 <? _); [simpl; apply Forall_app; by repeat constructor|].
  assert (Forall (fun x => is_done x = false) (fst (sync_ready e (set_timers T s) pod m))) as Hr.
  { unfold sync_ready. destruct m; [constructor|].
    destruct (if simulate (set_timers T s) then _ else _); [apply markPodReady_quiet|constructor..]. }
  destruct (sync_ready e (set_timers T s) pod m) as [es r]. simpl in *. by apply Forall_app.
Qed.
Lemma processed_effects e s p s' es b : processNextItem e s p = (s', es, Ok b) ->
  exists es0, es = es0 ++ [EDone p] /\ Forall (fun x => is_done x = false) es0.
Proof.
  unfold processNextItem. pose proof (SyncPod_quiet e s p) as Hq. destruct (SyncPod e s p) as [[s1 es1] r]. simpl in Hq.
  destruct r; intros [= <- <- <-].
  - exists (es1 ++ [EForget p]). rewrite <- app_assoc. split; [done|]. apply Forall_app. by repeat constructor.
  - exists (es1 ++ [EAddRateLimited p]). rewrite <- app_assoc. split; [done|]. apply Forall_app. by repeat constructor.
Qed.

(** ** Steps of the kubelet *)
Implicit Types k : kubelet.

(** The workers have the items that the queue takes for being processed. *)
Record kubelet_ok k : Prop := {
  ok_working : v_processing (wq_view (k_queue k)) = k_working k;
  ok_again : again_processing (wq_view (k_queue k));
  ok_workers : (length (k_working k) <= nWorkers)%nat
}.
Lemma kubelet_start_ok s now : kubelet_ok (kubelet_start s now).
Proof.
  split; cbn [k_queue k_working kubelet_start]; rewrite ?view_new_law.
  - done.
  - by intros p Hp.
  - unfold nWorkers. simpl. lia.
Qed.

Lemma without_length p l : (length (without p l) <= length l)%nat.
Proof. apply length_filter. Qed.
Lemma without_shorter p l : p ∈ l -> (length (without p l) < length l)%nat.
Proof.
  unfold without. induction l as [|q l IH]; intros Hin; [by apply elem_of_nil in Hin|].
  pose proof (without_length p l) as Hl. unfold without in Hl. destruct (decide (q = p)) as [-> |Hn].
  - rewrite filter_cons_False by naive_solver. simpl. lia.
  - rewrite filter_cons_True by done. apply elem_of_cons in Hin as [? |Hin]; [by subst|]. simpl. specialize (IH Hin). lia.
Qed.

Lemma input_quiet s l s' es : input s l = Some (s', es) -> Forall (fun x => is_done x = false) es.
Proof.
  assert (forall t, input s l = Some t -> Forall (fun x => is_done x = false) (snd t)) as Hq; [|intros Hi; exact (Hq _ Hi)].
  intros t. destruct l as [|obj d|node|dest|e ns owner rlock info]; cbn [input]; [done| |by intros [= <-]..|].
  - intros [= <-]. unfold handlePodEvent. destruct (unwrapPodObj obj) as [pod|]; [|constructor].
    destruct d, (IsManaged (pod_object pod) && IsPersistent (pod_object pod)); by repeat constructor.
  - unfold BindPod. destruct (GetUnnamedTemplateFor e ns owner false); try (intros [= <-]; constructor).
    destruct rlock; try (intros [= <-]; constructor). destruct (GetOrCreate _ info (inMemCache s)) as [[c w] fresh].
    destruct fresh; intros [= <-]; by repeat constructor.
Qed.

(** What the step of a label does to the queue, the workers and the clock. *)
Definition kubelet_effect k (l : klabel) k' : Prop :=
  let v := wq_view (k_queue k) in
  let v' := wq_view (k_queue k') in
  k_clock k <= k_clock k' /\
  match l with
  | KGet => (length (k_working k) < nWorkers)%nat /\ exists p rest, v_ready v = p :: rest /\ v_ready v' = rest /\
      k_working k' = k_working k ++ [p] /\ v_delayed v' = v_delayed v
  | KWake => v_ready v `prefix_of` v_ready v' /\ k_working k' = k_working k /\
      forall p t, v_delayed v !! p = Some t ->
        if decide (t <= k_clock k) then p ∈ v_ready v' \/ p ∈ k_working k' else v_delayed v' !! p = Some t
  | KSync p e => p ∈ k_working k /\ clocks_from (k_clock k) e /\ grows v v' /\ k_working k' = without p (k_working k)
  | KInput _ | KTick _ => grows v v' /\ k_working k' = k_working k
  end.
Lemma kubelet_step_effect k l k' : kubelet_ok k -> kubelet_step k l = Some k' ->
  kubelet_ok k' /\ kubelet_effect k l k'.
Proof.
  intros [W A L] Hs. unfold kubelet_effect. destruct l as [l| |p e| |now]; cbn [kubelet_step] in Hs.
  - apply bind_Some in Hs as ([s es] & Hi & [= <-]). cbn [k_queue k_working k_clock].
    destruct (queue_effects_processing (k_clock k) es (k_queue k) A (input_quiet _ _ _ _ Hi)) as [P A'].
    split; [split; cbn [k_queue k_working]; [by rewrite P|done|done]|].
    split; [lia|]. split; [apply queue_effects_grow|done].
  - case_decide as Hw; [|done]. apply bind_Some in Hs as ([p q] & Hg & [= <-]). pose proof (view_get_law (k_queue k)) as Hl.
    rewrite Hg in Hl. unfold view_Get in Hl. cbn [k_queue k_working k_clock]. cbn [fmap option_fmap option_map fst snd] in Hl.
    destruct (v_ready (wq_view (k_queue k))) as [|p' rest] eqn:E; [done|]. injection Hl as -> Hl. rewrite <- Hl.
    split; [split; cbn; rewrite <- ?Hl; cbn; [by rewrite W| |rewrite length_app; simpl; lia]|].
    + unfold again_processing in *. cbn. set_solver.
    + split; [lia|]. split; [done|]. by exists p, rest.
  - case_decide as Hw; [|done]. destruct Hw as [Hin Hc]. destruct (processNextItem e (k_server k) p) as [[s es] r] eqn:Hp.
    destruct r as [b|m|m|m]; simplify_eq/=. destruct (processed_effects _ _ _ _ _ _ Hp) as (es0 & -> & Hq).
    rewrite queue_effects_app. change (queue_effects (now_status e) ?q [EDone p]) with (wq_Done p q). destruct (queue_effects_processing (now_status e) es0 (k_queue k) A Hq) as [P A'].
    set (q := queue_effects (now_status e) (k_queue k) es0) in *. destruct (view_Done_processing p (wq_view q) A') as [P' A''].
    pose proof (without_length p (k_working k)).
    split; [split; cbn [k_queue k_working]; rewrite ?view_done_law; [by rewrite P', P, W|done|lia]|]. unfold clocks_from in Hc.
    split; [lia|]. split; [done|]. split; [done|]. split; [|done].
    etrans; [apply (queue_effects_grow (now_status e) (k_queue k) es0)|]. fold q. rewrite view_done_law. apply view_Done_grows.
  - apply bind_Some in Hs as (q & Hwake & [= <-]). pose proof (view_wake_law (k_clock k) (k_queue k)) as Hl. rewrite Hwake in Hl.
    destruct Hl as (ps & Hq & Hps). destruct (view_Wake_spec (k_clock k) ps (wq_view (k_queue k)) A Hps) as (R & P & A' & D).
    rewrite <- Hq in R, P, A', D. cbn [k_queue k_working k_clock].
    split; [split; cbn [k_queue k_working]; [by rewrite P|done|done]|]. split; [lia|]. split; [done|]. split; [done|].
    intros p t Ht. specialize (D p t Ht). case_decide; [|done]. destruct D as [?|Hag]; [by left|right].
    rewrite <- W, <- P. by apply A'.
  - case_decide; simplify_eq/=. split; [by split|]. split; [lia|done].
Qed.

(** ** Pods that are to be made ready *)
Context `{!SharedMapLaws nat MC} `{!SharedMapLaws time MT} `{!SharedMapLaws PodInfo MP}.

(** The kubelet will come to an item. *)
Definition pledged (p : PendingPod) k : Prop :=
  p ∈ v_ready (wq_view (k_queue k)) \/ p ∈ k_working k \/ is_Some (v_delayed (wq_view (k_queue k)) !! p).

Definition is_mark (x : effect) : bool := match x with EMarkReady _ _ _ _ => true | _ => false end.
(** The step writes the status of [p]. *)
Definition marks (p : PendingPod) k (l : klabel) : bool :=
  match l with
  | KSync q e => bool_decide (q = p) && existsb is_mark (snd (fst (processNextItem e (k_server k) p)))
  | _ => false
  end.

Lemma queue_effects_added now es q p : added p (wq_view q) -> Forall (fun x => is_done x = false) es ->
  added p (wq_view (queue_effects now q es)).
Proof.
  intros Hp Hes. revert q Hp. induction Hes as [|x es Hx _ IH]; intros q Hp; [done|]. apply IH.
  assert (forall d r, added p (view_AddAfter now r d (wq_view q))) as Hafter
    by (intros d r; unfold view_AddAfter; case_decide; [by apply view_Add_keeps|done]).
  destruct x as [r|r d|r|r| | | |]; simpl in Hx |- *; try done.
  - rewrite view_add_law. by apply view_Add_keeps.
  - by rewrite view_add_after_law.
  - by destruct (view_rate_limited_law now r q) as [d ->].
  - by rewrite view_forget_law.
Qed.
Definition requeues (p : PendingPod) (x : effect) : Prop := (exists d, x = EAddAfter p d) \/ x = EAddRateLimited p.
(** An item that is queued again while it is processed waits, or is delayed,
    when that is done. *)
Lemma requeued now es q p x : requeues p x -> x ∈ es -> Forall (fun y => is_done y = false) es ->
  let v := wq_view (queue_effects now q (es ++ [EDone p])) in p ∈ v_ready v \/ is_Some (v_delayed v !! p).
Proof.
  intros Hx (es1 & es2 & ->)%list_elem_of_split Hes. cbv zeta.
  apply Forall_app in Hes as [_ Hes]. apply Forall_cons in Hes as [_ Hes2].
  rewrite queue_effects_app. change (queue_effects now ?q [EDone p]) with (wq_Done p q). rewrite view_done_law.
  change (x :: es2) with ([x] ++ es2). rewrite !queue_effects_app. set (q1 := queue_effects now q es1).
  change (queue_effects now q1 [x]) with (queue_effect now q1 x).
  set (q2 := queue_effect now q1 x).
  assert (added p (wq_view q2) \/ is_Some (v_delayed (wq_view q2) !! p)) as [Ha|[t Ht]].
  { unfold q2. destruct Hx as [[d ->]| ->]; simpl; [rewrite view_add_after_law|destruct (view_rate_limited_law now p q1) as [d ->]];
      apply view_AddAfter_adds. }
  - left. by apply view_Done_added, queue_effects_added.
  - right. destruct (queue_effects_grow now q2 es2) as [_ Hg]. destruct (Hg p t Ht) as (t1 & Ht1 & _).
    destruct (view_Done_grows p (wq_view (queue_effects now q2 es2))) as [_ Hd].
    destruct (Hd p t1 Ht1) as (t2 & Ht2 & _). by exists t2.
Qed.

Lemma existsb_mark es x : x ∈ es -> is_mark x = true -> existsb is_mark es = true.
Proof. intros Hx Hm. apply existsb_exists. exists x. by rewrite <- list_elem_of_In. Qed.

(** A pod that its synchronisation does not make ready is come to again. *)
Lemma synced_pledged k p e k' pod : kubelet_step k (KSync p e) = Some k' ->
  needs_readiness e (k_server k) p pod false -> marks p k (KSync p e) = true \/ pledged p k'.
Proof.
  cbn [kubelet_step]. case_decide; [|done]. intros Hs Hn.
  pose proof (unready_pod_not_forgotten e (k_server k) p pod false Hn) as Hu. cbv zeta in Hu. unfold marks.
  destruct (processNextItem e (k_server k) p) as [[s es] r] eqn:Hp. destruct r as [b|m|m|m]; try done.
  injection Hs as <-. cbn [fst snd]. rewrite (bool_decide_true (p = p)) by done. cbn [andb].
  destruct (processed_effects _ _ _ _ _ _ Hp) as (es0 & -> & Hq). destruct Hu as (_ & _ & Hwait & Hdue & _).
  assert (forall x, requeues p x -> x ∈ es0 ++ [EDone p] -> x ∈ es0) as Hin.
  { intros x Hx [?|Hl]%elem_of_app; [done|]. apply list_elem_of_singleton in Hl. destruct Hx as [[d ->]| ->]; congruence. }
  assert (forall x, requeues p x -> x ∈ es0 ++ [EDone p] -> pledged p
    (mkKubelet s (queue_effects (now_status e) (k_queue k) (es0 ++ [EDone p])) (without p (k_working k)) (now_status e))) as Hre.
  { intros x Hx Hel. unfold pledged. cbn [k_queue k_working].
    destruct (requeued (now_status e) es0 (k_queue k) p x Hx (Hin x Hx Hel) Hq); auto. }
  destruct (decide (now_waited e < ready_time e (k_server k) p)) as [Hlt|Hge].
  - right. destruct (Hwait Hlt) as [_ Hel]. eapply Hre; [|exact Hel]. left. by eexists.
  - assert (Ok b = Ok true) as Hb.
    { unfold processNextItem in Hp. destruct (SyncPod e (k_server k) p) as [[s1 es1] []]; by simplify_eq. }
    destruct (Hdue ltac:(lia) Hb) as [?|[(c & st & Hel & _)|Hel]]; [done|left|right].
    + by eapply existsb_mark.
    + eapply Hre; [|exact Hel]. by right.
Qed.

Definition is_sync (p : PendingPod) (l : klabel) : Prop := exists e, l = KSync p e.
#[export] Instance is_sync_dec p l : Decision (is_sync p l).
Proof.
  destruct l as [l| |q e| |now]; try (right; intros [e' He]; discriminate He).
  destruct (decide (q = p)) as [-> |Hn]; [left; by exists e|right; intros [e' [= E _]]; done].
Defined.
Lemma pledged_step k l k' p : kubelet_ok k -> kubelet_step k l = Some k' -> ~ is_sync p l -> pledged p k -> pledged p k'.
Proof.
  intros Hok Hs Hl Hp. destruct (kubelet_step_effect k l k' Hok Hs) as [_ [_ He]]. cbv zeta in He.
  assert (grows (wq_view (k_queue k)) (wq_view (k_queue k')) -> (p ∈ k_working k -> p ∈ k_working k') -> pledged p k') as Hg.
  { intros [R D] Hw. destruct Hp as [Hp|[Hp|[t Ht]]]; [left|right; left; auto|right; right].
    - destruct R as [l' ->]. apply elem_of_app. by left.
    - destruct (D p t Ht) as (t' & Ht' & _). by exists t'. }
  destruct l as [l| |q e| |now].
  - destruct He as [G W]. apply Hg; [done|by rewrite W].
  - destruct He as (_ & q & rest & R & R' & W & D). destruct Hp as [Hp|[Hp|[t Ht]]].
    + rewrite R in Hp. apply elem_of_cons in Hp as [-> |Hp]; [right; left; rewrite W; set_solver|left; by rewrite R'].
    + right. left. rewrite W. set_solver.
    + right. right. rewrite D. by exists t.
  - destruct He as (_ & _ & G & W). apply Hg; [done|]. rewrite W. intros Hin. apply list_elem_of_filter. split; [|done].
    intros ->. apply Hl. by exists e.
  - destruct He as (R & W & D). destruct Hp as [Hp|[Hp|[t Ht]]].
    + left. destruct R as [l' ->]. apply elem_of_app. by left.
    + right. left. by rewrite W.
    + specialize (D p t Ht). case_decide; [destruct D as [D|D]; [by left|by right; left]|]. right. right. by exists t.
  - destruct He as [G W]. apply Hg; [done|by rewrite W].
Qed.

(** An event of a pod that exists queues it. *)
Lemma event_pledged k obj pod k' : kubelet_ok k -> unwrapPodObj obj = Some pod ->
  kubelet_step k (KInput (LEvent obj false)) = Some k' -> pledged (NewPendingPodFromAPIServer pod) k'.
Proof.
  intros Hok Ho. cbn [kubelet_step input]. unfold handlePodEvent. rewrite Ho. intros Hs.
  assert (k_queue k' = queue_effects (k_clock k) (k_queue k) [EAdd (NewPendingPodFromAPIServer pod)] /\
          k_working k' = k_working k) as [Hq Hw] by (destruct (_ && _); by injection Hs as <-).
  cbn in Hq. set (p := NewPendingPodFromAPIServer pod) in *. unfold pledged. rewrite Hq, Hw, view_add_law.
  destruct (view_Add_added p (wq_view (k_queue k))) as [Ha|Ha]; [by left|]. right. left.
  destruct Hok as [Wk Ag _]. destruct (view_Add_processing p _ Ag) as [P A]. apply A in Ha. by rewrite P, Wk in Ha.
Qed.

(** The writing of a pod's status succeeds. *)
Definition can_ready (e : env) s (pod : Pod) : Prop := snd (sync_ready e s pod false) = Ok tt.
Lemma due_marks k p e k' pod : kubelet_step k (KSync p e) = Some k' ->
  needs_readiness e (k_server k) p pod false -> ready_time e (k_server k) p <= now_waited e ->
  can_ready e (k_server k) pod -> marks p k (KSync p e) = true.
Proof.
  intros _ Hn Hdue Hok. unfold marks. rewrite (bool_decide_true (p = p)) by done. cbn [andb].
  unfold processNextItem. rewrite (sync_needed _ _ _ _ _ Hn).
  destruct (sync_delay_timer e (k_server k) p pod false) as (T & _ & ->). rewrite decide_False by lia.
  unfold can_ready in Hok. pose proof (sync_ready_answer e (k_server k) pod false) as Ha.
  destruct (sync_ready e (k_server k) pod false) as [es r]. cbn [fst snd] in *. subst r.
  destruct (Ha eq_refl) as [?|(c & st & ->)]; [done|]. rewrite andb_false_r. done.
Qed.

Lemma markPodReady_mark e s pod st x : x ∈ fst (markPodReady e s pod st) -> exists c, x = EMarkReady c (patch s) pod st.
Proof.
  unfold markPodReady, markPodReadyByPatch, markPodReadyByUpdate.
  destruct (patch s); [destruct (prepareMergePatchBytesForPodStatus e _ _ st)|]; try (intros Hx; by apply elem_of_nil in Hx);
    destruct (GetClient _ s) as [c|]; intros Hx; try (by apply elem_of_nil in Hx); exists c; by apply list_elem_of_singleton in Hx.
Qed.
(** The status that is written is the pod's, and its delay is over. *)
Lemma marks_pod k p e pod : marks p k (KSync p e) = true -> needs_readiness e (k_server k) p pod false ->
  ready_time e (k_server k) p <= now_waited e /\
  exists c st, EMarkReady c (patch (k_server k)) pod st ∈ snd (fst (processNextItem e (k_server k) p)).
Proof.
  unfold marks. rewrite (bool_decide_true (p = p)) by done. cbn [andb]. unfold processNextItem. intros Hm Hn.
  rewrite (sync_needed _ _ _ _ _ Hn) in *. destruct (sync_delay_timer e (k_server k) p pod false) as (T & _ & E). rewrite E in *.
  clear E. rewrite andb_false_r in *. cbn [app] in *. case_decide as Hdue; [by simpl in Hm|]. split; [lia|].
  apply existsb_exists in Hm as (x & Hx & Hm). apply list_elem_of_In in Hx.
  assert (x ∈ fst (sync_ready e (k_server k) pod false)) as Hin.
  { destruct (snd (sync_ready e (k_server k) pod false)); cbn [fst snd] in Hx; try exact Hx; apply elem_of_app in Hx as [?|Hx]; try done;
      repeat (apply elem_of_cons in Hx as [-> |Hx]; [done|]); by apply elem_of_nil in Hx. }
  assert (exists c st, x = EMarkReady c (patch (k_server k)) pod st) as (c & st & ->).
  { unfold sync_ready in Hin. destruct (if simulate (k_server k) then _ else _) as [st|m|m|m]; try (by apply elem_of_nil in Hin).
    apply markPodReady_mark in Hin as [c ->]. by eauto. }
  exists c, st. destruct (snd (sync_ready e (k_server k) pod false)); exact Hx.
Qed.

(** What would take away the timer of a pod: the end of the pod, or the
    synchronisation of another one with the same key. *)
Definition disturbs (p : PendingPod) (l : klabel) : Prop :=
  match l with
  | KSync q _ => q <> p /\ PendingPod_String q = PendingPod_String p
  | KInput (LEvent obj true) =>
      exists pod, unwrapPodObj obj = Some pod /\
        PendingPod_String (NewPendingPodFromAPIServer pod) = PendingPod_String p
  | _ => False
  end.
Lemma timer_step k l k' p due : kubelet_step k l = Some k' -> ~ disturbs p l ->
  (forall e, l = KSync p e -> exists pod, needs_readiness e (k_server k) p pod false) ->
  timers (k_server k) !! PendingPod_String p = Some due -> timers (k_server k') !! PendingPod_String p = Some due.
Proof.
  intros Hk Hd Hn Ht. pose proof (kubelet_server_step _ _ _ Hk) as Hs. destruct l as [l| |q e| |now]; cbn [server_label] in Hs; try by rewrite Hs.
  - destruct l as [e q|obj []|node|dest|e ns owner rlock info]; simpl in Hs.
    + discriminate Hk.
    + rewrite <- Ht. apply (timer_untouched (PendingPod_String p) _ [LEvent obj true]); [|simpl; by rewrite Hs].
      apply Forall_singleton. cbn [clears]. destruct (unwrapPodObj obj) as [pod|] eqn:E; [|done].
      apply bool_decide_eq_false. intros Heq. apply Hd. by exists pod.
    + injection Hs as <-. rewrite <- Ht. unfold handlePodEvent. by destruct (unwrapPodObj obj) as [pod|]; [destruct (_ && _)|].
    + rewrite <- Ht. by apply (timer_untouched (PendingPod_String p) _ [LNodeDeleted node]); [apply Forall_singleton|simpl; rewrite Hs].
    + rewrite <- Ht. by apply (timer_untouched (PendingPod_String p) _ [LHandshake dest]); [apply Forall_singleton|simpl; rewrite Hs].
    + rewrite <- Ht. by apply (timer_untouched (PendingPod_String p) _ [LBind e ns owner rlock info]); [apply Forall_singleton|simpl; rewrite Hs].
  - destruct (decide (q = p)) as [-> |Hq].
    + destruct (Hn e eq_refl) as [pod Hp]. pose proof (processed_timer e _ p pod false Hp) as Hpt. cbn [step] in Hs.
      destruct (processNextItem e (k_server k) p) as [[s es] r]. destruct r; simplify_eq/=. rewrite Hpt, lookup_insert_eq.
      unfold ready_time. by rewrite Ht.
    + rewrite <- Ht. apply (timer_untouched (PendingPod_String p) _ [LSync e q]); [|simpl; simpl in Hs; by rewrite Hs].
      apply Forall_singleton. cbn [clears]. apply bool_decide_eq_false. intros Heq. by apply Hd.
Qed.
End Run.
