(* ===== verification/PodLife.v ===== *)
(** cmd/kubelet: the life of a pod that reaches the custom kubelet without the
    API server, from its binding by RPC over its exposure to its readiness. *)
From S2P Require Import Prelude F64 KdUtil Workload Kube Kubelet KubeletMain.

Section Life.
Context `{!Kubedirect}.
Context {MC MT MP : Type} `{!SharedMap nat MC} `{!SharedMap time MT} `{!SharedMap PodInfo MP}.
Context `{!SharedMapLaws nat MC} `{!SharedMapLaws time MT} `{!SharedMapLaws PodInfo MP}.
Abbreviation server := (KubedirectServer (MC := MC) (MT := MT) (MP := MP)).
Implicit Types s : server.

(** * The in-memory cache *)
Definition event_for (name : string) (l : label) : bool :=
  match l with
  | LEvent obj _ => match unwrapPodObj obj with Some pod => bool_decide (pod_Name pod = name) | None => false end
  | _ => false
  end.
Lemma SyncPod_cache e s pending : inMemCache (fst (fst (SyncPod e s pending))) = inMemCache s.
Proof.
  unfold SyncPod. destruct (find_pod e s pending) as [[[p m]|]|?|?|?]; try done.
  destruct (isResponsibleFor e s p) as [[]|?|?|?]; try done.
  case_decide; [by destruct (DeleteResult e)|].
  destruct (negb (IsPodActive p)); [done|]. destruct (IsPodReady p); [done|].
  destruct (sync_delay_timer e s pending p m) as (T & _ & ->). cbv zeta. by case_decide.
Qed.
(** Only an event of a pod with its name takes a pod out of the cache. *)
Lemma cache_step s l s' name info : step s l = Some s' -> event_for name l = false ->
  Inner (inMemCache s) !! name = Some info -> Inner (inMemCache s') !! name = Some info.
Proof.
  intros Hs Hl Hc. destruct l as [e pending|obj isDelete|node|dest|e ns owner rlock info']; simpl in Hs, Hl.
  - unfold processNextItem in Hs. pose proof (SyncPod_cache e s pending) as Hk.
    destruct (SyncPod e s pending) as [[s1 es] r]. destruct r; simplify_eq/=; by rewrite Hk.
  - simplify_eq. unfold handlePodEvent. destruct (unwrapPodObj obj) as [pod|]; [|done].
    apply bool_decide_eq_false in Hl. destruct isDelete, (IsManaged (pod_object pod) && IsPersistent (pod_object pod)); try done;
      cbn [fst inMemCache set_cache set_timers]; rewrite inner_del; by rewrite lookup_delete_ne.
  - by simplify_eq.
  - simplify_eq. unfold NewClientset. by destruct (GetOrCreate dest (clients s) (clientPool s)) as [[pool v] fresh].
  - simplify_eq. unfold BindPod. destruct (GetUnnamedTemplateFor e ns owner false); try done. destruct rlock; try done.
    pose proof (get_or_create (info_Name info') info' (inMemCache s)) as Hg.
    destruct (GetOrCreate _ info' (inMemCache s)) as [[c v] fresh].
    assert (Inner c !! name = Some info) as Hi; [|by destruct fresh].
    destruct (Inner (inMemCache s) !! info_Name info') as [old|] eqn:E; destruct Hg as (_ & _ & ->); [done|].
    rewrite lookup_insert_ne; [done|]. intros Hname. congruence.
Qed.

(** Steps that have nothing to do with a pod. *)
Definition unrelated (info : PodInfo) (l : label) : bool :=
  negb (clears (PendingPod_String (NewPendingPodFromInMemCache info)) l) && negb (event_for (info_Name info) l).
Lemma unrelated_clears info ls : Forall (fun l => unrelated info l = true) ls ->
  Forall (fun l => clears (PendingPod_String (NewPendingPodFromInMemCache info)) l = false) ls.
Proof. intros Hl. eapply Forall_impl; [exact Hl|]. intros l Hu. cbn beta in Hu. unfold unrelated in Hu. by destruct (clears _ l). Qed.
Lemma unrelated_cache info ls s s' : Forall (fun l => unrelated info l = true) ls -> run step s ls = Some s' ->
  Inner (inMemCache s) !! info_Name info = Some info -> Inner (inMemCache s') !! info_Name info = Some info.
Proof.
  revert s. induction ls as [|l ls IH]; intros s Hls Hr Hc; [by injection Hr as <-|].
  apply Forall_cons in Hls as [Hl Hls]. apply bind_Some in Hr as (s1 & Hs & Hr). apply (IH s1 Hls Hr).
  eapply cache_step; [exact Hs| |exact Hc]. unfold unrelated in Hl. destruct (event_for _ l); [|done].
  by rewrite andb_false_r in Hl.
Qed.
(** What an unrelated run keeps of a pod: its timer. *)
Lemma unrelated_timer info ls s s' : Forall (fun l => unrelated info l = true) ls -> run step s ls = Some s' ->
  timers s' !! PendingPod_String (NewPendingPodFromInMemCache info) =
  timers s !! PendingPod_String (NewPendingPodFromInMemCache info).
Proof. intros Hu Hr. eapply timer_untouched; [by apply unrelated_clears|exact Hr]. Qed.

(** * Exposure *)
(** An attempt that is made with a client and does not end the polling. *)
Definition create_fails (node : string) (a : attempt (MC := MC) (MT := MT) (MP := MP)) : Prop :=
  is_Some (GetClient node (at_server a)) /\ match at_answer a with NotFound | Failed _ => True | _ => False end.
Lemma tryCreate_fails pod n failed later : Forall (create_fails (NodeName pod)) failed ->
  tryCreate pod n (failed ++ later) = tryCreate pod (n + length failed) later.
Proof.
  intros Hf. revert n. induction Hf as [|a failed [[c Hc] Ha] Hf IH]; intros n; cbn [app length tryCreate].
  - by rewrite Nat.add_0_r.
  - rewrite Hc. replace (n + S (length failed))%nat with (S n + length failed)%nat by lia. rewrite <- IH.
    by destruct (at_answer a).
Qed.
(** The first attempt that does not just fail decides. *)
Lemma ExposeManagedPod_decided pod failed a later : ResourceVersion pod = "" -> Forall (create_fails (NodeName pod)) failed ->
  (is_Some (GetClient (NodeName pod) (at_server a)) -> at_answer a = AlreadyExists \/ at_answer a = Found tt ->
     ExposeManagedPod pod (failed ++ a :: later) = Ok (Exposed (S (length failed)))) /\
  (GetClient (NodeName pod) (at_server a) = None -> ExposeManagedPod pod (failed ++ a :: later) = Panic nil_dereference).
Proof.
  intros Hv Hf. unfold ExposeManagedPod. rewrite decide_False by (by intros []).
  rewrite (tryCreate_fails _ _ _ _ Hf). cbn [tryCreate]. split; [|by intros ->].
  intros [c ->] [-> | ->]; done.
Qed.

(** An in-memory pod that a worker finds: the API server does not have it, its
    template is known, and it is this kubelet's. *)
Record in_memory (e : env) s (info : PodInfo) (template : Pod) : Prop := {
  mem_unknown : GetPod e (info_Namespace info) (info_Name info) = NotFound;
  mem_template : GetUnnamedTemplateFor e (info_Namespace info) (info_OwnerName info) true = Found template;
  mem_responsible : isResponsibleFor e s (AsPersistentPod info template) = Ok true;
  mem_kept : DeletionTimestamp (AsPersistentPod info template) = None;
  mem_active : IsPodActive (AsPersistentPod info template) = true;
  mem_unready : IsPodReady (AsPersistentPod info template) = false
}.
Lemma in_memory_needs e s info template : in_memory e s info template -> Inner (inMemCache s) !! info_Name info = Some info ->
  needs_readiness e s (NewPendingPodFromInMemCache info) (AsPersistentPod info template) true.
Proof.
  intros [I1 I2 I3 I4 I5 I6] Hc. split; try done. unfold find_pod. cbn [NewPendingPodFromInMemCache pending_Namespace pending_Name].
  by rewrite I1, get_inner, Hc, I2.
Qed.

(** A worker's first look at an in-memory pod: it is exposed, not made ready,
    and looked at again when its delay is over. *)
Lemma in_memory_synced e s info template : in_memory e s info template ->
  Inner (inMemCache s) !! info_Name info = Some info ->
  let pending := NewPendingPodFromInMemCache info in
  let due := time_add (now_created e) (readyDelay s) in
  timers s !! PendingPod_String pending = None ->
  exists s', processNextItem e s pending =
      (s', EExpose (AsPersistentPod info template) ::
           (if decide (now_waited e < due) then [EAddAfter pending (time_sub due (now_waited e))] else []) ++
           [EForget pending; EDone pending], Ok true) /\
    timers s' !! PendingPod_String pending = Some due.
Proof.
  intros Hi Hc pending due Ht. pose proof (in_memory_needs e s info template Hi Hc) as Hn. fold pending in Hn.
  pose proof (processed_timer e s pending _ true Hn) as Hpt.
  assert (ready_time e s pending = due) as Hdue by (unfold ready_time; by rewrite Ht). rewrite Hdue in Hpt.
  unfold processNextItem in *. rewrite (sync_needed _ _ _ _ _ Hn) in *.
  destruct (sync_delay_timer e s pending (AsPersistentPod info template) true) as (T & _ & E). rewrite E in *. clear E.
  rewrite Hdue, Ht, bool_decide_true in * by done. cbn [andb sync_ready fst snd] in *.
  destruct (decide (now_waited e < due)); (eexists; split; [reflexivity|]); cbn [fst] in Hpt; rewrite Hpt; apply lookup_insert_eq.
Qed.

End Life.

(** * The theorem at a concrete input *)
Module Demo.
#[local] Existing Instance Kube.Demo.kubedirect.
Import Kubelet.Demo.

Definition joined : server := NewClientset "node-1" start.
Definition bound : server := fst (fst (BindPod (env_at 0) "default" "fn" (Ok tt) info2 joined)).
(** The API server after the exposure. *)
Definition api_pod : Pod :=
  mkPod "default" "fn-2" (list_to_map [("kubedirect/pod-lifecycle-manager", "custom"); ("kubedirect/managed", "true")])
    "9" None "node-1" [] [("main", "fn:latest")] [] pending_status.
Definition env_api (t : time) : env :=
  mkEnv (fun _ name => if decide (name = "fn-2") then Found api_pod else NotFound) (fun _ _ => Ok []) (fun _ _ _ => Found pod1)
        (fun _ => Found ∅) (Found tt) (fun _ => Ok "{}") (Ok tt) t t t (fun _ => 0%nat).
Definition item2 : PendingPod := NewPendingPodFromInMemCache info2.
Definition exposed : server := fst (fst (processNextItem (env_at sec) bound item2)).
Definition seen : server := fst (handlePodEvent exposed (ObjPod api_pod) false).

End Demo.
