(* ===== verification/FairKubelet.v ===== *)
(** cmd/kubelet: in every fair behaviour of the custom kubelet in which time
    goes on, a pod that is not ready is made ready. *)
From S2P Require Import Prelude Fair F64 KdUtil Workload Kube Kubelet KubeletMain KubeletRun PodLife.

Section Fair.
Context `{!Kubedirect}.
Context {MC MT MP : Type} `{!SharedMap nat MC} `{!SharedMap time MT} `{!SharedMap PodInfo MP}.
Context `{!SharedMapLaws nat MC} `{!SharedMapLaws time MT} `{!SharedMapLaws PodInfo MP}.
Context {Q : Type} `{!WorkQueue Q} `{!WorkQueueLaws Q}.
Abbreviation server := (KubedirectServer (MC := MC) (MT := MT) (MP := MP)).
Abbreviation kubelet := (kubelet (MC := MC) (MT := MT) (MP := MP) (Q := Q)).
Abbreviation kubelet_step := (kubelet_step (MC := MC) (MT := MT) (MP := MP) (Q := Q)).
Implicit Types k : kubelet.

(** * Fairness

    A worker goes on with the item it has got, the queue wakes when an item is
    due, idle workers get items, and time goes on. *)
Definition getting (l : klabel) : Prop := l = KGet.
Definition waking (l : klabel) : Prop := l = KWake.
Record fair_kubelet (b : behaviour kubelet_step) : Prop := {
  fair_sync p : weakly_fair kubelet_step (is_sync p) b;
  fair_wake : weakly_fair kubelet_step waking b;
  fair_get : strongly_fair kubelet_step getting b;
  fair_time n (t : time) : exists m, (n <= m)%nat /\ t <= k_clock (state_at b m)
}.

(** * What is enabled *)
(** The worker can always go on: the API server may fail. *)
Definition failing_env (now : time) : env :=
  mkEnv (fun _ _ => Failed "unavailable") (fun _ _ => Ok []) (fun _ _ _ => NotFound) (fun _ => NotFound) NotFound
        (fun _ => Ok "") (Ok tt) now now now (fun _ => 0%nat).
Lemma sync_enabled p k : p ∈ k_working k -> enabled kubelet_step (is_sync p) k.
Proof.
  intros Hp. exists (KSync p (failing_env (k_clock k))).
  eexists. split; [by eexists|]. simpl. rewrite decide_True; [reflexivity|]. split; [done|]. unfold clocks_from. simpl. lia.
Qed.
Lemma get_enabled k : v_ready (wq_view (k_queue k)) <> [] -> (length (k_working k) < nWorkers)%nat ->
  enabled kubelet_step getting k.
Proof.
  intros Hr Hw. exists KGet. pose proof (view_get_law (k_queue k)) as Hg. unfold view_Get in Hg.
  destruct (v_ready (wq_view (k_queue k))) as [|p rest]; [done|].
  destruct (wq_Get (k_queue k)) as [[p' q]|] eqn:E; [|done].
  eexists. split; [done|]. simpl. rewrite decide_True by done. by rewrite E.
Qed.
Lemma wake_enabled k p t : v_delayed (wq_view (k_queue k)) !! p = Some t -> t <= k_clock k -> enabled kubelet_step waking k.
Proof.
  intros Hp Ht. exists KWake. pose proof (view_wake_law (k_clock k) (k_queue k)) as Hw.
  destruct (wq_Wake (k_clock k) (k_queue k)) as [q|] eqn:E.
  - eexists. split; [done|]. simpl. by rewrite E.
  - specialize (Hw p t Hp). cbn beta in Hw. lia.
Qed.

(** * A fair behaviour *)
Section Behaviour.
Context (b : behaviour kubelet_step) (Hf : fair_kubelet b) (Hstart : kubelet_ok (state_at b 0)).
Implicit Types p : PendingPod.

Lemma always_ok n : kubelet_ok (state_at b n).
Proof.
  apply behaviour_invariant; [|done]. intros m l s' _ Hok Hs. by apply (kubelet_step_effect _ l s' Hok Hs).
Qed.
Lemma effect_at n l : label_at b n = Some l -> kubelet_effect (state_at b n) l (state_at b (Datatypes.S n)).
Proof. intros Hl. apply (kubelet_step_effect _ l _ (always_ok n)). by apply behaviour_step. Qed.
Lemma clock_mono n m : (n <= m)%nat -> k_clock (state_at b n) <= k_clock (state_at b m).
Proof.
  intros Hm. induction Hm as [|m _ IH]; [done|]. destruct (label_at b m) as [l|] eqn:E.
  - destruct (effect_at m l E) as [Hc _]. lia.
  - by rewrite (behaviour_stutter _ b m E).
Qed.

Definition ready_at p n : Prop := p ∈ v_ready (wq_view (k_queue (state_at b n))).
Definition working_at p n : Prop := p ∈ k_working (state_at b n).
Definition delayed_at p (t : time) n : Prop := exists t', v_delayed (wq_view (k_queue (state_at b n))) !! p = Some t' /\ t' <= t.

(** ** A worker processes its item *)
Lemma working_synced p (n0 : nat) : leads (fun n => (n0 <= n)%nat /\ working_at p n)
  (fun n => exists m e, n = Datatypes.S m /\ (n0 <= m)%nat /\ label_at b m = Some (KSync p e)).
Proof.
  apply (weak_leads _ b (is_sync p)); [apply (fair_sync b Hf)| | |].
  - intros n [Hn Hp]. destruct (label_at b n) as [l|] eqn:E; [|left; split; [lia|]; unfold working_at in *;
      by rewrite (behaviour_stutter _ b n E)].
    destruct (decide (is_sync p l)) as [[e ->]|Hl]; [right; by exists n, e|left]. split; [lia|].
    destruct (effect_at n l E) as [_ He]. cbv zeta in He. unfold working_at in *. destruct l as [l| |q e| |now].
    + by destruct He as [_ ->].
    + destruct He as (_ & q & rest & _ & _ & -> & _). set_solver.
    + destruct He as (_ & _ & _ & ->). apply list_elem_of_filter. split; [|done]. intros ->. apply Hl. by exists e.
    + by destruct He as (_ & -> & _).
    + by destruct He as [_ ->].
  - intros n [_ Hp]. by apply sync_enabled.
  - intros n l [Hn _] Hl [e ->]. by exists n, e.
Qed.

(** ** An idle worker comes to every item that waits *)
Lemma ready_step n l : label_at b n = Some l ->
  let r := v_ready (wq_view (k_queue (state_at b n))) in
  let r' := v_ready (wq_view (k_queue (state_at b (Datatypes.S n)))) in
  ~ getting l /\ r `prefix_of` r' \/
  exists p rest, r = p :: rest /\ rest `prefix_of` r' /\ working_at p (Datatypes.S n).
Proof.
  intros Hl. destruct (effect_at n l Hl) as [_ He]. cbv zeta in He |- *. destruct l as [l| |q e| |now].
  - left. split; [done|]. apply He.
  - right. destruct He as (_ & p & rest & R & R' & W & _). exists p, rest. split; [done|]. rewrite R'. split; [done|].
    unfold working_at. rewrite W. set_solver.
  - left. split; [done|]. apply He.
  - left. split; [done|]. apply He.
  - left. split; [done|]. apply He.
Qed.
Definition waiting_at n : Prop := v_ready (wq_view (k_queue (state_at b n))) <> [].
Lemma waiting_kept n l : label_at b n = Some l -> ~ getting l -> waiting_at n -> waiting_at (Datatypes.S n).
Proof.
  unfold waiting_at. intros Hl Hg Hw. destruct (ready_step n l Hl) as [[_ [l' ->]]|(p & rest & R & _)].
  - by destruct (v_ready (wq_view (k_queue (state_at b n)))).
  - destruct (effect_at n l Hl) as [_ He]. cbv zeta in He. destruct l as [l| |q e| |now]; [| |..].
    + destruct He as [[[l' ->] _] _]. by rewrite R.
    + by destruct Hg.
    + destruct He as (_ & _ & [[l' ->] _] & _). by rewrite R.
    + destruct He as ([l' ->] & _). by rewrite R.
    + destruct He as [[[l' ->] _] _]. by rewrite R.
Qed.

(** When all workers are busy, one of them becomes idle. *)
Lemma sync_frees n q e : label_at b n = Some (KSync q e) -> waiting_at n ->
  enabled kubelet_step getting (state_at b (Datatypes.S n)).
Proof.
  intros Hl Hn. destruct (effect_at n _ Hl) as [_ (Hq & _ & _ & W)]. apply get_enabled; [by apply (waiting_kept n _ Hl)|].
  rewrite W. pose proof (without_shorter q _ Hq). pose proof (ok_workers _ (always_ok n)). lia.
Qed.
Lemma worker_comes_free : leads waiting_at (fun n => enabled kubelet_step getting (state_at b n)).
Proof.
  intros n Hn. destruct (decide (length (k_working (state_at b n)) < nWorkers)%nat) as [Hw|Hfull];
    [exists n; split; [done|by apply get_enabled]|].
  destruct (k_working (state_at b n)) as [|w ws] eqn:E; [unfold nWorkers in Hfull; simpl in Hfull; lia|].
  refine (weak_leads _ b (is_sync w) (fun n => waiting_at n /\ working_at w n /\ ~ (length (k_working (state_at b n)) < nWorkers)%nat)
    _ (fair_sync b Hf w) _ _ _ n _).
  - clear n Hn E Hfull. intros n (Hn & Hw & Hfull). destruct (label_at b n) as [l|] eqn:Hl.
    2:{ left. unfold waiting_at, working_at in *. by rewrite (behaviour_stutter _ b n Hl). }
    assert (k_working (state_at b (Datatypes.S n)) = k_working (state_at b n) -> ~ getting l ->
      waiting_at (Datatypes.S n) /\ working_at w (Datatypes.S n) /\
      ~ (length (k_working (state_at b (Datatypes.S n))) < nWorkers)%nat) as Hkeep
      by (intros W Hg; unfold working_at in *; rewrite W; split; [by apply (waiting_kept n l Hl)|done]).
    destruct (effect_at n l Hl) as [_ He]. cbv zeta in He. destruct l as [l| |q e| |now].
    + left. by apply Hkeep; [apply He|].
    + by destruct He as [? _].
    + right. by apply (sync_frees n q e).
    + left. by apply Hkeep; [apply He|].
    + left. by apply Hkeep; [apply He|].
  - intros m (_ & Hw & _). by apply sync_enabled.
  - intros m l (Hw & _ & _) Hl [e ->]. by apply (sync_frees m w e).
  - split; [done|]. unfold working_at. rewrite E. split; [left|exact Hfull].
Qed.
Lemma ready_got p : leads (ready_at p) (working_at p).
Proof.
  apply (strong_queue_leads _ b (fun k => v_ready (wq_view (k_queue k))) getting working_at (fair_get b Hf) ready_step
    worker_comes_free).
Qed.

(** ** A delayed item is added when it is due *)
Lemma delayed_kept p t n : delayed_at p t n ->
  delayed_at p t (Datatypes.S n) \/ ready_at p (Datatypes.S n) \/ working_at p (Datatypes.S n).
Proof.
  intros (t' & Ht' & Hle). unfold delayed_at. destruct (label_at b n) as [l|] eqn:Hl.
  2:{ left. rewrite (behaviour_stutter _ b n Hl). by exists t'. }
  assert (grows (wq_view (k_queue (state_at b n))) (wq_view (k_queue (state_at b (Datatypes.S n)))) ->
    exists t', v_delayed (wq_view (k_queue (state_at b (Datatypes.S n)))) !! p = Some t' /\ t' <= t) as Hg.
  { intros [_ D]. destruct (D p t' Ht') as (t'' & ? & ?). exists t''. split; [done|lia]. }
  destruct (effect_at n l Hl) as [_ He]. cbv zeta in He. destruct l as [l| |q e| |now].
  - left. apply Hg, He.
  - left. destruct He as (_ & q & rest & _ & _ & _ & ->). by exists t'.
  - left. apply Hg, He.
  - destruct He as (_ & _ & D). specialize (D p t' Ht'). case_decide; [by right|]. left. by exists t'.
  - left. apply Hg, He.
Qed.
Lemma delayed_added p t : leads (delayed_at p t) (fun n => ready_at p n \/ working_at p n).
Proof.
  apply (leads_trans _ (fun n => (delayed_at p t n /\ t <= k_clock (state_at b n)) \/ ready_at p n \/ working_at p n)).
  - intros n Hn. destruct (fair_time b Hf n t) as (m & Hm & Hc).
    destruct (until (delayed_at p t) (fun n => ready_at p n \/ working_at p n) n m (delayed_kept p t) Hn Hm)
      as [Hd|(k & Hk & Hq)]; [exists m|exists k]; auto.
  - apply leads_or; [|apply leads_refl]. apply (weak_leads _ b waking); [apply (fair_wake b Hf)| | |].
    + intros n [Hd Hc]. pose proof (clock_mono n (Datatypes.S n)). destruct (delayed_kept p t n Hd); [left; split; [done|lia]|by right].
    + intros n [(t' & Ht' & Hle) Hc]. eapply wake_enabled; [exact Ht'|lia].
    + intros n l [(t' & Ht' & Hle) Hc] Hl ->. destruct (effect_at n _ Hl) as [_ (_ & _ & D)]. specialize (D p t' Ht').
      by rewrite decide_True in D by lia.
Qed.

(** ** What is pledged is kept *)
Lemma pledged_synced p n : pledged p (state_at b n) ->
  exists m e, (n <= m)%nat /\ label_at b m = Some (KSync p e).
Proof.
  intros Hp.
  assert (exists m, (n <= m)%nat /\ working_at p m) as (m & Hm & Hw).
  { assert (leads (fun i : nat => ready_at p i \/ working_at p i) (working_at p)) as Hrw
      by (apply leads_or; [apply ready_got|apply leads_refl]).
    destruct Hp as [Hp|[Hp|[t Ht]]]; [by apply Hrw; left|by apply Hrw; right|].
    apply (leads_trans _ _ _ (delayed_added p t) Hrw). by exists t. }
  destruct (working_synced p n m (conj Hm Hw)) as (j & _ & k & e & -> & Hk & Hl). by exists k, e.
Qed.

(** ** A pod, from an event on *)
Definition marked_at p n : Prop :=
  match label_at b n with Some l => marks p (state_at b n) l = true | None => False end.
#[local] Instance marked_at_dec p n : Decision (marked_at p n).
Proof. unfold marked_at. destruct (label_at b n); apply _. Defined.
Definition unmarked p (n0 n : nat) : Prop := forall j, (n0 <= j < n)%nat -> ~ marked_at p j.

(** As long as its status has not been written, the pod is found unready by
    its synchronisations, and nothing else takes its timer. *)
Record stays_unready p (n0 : nat) : Prop := {
  unready_when_synced n e : (n0 <= n)%nat -> unmarked p n0 n -> label_at b n = Some (KSync p e) ->
    exists pod, needs_readiness e (k_server (state_at b n)) p pod false;
  undisturbed n l : (n0 <= n)%nat -> unmarked p n0 n -> label_at b n = Some l -> ~ disturbs p l
}.

Section Pod.
Context (p : PendingPod) (n0 : nat) (Hun : stays_unready p n0).
Definition unready_at (P : kubelet -> Prop) n : Prop := (n0 <= n)%nat /\ unmarked p n0 n /\ pledged p (state_at b n) /\ P (state_at b n).
Definition done_marking : Prop := exists m, (n0 <= m)%nat /\ unmarked p n0 m /\ marked_at p m.
Lemma unready_step n : (n0 <= n)%nat -> unmarked p n0 n -> pledged p (state_at b n) ->
  pledged p (state_at b (Datatypes.S n)) /\ unmarked p n0 (Datatypes.S n) \/ done_marking.
Proof.
  intros Hn Hu Hp. destruct (decide (marked_at p n)) as [Hm|Hm]; [right; by exists n|left].
  split; [|intros j Hj; destruct (decide (j = n)) as [-> |]; [done|apply Hu; lia]].
  unfold marked_at in Hm. destruct (label_at b n) as [l|] eqn:Hl; [|by rewrite (behaviour_stutter _ b n Hl)].
  pose proof (behaviour_step _ b n l Hl) as Hs. destruct (decide (is_sync p l)) as [[e ->]|Hl'].
  - destruct (unready_when_synced p n0 Hun n e Hn Hu Hl) as [pod Hneed].
    by destruct (synced_pledged _ p e _ pod Hs Hneed).
  - by apply (pledged_step (state_at b n) l); [apply always_ok|..].
Qed.
(** What the pod's steps keep lasts until its status is written. *)
Lemma unready_until (P : kubelet -> Prop) n m :
  (forall i, (n0 <= i)%nat -> unmarked p n0 i -> P (state_at b i) -> P (state_at b (Datatypes.S i))) ->
  unready_at P n -> (n <= m)%nat -> unready_at P m \/ done_marking.
Proof.
  intros Hk Hn Hm. destruct (until (unready_at P) (fun _ => done_marking) n m) as [?|(i & _ & ?)]; [|done|done|by left|by right].
  intros i (Hi & Hu & Hp & HP). destruct (unready_step i Hi Hu Hp) as [[Hp' Hu']|?]; [left|by right].
  split; [lia|]. split; [done|]. split; [done|]. by apply Hk.
Qed.
Lemma timer_kept due i : (n0 <= i)%nat -> unmarked p n0 i ->
  timers (k_server (state_at b i)) !! PendingPod_String p = Some due ->
  timers (k_server (state_at b (Datatypes.S i))) !! PendingPod_String p = Some due.
Proof.
  intros Hi Hu Ht. destruct (label_at b i) as [l|] eqn:Hl; [|by rewrite (behaviour_stutter _ b i Hl)].
  apply (timer_step _ l _ p due (behaviour_step _ b i l Hl)); [by apply (undisturbed p n0 Hun i)| |done].
  intros e ->. by apply (unready_when_synced p n0 Hun i).
Qed.

(** The first synchronisation starts the timer; one after its end, when
    writing succeeds, is the last. *)
Lemma first_sync : pledged p (state_at b n0) ->
  (exists n due, unready_at (fun k => timers (k_server k) !! PendingPod_String p = Some due) n) \/ done_marking.
Proof.
  intros Hp. destruct (pledged_synced p n0 Hp) as (m & e & Hm & Hl).
  destruct (unready_until (fun _ => True) n0 m) as [(_ & Hu & Hpm & _)|?]; [done| |done| |by right].
  { split; [done|]. split; [intros j; lia|done]. }
  destruct (unready_step m Hm Hu Hpm) as [[Hp' Hu']|?]; [left|by right].
  destruct (unready_when_synced p n0 Hun m e Hm Hu Hl) as [pod Hneed].
  exists (Datatypes.S m), (ready_time e (k_server (state_at b m)) p). split; [lia|]. split; [done|]. split; [done|].
  pose proof (kubelet_server_step _ _ _ (behaviour_step _ b m _ Hl)) as Hs. simpl in Hs.
  pose proof (processed_timer e (k_server (state_at b m)) p pod false Hneed) as Ht.
  destruct (processNextItem e (k_server (state_at b m)) p) as [[s es] []]; simplify_eq/=. rewrite Ht. apply lookup_insert_eq.
Qed.
Lemma last_sync (later : nat) : pledged p (state_at b n0) ->
  (forall n e pod, (later <= n)%nat -> label_at b n = Some (KSync p e) ->
     needs_readiness e (k_server (state_at b n)) p pod false -> can_ready e (k_server (state_at b n)) pod) ->
  done_marking.
Proof.
  intros Hp Hok. destruct (first_sync Hp) as [(n & due & Hn)|?]; [|done].
  destruct (fair_time b Hf (n + later) due) as (m & Hm & Hc).
  destruct (unready_until _ n m (timer_kept due) Hn) as [Hn'|?]; [lia| |done].
  destruct (pledged_synced p m) as (i & e & Hi & Hl); [apply Hn'|].
  destruct (unready_until _ m i (timer_kept due) Hn') as [(Hni & Hu & _ & Ht)|?]; [done| |done].
  destruct (unready_when_synced p n0 Hun i e Hni Hu Hl) as [pod Hneed].
  exists i. split; [done|]. split; [done|]. unfold marked_at. rewrite Hl.
  destruct (effect_at i _ Hl) as [_ (_ & (C1 & C2 & C3) & _)]. pose proof (clock_mono m i Hi).
  eapply due_marks; [by apply (behaviour_step _ b i)|exact Hneed| |by apply (Hok i); [lia|..]].
  unfold ready_time. rewrite Ht. simpl. lia.
Qed.
End Pod.
End Behaviour.

(** C14. The custom kubelet forgets no pod.  Take any behaviour of the running
    kubelet, with its handlers, 64 workers and work queue, in which the worker
    that has an item goes on with it, the queue wakes when an item is due,
    idle workers get the items that wait, and time goes on.  When the informer
    has delivered a pod of its own, which the API server keeps and shows as
    not ready, and from some time on writing the pod's status succeeds, then
    a worker writes it: failed attempts are made again, and a pod whose delay
    is not over is come back to.  It does so when the delay is over and not
    before. *)
Theorem pod_fairly_made_ready (b : behaviour kubelet_step) s now n obj pod :
  fair_kubelet b -> state_at b 0 = kubelet_start s now ->
  label_at b n = Some (KInput (LEvent obj false)) -> unwrapPodObj obj = Some pod ->
  let p := NewPendingPodFromAPIServer pod in
  stays_unready b p (Datatypes.S n) ->
  (exists later : nat, forall m e pod', (later <= m)%nat -> label_at b m = Some (KSync p e) ->
     needs_readiness e (k_server (state_at b m)) p pod' false -> can_ready e (k_server (state_at b m)) pod') ->
  exists m e pod' c st, (n < m)%nat /\ label_at b m = Some (KSync p e) /\
    needs_readiness e (k_server (state_at b m)) p pod' false /\
    ready_time e (k_server (state_at b m)) p <= now_waited e /\
    EMarkReady c (patch (k_server (state_at b m))) pod' st ∈ snd (fst (processNextItem e (k_server (state_at b m)) p)).
Proof.
  intros Hf H0 Hl Ho p Hun [later Hok]. assert (kubelet_ok (state_at b 0)) as Hstart by (rewrite H0; apply kubelet_start_ok).
  assert (pledged p (state_at b (Datatypes.S n))) as Hp
    by exact (event_pledged _ obj pod _ (always_ok b Hstart n) Ho (behaviour_step _ b n _ Hl)).
  destruct (last_sync b Hf Hstart p (Datatypes.S n) Hun later Hp Hok) as (m & Hm & Hu & Hmark).
  unfold marked_at in Hmark. destruct (label_at b m) as [l|] eqn:El; [|done].
  destruct l as [l| |q e| |t]; try discriminate Hmark. assert (q = p) as ->.
  { unfold marks in Hmark. apply andb_prop in Hmark as [Hq _]. by apply bool_decide_eq_true in Hq. }
  destruct (unready_when_synced b p _ Hun m e Hm Hu El) as [pod' Hneed].
  destruct (marks_pod _ p e pod' Hmark Hneed) as (Hdue & c & st & Hin).
  exists m, e, pod', c, st. split; [lia|]. done.
Qed.
End Fair.

(** * The theorem at a concrete behaviour

    A pod of the kubelet is delivered; it is looked at at once and, after three
    seconds, again; then time goes on. *)
Module FairKubeletDemo.
#[local] Existing Instance Kube.Demo.kubedirect.
Import Kubelet.Demo PodLife.Demo.
Abbreviation demo_kubelet := (@kubelet (gmap string nat) (gmap string time) (gmap string PodInfo) counting_queue).
Abbreviation demo_step := (kubelet_step (MC := gmap string nat) (MT := gmap string time) (MP := gmap string PodInfo)
  (Q := counting_queue)).

Definition demo_labels : list klabel :=
  [KInput (LEvent (ObjPod api_pod) false); KGet; KSync item2 (env_api 0); KTick (3 * sec); KWake; KGet;
   KSync item2 (env_api (3 * sec))].
Definition demo_start : demo_kubelet := kubelet_start PodLife.Demo.joined 0.
Definition demo_end : demo_kubelet := default demo_start (run demo_step demo_start demo_labels).
Lemma demo_runs : run demo_step demo_start demo_labels = Some demo_end.
Proof. vm_compute. reflexivity. Qed.

(** Time goes on from there. *)
Definition ticking (n : nat) : demo_kubelet :=
  mkKubelet (k_server demo_end) (k_queue demo_end) (k_working demo_end) (k_clock demo_end + Z.of_nat n).
Lemma ticking_steps n : demo_step (ticking n) (KTick (k_clock demo_end + Z.of_nat (S n))) = Some (ticking (S n)).
Proof. simpl. rewrite decide_True by (cbn; lia). reflexivity. Qed.
Definition demo_tail : behaviour demo_step :=
  mkBehaviour ticking (fun n => Some (KTick (k_clock demo_end + Z.of_nat (S n)))) ticking_steps.
Lemma ticking_0 : ticking 0 = demo_end.
Proof. unfold ticking. rewrite Z.add_0_r. by destruct demo_end. Qed.
Lemma demo_meets : run demo_step demo_start demo_labels = Some (state_at demo_tail 0).
Proof. simpl (state_at _ _). rewrite ticking_0. apply demo_runs. Qed.
Definition demo_behaviour : behaviour demo_step := prepend demo_step demo_start demo_labels demo_tail demo_meets.

(** When the pod has been made ready, there is nothing left to do. *)
Lemma ticking_idle n l k : demo_step (ticking n) l = Some k -> ~ getting l /\ ~ waking l /\ forall p, ~ is_sync p l.
Proof.
  intros Hs. split; [|split].
  - intros ->. assert (demo_step (ticking n) KGet = None) as E by (vm_compute; reflexivity). congruence.
  - intros ->. assert (demo_step (ticking n) KWake = None) as E by (vm_compute; reflexivity). congruence.
  - intros p [e ->]. simpl in Hs. case_decide as Hw; [|done]. destruct Hw as [Hw _].
    assert (k_working demo_end = []) as E by (vm_compute; reflexivity). rewrite E in Hw. by apply elem_of_nil in Hw.
Qed.
Lemma demo_fair : fair_kubelet demo_behaviour.
Proof.
  assert (forall T : klabel -> Prop, (forall n l k, demo_step (ticking n) l = Some k -> ~ T l) -> strongly_fair demo_step T demo_behaviour) as H.
  { intros T HT. apply prepend_strongly_fair. intros n (l & k & Hl & Hs). by apply (HT n l k). }
  split.
  - intros p. apply strongly_weakly_fair, H. intros n l k Hs. by apply (ticking_idle n l k).
  - apply strongly_weakly_fair, H. intros n l k Hs. by apply (ticking_idle n l k).
  - apply H. intros n l k Hs. by apply (ticking_idle n l k).
  - intros n t. exists (n + length demo_labels + Z.to_nat t)%nat. split; [lia|].
    assert (length demo_labels <= n + length demo_labels + Z.to_nat t)%nat as Hlen by lia.
    pose proof (proj1 (prepend_tail demo_step demo_start demo_labels demo_tail demo_meets _ Hlen)) as Hs.
    unfold demo_behaviour. rewrite Hs. clear Hs.
    change (t <= 3 * sec + Z.of_nat (n + length demo_labels + Z.to_nat t - length demo_labels)). unfold sec. lia.
Qed.

(** The pod's synchronisations find it unready, and can write its status. *)
Lemma demo_sync n p e : label_at demo_behaviour n = Some (KSync p e) ->
  p = item2 /\ (n = 2%nat /\ e = env_api 0 \/ n = 6%nat /\ e = env_api (3 * sec)).
Proof.
  destruct n as [|[|[|[|[|[|[|n]]]]]]]; try discriminate; intros [= <- <-]; auto.
Qed.
Lemma api_pod_needs n e : label_at demo_behaviour n = Some (KSync item2 e) ->
  needs_readiness e (k_server (state_at demo_behaviour n)) item2 api_pod false /\
  find_pod e (k_server (state_at demo_behaviour n)) item2 = Ok (Some (api_pod, false)) /\
  can_ready e (k_server (state_at demo_behaviour n)) api_pod.
Proof.
  intros [_ [[-> ->]|[-> ->]]]%demo_sync; (split; [split|split]); vm_compute; reflexivity.
Qed.
Lemma demo_unready : stays_unready demo_behaviour item2 1.
Proof.
  split.
  - intros n e _ _ Hl. exists api_pod. by apply api_pod_needs.
  - intros n l Hn _ Hl. destruct l as [l| |q e| |t]; try (by intros []).
    + destruct n as [|[|[|[|[|[|[|n]]]]]]]; try discriminate. lia.
    + apply demo_sync in Hl as [-> _]. by intros [? _].
Qed.

Lemma pod_fairly_made_ready_witness :
  fair_kubelet demo_behaviour /\ stays_unready demo_behaviour item2 1 /\
  exists m e pod' c st, (0 < m)%nat /\ label_at demo_behaviour m = Some (KSync item2 e) /\
    EMarkReady c false pod' st ∈ snd (fst (processNextItem e (k_server (state_at demo_behaviour m)) item2)).
Proof.
  split; [exact demo_fair|]. split; [exact demo_unready|].
  destruct (pod_fairly_made_ready demo_behaviour PodLife.Demo.joined 0 0 (ObjPod api_pod) api_pod demo_fair
              (prepend_start _ _ _ _ _) eq_refl eq_refl demo_unready) as (m & e & pod' & c & st & Hm & Hl & Hneed & _ & Hin).
  - exists 0%nat. intros m e pod' _ Hl [Hfind _ _ _ _]. destruct (api_pod_needs m e Hl) as (_ & Hf & Hc).
    injection (eq_trans (eq_sym Hf) Hfind) as <-. exact Hc.
  - exists m, e, pod', c, st. split; [exact Hm|]. split; [exact Hl|]. apply demo_sync in Hl as [_ [[-> ->]|[-> ->]]]; exact Hin.
Defined.
End FairKubeletDemo.
