(* ===== verification/EndToEnd.v ===== *)
(** The gateway and the custom kubelet as one system, which meet at the API
    server: the kubelet writes the status of a pod, and the gateway's
    controller reads it. *)
From Stdlib Require Import Ascii.
From S2P Require Import Prelude F64 KdUtil Workload Kube Handler Backend Metric Decider Scaler Autoscaler Dispatcher Ksvc Dispatch Gateway Pipeline ColdStart Activation Kubelet KubeletMain.
Import Selection Types.

(** * Pods at the API server *)

(** The pod objects behind what the gateway lists, and the writes of the
    kubelet. *)
Class PodApi (S : Type) `{!PodLister S} := {
  pod_of : Autoscaler.Pod (S := S) -> Kube.Pod;
  get_pod : S -> string -> string -> api Kube.Pod;
  write_status : S -> Kube.Pod -> PodStatus -> S
}.
(** The API server lists a pod with the status last written, a status write
    touches no deployment, and gateway and kubelet call the same predicate of
    Kubedirect, which says ready for a pod whose Ready condition is true. *)
Class PodApiLaws (S : Type) `{!Kubedirect} `{!Client S} `{!PodLister S} `{!PodApi S} := {
  lister_ready : forall y : Autoscaler.Pod (S := S), Autoscaler.IsPodReady y = Kube.IsPodReady (pod_of y);
  write_listed : forall (s : S) pod st ns sel listed y,
    get_pod s (pod_Namespace pod) (pod_Name pod) = Found pod ->
    ListPods s ns sel = Ok listed -> y ∈ listed -> pod_of y = pod ->
    exists listed' y', ListPods (write_status s pod st) ns sel = Ok listed' /\ y' ∈ listed' /\ Kube.Status (pod_of y') = st;
  write_deployment : forall (s : S) pod st n, GetDeployment (write_status s pod st) n = GetDeployment s n;
  ready_condition : forall pod c rest, Conditions (Kube.Status pod) = c :: rest -> cond_Type c = "Ready" -> cond_Status c = "True" ->
    Kube.IsPodReady pod = true
}.

(** * The system *)
Section System.
Context {B W Q S M : Type} `{!TimedFloat64Buckets B} `{!TimeWindow W} `{!WorkQueue Q}
  `{!Client S} `{!PodLister S} `{!Scaler S} `{!SharedMap executor_obj M}.
Context `{!Kubedirect} `{!PodApi S}.
Context {MC MT MP : Type} `{!SharedMap nat MC} `{!SharedMap time MT} `{!SharedMap PodInfo MP}.
Context (vars : BackendVars).
Abbreviation server := (KubedirectServer (MC := MC) (MT := MT) (MP := MP)).
Abbreviation world := (K8sRun.world (B := B) (W := W) (Q := Q) (S := S)).

Record system := mkSystem {
  gateway : pipeline (A := world) (D := PodDispatcher M);
  kubelet : server
}.
Definition cluster (x : system) : S := K8sRun.api (owner (gw (gateway x))).

(** What a worker of the kubelet observes when the cluster is in state [s]. *)
Definition at_cluster (s : S) (e : env) : env :=
  mkEnv (get_pod s) (ListPool e) (GetUnnamedTemplateFor e) (GetNode e) (DeleteResult e) (MarshalPatch e) (MarkResult e)
    (now_created e) (now_waited e) (now_status e) (Intn e).
(** The writes of the kubelet that succeed. *)
Definition apply_effect (e : env) (s : S) (f : effect) : S :=
  match f with
  | EMarkReady _ _ pod status => if is_ok (MarkResult e) then write_status s pod status else s
  | _ => s
  end.

Inductive system_label :=
| SGateway (l : Pipeline.label (Act := K8sRun.background (S := S)) (DL := Dispatcher.label))
| SSync (e : env) (pending : PendingPod)     (* a worker of the kubelet *)
| SKubelet (l : Kubelet.label).              (* its handlers *)

Definition cluster_step (x : system) (l : system_label) : option system :=
  match l with
  | SGateway l => p ← K8sRun.k8s_step vars (gateway x) l; Some (mkSystem p (kubelet x))
  | SSync e pending =>
      let '(s, es, r) := processNextItem (at_cluster (cluster x) e) (kubelet x) pending in
      match r with
      | Ok _ =>
          p ← K8sRun.k8s_step vars (gateway x) (PAutoscaler (K8sRun.BApi (foldl (apply_effect e) (cluster x) es)));
          Some (mkSystem p s)
      | _ => None
      end
  | SKubelet (LSync _ _) => None
  | SKubelet l => s ← Kubelet.step (kubelet x) l; Some (mkSystem (gateway x) s)
  end.

(** The gateway's part of a run. *)
Lemma gateway_run x ls x' : SGateway PCancel ∉ ls -> run cluster_step x ls = Some x' ->
  exists gls, run (K8sRun.k8s_step vars) (gateway x) gls = Some (gateway x') /\ PCancel ∉ gls.
Proof.
  revert x. induction ls as [|l ls IH]; intros x Hn Hr.
  - injection Hr as <-. exists []. split; [done|]. by apply not_elem_of_nil.
  - apply not_elem_of_cons in Hn as [Hl Hn]. apply bind_Some in Hr as (x1 & Hs & Hr).
    destruct (IH x1 Hn Hr) as (gls & Hg & Hc).
    destruct l as [l|e pending|l]; cbn [cluster_step] in Hs.
    + apply bind_Some in Hs as (p & Hp & E). injection E as <-. exists (l :: gls).
      split; [by cbn [run]; rewrite Hp|]. apply not_elem_of_cons. split; [congruence|done].
    + destruct (processNextItem _ _ _) as [[s es] [b|?|?|?]]; try done.
      apply bind_Some in Hs as (p & Hp & E). injection E as <-. exists (PAutoscaler (K8sRun.BApi (foldl (apply_effect e) (cluster x) es)) :: gls).
      split; [by cbn [run]; rewrite Hp|]. by apply not_elem_of_cons.
    + exists gls. split; [|done]. destruct l; try done; (apply bind_Some in Hs as (s & _ & E); by injection E as <-).
Qed.
Lemma system_gateway_run x gls p : run (K8sRun.k8s_step vars) (gateway x) gls = Some p ->
  run cluster_step x (SGateway <$> gls) = Some (mkSystem p (kubelet x)).
Proof.
  revert x. induction gls as [|l gls IH]; intros [p0 k] Hr; cbn [gateway kubelet] in *.
  - by injection Hr as ->.
  - apply bind_Some in Hr as (p1 & Hs & Hr). rewrite fmap_cons. cbn [run cluster_step gateway kubelet]. rewrite Hs.
    by apply (IH (mkSystem p1 k)).
Qed.

(** * From readiness to the response *)
Context `{!SharedMapLaws executor_obj M} `{!SharedMapLaws nat MC} `{!SharedMapLaws time MT} `{!SharedMapLaws PodInfo MP}.
Context `{!PodApiLaws S} (view : Autoscaler.Pod (S := S) -> Dispatcher.Pod).

(** A pod that the kubelet of the system has to make ready, and can. *)
Record kubelet_pod (e : env) (x : system) (pod : Kube.Pod) : Prop := {
  kp_stored : get_pod (cluster x) (pod_Namespace pod) (pod_Name pod) = Found pod;
  kp_responsible : isResponsibleFor e (kubelet x) pod = Ok true;
  kp_kept : Kube.DeletionTimestamp pod = None;
  kp_active : IsPodActive pod = true;
  kp_unready : Kube.IsPodReady pod = false;
  kp_simulate : simulate (kubelet x) = true;
  kp_mark : can_mark e (kubelet x) pod (simulateRefPodStatus (now_status e) pod)
}.
Lemma kubelet_pod_needs e x pod : kubelet_pod e x pod ->
  needs_readiness (at_cluster (cluster x) e) (kubelet x) (NewPendingPodFromAPIServer pod) pod false.
Proof. intros [K1 K2 K3 K4 K5 _ _]. split; try done. unfold find_pod. cbn. by rewrite K1. Qed.

(** The kubelet's synchronisation, once the delay is over, as a step. *)
Lemma kubelet_marks e x pod : kubelet_pod e x pod ->
  ready_time e (kubelet x) (NewPendingPodFromAPIServer pod) <= now_waited e ->
  exists k, cluster_step x (SSync e (NewPendingPodFromAPIServer pod)) =
    Some (mkSystem (set_gw (set_owner (K8sRun.mkWorld (K8sRun.scaler (owner (gw (gateway x))))
      (write_status (cluster x) pod (simulateRefPodStatus (now_status e) pod)) (K8sRun.clock (owner (gw (gateway x)))))
      (gw (gateway x))) (gateway x)) k).
Proof.
  intros Hk Hdue. destruct (due_pod_marked (at_cluster (cluster x) e) (kubelet x) (NewPendingPodFromAPIServer pod) pod)
    as (k & c & Hp); [by apply kubelet_pod_needs|done|apply (kp_simulate _ _ _ Hk)|apply (kp_mark _ _ _ Hk)|].
  exists k. cbn [cluster_step]. rewrite Hp. cbn [foldl apply_effect].
  destruct (kp_mark _ _ _ Hk) as (_ & -> & _). reflexivity.
Qed.

Lemma written_pod_ready (pod pod' : Kube.Pod) now : Kube.Status pod' = simulateRefPodStatus now pod -> Kube.IsPodReady pod' = true.
Proof.
  intros E. eapply (ready_condition (S := S)); [rewrite E; reflexivity|reflexivity|reflexivity].
Qed.

(** C7. From a request without an endpoint to its response, across gateway,
    kubelet and API server.  Take any run of the system that does not end the
    gateway's context, a request that waits in the dispatcher of its target,
    and a pod of the target's deployment that is not ready and that the
    kubelet simulates.  The pod's event puts it into the kubelet's queue; a
    worker that looks at it before its delay is over asks for it again at the
    remaining time; a worker that looks at it afterwards writes its status.
    The event of that write makes the gateway's controller enqueue the
    deployment, its Reconcile hands the dispatcher the ready pods, and steps
    of the gateway itself bring the client the successful response. *)
Theorem kubelet_pod_serves_request ReadFile Unmarshal emptyQueue timeout targets now
    asFramework asConfigPath text c (w : S) :
  asConfigPath <> "" -> ReadFile asConfigPath = Ok text -> Unmarshal text = Ok c -> K8s.configured asFramework c ->
  can_create vars ->
  exists g, K8s.launch (B := B) (W := W) ReadFile Unmarshal emptyQueue timeout targets now asFramework asConfigPath = Ok g /\
    forall k0 ls x key pd t req e pod IsNotFound target listed y,
      SGateway PCancel ∉ ls -> run cluster_step (mkSystem (K8sRun.started w now g) k0) ls = Some x ->
      pds (gateway x) !! key = Some pd -> goroutines pd !! t = Some (Dispatcher.Waiting req) ->
      let name := mkNamespacedName (pod_Namespace pod) (label (pod_object pod) "app") in
      KeyFromObject (pod_object pod) = key -> K8s.FilterEvent (pod_object pod) = true ->
      str_has "/"%char (pod_Namespace pod) = false -> str_has "/"%char (label (pod_object pod) "app") = false ->
      GetDeployment (cluster x) name = Ok target ->
      ListPods (cluster x) (dep_namespace target) (template_labels target) = Ok listed -> y ∈ listed -> pod_of y = pod ->
      kubelet_pod e x pod ->
    let pending := NewPendingPodFromAPIServer pod in
    let due := ready_time e (kubelet x) pending in
    (enqueueFilter pod = true -> EAdd pending ∈ snd (handlePodEvent (kubelet x) (ObjPod pod) false)) /\
    (now_waited e < due ->
       EAddAfter pending (time_sub due (now_waited e)) ∈ snd (fst (processNextItem (at_cluster (cluster x) e) (kubelet x) pending))) /\
    (due <= now_waited e ->
       exists x1 readyPods gls x2 r,
         cluster_step x (SSync e pending) = Some x1 /\
         K8s.watch_event (pod_object pod) = Ok [name] /\
         K8s.Reconcile view IsNotFound (cluster x1) name g = Ok (Some (key, readyPods)) /\
         PDispatch key (LReconcile readyPods) ∈ gls /\ Forall (fun l => internal l = true) gls /\
         run cluster_step x1 (SGateway <$> gls) = Some x2 /\
         inr r ∈ trace (K8sRun.k8s_step vars) Pipeline.observe (gateway x1) gls /\ succeeds req r).
Proof.
  intros Hp Hr Hu Hc Hcan.
  destruct (K8s.launch_configured ReadFile Unmarshal emptyQueue timeout targets now _ _ _ _ Hp Hr Hu Hc) as (a & f & Hl & Ha).
  eexists. split; [exact Hl|].
  intros k0 ls x key pd t req e pod IsNotFound target listed y Hn Hrun Ek Et name Hkey Hfil Hs1 Hs2 Hdep Hlist Hy Hpod Hk pending due.
  pose proof (kubelet_pod_needs e x pod Hk) as Hneeds. fold pending in Hneeds. split; [|split].
  - intros Hf. unfold handlePodEvent. cbn [unwrapPodObj]. rewrite Hf.
    destruct (IsManaged (pod_object pod) && IsPersistent (pod_object pod)); left.
  - intros Hlt. unfold processNextItem. rewrite (sync_needed _ _ _ _ _ Hneeds).
    destruct (sync_delay_timer (at_cluster (cluster x) e) (kubelet x) pending pod false) as (T & _ & ->). cbv zeta.
    change (ready_time (at_cluster (cluster x) e) (kubelet x) pending) with due. rewrite decide_True by done.
    cbn [fst snd]. set_solver.
  - intros Hdue. destruct (kubelet_marks e x pod Hk Hdue) as [k Hs].
    destruct (gateway_run _ ls x Hn Hrun) as (gls0 & Hg0 & Hc0). cbn [gateway] in Hg0.
    set (st := simulateRefPodStatus (now_status e) pod) in *.
    set (p1 := set_gw _ (gateway x)) in Hs.
    destruct (write_listed (cluster x) pod st _ _ _ y (kp_stored _ _ _ Hk) Hlist Hy Hpod) as (listed' & y' & Hlist' & Hy' & Hst').
    assert (run (K8sRun.k8s_step vars) (K8sRun.started w now (K8s.launched (M := M) timeout targets now a f))
      (gls0 ++ [PAutoscaler (K8sRun.BApi (write_status (cluster x) pod st))]) = Some p1) as Hg1 by (by rewrite run_app, Hg0).
    assert (PCancel ∉ gls0 ++ [PAutoscaler (K8sRun.BApi (write_status (cluster x) pod st))]) as Hc1 by set_solver.
    destruct (launched_request_served view timeout targets now vars a f w _ p1 key pd t req Ha Hcan Hc1 Hg1 Ek Et IsNotFound name target listed' y')
      as (readyPods & HR & ls1 & p2 & ls2 & p3 & r & H1 & _ & H2 & Hint & Hobs & Hok).
    { exact Hkey. } { change (GetDeployment (write_status (cluster x) pod st) name = Ok target). by rewrite write_deployment. }
    { exact Hlist'. } { exact Hy'. } { rewrite lister_ready. by eapply written_pod_ready. }
    exists (mkSystem p1 k), readyPods, (ls1 ++ PDispatch key (LReconcile readyPods) :: ls2), (mkSystem p3 k), r.
    split; [exact Hs|]. split; [by apply event_name|]. split; [exact HR|]. split; [set_solver|]. split.
    { apply Forall_app in Hint as [? ?]. apply Forall_app. split; [done|]. by constructor. }
    split; [apply (system_gateway_run (mkSystem p1 k)); cbn [gateway]; by rewrite run_app, H1|].
    split; [|done]. cbn [gateway]. rewrite (trace_app _ _ _ _ _ _ H1). set_solver.
Qed.
End System.

(** * The theorem at a concrete input *)
Module Demo.
#[local] Existing Instance Decider.Demo.last_buckets.
#[local] Existing Instance Decider.Demo.max_window.
#[local] Existing Instance Autoscaler.Demo.list_queue.
#[local] Existing Instance Kube.Demo.kubedirect.

(** An API server that holds deployments and pods. *)
Record state := mkState { deployments : MapServer.server; pods : list Kube.Pod }.
#[local] Instance state_client : Client state := {
  GetDeployment s n := GetDeployment (Client := MapServer.map_client) (deployments s) n;
  UpdateScale s d r :=
    let '(ds, e) := UpdateScale (Client := MapServer.map_client) (deployments s) d r in (mkState ds (pods s), e)
}.
Definition selects (ns : string) (sel : gmap string string) (pod : Kube.Pod) : Prop :=
  pod_Namespace pod = ns /\ map_Forall (fun k v => pod_Labels pod !! k = Some v) sel.
#[local] Instance state_lister : PodLister state := {
  Autoscaler.Pod := Kube.Pod;
  ListPods s ns sel := Ok (filter (selects ns sel) (pods s));
  Autoscaler.IsPodReady := Kube.Demo.has_ready
}.
Definition same_pod (ns name : string) (pod : Kube.Pod) : Prop := pod_Namespace pod = ns /\ pod_Name pod = name.
Definition set_status (st : PodStatus) (p : Kube.Pod) : Kube.Pod :=
  Kube.mkPod (pod_Namespace p) (pod_Name p) (pod_Labels p) (ResourceVersion p) (Kube.DeletionTimestamp p) (NodeName p)
    (ReadinessGates p) (Containers p) (InitContainers p) st.
#[local] Instance state_pods : PodApi state := {
  pod_of y := y;
  get_pod s ns name := match head (filter (same_pod ns name) (pods s)) with Some pod => Found pod | None => NotFound end;
  write_status s pod st :=
    mkState (deployments s)
      ((fun p => if decide (same_pod (pod_Namespace pod) (pod_Name pod) p) then set_status st p else p) <$> pods s)
}.
#[local] Instance state_laws : PodApiLaws state.
Proof.
  split.
  - done.
  - intros s pod st ns sel listed y _ Hl Hy Hpod. apply (inj Ok) in Hl as <-. cbn in Hpod. subst y.
    apply list_elem_of_filter in Hy as [Hsel Hin]. eexists _, (set_status st pod). split; [reflexivity|]. split; [|done].
    apply list_elem_of_filter. split; [exact Hsel|]. cbn [write_status state_pods pods]. apply list_elem_of_fmap. exists pod.
    split; [|done]. by rewrite decide_True.
  - done.
  - intros pod c rest Hc Ht Hs. cbn. unfold Kube.Demo.has_ready. rewrite Hc. cbn. by rewrite Ht, Hs.
Qed.

Definition pod_f : Kube.Pod :=
  Kube.mkPod "default" "f-1" (list_to_map [("app", "f"); ("workload", "trace"); ("kubedirect/pod-lifecycle-manager", "custom")]) "7"
    None "node-1" [] [("main", "fn:latest")] [] Kubelet.Demo.pending_status.
Definition initial : state :=
  mkState (fun ns nm => if decide (ns = "default" /\ nm = "f") then Some (mkDeployment ns nm None (Some 1) {["app" := "f"]}) else None)
    [pod_f].
Definition sys := system (B := list f64) (W := Z) (Q := list string) (S := state) (M := gmap string executor_obj)
  (MC := gmap string nat) (MT := gmap string time) (MP := gmap string PodInfo).
Definition sys_start : sys :=
  mkSystem (K8sRun.started initial 10 Pipeline.Demo.demo_gateway) (NewClientset "node-1" Kubelet.Demo.start).
Definition item_f : PendingPod := NewPendingPodFromAPIServer pod_f.
(** A request arrives and waits, and a worker looks at the pod. *)
Definition steps : list (system_label (S := state)) :=
  [SGateway (PSend "default/f" (Gateway.Demo.req "1" "default/f")); SGateway (PRelayRequest "default/f" 30);
   SKubelet (LEvent (ObjPod pod_f) false); SGateway (PReceive "default/f"); SSync (Kubelet.Demo.env_at 0) item_f].
Definition sys_step := cluster_step (B := list f64) (W := Z) (Q := list string) (S := state) (M := gmap string executor_obj)
  (MC := gmap string nat) (MT := gmap string time) (MP := gmap string PodInfo) Flap.vars.
Definition waiting : sys := default sys_start (run sys_step sys_start steps).
Definition waiting_pd : PodDispatcher (gmap string executor_obj) := default NewPodDispatcher (pds (gateway waiting) !! "default/f").
Definition later_env : env := Kubelet.Demo.env_at (3 * Kubelet.Demo.sec).

Lemma kubelet_pod_f : kubelet_pod later_env waiting pod_f.
Proof. split; try (vm_compute; reflexivity). split; [|split; [reflexivity|intros _; reflexivity]]. exists 0%nat. vm_compute. reflexivity. Qed.

Lemma kubelet_pod_serves_request_witness :
  run sys_step sys_start steps = Some waiting /\
  EAdd item_f ∈ snd (handlePodEvent (kubelet waiting) (ObjPod pod_f) false) /\
  exists x1 gls x2 r, sys_step waiting (SSync later_env item_f) = Some x1 /\ run sys_step x1 (SGateway <$> gls) = Some x2 /\
    inr r ∈ trace (K8sRun.k8s_step Flap.vars) Pipeline.observe (gateway x1) gls /\ answer_id r = "1" /\ Status r = SUCCESS.
Proof.
  destruct (kubelet_pod_serves_request (B := list f64) (W := Z) (Q := list string) (S := state) (M := gmap string executor_obj)
    (MC := gmap string nat) (MT := gmap string time) (MP := gmap string PodInfo) Flap.vars (fun _ => Flap.pod)
    (fun _ => Ok "{}") (fun _ => Ok (K8s.mkASConfig None None)) [] (15 * Second) Gateway.Demo.listed 10
    "one-time" "one-time.yaml" "{}" (K8s.mkASConfig None None) initial) as (g & Hg & Hall);
    [discriminate|reflexivity|reflexivity|left; reflexivity|left; reflexivity|].
  pose proof (Pipeline.Demo.demo_launched g Hg) as Eg. subst g.
  assert (Hr : run sys_step sys_start steps = Some waiting) by (vm_compute; reflexivity).
  split; [exact Hr|].
  assert (Hn : SGateway PCancel ∉ steps).
  { unfold steps. repeat (apply not_elem_of_cons; split; [discriminate|]). apply not_elem_of_nil. }
  assert (Ek : pds (gateway waiting) !! "default/f" = Some waiting_pd) by (vm_compute; reflexivity).
  assert (Et : goroutines waiting_pd !! 0%nat = Some (Dispatcher.Waiting (set_GatewayRecvTS 30 (Gateway.Demo.req "1" "default/f"))))
    by (vm_compute; reflexivity).
  destruct (Hall (NewClientset "node-1" Kubelet.Demo.start) steps waiting "default/f" waiting_pd 0%nat _ later_env pod_f (fun _ => false)
    (mkDeployment "default" "f" None (Some 1) {["app" := "f"]}) [pod_f] pod_f Hn Hr Ek Et) as (Hev & _ & Hgo);
    [reflexivity|reflexivity|reflexivity|reflexivity|vm_compute; reflexivity|vm_compute; reflexivity|apply list_elem_of_here|reflexivity
    |exact kubelet_pod_f|].
  split; [apply Hev; vm_compute; reflexivity|].
  destruct Hgo as (x1 & readyPods & gls & x2 & r & H1 & _ & _ & _ & _ & H2 & H3 & H4 & H5); [vm_compute; discriminate|].
  exists x1, gls, x2, r. split; [exact H1|]. split; [exact H2|]. split; [exact H3|]. split; [exact H4|exact H5].
Defined.
End Demo.
