(* ===== verification/Monitor.v ===== *)
(** The pod monitors of the microbenchmarks: the wait group and the latency
    percentile they share, the end-to-end benchmark
    (experiments/microbench/e2e/common.go) and the kubelet benchmark
    (experiments/microbench/breakdown/kubelet/monitor.go and client.go).  A run
    is a labelled transition system of the informer's events, the goroutines
    that talk to the API server or the kubelet, and the main goroutine. *)
From stdpp Require Import sorting.
From S2P Require Import Prelude KdUtil Kube Workload.
Import Selection.

(** * sync.WaitGroup: an int32 counter *)
Definition WaitGroup_Add (wg delta : Z) : res Z :=
  let v := int32 (wg + delta) in
  if v <? 0 then Panic "sync: negative WaitGroup counter" else Ok v.
Definition WaitGroup_Done (wg : Z) : res Z := WaitGroup_Add wg (-1).

(** The counter stays in the range of a non-negative int32. *)
Definition wg_ok (wg : Z) : Prop := 0 <= wg < 2 ^ 31.
Lemma WaitGroup_Add_ok wg delta v : WaitGroup_Add wg delta = Ok v -> wg_ok v.
Proof.
  unfold WaitGroup_Add, wg_ok. pose proof (int32_range (wg + delta)). case_match eqn:E; [done|].
  intros [= <-]. apply Z.ltb_ge in E. lia.
Qed.
Lemma WaitGroup_Done_pos wg : 0 < wg -> wg_ok wg -> WaitGroup_Done wg = Ok (wg - 1).
Proof.
  unfold wg_ok, WaitGroup_Done, WaitGroup_Add. intros H1 H2. rewrite int32_id by lia.
  by rewrite (proj2 (Z.ltb_ge _ _)) by lia.
Qed.
Lemma WaitGroup_Done_0 : WaitGroup_Done 0 = Panic "sync: negative WaitGroup counter".
Proof. done. Qed.
Lemma WaitGroup_Done_cases wg : wg_ok wg ->
  wg = 0 /\ WaitGroup_Done wg = Panic "sync: negative WaitGroup counter" \/
  0 < wg /\ WaitGroup_Done wg = Ok (wg - 1).
Proof.
  intros Hw. destruct (decide (wg = 0)) as [->|]; [by left|right].
  assert (0 < wg) by (unfold wg_ok in Hw; lia). by split; [|apply WaitGroup_Done_pos].
Qed.

(** * [Since]: the 90th percentile of the times seen *)
Definition percentile_index (n : nat) : Z := Z.quot (int64 (90 * Z.of_nat n)) 100.
Definition percentile_since (start : time) (seenTimes : list time) : res duration :=
  match seenTimes with
  | [] => Ok 0
  | _ =>
      let sorted := merge_sort Z.le seenTimes in
      if percentile_index (length seenTimes) <? 0 then Panic "index out of range"
      else match sorted !! Z.to_nat (percentile_index (length seenTimes)) with
           | Some percentile => Ok (time_sub percentile start)
           | None => Panic "index out of range"
           end
  end.

(** How many times are at most, and before, a given one. *)
Definition at_most (p : time) (l : list time) : nat := length (filter (fun t => t <= p) l).
Definition before (p : time) (l : list time) : nat := length (filter (fun t => t < p) l).

#[export] Instance at_most_Permutation p : Proper ((≡ₚ) ==> (=)) (at_most p).
Proof. intros l1 l2 Hl. unfold at_most. by rewrite Hl. Qed.
#[export] Instance before_Permutation p : Proper ((≡ₚ) ==> (=)) (before p).
Proof. intros l1 l2 Hl. unfold before. by rewrite Hl. Qed.

Lemma sorted_rank (l : list time) i p : StronglySorted Z.le l -> l !! i = Some p ->
  (before p l <= i < at_most p l)%nat.
Proof.
  unfold time in *. intros Hs. revert i. induction Hs as [|x l Hs IH Hx]; intros i Hi; [done|].
  unfold before, at_most, time in *. rewrite !filter_cons. destruct i as [|i]; simplify_eq/=.
  - rewrite decide_False, decide_True by lia. simpl. split; [|lia].
    rewrite (filter_all_false _ l); [simpl; lia|]. eapply Forall_impl; [exact Hx|]. simpl. intros; lia.
  - specialize (IH i Hi). assert (x <= p) by (rewrite Forall_forall in Hx; apply Hx; by eapply list_elem_of_lookup_2).
    rewrite (decide_True (P := x <= p)) by done. case_decide; simpl; lia.
Qed.

Lemma merge_sort_Z_unique (l1 l2 : list time) : l1 ≡ₚ l2 -> merge_sort Z.le l1 = merge_sort Z.le l2.
Proof.
  intros Hl. apply (StronglySorted_unique Z.le); [apply (StronglySorted_merge_sort _)..|].
  by rewrite !merge_sort_Permutation.
Qed.

#[export] Instance percentile_since_Permutation start : Proper ((≡ₚ) ==> (=)) (percentile_since start).
Proof.
  intros l1 l2 Hl. unfold percentile_since. rewrite (merge_sort_Z_unique l1 l2 Hl), (Permutation_length Hl).
  destruct l1, l2; try done; [by apply Permutation_nil_cons in Hl|by symmetry in Hl; apply Permutation_nil_cons in Hl].
Qed.

Lemma percentile_since_rank start l : l <> [] -> Z.of_nat (length l) < 2 ^ 56 ->
  exists p, percentile_since start l = Ok (time_sub p start) /\ p ∈ l /\
    100 * Z.of_nat (before p l) <= 90 * Z.of_nat (length l) < 100 * Z.of_nat (at_most p l).
Proof.
  unfold time in *. intros Hn Hb. unfold percentile_since, percentile_index, time.
  assert (0 < Z.of_nat (length l)) by (destruct l; [done|simpl; lia]).
  rewrite int64_id by lia. pose proof (Z.quot_rem' (90 * Z.of_nat (length l)) 100) as Hq.
  pose proof (Z.rem_bound_pos (90 * Z.of_nat (length l)) 100) as Hr.
  set (i := Z.quot (90 * Z.of_nat (length l)) 100) in *.
  assert (0 <= i < Z.of_nat (length l)) by lia.
  rewrite (proj2 (Z.ltb_ge i 0)) by lia.
  destruct (lookup_lt_is_Some_2 (merge_sort Z.le l) (Z.to_nat i)) as [p Hp];
    [rewrite (Permutation_length (merge_sort_Permutation Z.le l)); lia|].
  exists p. rewrite Hp. split; [by destruct l|].
  pose proof (sorted_rank _ _ _ (StronglySorted_merge_sort Z.le l) Hp) as Hk.
  rewrite (merge_sort_Permutation Z.le l) in Hk.
  split; [|lia]. rewrite <- (merge_sort_Permutation Z.le l). by eapply list_elem_of_lookup_2.
Qed.

(** The number of pods per target. *)
Definition pods_per_target (nPods : Z) (nTargets : nat) : Z :=
  let q := Z.quot nPods (Z.of_nat nTargets) in if q =? 0 then 1 else q.

Lemma pods_per_target_bounds nPods n : 0 <= nPods -> (0 < n)%nat ->
  1 <= pods_per_target nPods n /\ pods_per_target nPods n * Z.of_nat n <= Z.max nPods (Z.of_nat n).
Proof.
  intros Hp Hn. unfold pods_per_target. pose proof (Z.quot_rem' nPods (Z.of_nat n)).
  pose proof (Z.rem_bound_pos nPods (Z.of_nat n)). case_match eqn:E.
  - lia.
  - apply Z.eqb_neq in E. assert (0 <= Z.quot nPods (Z.of_nat n)) by (apply Z.quot_pos; lia). lia.
Qed.

(** What a run prints. *)
Inductive report :=
| TargetsScaled (n total : Z) (latency : duration)   (* Targets scaled n/total in latency *)
| RPCReturned (n total : Z) (latency : duration)     (* RPC returned n/total in latency *)
| RPCReturnedIn (latency : duration)                 (* RPC returned in latency *)
| TotalTime (microseconds : Z).                      (* total: microseconds us *)

(** [waitForReplicaSets]: the listed ReplicaSets, and whether each has an
    owner. *)
Definition waitForReplicaSets (rsList : res (list (Object * bool))) (nTargets : nat) : res bool :=
  match rsList with
  | Ok items =>
      match find (fun rs => negb (snd rs)) items with
      | Some rs => Fatal ("ReplicaSet " +:+ obj_namespace (fst rs) +:+ "/" +:+ obj_name (fst rs) +:+ " has no owner")
      | None => Ok (length items =? nTargets)%nat
      end
  | Err m => Fatal ("Error listing ReplicaSets: " +:+ m)
  | Panic m => Panic m
  | Fatal m => Fatal m
  end.

(** * The end-to-end benchmark *)
Module E2E.
Record Expectation := mkExpectation { seen : gmap string time }.
Definition NewExpectation : Expectation := mkExpectation ∅.

(** [Done] at the given time, with the counter of its wait group. *)
Definition Done (now : time) (pod : Pod) (wg : Z) (s : Expectation) : res (Expectation * Z * bool) :=
  match seen s !! pod_key pod with
  | Some _ => Ok (s, wg, false)
  | None => wg ← WaitGroup_Done wg; Ok (mkExpectation (<[pod_key pod := now]> (seen s)), wg, true)
  end.

Section Run.
Context `{!Kubedirect} `{!Poller} {M : Type} `{!SharedMap Expectation M}.

Record PodMonitor := mkMonitor { selector : string; expectations : M }.
Definition NewPodMonitor (sel : string) : PodMonitor := mkMonitor sel NewSharedMap.

Definition seen_times (m : PodMonitor) : list time :=
  concat ((fun x => (snd <$> map_to_list (seen (snd x)))) <$> map_to_list (Inner (expectations m))).
Definition Since (start : time) (m : PodMonitor) : res duration := percentile_since start (seen_times m).

Definition Watch (key : string) (m : PodMonitor) : PodMonitor :=
  mkMonitor (selector m) (Set_ key NewExpectation (expectations m)).

Definition FilterEvent (m : PodMonitor) (object : Object) : bool :=
  IsWorkload object && bool_decide (label object "workload" = selector m).

(** The expectation is shared with the map, so its update is one of the map. *)
Definition HandlePodEvent (now : time) (old new : option Pod) (wg : Z) (m : PodMonitor) : res (PodMonitor * Z) :=
  match new with
  | None => Ok (m, wg)
  | Some new =>
      if IsPodReady new then
        let key := KeyFromObject (pod_object new) in
        match Get key (expectations m) with
        | None => Ok (m, wg)
        | Some exp =>
            '(exp, wg, _) ← Done now new wg exp;
            Ok (mkMonitor (selector m) (Set_ key exp (expectations m)), wg)
        end
      else Ok (m, wg)
  end.

(** An event of the informer: its handlers run if the filter lets the object,
    of an update the new one, pass. *)
Definition pod_event (now : time) (old new : option Pod) (wg : Z) (m : PodMonitor) : res (PodMonitor * Z) :=
  match (match new with Some pod => Some pod | None => old end) with
  | Some pod => if FilterEvent m (pod_object pod) then HandlePodEvent now old new wg m else Ok (m, wg)
  | None => Ok (m, wg)
  end.

(** The main goroutine of [run]: it adds expectations, waits for the wait
    group, and then prints or finds the context cancelled. *)
Inductive main_pc :=
| Watching (todo : list Object)
| Waiting (start : time)
| Printed (out : list report)
| Cancelled
| Crashed (msg : string).

Record state := mkState {
  monitor : PodMonitor;
  wg : Z;
  nTargets : nat;
  scaling : gset nat;        (* goroutines whose update has not returned *)
  nScaled : Z;
  cancelled : bool;
  main : main_pc
}.

(** [run] up to its loop over the targets. *)
Definition setup (sel : string) (created : res unit) (synced : bool) (targets : res (list Object))
    (polled : list (res (list (Object * bool)))) (nPods : Z) : res state :=
  or_fatal "Error creating monitor: " created ≫= fun _ =>
  if negb synced then Fatal "Cannot syncing manager cache" else
  targets ← or_fatal "Error listing Deployments: " targets;
  if decide (targets = []) then Fatal "No Deployment selected" else
  or_fatal "Error waiting for ReplicaSets: "
    (PollUntilContextCancel ((fun rs => waitForReplicaSets rs (length targets)) <$> polled)) ≫= fun _ =>
  let nPodsPerTarget := pods_per_target nPods (length targets) in
  let nPods := int64 (nPodsPerTarget * Z.of_nat (length targets)) in
  wg ← WaitGroup_Add 0 nPods;
  Ok (mkState (NewPodMonitor sel) wg (length targets) ∅ 0 false (Watching targets)).

Inductive label :=
| LWatch                                      (* monitor.Watch of the next target *)
| LStart (now : time)                         (* all watched: the goroutines start *)
| LEvent (now : time) (old new : option Pod)
| LScale (i : nat) (err : res unit)           (* the i-th update returns *)
| LCancel
| LWake.                                      (* wg.Wait returns *)

Definition set_main (pc : main_pc) (s : state) : state :=
  mkState (monitor s) (wg s) (nTargets s) (scaling s) (nScaled s) (cancelled s) pc.
Definition running (s : state) : bool :=
  match main s with Watching _ | Waiting _ => true | _ => false end.

(** [run] after [wg.Wait]. *)
Definition finish (start : time) (s : state) : main_pc :=
  if cancelled s then Cancelled
  else match Since start (monitor s) with
       | Ok latency => Printed [TargetsScaled (nScaled s) (Z.of_nat (nTargets s)) latency;
                                TotalTime (dur_microseconds latency)]
       | Err m | Panic m | Fatal m => Crashed m
       end.

Definition step (s : state) (l : label) : option state :=
  if negb (running s) then None else
  match l, main s with
  | LWatch, Watching (target :: todo) =>
      Some (mkState (Watch (KeyFromObject target) (monitor s)) (wg s) (nTargets s) (scaling s) (nScaled s)
              (cancelled s) (Watching todo))
  | LStart now, Watching [] =>
      Some (mkState (monitor s) (wg s) (nTargets s) (list_to_set (seq 0 (nTargets s))) (nScaled s) (cancelled s)
              (Waiting now))
  | LEvent now old new, _ =>
      match pod_event now old new (wg s) (monitor s) with
      | Ok (m, wg) => Some (mkState m wg (nTargets s) (scaling s) (nScaled s) (cancelled s) (main s))
      | Err m | Panic m | Fatal m => Some (set_main (Crashed m) s)
      end
  | LScale i err, _ =>
      if decide (i ∈ scaling s) then
        let n := if is_ok err then int32 (nScaled s + 1) else nScaled s in
        Some (mkState (monitor s) (wg s) (nTargets s) (scaling s ∖ {[i]}) n (cancelled s) (main s))
      else None
  | LCancel, _ => Some (mkState (monitor s) (wg s) (nTargets s) (scaling s) (nScaled s) true (main s))
  | LWake, Waiting start => if wg s =? 0 then Some (set_main (finish start s) s) else None
  | _, _ => None
  end.

(** ** Accounting *)
Context `{!SharedMapLaws Expectation M}.
Implicit Types m : PodMonitor.

Lemma seen_times_length m :
  length (seen_times m) = msum (fun e => size (seen e)) (Inner (expectations m)).
Proof.
  unfold seen_times. rewrite (msum_concat (fun e => snd <$> map_to_list (seen e))).
  apply Nat.le_antisymm; apply msum_mono; intros e; by rewrite length_fmap, length_map_to_list.
Qed.

(** The pods that a [Done] would count as new. *)
Definition unseen m (pod : Pod) : Prop :=
  exists e, Inner (expectations m) !! KeyFromObject (pod_object pod) = Some e /\ seen e !! pod_key pod = None.
Definition counts m (new : option Pod) : Prop :=
  exists pod, new = Some pod /\ FilterEvent m (pod_object pod) = true /\ IsPodReady pod = true /\ unseen m pod.

Lemma done_accounting now pod wg e : wg_ok wg ->
  match Done now pod wg e with
  | Ok (e', wg', fresh) =>
      wg_ok wg' /\ wg' + Z.of_nat (size (seen e')) = wg + Z.of_nat (size (seen e)) /\
      (seen e !! pod_key pod = None -> 0 < wg)
  | Panic msg => wg = 0 /\ seen e !! pod_key pod = None /\ msg = "sync: negative WaitGroup counter"
  | _ => False
  end.
Proof.
  intros Hw. unfold Done. destruct (seen e !! pod_key pod) as [t|] eqn:E; [by split_and!|].
  destruct (WaitGroup_Done_cases wg Hw) as [[-> ->]|[Hp ->]]; [by split|]. cbn [mbind res_bind seen].
  rewrite map_size_insert_None by done. unfold wg_ok in *. split; [lia|]. split; [lia|done].
Qed.

(** What an event does to the counter and the times seen. *)
Lemma pod_event_accounting now old new wg m : wg_ok wg ->
  match pod_event now old new wg m with
  | Ok (m', wg') =>
      wg_ok wg' /\ wg' + Z.of_nat (length (seen_times m')) = wg + Z.of_nat (length (seen_times m)) /\
      dom (Inner (expectations m')) = dom (Inner (expectations m)) /\ (counts m new -> 0 < wg)
  | Panic msg => wg = 0 /\ counts m new /\ msg = "sync: negative WaitGroup counter"
  | _ => False
  end.
Proof.
  intros Hw. unfold pod_event.
  assert (forall P : Prop, (counts m new -> P) -> wg_ok wg /\ wg + Z.of_nat (length (seen_times m)) =
    wg + Z.of_nat (length (seen_times m)) /\ dom (Inner (expectations m)) = dom (Inner (expectations m)) /\
    (counts m new -> P)) as Hsame by done.
  destruct new as [pod|]; [|destruct old as [o|]; [destruct (FilterEvent m (pod_object o))|];
    apply Hsame; by intros (? & ? & _)].
  destruct (FilterEvent m (pod_object pod)) eqn:Hf; [|apply Hsame; intros (? & ? & ? & _); congruence].
  unfold HandlePodEvent. destruct (IsPodReady pod) eqn:Hr; [|apply Hsame; intros (? & ? & ? & ? & _); congruence].
  rewrite get_inner. destruct (Inner (expectations m) !! KeyFromObject (pod_object pod)) as [e|] eqn:He;
    [|apply Hsame; intros (? & ? & ? & ? & ? & ? & _); congruence].
  pose proof (done_accounting now pod wg e Hw) as Hd.
  destruct (Done now pod wg e) as [[[e' wg'] fresh]|?|?|?]; [|done| |done].
  - cbn [mbind res_bind]. destruct Hd as (H1 & H2 & H3). rewrite !seen_times_length. cbn [expectations].
    rewrite inner_set. split; [done|]. split; [|split].
    + pose proof (msum_insert (fun e => size (seen e)) _ _ e' e He). lia.
    + rewrite dom_insert_L. apply elem_of_dom_2 in He. set_solver.
    + intros (? & [= <-] & _ & _ & e1 & He1 & Hs). apply H3. congruence.
  - cbn [mbind res_bind]. destruct Hd as (-> & Hd & ->). split; [done|]. split; [|done]. exists pod. repeat (split; [done|]). by exists e.
Qed.

Definition scaled_ok (s : state) : Prop := 0 <= nScaled s /\ nScaled s + Z.of_nat (size (scaling s)) <= Z.of_nat (nTargets s).

Record inv (n : nat) (total : Z) (s : state) : Prop := {
  inv_targets : nTargets s = n;
  inv_counter : wg_ok (wg s) /\ wg s + Z.of_nat (length (seen_times (monitor s))) = total;
  inv_scaled : scaled_ok s;
  inv_main :
    match main s with
    | Watching todo =>
        NoDup (KeyFromObject <$> todo) /\ scaling s = ∅ /\ nScaled s = 0 /\
        forall key, key ∈ KeyFromObject <$> todo -> Inner (expectations (monitor s)) !! key = None
    | Printed out =>
        wg s = 0 /\ exists start latency, Since start (monitor s) = Ok latency /\
          out = [TargetsScaled (nScaled s) (Z.of_nat n) latency; TotalTime (dur_microseconds latency)]
    | _ => True
    end
}.

Lemma watch_times key m : Inner (expectations m) !! key = None ->
  length (seen_times (Watch key m)) = length (seen_times m).
Proof.
  intros Hk. rewrite !seen_times_length. unfold Watch. cbn [expectations]. rewrite inner_set.
  by rewrite msum_insert_new.
Qed.

Lemma inv_step n total s l s' : Z.of_nat n < 2 ^ 31 -> inv n total s -> step s l = Some s' -> inv n total s'.
Proof.
  intros Hn [Ht [Hw Hc] Hsc Hm] Hs. unfold step in Hs. destruct (running s) eqn:Hr; [|done]. cbn [negb] in Hs.
  assert (forall pc, inv n total (set_main pc s) <->
    match pc with Watching _ | Printed _ => inv n total (set_main pc s) | _ => True end) as Hpc
    by (intros []; split; try done; by intros _; split).
  destruct l as [|now|now old new|i err| |].
  - destruct (main s) as [[|target todo]|?|?| |?] eqn:E; simplify_eq.
    destruct Hm as (Hd & H1 & H2 & H3). rewrite fmap_cons in Hd, H3. apply NoDup_cons in Hd as [Hd1 Hd2].
    split; cbn; [done|rewrite watch_times; [done|apply H3; by left]|done|].
    split; [done|]. split; [done|]. split; [done|]. intros key Hk. rewrite inner_set, lookup_insert_ne by congruence.
    apply H3. by right.
  - destruct (main s) as [[|target todo]|?|?| |?] eqn:E; simplify_eq. destruct Hm as (_ & H1 & H2 & _).
    split; cbn; try done. unfold scaled_ok in *. cbn. rewrite H2, size_list_to_set by apply NoDup_seq.
    rewrite length_seq. lia.
  - assert (forall m' wg', pod_event now old new (wg s) (monitor s) = Ok (m', wg') ->
      inv n total (mkState m' wg' (nTargets s) (scaling s) (nScaled s) (cancelled s) (main s))) as Hev.
    { intros m' wg' He. pose proof (pod_event_accounting now old new (wg s) (monitor s) Hw) as Ha. rewrite He in Ha.
      destruct Ha as (A1 & A2 & A3 & _). split; cbn; [done|split; [done|lia]|done|].
      unfold running in Hr. destruct (main s) as [todo|?|?| |?]; try done.
      destruct Hm as (H1 & H2 & H3 & H4). split; [done|]. split; [done|]. split; [done|].
      intros key Hk. apply not_elem_of_dom. rewrite A3. apply not_elem_of_dom. by apply H4. }
    destruct (main s) as [?|?|?| |?] eqn:E; try done;
      (destruct (pod_event now old new (wg s) (monitor s)) as [[m' wg']|?|?|?];
        simplify_eq; [by apply Hev|by apply Hpc..]).
  - assert (forall pc, i ∈ scaling s -> main s = pc -> inv n total (mkState (monitor s) (wg s) (nTargets s) (scaling s ∖ {[i]})
      (if is_ok err then int32 (nScaled s + 1) else nScaled s) (cancelled s) pc)) as Hsl.
    { intros pc Hi <-. assert (scaled_ok (mkState (monitor s) (wg s) (nTargets s) (scaling s ∖ {[i]})
        (if is_ok err then int32 (nScaled s + 1) else nScaled s) (cancelled s) (main s))) as Hok.
      { unfold scaled_ok in *. cbn. rewrite size_difference, size_singleton by set_solver.
        assert (size ({[i]} : gset nat) <= size (scaling s))%nat as Hi1 by (apply subseteq_size; set_solver).
        rewrite size_singleton in Hi1.
        destruct (is_ok err); [rewrite int32_id by lia|]; lia. }
      split; cbn; [done..|]. unfold running in Hr. destruct (main s) as [todo|?|?| |?]; try done.
      destruct Hm as (_ & H1 & _). set_solver. }
    destruct (main s) as [?|?|?| |?] eqn:E; try done; (case_decide; simplify_eq; by apply Hsl).
  - destruct (main s) as [?|?|?| |?] eqn:E; try done; simplify_eq; by split.
  - destruct (main s) as [?|start|?| |?] eqn:E; try done. destruct (Z.eqb_spec (wg s) 0) as [E0|]; simplify_eq.
    apply Hpc. unfold finish. destruct (cancelled s); [done|].
    destruct (Since start (monitor s)) as [latency|?|?|?] eqn:Hl; try done.
    split; cbn; try done. split; [done|]. by exists start, latency.
Qed.

Lemma setup_ok sel created synced targets polled nPods s0 :
  setup sel created synced (Ok targets) polled nPods = Ok s0 ->
  targets <> [] /\ exists wg, WaitGroup_Add 0 (int64 (pods_per_target nPods (length targets) * Z.of_nat (length targets))) = Ok wg /\
    s0 = mkState (NewPodMonitor sel) wg (length targets) ∅ 0 false (Watching targets).
Proof.
  unfold setup. intros Hs. apply res_bind_ok in Hs as (? & _ & Hs). destruct (negb synced); [done|].
  cbn [or_fatal mbind res_bind] in Hs. case_decide as Ht; [done|]. split; [done|].
  apply res_bind_ok in Hs as (? & _ & Hs). apply res_bind_ok in Hs as (wg' & Hw & Hs). simplify_eq. by exists wg'.
Qed.

Lemma setup_inv sel created synced targets polled nPods s0 :
  NoDup (KeyFromObject <$> targets) -> 0 <= nPods < 2 ^ 31 -> Z.of_nat (length targets) < 2 ^ 31 ->
  setup sel created synced (Ok targets) polled nPods = Ok s0 ->
  inv (length targets) (pods_per_target nPods (length targets) * Z.of_nat (length targets)) s0.
Proof.
  intros Hd Hp Hl Hs. apply setup_ok in Hs as (Ht & wg' & Hw & ->).
  assert (0 < length targets)%nat by (destruct targets; [done|simpl; lia]).
  pose proof (pods_per_target_bounds nPods (length targets)) as Hb.
  set (total := pods_per_target nPods (length targets) * Z.of_nat (length targets)) in *.
  assert (0 <= total < 2 ^ 31) by (unfold total; nia).
  pose proof (WaitGroup_Add_ok _ _ _ Hw) as Hok. unfold WaitGroup_Add in Hw.
  rewrite int64_id, Z.add_0_l, int32_id, (proj2 (Z.ltb_ge _ _)) in Hw by lia. simplify_eq.
  split; cbn; [done| |by unfold scaled_ok; cbn; rewrite size_empty; lia|].
  - split; [done|]. rewrite seen_times_length. cbn. rewrite inner_new, msum_empty. lia.
  - split; [done|]. split; [done|]. split; [done|]. intros key _. by rewrite inner_new, lookup_empty.
Qed.

(** Without events the counter stands still. *)
Lemma quiet_run ls s s' start : Forall (fun l => match l with LEvent _ _ _ => False | _ => True end) ls ->
  wg s <> 0 -> main s = Waiting start -> run step s ls = Some s' -> main s' = Waiting start /\ wg s' = wg s.
Proof.
  intros Hl. revert s. induction Hl as [|l ls Hl _ IH]; intros s Hw Hm Hr; [simpl in Hr; by simplify_eq|].
  cbn [run] in Hr. destruct (step s l) as [s1|] eqn:E; [|done].
  assert (main s1 = Waiting start /\ wg s1 = wg s) as [H1 H2].
  { unfold step, running in E. rewrite Hm in E. cbn [negb] in E. destruct l; simplify_eq; try done.
    - case_decide; simplify_eq; done.
    - rewrite (proj2 (Z.eqb_neq _ _)) in E; done. }
  destruct (IH s1) as [H3 H4]; [congruence|done|exact Hr|]. by rewrite H4, H2.
Qed.

(** C19. The end-to-end benchmark waits for exactly the pods it asked for: it
    expects the same number, at least one, of every target; at any time the
    counter of its wait group plus the distinct pods seen ready make the total;
    it prints only when all of them were seen, with the 90th percentile of
    their times and a number of scaled targets that is at most all of them
    (updates that have not returned are not counted).  One more pod of a
    watched target that becomes ready, say a replacement, panics, and only
    that does; and once the context is cancelled the run still does not end
    before all pods were seen. *)
Theorem e2e_waits_for_all sel created synced targets polled nPods ls s0 s :
  NoDup (KeyFromObject <$> targets) -> 0 <= nPods < 2 ^ 31 -> Z.of_nat (length targets) < 2 ^ 31 ->
  setup sel created synced (Ok targets) polled nPods = Ok s0 -> run step s0 ls = Some s ->
  let total := pods_per_target nPods (length targets) * Z.of_nat (length targets) in
  let ready := Z.of_nat (length (seen_times (monitor s))) in
  1 <= pods_per_target nPods (length targets) /\ 0 <= wg s /\ wg s + ready = total /\
  (forall out, main s = Printed out -> ready = total /\
     exists start p, p ∈ seen_times (monitor s) /\
       out = [TargetsScaled (nScaled s) (Z.of_nat (length targets)) (time_sub p start);
              TotalTime (dur_microseconds (time_sub p start))] /\
       100 * Z.of_nat (before p (seen_times (monitor s))) <= 90 * total < 100 * Z.of_nat (at_most p (seen_times (monitor s))) /\
       0 <= nScaled s <= Z.of_nat (length targets)) /\
  (forall now old new, running s = true ->
     (exists s', step s (LEvent now old new) = Some s' /\
        main s' = Crashed "sync: negative WaitGroup counter") <-> wg s = 0 /\ counts (monitor s) new) /\
  (forall start ls' s', main s = Waiting start -> wg s <> 0 ->
     Forall (fun l => match l with LEvent _ _ _ => False | _ => True end) ls' ->
     run step s ls' = Some s' -> main s' = Waiting start).
Proof.
  intros Hd Hp Hl Hs Hr total ready.
  pose proof (setup_inv _ _ _ _ _ _ _ Hd Hp Hl Hs) as Hi.
  assert (inv (length targets) total s) as [I1 [I2 I3] I4 I5]
    by (eapply (run_invariant step (inv (length targets) total)); [|exact Hi|exact Hr]; intros; by eapply inv_step).
  apply setup_ok in Hs as (Ht & _). assert (0 < length targets)%nat by (destruct targets; [done|simpl; lia]).
  pose proof (pods_per_target_bounds nPods (length targets)) as Hb.
  assert (1 <= total < 2 ^ 31) by (unfold total; nia). unfold wg_ok in I2.
  split; [lia|]. split; [lia|]. split; [exact I3|]. split; [|split].
  - intros out Ho. rewrite Ho in I5. destruct I5 as (Hw & start & latency & Hlat & ->).
    assert (ready = total) as Hrt by lia. split; [done|]. unfold scaled_ok in I4.
    destruct (percentile_since_rank start (seen_times (monitor s))) as (p & Hpr & Hin & Hk).
    { intros E. unfold ready in Hrt. rewrite E in Hrt. simpl in Hrt. lia. }
    { fold ready. lia. }
    unfold Since in Hlat. rewrite Hpr in Hlat. injection Hlat as <-. exists start, p.
    fold ready in Hk. rewrite Hrt in Hk. split; [done|]. split; [done|]. split; [done|lia].
  - intros now old new Hrun. unfold step at 1. rewrite Hrun. cbn [negb].
    pose proof (pod_event_accounting now old new (wg s) (monitor s) I2) as Ha.
    assert (forall A (x y : A), match main s with Watching _ => x | Waiting _ => x | _ => y end = x) as Hmain
      by (intros A x y; unfold running in Hrun; by destruct (main s)).
    destruct (pod_event now old new (wg s) (monitor s)) as [[m' wg']|?|?|?]; try done.
    + destruct Ha as (_ & _ & _ & Hc). split; [|intros [E Hcn]; specialize (Hc Hcn); lia].
      intros (s' & E & Hn). unfold running in Hrun. destruct (main s); simplify_eq/=; congruence.
    + destruct Ha as (Hw & Hcn & ->). split; [done|]. intros _. eexists. split; [by destruct (main s)|done].
  - intros start ls' s' Hm Hw Hq Hr'. by eapply quiet_run.
Qed.
End Run.
End E2E.

(** * The kubelet benchmark *)
Module KubeletBench.
(** [desired] has the zero time for a pod that is not done; [watched] is
    whether the wait group has been set. *)
Record Expectation := mkExpectation { watched : bool; desired : gmap string time }.
Definition NewExpectation : Expectation := mkExpectation false ∅.
Definition info_key (podInfo : PodInfo) : string := info_Namespace podInfo +:+ "/" +:+ info_Name podInfo.
Definition Expectation_Watch (podInfos : list PodInfo) (s : Expectation) : Expectation :=
  mkExpectation true (foldl (fun d podInfo => <[info_key podInfo := zero_time]> d) (desired s) podInfos).
Definition Done (now : time) (pod : Pod) (wg : Z) (s : Expectation) : res (Expectation * Z * bool) :=
  if negb (watched s) then Ok (s, wg, false)
  else match desired s !! pod_key pod with
       | Some t =>
           if time_is_zero t then
             wg ← WaitGroup_Done wg; Ok (mkExpectation (watched s) (<[pod_key pod := now]> (desired s)), wg, true)
           else Ok (s, wg, false)
       | None => Ok (s, wg, false)
       end.

Record PodMonitor := mkMonitor { ownerName : string; expectation : Expectation }.
Definition NewPodMonitor (owner : string) : PodMonitor := mkMonitor owner NewExpectation.
Definition seen_times (m : PodMonitor) : list time := snd <$> map_to_list (desired (expectation m)).
Definition Since (start : time) (m : PodMonitor) : res duration := percentile_since start (seen_times m).
Definition Watch (podInfos : list PodInfo) (m : PodMonitor) : PodMonitor :=
  mkMonitor (ownerName m) (Expectation_Watch podInfos (expectation m)).

(** ** client.go *)
(** Nanoseconds between Go's zero time and the Unix epoch. *)
Definition unix_epoch : time := 62135596800 * Second.
Definition UnixNano (t : time) : Z := int64 (t - unix_epoch).
Definition pod_name (owner : string) (created : time) (i : nat) : string :=
  owner +:+ "-" +:+ pretty (UnixNano created) +:+ "-" +:+ pretty i.
Definition newPodInfos (ownerNamespace owner nodeName : string) (nPods : Z) (now : time) : res (list PodInfo) :=
  if nPods <? 0 then Panic "makeslice: len out of range"
  else Ok ((fun i => mkPodInfo ownerNamespace (pod_name owner now i) owner nodeName now) <$> seq 0 (Z.to_nat nPods)).

Section Run.
Context `{!Kubedirect}.
(** Clients of the kubelet's service, and the requests made for them. *)
Context {Client Req : Type} (RequestForBinding : option Client -> PodInfo -> res Req).

Definition FilterEvent (m : PodMonitor) (object : Object) : bool :=
  IsManaged object && bool_decide (label object OwnerNameLabel = ownerName m).

Definition HandlePodEvent (now : time) (old new : option Pod) (wg : Z) (m : PodMonitor) : res (PodMonitor * Z) :=
  let done pod :=
    '(e, wg, _) ← Done now pod wg (expectation m); Ok (mkMonitor (ownerName m) e, wg) in
  match new, old with
  | None, Some old => done old
  | None, None => Ok (m, wg)
  | Some new, _ => if IsPodReady new then done new else Ok (m, wg)
  end.
Definition pod_event (now : time) (old new : option Pod) (wg : Z) (m : PodMonitor) : res (PodMonitor * Z) :=
  match (match new with Some pod => Some pod | None => old end) with
  | Some pod => if FilterEvent m (pod_object pod) then HandlePodEvent now old new wg m else Ok (m, wg)
  | None => Ok (m, wg)
  end.

Definition newBindingRequests (kdClient : option Client) (podInfos : list PodInfo) : res (list Req) :=
  res_foldl (fun reqs podInfo => r ← RequestForBinding kdClient podInfo; Ok (reqs ++ [r])) [] podInfos.

Inductive main_pc :=
| Starting (podInfos : list PodInfo)      (* before monitor.Watch *)
| Binding                                 (* the goroutines are about to start *)
| Waiting (start : time)
| Printed (out : list report)
| Cancelled
| Crashed (msg : string).
Record state := mkState {
  monitor : PodMonitor;
  wg : Z;
  nPods : Z;
  client : option Client;
  reqs : list Req;
  binding : gset nat;          (* BindPod calls that have not returned *)
  nBound : Z;
  cancelled : bool;
  main : main_pc
}.

Definition check_template (target : string) (useDefaultKubelet : bool) (templatePod : Pod) : res unit :=
  if negb (IsTemplatePod (pod_object templatePod)) then Fatal "Invalid template pod: missing template pod label"
  else if negb (bool_decide (label (pod_object templatePod) OwnerNameLabel = target))
  then Fatal ("Invalid owner label, expected " +:+ target +:+ ", got " +:+ label (pod_object templatePod) OwnerNameLabel)
  else if negb (Bool.eqb useDefaultKubelet (IsKubeletResponsibleFor templatePod))
  then Fatal "Invalid template pod: pod-lifecycle label does not match kubelet implementation"
  else Ok tt.

(** [run] up to [monitor.Watch]; [kdClient] is what the hub has when the
    polling for it ends, nil if the context ended it. *)
Definition setup (nodeName target : string) (nPods : Z) (useDefaultKubelet : bool) (created : res unit) (synced : bool)
    (templatePod : res Pod) (kdClient : option Client) (now : time) : res state :=
  or_fatal "Error creating monitor: " created ≫= fun _ =>
  if negb synced then Fatal "Cannot syncing manager cache" else
  templatePod ← or_fatal "Error getting template pod: " templatePod;
  check_template target useDefaultKubelet templatePod ≫= fun _ =>
  podInfos ← newPodInfos (pod_Namespace templatePod) target nodeName nPods now;
  reqs ← newBindingRequests kdClient podInfos;
  wg ← WaitGroup_Add 0 (Z.of_nat (length reqs));
  Ok (mkState (NewPodMonitor target) wg nPods kdClient reqs ∅ 0 false (Starting podInfos)).

Inductive label :=
| LWatch
| LStart (now : time)
| LEvent (now : time) (old new : option Pod)
| LBind (i : nat) (err : res unit)
| LCancel
| LWake.

Definition set_main (pc : main_pc) (s : state) : state :=
  mkState (monitor s) (wg s) (nPods s) (client s) (reqs s) (binding s) (nBound s) (cancelled s) pc.
Definition running (s : state) : bool :=
  match main s with Starting _ | Binding | Waiting _ => true | _ => false end.
Definition finish (start : time) (s : state) : main_pc :=
  if cancelled s then Cancelled
  else match Since start (monitor s) with
       | Ok latency => Printed [RPCReturned (nBound s) (nPods s) latency; TotalTime (dur_microseconds latency)]
       | Err m | Panic m | Fatal m => Crashed m
       end.

Definition step (s : state) (l : label) : option state :=
  if negb (running s) then None else
  match l, main s with
  | LWatch, Starting podInfos =>
      Some (mkState (Watch podInfos (monitor s)) (wg s) (nPods s) (client s) (reqs s) (binding s) (nBound s)
              (cancelled s) Binding)
  | LStart now, Binding =>
      Some (mkState (monitor s) (wg s) (nPods s) (client s) (reqs s) (list_to_set (seq 0 (length (reqs s)))) (nBound s)
              (cancelled s) (Waiting now))
  | LEvent now old new, _ =>
      match pod_event now old new (wg s) (monitor s) with
      | Ok (m, wg) => Some (mkState m wg (nPods s) (client s) (reqs s) (binding s) (nBound s) (cancelled s) (main s))
      | Err m | Panic m | Fatal m => Some (set_main (Crashed m) s)
      end
  | LBind i err, _ =>
      if decide (i ∈ binding s) then
        match client s with
        | None => Some (set_main (Crashed "invalid memory address or nil pointer dereference") s)
        | Some _ =>
            let n := if is_ok err then int32 (nBound s + 1) else nBound s in
            Some (mkState (monitor s) (wg s) (nPods s) (client s) (reqs s) (binding s ∖ {[i]}) n (cancelled s) (main s))
        end
      else None
  | LCancel, _ =>
      Some (mkState (monitor s) (wg s) (nPods s) (client s) (reqs s) (binding s) (nBound s) true (main s))
  | LWake, Waiting start => if wg s =? 0 then Some (set_main (finish start s) s) else None
  | _, _ => None
  end.

(** ** Accounting *)
Definition not_done (t : time) : nat := if time_is_zero t then 1 else 0.
Definition pending (m : PodMonitor) : nat := msum not_done (desired (expectation m)).

Lemma info_key_inj ns owner node now i j :
  info_key (mkPodInfo ns (pod_name owner now i) owner node now) =
  info_key (mkPodInfo ns (pod_name owner now j) owner node now) -> i = j.
Proof.
  unfold info_key, pod_name. cbn. intros Hk. repeat apply str_app_inj_l in Hk. by apply (inj pretty) in Hk.
Qed.

Lemma newPodInfos_ok ns owner node n now infos : newPodInfos ns owner node n now = Ok infos ->
  Z.of_nat (length infos) = n /\ NoDup (info_key <$> infos).
Proof.
  unfold newPodInfos. destruct (Z.ltb_spec n 0) as [|Hn]; [done|]. intros [= <-].
  rewrite length_fmap, length_seq. split; [lia|]. rewrite <- list_fmap_compose.
  apply NoDup_fmap_2_strong; [|apply NoDup_seq]. intros i j _ _. apply info_key_inj.
Qed.

Lemma newBindingRequests_length kdClient infos rs : newBindingRequests kdClient infos = Ok rs ->
  length rs = length infos.
Proof.
  unfold newBindingRequests. revert rs. induction infos as [|x infos IH] using rev_ind; intros rs Hr; [by simplify_eq/=|].
  rewrite res_foldl_app in Hr. apply res_bind_ok in Hr as (rs' & H1 & H2). cbn [res_foldl] in H2.
  apply res_bind_ok in H2 as (? & H2 & ?). apply res_bind_ok in H2 as (r & _ & H2). simplify_eq.
  rewrite !length_app, (IH rs') by done. done.
Qed.

Lemma watch_fresh infos :
  NoDup (info_key <$> infos) ->
  let d := foldl (fun d podInfo => <[info_key podInfo := zero_time]> d) (∅ : gmap string time) infos in
  dom d = list_to_set (info_key <$> infos) /\ size d = length infos /\ msum not_done d = length infos.
Proof.
  induction infos as [|x infos IH] using rev_ind; intros Hd; cbv zeta; [simpl; by rewrite dom_empty_L, map_size_empty, msum_empty|].
  rewrite fmap_app in Hd. apply NoDup_app in Hd as (Hd1 & Hd2 & _). specialize (IH Hd1). cbv zeta in IH.
  rewrite foldl_app. cbn [foldl]. destruct IH as (H1 & H2 & H3). set (d := foldl _ _ infos) in *.
  assert (d !! info_key x = None) as Hx.
  { apply not_elem_of_dom. rewrite H1, elem_of_list_to_set. intros Hin. apply (Hd2 _ Hin). by left. }
  rewrite dom_insert_L, map_size_insert_None, msum_insert_new, H1, H2, H3, fmap_app, list_to_set_app_L, length_app by done.
  split; [set_solver|]. cbn. lia.
Qed.

Record inv (n : nat) (keys : gset string) (s : state) : Prop := {
  inv_counter : wg_ok (wg s);
  inv_pods : nPods s = Z.of_nat n /\ length (reqs s) = n;
  inv_bound : 0 <= nBound s /\ nBound s + Z.of_nat (size (binding s)) <= Z.of_nat n;
  inv_main :
    match main s with
    | Starting podInfos =>
        watched (expectation (monitor s)) = false /\ desired (expectation (monitor s)) = ∅ /\
        wg s = Z.of_nat n /\ length podInfos = n /\ NoDup (info_key <$> podInfos) /\
        list_to_set (info_key <$> podInfos) = keys /\ binding s = ∅ /\ nBound s = 0
    | Crashed _ => client s = None
    | pc =>
        watched (expectation (monitor s)) = true /\ dom (desired (expectation (monitor s))) = keys /\
        size (desired (expectation (monitor s))) = n /\ wg s = Z.of_nat (pending (monitor s)) /\
        (pc = Binding -> binding s = ∅ /\ nBound s = 0) /\
        (forall out, pc = Printed out -> wg s = 0 /\ exists start latency, Since start (monitor s) = Ok latency /\
          out = [RPCReturned (nBound s) (Z.of_nat n) latency; TotalTime (dur_microseconds latency)])
    end
}.

(** The clock of an event is not the zero time. *)
Definition clock_ok (l : label) : Prop := match l with LEvent now _ _ => now <> zero_time | _ => True end.

Lemma bench_done_accounting now pod wg e : now <> zero_time -> wg_ok wg -> watched e = true ->
  wg = Z.of_nat (msum not_done (desired e)) ->
  exists e' wg' fresh, Done now pod wg e = Ok (e', wg', fresh) /\ wg_ok wg' /\ watched e' = true /\
    dom (desired e') = dom (desired e) /\ size (desired e') = size (desired e) /\
    wg' = Z.of_nat (msum not_done (desired e')).
Proof.
  intros Hn Hw Ht Hp. unfold Done. rewrite Ht. cbn [negb].
  destruct (desired e !! pod_key pod) as [t|] eqn:E; [|by eexists _, _, _].
  destruct (time_is_zero t) eqn:Hz; [|by eexists _, _, _].
  pose proof (msum_insert not_done _ _ now t E) as Hm. unfold not_done in Hm at 2 3. rewrite Hz in Hm.
  assert (time_is_zero now = false) as Hnz by (by apply Z.eqb_neq). rewrite Hnz in Hm.
  rewrite WaitGroup_Done_pos by (done || lia). cbn. eexists _, _, _. split; [done|]. unfold wg_ok in *.
  split; [lia|]. split; [done|]. split; [|split; [|cbn; lia]]; cbn.
  - rewrite dom_insert_L. apply elem_of_dom_2 in E. set_solver.
  - by rewrite map_size_insert_Some.
Qed.

Lemma bench_pod_event_accounting now old new wg m : now <> zero_time -> wg_ok wg -> watched (expectation m) = true ->
  wg = Z.of_nat (pending m) ->
  exists m' wg', pod_event now old new wg m = Ok (m', wg') /\ wg_ok wg' /\ watched (expectation m') = true /\
    dom (desired (expectation m')) = dom (desired (expectation m)) /\
    size (desired (expectation m')) = size (desired (expectation m)) /\ wg' = Z.of_nat (pending m').
Proof.
  intros Hn Hw Ht Hp. unfold pod_event.
  assert (forall pod, exists m' wg', ('(e, wg, _) ← Done now pod wg (expectation m); Ok (mkMonitor (ownerName m) e, wg)) = Ok (m', wg') /\
    wg_ok wg' /\ watched (expectation m') = true /\ dom (desired (expectation m')) = dom (desired (expectation m)) /\
    size (desired (expectation m')) = size (desired (expectation m)) /\ wg' = Z.of_nat (pending m')) as Hd.
  { intros pod. destruct (bench_done_accounting now pod wg (expectation m) Hn Hw Ht Hp) as (e' & wg' & fresh & -> & ?).
    cbn [mbind res_bind]. by eexists _, _. }
  destruct new as [new|]; [|destruct old as [old|]; [|by eexists _, _]].
  - destruct (FilterEvent _ _); [|by eexists _, _]. unfold HandlePodEvent.
    destruct (IsPodReady new); [apply Hd|by eexists _, _].
  - destruct (FilterEvent _ _); [|by eexists _, _]. apply Hd.
Qed.

(** An event before [monitor.Watch] changes nothing. *)
Lemma pod_event_unwatched now old new wg m : watched (expectation m) = false ->
  pod_event now old new wg m = Ok (m, wg).
Proof.
  intros Hw. unfold pod_event, HandlePodEvent, Done. rewrite Hw. destruct m as [o e]. cbn.
  destruct new as [new|]; [|destruct old as [old|]; [|done]];
    (destruct (FilterEvent _ _); [|done]); [by destruct (IsPodReady new)|done].
Qed.

Lemma inv_event n keys s now old new s' : now <> zero_time -> inv n keys s ->
  step s (LEvent now old new) = Some s' -> inv n keys s'.
Proof.
  intros Hn [Hw Hp Hb Hm] Hs. unfold step in Hs. destruct (running s) eqn:Hr; [|done]. cbn [negb] in Hs.
  assert (match pod_event now old new (wg s) (monitor s) with
    | Ok (m, wg) => Some (mkState m wg (nPods s) (client s) (reqs s) (binding s) (nBound s) (cancelled s) (main s))
    | Err m | Panic m | Fatal m => Some (set_main (Crashed m) s)
    end = Some s') as Hs' by (destruct (main s); done). clear Hs.
  destruct (main s) as [infos| |start|out| |msg] eqn:E; unfold running in Hr; rewrite E in Hr; try done.
  - destruct Hm as (H1 & H2). rewrite pod_event_unwatched in Hs' by done. simplify_eq. by split.
  - destruct Hm as (H1 & H2 & H3 & H4 & H5 & H6).
    destruct (bench_pod_event_accounting now old new (wg s) (monitor s) Hn Hw H1 H4)
      as (m' & wg' & He & J1 & J2 & J3 & J4 & J5). rewrite He in Hs'. simplify_eq.
    by split.
  - destruct Hm as (H1 & H2 & H3 & H4 & H5 & H6).
    destruct (bench_pod_event_accounting now old new (wg s) (monitor s) Hn Hw H1 H4)
      as (m' & wg' & He & J1 & J2 & J3 & J4 & J5). rewrite He in Hs'. simplify_eq.
    by split.
Qed.

Lemma bench_inv_step n keys s l s' : Z.of_nat n < 2 ^ 31 -> clock_ok l -> inv n keys s -> step s l = Some s' -> inv n keys s'.
Proof.
  intros Hn Hc Hi Hs. destruct l as [|now|now old new|i err| |]; [| |by eapply inv_event|..];
    destruct Hi as [Hw [Hp1 Hp2] Hb Hm]; unfold step in Hs; destruct (running s) eqn:Hr; try done; cbn [negb] in Hs.
  - destruct (main s) as [infos| | | | |] eqn:E; simplify_eq.
    destruct Hm as (H1 & H2 & H3 & H4 & H5 & H6 & H7 & H8). destruct (watch_fresh infos H5) as (W1 & W2 & W3).
    split; cbn; try done. rewrite H2. split; [done|]. split; [congruence|]. split; [congruence|].
    split; [|by split]. unfold pending. cbn. rewrite H2, W3. congruence.
  - destruct (main s) as [|  | | | |] eqn:E; simplify_eq. destruct Hm as (H1 & H2 & H3 & H4 & H5 & _).
    destruct (H5 eq_refl) as [B1 B2]. split; cbn; try done.
    rewrite B2, size_list_to_set by apply NoDup_seq. rewrite length_seq. lia.
  - assert (i ∈ binding s -> forall pc, main s = pc -> running s = true ->
      inv n keys (mkState (monitor s) (wg s) (nPods s) (client s) (reqs s) (binding s ∖ {[i]})
        (if is_ok err then int32 (nBound s + 1) else nBound s) (cancelled s) pc)) as Hok.
    { intros Hi pc <- _. assert (size ({[i]} : gset nat) <= size (binding s))%nat as Hi1 by (apply subseteq_size; set_solver).
      rewrite size_singleton in Hi1. split; cbn; try done.
      - rewrite size_difference, size_singleton by set_solver. destruct (is_ok err); [rewrite int32_id by lia|]; lia.
      - unfold running in Hr. destruct (main s) as [infos| |start|out| |msg]; try done.
        + destruct Hm as (_ & _ & _ & _ & _ & _ & Hbd & _). set_solver.
        + destruct Hm as (_ & _ & _ & _ & Hbd & _). destruct (Hbd eq_refl) as [Hbd' _]. set_solver.
        + destruct Hm as (? & ? & ? & ? & ? & Hf). split_and!; try done. }
    assert ((if decide (i ∈ binding s) then
        match client s with
        | None => Some (set_main (Crashed "invalid memory address or nil pointer dereference") s)
        | Some _ => Some (mkState (monitor s) (wg s) (nPods s) (client s) (reqs s) (binding s ∖ {[i]})
            (if is_ok err then int32 (nBound s + 1) else nBound s) (cancelled s) (main s))
        end else None) = Some s') as Hs' by (by destruct (main s)). clear Hs.
    case_decide as Hi; [|done]. destruct (client s) eqn:Hcl; simplify_eq; [exact (Hok Hi _ eq_refl Hr)|by split].
  - assert (Some (mkState (monitor s) (wg s) (nPods s) (client s) (reqs s) (binding s) (nBound s) true (main s)) = Some s')
      as Hs' by (by destruct (main s)). simplify_eq. by split.
  - destruct (main s) as [| |start| | |] eqn:E; try done. destruct (Z.eqb_spec (wg s) 0) as [E0|]; simplify_eq.
    destruct Hm as (H1 & H2 & H3 & H4 & H5 & H6).
    assert (exists lat, Since start (monitor s) = Ok lat) as [lat Hlat].
    { unfold Since. destruct (decide (seen_times (monitor s) = [])) as [->|Hne]; [by eexists|].
      destruct (percentile_since_rank start (seen_times (monitor s)) Hne) as (p & -> & _); [|by eexists].
      unfold seen_times. rewrite length_fmap, length_map_to_list, H3. lia. }
    split; cbn; try done. unfold finish. destruct (cancelled s); [by split_and!|]. rewrite Hlat.
    split_and!; try done. intros out [= <-]. split; [done|]. exists start, lat. by rewrite Hp1.
Qed.

Lemma bench_setup_inv nodeName target nPods useDefault created synced template kdClient now s0 :
  nPods < 2 ^ 31 -> setup nodeName target nPods useDefault created synced template kdClient now = Ok s0 ->
  0 <= nPods /\ inv (Z.to_nat nPods) (list_to_set (info_key <$> match main s0 with Starting i => i | _ => [] end)) s0 /\
  client s0 = kdClient.
Proof.
  unfold setup. intros Hb Hs. apply res_bind_ok in Hs as (? & _ & Hs). destruct (negb synced); [done|].
  apply res_bind_ok in Hs as (pod & _ & Hs). apply res_bind_ok in Hs as (? & _ & Hs).
  apply res_bind_ok in Hs as (infos & Hi & Hs). apply res_bind_ok in Hs as (rs & Hrs & Hs).
  apply res_bind_ok in Hs as (wg' & Hw & Hs). simplify_eq. cbn [main client].
  apply newPodInfos_ok in Hi as [Hl Hd]. apply newBindingRequests_length in Hrs.
  split; [lia|]. split; [|done]. pose proof (WaitGroup_Add_ok _ _ _ Hw) as Hok.
  unfold WaitGroup_Add in Hw. rewrite int32_id, (proj2 (Z.ltb_ge _ _)) in Hw by lia. simplify_eq.
  split; cbn; [done|split; lia|rewrite size_empty; lia|]. split_and!; try done; lia.
Qed.

Lemma client_step s l s' : step s l = Some s' -> client s' = client s.
Proof.
  unfold step. destruct (negb (running s)); [done|]. intros Hs.
  destruct l, (main s); simplify_eq; repeat (case_match; simplify_eq); try done;
    match goal with H : context [client s] |- _ => congruence | _ => done end.
Qed.

(** C28. The kubelet benchmark measures exactly the pods it binds: the names
    it makes are distinct, so the counter of its wait group is at any time the
    number of its pods that were neither seen ready nor deleted, and never
    becomes negative, whatever events arrive and however often; the run cannot
    panic unless there is no client; and it prints only when all pods are
    done, with the 90th percentile of the times at which they were, and at
    most as many bound pods as there are. *)
Theorem kubelet_bench_exact nodeName target nPods useDefault created synced template kdClient now ls s0 s :
  nPods < 2 ^ 31 -> setup nodeName target nPods useDefault created synced template kdClient now = Ok s0 ->
  Forall clock_ok ls -> run step s0 ls = Some s ->
  0 <= wg s /\
  (forall msg, main s = Crashed msg -> kdClient = None) /\
  (match main s with Binding | Waiting _ | Printed _ => wg s = Z.of_nat (pending (monitor s)) | _ => True end) /\
  (forall out, main s = Printed out ->
     Z.of_nat (length (seen_times (monitor s))) = nPods /\ zero_time ∉ seen_times (monitor s) /\
     0 <= nBound s <= nPods /\
     (0 < nPods -> exists start p, p ∈ seen_times (monitor s) /\
        out = [RPCReturned (nBound s) nPods (time_sub p start); TotalTime (dur_microseconds (time_sub p start))] /\
        100 * Z.of_nat (before p (seen_times (monitor s))) <= 90 * nPods
          < 100 * Z.of_nat (at_most p (seen_times (monitor s))))).
Proof.
  intros Hb Hs Hc Hr. destruct (bench_setup_inv _ _ _ _ _ _ _ _ _ _ Hb Hs) as (Hp & Hi & Hcl).
  set (keys := list_to_set (info_key <$> _)) in Hi.
  assert (inv (Z.to_nat nPods) keys s /\ client s = kdClient) as [[[I0 _] I1 I2 I3] Hcl'].
  { revert Hcl Hi Hr. clear Hs. generalize s0. induction Hc as [|l ls Hl _ IH]; intros s1 Hcl Hi Hr; [by simplify_eq/=|].
    cbn [run] in Hr. destruct (step s1 l) as [s2|] eqn:E; [|done]. apply (IH s2); [|eapply bench_inv_step; eauto; lia|exact Hr].
    by rewrite (client_step _ _ _ E). }
  split; [done|]. split; [|split].
  - intros msg E. rewrite E in I3. congruence.
  - destruct (main s); try done; by destruct I3 as (_ & _ & _ & ? & _).
  - intros out E. rewrite E in I3. destruct I3 as (_ & _ & H3 & H4 & _ & H6).
    destruct (H6 out eq_refl) as (H7 & start & latency & H8 & ->).
    assert (length (seen_times (monitor s)) = Z.to_nat nPods) as Hlen
      by (unfold seen_times; by rewrite length_fmap, length_map_to_list).
    split; [lia|]. split; [|split; [lia|]].
    + unfold seen_times. intros Hz. apply list_elem_of_fmap in Hz as ([k t] & Ht & Hk). apply elem_of_map_to_list in Hk. simpl in Ht. subst t.
      pose proof (msum_ge not_done _ _ _ Hk) as Hge. cbn in Hge. unfold pending in H4. lia.
    + intros Hpos. destruct (percentile_since_rank start (seen_times (monitor s))) as (p & Hpr & Hin & Hk).
      { intros E0. rewrite E0 in Hlen. simpl in Hlen. lia. }
      { lia. }
      unfold Since in H8. rewrite Hpr in H8. injection H8 as <-. exists start, p.
      rewrite Hlen, Z2Nat.id in Hk by lia. split; [done|]. split; [|done]. by rewrite Z2Nat.id by lia.
Qed.
End Run.
End KubeletBench.

(** * The theorems at concrete inputs *)
Module Demo.
#[local] Existing Instance Kube.Demo.kubedirect.

Definition ready_status (t : time) : PodStatus := mkStatus "Running" [mkCondition "Ready" "True" t] "" "" (Some t) [] [].
Definition demo_pod (name : string) (labels : gmap string string) : Pod :=
  mkPod "default" name labels "1" None "node-1" [] [] [] (ready_status 5).

(** Two pods of one deployment become ready and the run prints; the second
    event of the first pod is not counted. *)
Definition e2e_target : Object := mkObject "default" "fn" {["app" := "fn"; "workload" := "test"]}.
Definition e2e_pod (name : string) : Pod := demo_pod name {["app" := "fn"; "workload" := "test"]}.
Definition e2e_start : res (E2E.state (M := gmap string E2E.Expectation)) :=
  E2E.setup "test" (Ok tt) true (Ok [e2e_target]) [Ok []; Ok [(e2e_target, true)]] 2.
Definition e2e_labels : list E2E.label :=
  [E2E.LWatch; E2E.LStart 100; E2E.LScale 0 (Ok tt); E2E.LEvent 110 None (Some (e2e_pod "fn-1"));
   E2E.LEvent 120 (Some (e2e_pod "fn-1")) (Some (e2e_pod "fn-1")); E2E.LEvent 130 None (Some (e2e_pod "fn-2"))].
Definition e2e_done : E2E.state (M := gmap string E2E.Expectation) :=
  E2E.mkState (E2E.mkMonitor "test" {["default/fn" := E2E.mkExpectation {["default/fn-1" := 110; "default/fn-2" := 130]}]})
    0 1 ∅ 1 false (E2E.Printed [TargetsScaled 1 1 30; TotalTime 0]).

Lemma e2e_waits_for_all_witness :
  exists s0, e2e_start = Ok s0 /\ run E2E.step s0 (e2e_labels ++ [E2E.LWake]) = Some e2e_done /\
    Z.of_nat (length (E2E.seen_times (E2E.monitor e2e_done))) = 2.
Proof.
  destruct e2e_start as [s0|m|m|m] eqn:E; [|exfalso; vm_compute in E; discriminate E..].
  assert (run E2E.step s0 (e2e_labels ++ [E2E.LWake]) = Some e2e_done) as Hr
    by (vm_compute in E; injection E as <-; vm_compute; reflexivity).
  exists s0. split; [reflexivity|]. split; [exact Hr|].
  refine (proj1 (proj1 (proj2 (proj2 (proj2 (E2E.e2e_waits_for_all "test" (Ok tt) true [e2e_target]
    [Ok []; Ok [(e2e_target, true)]] 2 _ s0 e2e_done _ _ _ E Hr)))) _ eq_refl)).
  - apply NoDup_singleton.
  - split; [discriminate|reflexivity].
  - reflexivity.
Defined.

(** Two pods are bound: one becomes ready, the other is deleted. *)
Definition bench_template : Pod :=
  demo_pod "fn-template" {["kubedirect/template" := "true"; "kubedirect/owner-name" := "fn";
                           "kubedirect/pod-lifecycle-manager" := "custom"]}.
Definition bench_start : res (KubeletBench.state (Client := unit) (Req := string)) :=
  KubeletBench.setup (fun _ i => Ok (info_Name i)) "node-1" "fn" 2 false (Ok tt) true (Ok bench_template) (Some tt)
    KubeletBench.unix_epoch.
Definition bench_pod (name : string) : Pod :=
  demo_pod name {["kubedirect/managed" := "true"; "kubedirect/owner-name" := "fn"]}.
Definition bench_labels : list KubeletBench.label :=
  [KubeletBench.LEvent 90 None (Some (bench_pod "fn-0-0")); KubeletBench.LWatch; KubeletBench.LStart 100;
   KubeletBench.LEvent 110 None (Some (bench_pod "fn-0-0")); KubeletBench.LBind 1 (Err "lost");
   KubeletBench.LEvent 140 (Some (bench_pod "fn-0-1")) None; KubeletBench.LBind 0 (Ok tt); KubeletBench.LWake].

Lemma kubelet_bench_exact_witness :
  exists s0 s, bench_start = Ok s0 /\ run KubeletBench.step s0 bench_labels = Some s /\
    KubeletBench.main s = KubeletBench.Printed [RPCReturned 1 2 40; TotalTime 0] /\
    zero_time ∉ KubeletBench.seen_times (KubeletBench.monitor s).
Proof.
  destruct bench_start as [s0|m|m|m] eqn:E; [|exfalso; vm_compute in E; discriminate E..].
  destruct (run KubeletBench.step s0 bench_labels) as [s|] eqn:Hr;
    [|exfalso; vm_compute in E; injection E as <-; vm_compute in Hr; discriminate Hr].
  exists s0, s. split; [reflexivity|]. split; [exact Hr|].
  assert (KubeletBench.main s = KubeletBench.Printed [RPCReturned 1 2 40; TotalTime 0]) as Hm
    by (vm_compute in E; injection E as <-; vm_compute in Hr; injection Hr as <-; reflexivity).
  split; [exact Hm|].
  refine (proj1 (proj2 (proj2 (proj2 (proj2 (KubeletBench.kubelet_bench_exact _ "node-1" "fn" 2 false (Ok tt) true
    (Ok bench_template) (Some tt) KubeletBench.unix_epoch bench_labels s0 s _ E _ Hr))) _ Hm))).
  - reflexivity.
  - repeat constructor; discriminate.
Defined.
End Demo.
