(* ===== verification/Bench.v ===== *)
(** The breakdown microbenchmarks of the control plane
    (experiments/microbench/breakdown): handshakes and address listers of the
    components measured, and the drivers of the deployment controller (also
    used, verbatim, for the autoscaler), the endpoints controller, the
    ReplicaSet controller and the scheduler, with their command lines.  A
    driver is a function from what it observes of the API server, the RPC
    client and the clock to the requests it sends and the lines it prints. *)
From S2P Require Import Prelude KdUtil Kube Workload Monitor.
Import Selection.

Definition nil_dereference : string := "invalid memory address or nil pointer dereference".
Definition quote : string := String (Ascii.ascii_of_nat 34) "".
Definition testClient : string := "test".
Definition dpService : string := "dp".
Definition epService : string := "ep".
Definition rsService : string := "rs".
Definition schedService : string := "sched".
Definition dialTimeout : duration := 5 * Second.
Definition dialInterval : duration := 1 * Second.

(** * Handshakes *)

(** The exchange after the checks: [epoch] is that of the new request,
    [Handshake] the RPC, which answers with an epoch. *)
Definition exchange_epoch (epoch : string) (Handshake : string -> res string) : res string :=
  respEpoch ← Handshake epoch;
  if decide (epoch = respEpoch) then Ok epoch
  else Err ("epoch mismatch: expected " +:+ epoch +:+ ", got " +:+ respEpoch).

Definition do_handshake (service src dest epoch : string) (Handshake : string -> res string) : res string :=
  if negb (bool_decide (src = testClient))
  then Panic ("invalid source: expected " +:+ testClient +:+ ", got " +:+ src)
  else if negb (bool_decide (dest = service))
  then Panic ("invalid destination: expected " +:+ service +:+ ", got " +:+ dest)
  else exchange_epoch epoch Handshake.
Definition doDeploymentHandshake := do_handshake dpService.
Definition doAutoscalerHandshake := do_handshake dpService.
Definition doEndpointsHandshake := do_handshake epService.
Definition doReplicaSetHandshake := do_handshake rsService.
Definition doSchedulerHandshake := do_handshake schedService.

(** The kubelet benchmark names its client after the node. *)
Definition kdClientKeyFunc (nodeName : string) : string := testClient +:+ "/" +:+ nodeName.
Definition doKubeletHandshake (src dest epoch : string) (Handshake : string -> res string) : res string :=
  if negb (bool_decide (src = kdClientKeyFunc dest))
  then Panic ("invalid source: expected " +:+ kdClientKeyFunc dest +:+ ", got " +:+ src)
  else exchange_epoch epoch Handshake.

Section Drivers.
Context `{!Kubedirect} `{!Poller}.

(** * Address listers *)

(** The ready pods of the component, each with the service's port. *)
Definition service_lister (port : string) (pods : res (list Pod)) : res (list string) :=
  items ← pods;
  Ok ((fun pod => PodIP (Status pod) +:+ port) <$> (filter (fun pod => IsPodReady pod = true) items : list Pod)).
Definition newDeploymentServiceLister := service_lister DeploymentServicePort.
Definition newAutoscalerServiceLister := service_lister DeploymentServicePort.
Definition newEndpointsServiceLister := service_lister EndpointsServicePort.
Definition newReplicaSetServiceLister := service_lister ReplicaSetServicePort.
Definition newSchedulerLister := service_lister SchedulerServicePort.

(** A node: its addresses with their types, and what
    [GetKubeletServiceOverrideAddr] says of it. *)
Record Node := mkNode {
  Addresses : list (string * string);
  overrideAddr : string;
  mustOverride : bool
}.
Definition newKubeletLister (nodeName : string) (requireAddrAnnotation : bool) (node : res Node) : res (list string) :=
  node ← node;
  if negb (bool_decide (overrideAddr node = "")) then Ok [overrideAddr node]
  else if mustOverride node || requireAddrAnnotation
  then Fatal ("Missing Kubelet service address annotation on node " +:+ nodeName)
  else Ok ((fun a => snd a +:+ KubeletServicePort) <$>
           (filter (fun a => fst a = "InternalIP") (Addresses node) : list (string * string))).

(** * Drivers *)
Record ClientInterface := mkClient { ID : string; Epoch : string }.

Definition listOpts (selector : string) : list ListOption :=
  MatchingLabels [("workload", selector)] :: CtrlListOptions.

(** The counter that goroutines add to atomically when their call succeeds, in
    the order in which they finish. *)
Definition atomic_count (finished : list (res unit)) : Z :=
  foldl (fun n r => if is_ok r then int32 (n + 1) else n) 0 finished.

(** A loop whose body only checks. *)
Definition check_all {A} (f : A -> res unit) (l : list A) : res unit := res_foldl (fun _ a => f a) tt l.

(** What happens when a driver waits for its goroutines, of which it starts
    one per target: the outcome of the call of each; whether the context is
    cancelled then; and the clock.  The wait ends when all of them are done, so
    that [n] goroutines give [n] results; the order in which they finish does
    not matter ([atomic_count_order]). *)
Record waited := mkWaited { outcome : nat -> res unit; ctx_done : bool; finished_at : time }.
Definition results (w : waited) (n : nat) : list (res unit) := outcome w <$> seq 0 n.

(** ** The deployment controller *)
Record WatchRequest := mkWatch {
  Source : string;
  watch_Epoch : string;
  Target : NamespacedName;
  Replicas : option Z      (* of deployments *)
}.
Definition newDeploymentWatchRequest (client : ClientInterface) (dp : Object) (replicas : Z) : WatchRequest :=
  mkWatch (ID client) (Epoch client) (mkNamespacedName (obj_namespace dp) (obj_name dp)) (Some (int32 replicas)).

Record dp_env := mkDpEnv {
  dp_List : list ListOption -> res (list Object);
  dp_ReplicaSets : list (list ListOption -> res (list (Object * bool)));   (* one answer per attempt *)
  dp_client : option ClientInterface;     (* nil if the context ended the polling *)
  dp_start : time;
  dp_scaled : waited;
  dp_watched : waited;
  dp_total : time
}.
Record dp_result := mkDpResult {
  dp_watches : list WatchRequest;
  dp_scales : list (Object * Z);
  dp_out : list report
}.

(** Both deployments and autoscaler drivers. *)
Definition deployment_run (e : dp_env) (selector : string) (nPods : Z) (fallback : bool) : res dp_result :=
  targets ← or_fatal "Error listing scaling targets: " (dp_List e (listOpts selector));
  if decide (targets = []) then Fatal "No scaling targets selected" else
  check_all (fun dp =>
    if negb (Bool.eqb fallback (negb (IsManaged dp)))
    then Fatal "Deployment must not be managed in fallback mode and vice versa" else Ok tt) targets ≫= fun _ =>
  or_fatal "Error waiting for ReplicaSets: "
    (PollUntilContextCancel ((fun rs => waitForReplicaSets (rs (listOpts selector)) (length targets)) <$> dp_ReplicaSets e))
    ≫= fun _ =>
  let nPodsPerTarget := pods_per_target nPods (length targets) in
  match dp_client e with
  | None => Panic nil_dereference
  | Some kdClient =>
      let watches := (fun dp => newDeploymentWatchRequest kdClient dp nPodsPerTarget) <$> targets in
      let scales := (fun target => (target, int32 nPodsPerTarget)) <$> targets in
      let n := Z.of_nat (length targets) in
      let since t := time_sub t (dp_start e) in
      if ctx_done (dp_scaled e) then Ok (mkDpResult watches scales [])
      else
        let scaled := TargetsScaled (atomic_count (results (dp_scaled e) (length targets))) n (since (finished_at (dp_scaled e))) in
        if ctx_done (dp_watched e) then Ok (mkDpResult watches scales [scaled])
        else Ok (mkDpResult watches scales
          [scaled; RPCReturned (atomic_count (results (dp_watched e) (length targets))) n (since (finished_at (dp_watched e)));
           TotalTime (dur_microseconds (since (dp_total e)))])
  end.
Definition autoscaler_run := deployment_run.

(** ** The endpoints controller *)
Record ReplicaSet := mkReplicaSet { rs_object : Object; rs_Replicas : option Z; rs_ReadyReplicas : Z }.

Definition newEndpointsWatchRequest (client : ClientInterface) (service : Object) : WatchRequest :=
  mkWatch (ID client) (Epoch client) (mkNamespacedName (obj_namespace service) (obj_name service)) None.

Definition checkMetadata (fallback : bool) (obj : Object) : res unit :=
  if negb (bool_decide (label obj "app" = obj_name obj))
  then Fatal ("ReplicaSet " +:+ quote +:+ "app" +:+ quote +:+ " label must match name: expected " +:+ obj_name obj +:+ ", got " +:+ label obj "app")
  else if negb (Bool.eqb fallback (negb (IsManaged obj)))
  then Fatal "ReplicaSet should set fallback label if and only if in fallback mode"
  else Ok tt.

Record ep_env := mkEpEnv {
  ep_List : list ListOption -> res (list Object);
  ep_Get : Object -> res ReplicaSet;                  (* the ReplicaSet of the service's name *)
  ep_Scale : Object -> Z -> res unit;
  ep_ReplicaSets : list (list ListOption -> res (list ReplicaSet));
  ep_client : option ClientInterface;
  ep_start : time;
  ep_updated : waited;
  ep_watched : waited;
  ep_total : time
}.
Record ep_result := mkEpResult {
  ep_scales : list (Object * Z);
  ep_watches : list WatchRequest;
  ep_selectors : list (Object * list (string * string));   (* services with their new selectors *)
  ep_out : list report
}.

(** The loop that finds the ReplicaSet of each service. *)
Definition matching_replica_set (e : ep_env) (fallback : bool) (replicaSets : list ReplicaSet) (svc : Object)
  : res (list ReplicaSet) :=
  checkMetadata fallback svc ≫= fun _ =>
  rs ← or_fatal ("Error getting matching ReplicaSet for Service " +:+ obj_namespace svc +:+ "/" +:+ obj_name svc +:+ ": ")
         (ep_Get e svc);
  checkMetadata fallback (rs_object rs) ≫= fun _ =>
  match rs_Replicas rs with
  | None => Panic nil_dereference
  | Some n =>
      if negb (n =? 0)
      then Fatal ("ReplicaSet " +:+ obj_namespace (rs_object rs) +:+ "/" +:+ obj_name (rs_object rs) +:+
                  " has non-zero initial replicas")
      else Ok (replicaSets ++ [rs])
  end.

Definition waitForReadyPods (rsList : res (list ReplicaSet)) (nPodsPerTarget : Z) : res bool :=
  match rsList with
  | Ok items => Ok (forallb (fun rs => rs_ReadyReplicas rs =? int32 nPodsPerTarget) items)
  | Err m => Fatal ("Error listing ReplicaSets: " +:+ m)
  | Panic m => Panic m
  | Fatal m => Fatal m
  end.

Definition endpoints_run (e : ep_env) (selector : string) (nPods : Z) (fallback : bool) : res ep_result :=
  services ← or_fatal "Error listing Services: " (ep_List e (listOpts selector));
  if decide (services = []) then Fatal "No Service selected" else
  replicaSets ← res_foldl (matching_replica_set e fallback) [] services;
  let nPodsPerTarget := pods_per_target nPods (length services) in
  check_all (fun rs => or_fatal ("Error scaling up " +:+ obj_namespace (rs_object rs) +:+ "/" +:+
                                 obj_name (rs_object rs) +:+ ": ")
                         (ep_Scale e (rs_object rs) (int32 nPodsPerTarget))) replicaSets ≫= fun _ =>
  or_fatal "Error waiting for ready pods: "
    (PollUntilContextCancel ((fun rs => waitForReadyPods (rs (listOpts selector)) nPodsPerTarget) <$> ep_ReplicaSets e))
    ≫= fun _ =>
  match ep_client e with
  | None => Panic nil_dereference
  | Some kdClient =>
      let scales := (fun rs => (rs_object rs, int32 nPodsPerTarget)) <$> replicaSets in
      let watches := newEndpointsWatchRequest kdClient <$> services in
      let selectors := (fun svc => (svc, [("app", obj_name svc); ("workload", selector)])) <$> services in
      let n := Z.of_nat (length services) in
      let since t := time_sub t (ep_start e) in
      if ctx_done (ep_updated e) then Ok (mkEpResult scales watches selectors [])
      else
        let updated := TargetsScaled (atomic_count (results (ep_updated e) (length services))) n (since (finished_at (ep_updated e))) in
        if ctx_done (ep_watched e) then Ok (mkEpResult scales watches selectors [updated])
        else Ok (mkEpResult scales watches selectors
          [updated; RPCReturned (atomic_count (results (ep_watched e) (length services))) n (since (finished_at (ep_watched e)));
           TotalTime (dur_microseconds (since (ep_total e)))])
  end.

(** ** The ReplicaSet controller *)
Record rs_env := mkRsEnv {
  rs_List : list ListOption -> res (list ReplicaSet);
  rs_client : option ClientInterface;
  rs_start : time;
  rs_scaled : waited;
  rs_total : time
}.
(** The scaling requests: the ReplicaSet with its new scale, and whether the
    request blocks. *)
Record rs_result := mkRsResult { rs_requests : list (ReplicaSet * bool); rs_out : list report }.

Definition set_replicas (n : Z) (rs : ReplicaSet) : res ReplicaSet :=
  match rs_Replicas rs with
  | None => Panic nil_dereference
  | Some _ => Ok (mkReplicaSet (rs_object rs) (Some n) (rs_ReadyReplicas rs))
  end.

Definition replicaset_run (e : rs_env) (selector : string) (nPods : Z) (fallback : bool) : res rs_result :=
  targets ← or_fatal "Error listing scaling targets: " (rs_List e (listOpts selector));
  if decide (targets = []) then Fatal "No scaling targets selected" else
  check_all (fun rs =>
    if negb (IsManaged (rs_object rs)) then Fatal "ReplicaSet must be managed in this breakdown test"
    else if negb (Bool.eqb fallback (IsFallbackScaling (rs_object rs)))
    then Fatal "ReplicaSet should set fallback label if and only if in fallback mode" else Ok tt) targets ≫= fun _ =>
  let nPodsPerTarget := pods_per_target nPods (length targets) in
  targets ← res_foldl (fun done rs => rs ← set_replicas (int32 nPodsPerTarget) rs; Ok (done ++ [rs])) [] targets;
  match rs_client e with
  | None => Panic nil_dereference
  | Some _ =>
      let reqs := (fun rs => (rs, true)) <$> targets in
      if ctx_done (rs_scaled e) then Ok (mkRsResult reqs [])
      else Ok (mkRsResult reqs
        [RPCReturned (atomic_count (results (rs_scaled e) (length targets))) (Z.of_nat (length targets))
           (time_sub (finished_at (rs_scaled e)) (rs_start e));
         TotalTime (dur_microseconds (time_sub (rs_total e) (rs_start e)))])
  end.

(** ** The scheduler *)
Record sched_env := mkSchedEnv {
  sched_Get : string -> string -> res Pod;         (* namespace, name *)
  sched_client : option ClientInterface;
  sched_start : time;
  sched_rpc : res unit;
  sched_returned : time;
  sched_total : time
}.
(** The request names the fake ReplicaSet, the number of pods, and blocks. *)
Record sched_result := mkSchedResult { sched_request : NamespacedName * Z * bool; sched_out : list report }.

Definition check_template (target : string) (fallback : bool) (templatePod : Pod) : res unit :=
  let o := pod_object templatePod in
  if negb (IsTemplatePod o) then Fatal "Invalid template pod: missing template pod label"
  else if negb (bool_decide (label o OwnerNameLabel = target))
  then Fatal ("Invalid owner label, expected " +:+ target +:+ ", got " +:+ label o OwnerNameLabel)
  else if negb (Bool.eqb fallback (IsFallbackBinding o))
  then Fatal "Invalid template pod: should set fallback binding label if and only if in fallback mode"
  else Ok tt.

Definition scheduler_run (e : sched_env) (target : string) (nPods : Z) (fallback : bool) : res sched_result :=
  templatePod ← or_fatal "Error getting template pod: " (sched_Get e "default" (target +:+ "-template"));
  check_template target fallback templatePod ≫= fun _ =>
  match sched_client e with
  | None => Panic nil_dereference
  | Some _ =>
      let req := (mkNamespacedName (pod_Namespace templatePod) target, nPods, true) in
      match sched_rpc e with
      | Ok _ => Ok (mkSchedResult req
          [RPCReturnedIn (time_sub (sched_returned e) (sched_start e));
           TotalTime (dur_microseconds (time_sub (sched_total e) (sched_start e)))])
      | Err _ => Ok (mkSchedResult req [])      (* logged only *)
      | Panic m => Panic m
      | Fatal m => Fatal m
      end
  end.
End Drivers.

(** * Command lines: the flags after parsing, and the driver *)
Definition by_baseline {A} (whenTrue whenFalse baseline : string) (run : bool -> res A) : res A :=
  if decide (baseline = whenTrue) then run true
  else if decide (baseline = whenFalse) then run false
  else Fatal ("unknown baseline " +:+ baseline).
Definition controller_main {A} (missing baseline target : string) (run : bool -> res A) : res A :=
  if decide (target = "") then Fatal missing else by_baseline "k8s" "kd" baseline run.
Definition autoscaler_main {A} := @controller_main A "must specify workload selector".
Definition deployment_main {A} := @controller_main A "must specify workload selector".
Definition endpoints_main {A} := @controller_main A "must specify workload selector".
Definition replicaset_main {A} := @controller_main A "must specify workload selector".
Definition scheduler_main {A} := @controller_main A "must specify target ReplicaSet".
Definition kubelet_main {A} (baseline target node : string) (run : bool -> res A) : res A :=
  if decide (target = "") then Fatal "must specify target ReplicaSet"
  else if decide (node = "") then Fatal "must specify target node"
  else by_baseline "kubelet" "custom" baseline run.
Definition e2e_main {A} (baseline selector : string) (run : res A) : res A :=
  if decide (selector = "") then Fatal "must specify workload selector"
  else if decide (baseline ∈ ["k8s"; "k8s+"; "kd"; "kd+"]) then run
  else Fatal ("unknown baseline " +:+ baseline).

(** * Properties *)
Lemma exchange_epoch_ok epoch H e : exchange_epoch epoch H = Ok e <-> H epoch = Ok epoch /\ e = epoch.
Proof.
  unfold exchange_epoch. destruct (H epoch) as [a|m|m|m]; simpl; [|naive_solver..]. case_decide; naive_solver.
Qed.

(** A handshake succeeds exactly when it is between the test client and
    the measured component and the answer echoes the epoch of the request,
    which it then returns: an answer with another epoch is an error, a failed
    call its own error, and wrong names panic before anything is sent. *)
Theorem handshake_echoes_epoch service src dest epoch H e :
  (do_handshake service src dest epoch H = Ok e <->
     src = testClient /\ dest = service /\ H epoch = Ok epoch /\ e = epoch) /\
  (doKubeletHandshake src dest epoch H = Ok e <->
     src = testClient +:+ "/" +:+ dest /\ H epoch = Ok epoch /\ e = epoch) /\
  (is_ok (H epoch) = true -> H epoch <> Ok epoch -> src = testClient -> dest = service ->
     exists m, do_handshake service src dest epoch H = Err m) /\
  (forall H', src <> testClient \/ dest <> service ->
     exists m, do_handshake service src dest epoch H = Panic m /\ do_handshake service src dest epoch H' = Panic m).
Proof.
  unfold do_handshake, doKubeletHandshake, kdClientKeyFunc. split; [|split; [|split]].
  - case_bool_decide; simpl; [|naive_solver]. case_bool_decide; simpl; [|naive_solver].
    rewrite exchange_epoch_ok. naive_solver.
  - case_bool_decide; simpl; [|naive_solver]. rewrite exchange_epoch_ok. naive_solver.
  - intros Ho Hn -> ->. rewrite !bool_decide_eq_true_2 by done. simpl. unfold exchange_epoch.
    destruct (H epoch) as [a|m|m|m]; try done. simpl. rewrite decide_False by congruence. eauto.
  - intros H' Hw. case_bool_decide; simpl; [|eauto]. case_bool_decide; simpl; [|eauto]. naive_solver.
Qed.

Definition successes (l : list (res unit)) : Z := Z.of_nat (length (filter (fun r => is_ok r = true) l)).

Lemma successes_snoc l r : successes (l ++ [r]) = successes l + (if is_ok r then 1 else 0).
Proof.
  unfold successes. rewrite filter_app, length_app. destruct (is_ok r) eqn:E.
  - rewrite filter_cons_True by done. rewrite filter_nil. simpl. lia.
  - rewrite filter_cons_False by congruence. rewrite filter_nil. simpl. lia.
Qed.
Lemma successes_le l : 0 <= successes l <= Z.of_nat (length l).
Proof. unfold successes. pose proof (length_filter (fun r => is_ok r = true) l). lia. Qed.
Lemma successes_all l : successes l = Z.of_nat (length l) <-> Forall (fun r => is_ok r = true) l.
Proof.
  induction l as [|r l IH] using rev_ind; [done|].
  rewrite successes_snoc, length_app, Forall_app, Forall_singleton, <- IH. pose proof (successes_le l).
  destruct (is_ok r); simpl; split; intros; try (destruct_and?; congruence); try lia; split; (lia || done).
Qed.
Lemma atomic_count_successes l : Z.of_nat (length l) < 2 ^ 31 -> atomic_count l = successes l.
Proof.
  induction l as [|r l IH] using rev_ind; intros Hb; [done|]. rewrite length_app in Hb. simpl in Hb.
  unfold atomic_count in *. rewrite foldl_app, IH, successes_snoc by lia. simpl. pose proof (successes_le l).
  destruct (is_ok r); [rewrite int32_id by lia; done|lia].
Qed.

Lemma check_all_ok {A} (f : A -> res unit) l u : check_all f l = Ok u -> Forall (fun a => is_ok (f a) = true) l.
Proof.
  unfold check_all. revert u. induction l as [|a l IH] using rev_ind; intros u Hc; [constructor|].
  rewrite res_foldl_app in Hc. apply res_bind_ok in Hc as (u' & Hc & Hl). simpl in Hl.
  rewrite Forall_app, Forall_singleton. split; [by eapply IH|]. by destruct (f a).
Qed.

(** The counter does not depend on the order in which the goroutines finish. *)
Lemma atomic_count_order l l' : l ≡ₚ l' -> atomic_count l = atomic_count l'.
Proof.
  unfold atomic_count. generalize 0. intros n Hp. revert n.
  induction Hp as [|r l l' _ IH|r r' l|l l1 l2 _ IH1 _ IH2]; intros n; simpl; [done|apply IH| |by rewrite IH1].
  f_equal. by destruct (is_ok r), (is_ok r').
Qed.

(** What a driver reports when it has waited for the goroutines of [n]
    targets. *)
Definition counted (w : waited) (n : nat) (k : Z) : Prop :=
  Z.of_nat n < 2 ^ 31 ->
  0 <= k <= Z.of_nat n /\ k = successes (results w n) /\
  (k = Z.of_nat n <-> forall i, (i < n)%nat -> is_ok (outcome w i) = true) /\
  (forall finished, finished ≡ₚ results w n -> atomic_count finished = k).
Lemma atomic_count_counted w n : counted w n (atomic_count (results w n)).
Proof.
  intros Hn. assert (length (results w n) = n) as Hl by (unfold results; by rewrite length_fmap, length_seq).
  rewrite atomic_count_successes by lia. pose proof (successes_le (results w n)) as Hle. rewrite Hl in Hle.
  split; [lia|]. split; [done|]. split.
  - rewrite <- Hl at 2. rewrite successes_all. unfold results. rewrite Forall_fmap, Forall_seq. simpl.
    split; intros H i Hi; apply H; lia.
  - intros l Hp. rewrite (atomic_count_order _ _ Hp). apply atomic_count_successes. lia.
Qed.

Section Drivers.
Context `{!Kubedirect} `{!Poller}.

Lemma replicas_set n l l' : res_foldl (fun done rs => rs ← set_replicas n rs; Ok (done ++ [rs])) [] l = Ok l' ->
  rs_object <$> l' = rs_object <$> l /\ Forall (fun rs => rs_Replicas rs = Some n) l'.
Proof.
  revert l'. induction l as [|rs l IH] using rev_ind; intros l' Hl; [by simplify_eq/=|].
  rewrite res_foldl_app in Hl. apply res_bind_ok in Hl as (l1 & H1 & H2). simpl in H2.
  unfold set_replicas in H2. destruct (rs_Replicas rs); simplify_eq/=. destruct (IH l1 H1) as [E1 E2].
  rewrite !fmap_app, E1, Forall_app, Forall_singleton. done.
Qed.

(** A service and its ReplicaSet are fit for the endpoints benchmark. *)
Definition fit (fallback : bool) (obj : Object) : Prop :=
  label obj "app" = obj_name obj /\ IsManaged obj = negb fallback.
Lemma checkMetadata_ok fallback obj u : checkMetadata fallback obj = Ok u -> fit fallback obj.
Proof.
  unfold checkMetadata, fit. case_bool_decide; simpl; [|done].
  by destruct fallback, (IsManaged obj).
Qed.

Lemma matching_sets e fallback services l :
  res_foldl (matching_replica_set e fallback) [] services = Ok l ->
  Forall2 (fun svc rs => ep_Get e svc = Ok rs /\ fit fallback svc /\ fit fallback (rs_object rs) /\
             rs_Replicas rs = Some 0) services l.
Proof.
  revert l. induction services as [|svc services IH] using rev_ind; intros l Hl; [simplify_eq/=; constructor|].
  rewrite res_foldl_app in Hl. apply res_bind_ok in Hl as (l1 & H1 & H2). cbn [res_foldl] in H2.
  apply res_bind_ok in H2 as (l2 & H2 & [= <-]). unfold matching_replica_set in H2.
  apply res_bind_ok in H2 as (u & Hm & H2). apply res_bind_ok in H2 as (rs & Hg & H2).
  apply res_bind_ok in H2 as (u' & Hm' & H2). apply or_fatal_ok in Hg.
  destruct (rs_Replicas rs) as [n|] eqn:En; [|done]. destruct (Z.eqb_spec n 0); simplify_eq/=.
  apply Forall2_app; [by apply IH|]. constructor; [|constructor].
  split; [done|]. split; [by eapply checkMetadata_ok|]. split; [by eapply checkMetadata_ok|done].
Qed.

Lemma controller_main_ok {A} missing (run : bool -> res A) baseline selector r :
  controller_main missing baseline selector run = Ok r ->
  exists fallback : bool, baseline = (if fallback then "k8s" else "kd") /\ selector <> "" /\ run fallback = Ok r.
Proof.
  unfold controller_main, by_baseline. repeat case_decide; try done; intros Hr; [by exists true|by exists false].
Qed.

(** What each driver has checked and asked for when its run gives [r]. *)
Definition deployments_driven (e : dp_env) selector nPods (fallback : bool) r : Prop :=
  exists targets client,
    dp_List e (listOpts selector) = Ok targets /\ targets <> [] /\
    Forall (fun dp => IsManaged dp = negb fallback) targets /\
    let n := length targets in
    dp_watches r = (fun dp => newDeploymentWatchRequest client dp (pods_per_target nPods (length targets))) <$> targets /\
    dp_scales r = (fun dp => (dp, int32 (pods_per_target nPods (length targets)))) <$> targets /\
    (ctx_done (dp_scaled e) = false -> ctx_done (dp_watched e) = false ->
     exists k1 k2 d1 d2 us, dp_out r = [TargetsScaled k1 (Z.of_nat n) d1; RPCReturned k2 (Z.of_nat n) d2; TotalTime us] /\
       counted (dp_scaled e) n k1 /\ counted (dp_watched e) n k2).
Definition replicasets_driven (e : rs_env) selector nPods (fallback : bool) r : Prop :=
  exists targets,
    rs_List e (listOpts selector) = Ok targets /\ targets <> [] /\
    Forall (fun rs => IsManaged (rs_object rs) = true /\ IsFallbackScaling (rs_object rs) = fallback) targets /\
    let n := length targets in
    (fun x => rs_object (fst x)) <$> rs_requests r = rs_object <$> targets /\
    Forall (fun x => rs_Replicas (fst x) = Some (int32 (pods_per_target nPods (length targets))) /\ snd x = true)
      (rs_requests r) /\
    (ctx_done (rs_scaled e) = false ->
     exists k d us, rs_out r = [RPCReturned k (Z.of_nat n) d; TotalTime us] /\ counted (rs_scaled e) n k).
Definition services_driven (e : ep_env) selector nPods (fallback : bool) r : Prop :=
  exists services replicaSets client,
    ep_List e (listOpts selector) = Ok services /\ services <> [] /\
    Forall2 (fun svc rs => ep_Get e svc = Ok rs /\ fit fallback svc /\ fit fallback (rs_object rs) /\
               rs_Replicas rs = Some 0) services replicaSets /\
    let n := length services in
    let per := int32 (pods_per_target nPods (length services)) in
    Forall (fun rs => is_ok (ep_Scale e (rs_object rs) per) = true) replicaSets /\
    ep_scales r = (fun rs => (rs_object rs, per)) <$> replicaSets /\
    ep_watches r = newEndpointsWatchRequest client <$> services /\
    ep_selectors r = (fun svc => (svc, [("app", label svc "app"); ("workload", selector)])) <$> services /\
    (ctx_done (ep_updated e) = false -> ctx_done (ep_watched e) = false ->
     exists k1 k2 d1 d2 us, ep_out r = [TargetsScaled k1 (Z.of_nat n) d1; RPCReturned k2 (Z.of_nat n) d2; TotalTime us] /\
       counted (ep_updated e) n k1 /\ counted (ep_watched e) n k2).
Definition scheduler_driven (e : sched_env) target nPods (fallback : bool) r : Prop :=
  exists templatePod,
    sched_Get e "default" (target +:+ "-template") = Ok templatePod /\
    IsTemplatePod (pod_object templatePod) = true /\ label (pod_object templatePod) OwnerNameLabel = target /\
    IsFallbackBinding (pod_object templatePod) = fallback /\ sched_client e <> None /\
    sched_request r = (mkNamespacedName (pod_Namespace templatePod) target, nPods, true) /\
    sched_out r =
      if is_ok (sched_rpc e)
      then [RPCReturnedIn (time_sub (sched_returned e) (sched_start e));
            TotalTime (dur_microseconds (time_sub (sched_total e) (sched_start e)))]
      else [].

Lemma deployment_run_drives e selector nPods fallback r :
  deployment_run e selector nPods fallback = Ok r -> deployments_driven e selector nPods fallback r.
Proof.
  unfold deployment_run. intros Hr. apply res_bind_ok in Hr as (targets & Hl & Hr). apply or_fatal_ok in Hl.
  case_decide as Hne; [done|]. apply res_bind_ok in Hr as (u & Hc & Hr). apply res_bind_ok in Hr as (u' & _ & Hr).
  destruct (dp_client e) as [client|] eqn:Hcl; [|done]. exists targets, client.
  apply check_all_ok in Hc. split; [done|]. split; [done|]. split.
  { eapply Forall_impl; [exact Hc|]. intros dp. cbn beta. by destruct fallback, (IsManaged dp). }
  destruct (ctx_done (dp_scaled e)); simplify_eq/=; [done|].
  destruct (ctx_done (dp_watched e)); simplify_eq/=; [done|]. split; [done|]. split; [done|]. intros _ _.
  eexists _, _, _, _, _. split; [done|]. split; apply atomic_count_counted.
Qed.

Lemma replicaset_run_drives e selector nPods fallback r :
  replicaset_run e selector nPods fallback = Ok r -> replicasets_driven e selector nPods fallback r.
Proof.
  unfold replicaset_run. intros Hr. apply res_bind_ok in Hr as (targets & Hl & Hr). apply or_fatal_ok in Hl.
  case_decide as Hne; [done|]. apply res_bind_ok in Hr as (u & Hc & Hr). apply res_bind_ok in Hr as (set & Hset & Hr).
  apply check_all_ok in Hc. apply replicas_set in Hset as [Ho Hrep].
  destruct (rs_client e) as [client|] eqn:Hcl; [|done]. exists targets.
  split; [done|]. split; [done|]. split.
  { eapply Forall_impl; [exact Hc|]. intros rs. cbn beta.
    by destruct fallback, (IsManaged (rs_object rs)), (IsFallbackScaling (rs_object rs)). }
  assert (length set = length targets) as Hlen by (by rewrite <- (length_fmap rs_object set), Ho, length_fmap).
  assert ((fun x => rs_object (fst x)) <$> ((fun rs => (rs, true)) <$> set) = rs_object <$> targets) as H1
    by (by rewrite <- list_fmap_compose, <- Ho).
  assert (Forall (fun x => rs_Replicas (fst x) = Some (int32 (pods_per_target nPods (length targets))) /\ snd x = true)
    ((fun rs => (rs, true)) <$> set)) as H2.
  { rewrite Forall_fmap. eapply Forall_impl; [exact Hrep|]. by intros rs E. }
  destruct (ctx_done (rs_scaled e)); injection Hr as <-; (split; [exact H1|split; [exact H2|]]); [done|].
  intros _. cbn [rs_out]. rewrite Hlen. eexists _, _, _. split; [reflexivity|]. apply atomic_count_counted.
Qed.

Lemma endpoints_run_drives e selector nPods fallback r :
  endpoints_run e selector nPods fallback = Ok r -> services_driven e selector nPods fallback r.
Proof.
  unfold endpoints_run. intros Hr. apply res_bind_ok in Hr as (services & Hl & Hr). apply or_fatal_ok in Hl.
  case_decide as Hne; [done|]. apply res_bind_ok in Hr as (replicaSets & Hm & Hr). apply matching_sets in Hm.
  apply res_bind_ok in Hr as (u & Hc & Hr). apply check_all_ok in Hc. apply res_bind_ok in Hr as (u' & _ & Hr).
  destruct (ep_client e) as [client|] eqn:Hcl; [|done]. exists services, replicaSets, client.
  repeat (split; [done|]).
  assert ((fun svc => (svc, [("app", obj_name svc); ("workload", selector)])) <$> services =
          (fun svc => (svc, [("app", label svc "app"); ("workload", selector)])) <$> services) as Hsels.
  { clear Hl Hne Hr Hc. induction Hm as [|svc rs services l (_ & [E _] & _) _ IH]; [done|]. simpl. rewrite E. f_equal. exact IH. }
  cbv zeta in Hr. rewrite Hsels in Hr. split.
  { eapply Forall_impl; [exact Hc|]. intros rs. cbn beta. by destruct (ep_Scale e _ _). }
  destruct (ctx_done (ep_updated e)); [by simplify_eq/=|].
  destruct (ctx_done (ep_watched e)); [by simplify_eq/=|]. injection Hr as <-. split; [done|]. split; [done|].
  split; [done|]. intros _ _. eexists _, _, _, _, _. split; [reflexivity|]. split; apply atomic_count_counted.
Qed.

Lemma scheduler_run_drives e target nPods fallback r :
  scheduler_run e target nPods fallback = Ok r -> scheduler_driven e target nPods fallback r.
Proof.
  unfold scheduler_run. intros Hr. apply res_bind_ok in Hr as (pod & Hg & Hr). apply or_fatal_ok in Hg.
  apply res_bind_ok in Hr as (u & Hc & Hr). exists pod. split; [done|]. unfold check_template in Hc.
  destruct (IsTemplatePod (pod_object pod)); [|done]. simpl in Hc. case_bool_decide as Ho; [|done]. simpl in Hc.
  split; [done|]. split; [done|]. split; [by destruct fallback, (IsFallbackBinding (pod_object pod))|].
  destruct (sched_client e); [|done]. by destruct (sched_rpc e); simplify_eq/=.
Qed.

(** C36. The breakdown drivers of the controllers send requests only when what
    they measure is in the mode of the baseline.  Deployments (the driver of
    the deployment controller and of the autoscaler) are managed exactly in
    the kd baseline, and so are services and their ReplicaSets, which are
    named by their app label and start with no replica.  ReplicaSets must be
    managed in both baselines, although the comment of
    replicaset/main.go asks for no managed label in the k8s one, and have the
    fallback label exactly in the k8s one.  The scheduler's template pod is a
    template of the target and has the fallback binding label exactly in the
    k8s baseline.  Every target is asked for the same number of pods, and the
    requests to ReplicaSets and to the scheduler block.  A run that is not
    cancelled prints for each phase how many of its calls, one per target,
    succeeded, which is all of them exactly when none failed, in whatever
    order they returned; the scheduler's prints the two times exactly when its
    one call succeeds and nothing otherwise. *)
Theorem drivers_check_and_count selector nPods baseline :
  (forall e r, deployment_main baseline selector (deployment_run e selector nPods) = Ok r ->
     exists fallback : bool, baseline = (if fallback then "k8s" else "kd") /\ selector <> "" /\
       deployments_driven e selector nPods fallback r) /\
  (forall e r, replicaset_main baseline selector (replicaset_run e selector nPods) = Ok r ->
     exists fallback : bool, baseline = (if fallback then "k8s" else "kd") /\ selector <> "" /\
       replicasets_driven e selector nPods fallback r) /\
  (forall e r, endpoints_main baseline selector (endpoints_run e selector nPods) = Ok r ->
     exists fallback : bool, baseline = (if fallback then "k8s" else "kd") /\ selector <> "" /\
       services_driven e selector nPods fallback r) /\
  (forall e target r, scheduler_main baseline target (scheduler_run e target nPods) = Ok r ->
     exists fallback : bool, baseline = (if fallback then "k8s" else "kd") /\ target <> "" /\
       scheduler_driven e target nPods fallback r).
Proof.
  split; [|split; [|split]]; [intros e r Hr..|intros e target r Hr]; apply controller_main_ok in Hr as (fallback & Hb & Hsel & Hr);
    exists fallback; (split; [done|split; [done|]]).
  - by apply deployment_run_drives.
  - by apply replicaset_run_drives.
  - by apply endpoints_run_drives.
  - by apply scheduler_run_drives.
Qed.
End Drivers.

(** * The theorems at concrete inputs *)
Module Demo.
#[local] Existing Instance Kube.Demo.kubedirect.

Lemma handshake_echoes_epoch_witness :
  exists m, doSchedulerHandshake "test" "sched" "e1" (fun _ => Ok "e0") = Err m.
Proof.
  refine (proj1 (proj2 (proj2 (handshake_echoes_epoch schedService "test" "sched" "e1" (fun _ => Ok "e0") "e1"))) _ _ _ _);
    [reflexivity|discriminate|reflexivity|reflexivity].
Defined.

(** Two managed deployments in the kd baseline, one of which fails to scale. *)
Definition managed (name : string) : Object :=
  mkObject "default" name {["app" := name; "workload" := "test"; "kubedirect/managed" := "true"]}.
Definition demo_env : dp_env :=
  mkDpEnv (fun _ => Ok [managed "a"; managed "b"]) [fun _ => Ok [(managed "a", true); (managed "b", true)]]
    (Some (mkClient "test" "e1")) 100 (mkWaited (fun i => if decide (i = 0%nat) then Err "conflict" else Ok tt) false 110) (mkWaited (fun _ => Ok tt) false 120) 5000100.
Definition demo_out : dp_result :=
  mkDpResult [mkWatch "test" "e1" (mkNamespacedName "default" "a") (Some 2); mkWatch "test" "e1" (mkNamespacedName "default" "b") (Some 2)]
    [(managed "a", 2); (managed "b", 2)] [TargetsScaled 1 2 10; RPCReturned 2 2 20; TotalTime 5000].

Lemma drivers_check_and_count_witness :
  deployment_main "kd" "test" (deployment_run demo_env "test" 5) = Ok demo_out /\
  exists targets : list Object, Forall (fun dp => IsManaged dp = true) targets /\ length targets = 2%nat.
Proof.
  assert (deployment_main "kd" "test" (deployment_run demo_env "test" 5) = Ok demo_out) as Hr by (vm_compute; reflexivity).
  split; [exact Hr|].
  destruct (proj1 (drivers_check_and_count "test" 5 "kd") demo_env demo_out Hr)
    as (fallback & Hb & _ & targets & client & Hl & _ & Hm & _).
  exists targets. destruct fallback; [discriminate Hb|]. split; [exact Hm|]. injection Hl as <-. reflexivity.
Defined.
End Demo.
