(* ===== verification/TraceMain.v ===== *)
(** The trace experiment, experiments/trace/main.go: its flags and what they
    allow, the set-up of gateway and client, and the run of the whole process
    from the start of the client to its end: senders, gateway, the client's
    receiver and writer (Client.Start, recv and write of pkg/replay/client.go),
    and the main goroutine with its signal, its grace period and Close of
    pkg/gateway/interface.go. *)
From S2P Require Import Prelude F64 KdUtil Workload Handler Backend Metric Decider Scaler Autoscaler Dispatcher Ksvc Dispatch Gateway Pipeline Replay.
Import Selection Types Conversion.

(** * Flags and set-up *)
Record flags := mkFlags {
  gatewayFramework : string;
  backendFramework : string;
  autoscalerFramework : string;
  autoscalerConfig : string;
  traceLoaderConfig : string;
  outputPath : string;
  dispatchTimeoutSeconds : Z
}.
Definition default_flags : flags := mkFlags "k8s" "fake" "one-time" "" "config/loader.json" "trace.log" 15.

Definition validateFlags (f : flags) : res flags :=
  if decide (traceLoaderConfig f = "") then Panic "must provide workload config"
  else if decide (gatewayFramework f = "knative") then
    (* autoscaler options are ignored *)
    let f := mkFlags (gatewayFramework f) (backendFramework f) "" "" (traceLoaderConfig f) (outputPath f)
               (dispatchTimeoutSeconds f) in
    if decide (backendFramework f = "")
    then Ok (mkFlags (gatewayFramework f) "grpc" (autoscalerFramework f) (autoscalerConfig f) (traceLoaderConfig f)
               (outputPath f) (dispatchTimeoutSeconds f))
    else if decide (backendFramework f = "grpc") then Ok f
    else Fatal ("Only grpc backend is supported for knative gateway, got " +:+ backendFramework f)
  else if decide (gatewayFramework f = "k8s") then
    if negb (bool_decide (autoscalerFramework f = "one-time")) && bool_decide (autoscalerConfig f = "")
    then Fatal ("Must provide config for " +:+ autoscalerFramework f +:+ " autoscaler")
    else if decide (backendFramework f = "")
    then Ok (mkFlags (gatewayFramework f) "fake" (autoscalerFramework f) (autoscalerConfig f) (traceLoaderConfig f)
               (outputPath f) (dispatchTimeoutSeconds f))
    else if bool_decide (backendFramework f = "grpc") || bool_decide (backendFramework f = "fake") then Ok f
    else Fatal "Only fake/grpc backend is supported for k8s gateway"
  else Fatal ("Unknown gateway framework " +:+ gatewayFramework f).

Section SetUp.
(** The autoscaler's parts, the files, the trace loader, the connections and
    the cluster. *)
Context {B W Q M : Type} `{!TimedFloat64Buckets B} `{!TimeWindow W} `{!WorkQueue Q} `{!SharedMap executor_obj M}.
Context (emptyQueue : Q) (ReadFile : string -> res string) (Unmarshal : string -> res K8s.AutoscalerConfig)
  (load : string -> res (list TraceSpec)) (Create : string -> res unit) (GrpcNewClient : string -> res unit)
  (deployments : res (list Object)) (services : res (list (Object * string))).
Abbreviation k8sGateway := (K8s.k8sGateway (B := B) (W := W) (Q := Q) (M := M)).

Inductive gateway :=
| GKnative (g : KnativeGateway.knativeGateway)
| GK8s (g : k8sGateway).

Definition new_gateway (f : flags) : res gateway :=
  let dispatchTimeout := int64 (dispatchTimeoutSeconds f * Second) in
  if decide (gatewayFramework f = "knative") then Ok (GKnative (KnativeGateway.NewKnativeGateway dispatchTimeout))
  else if decide (gatewayFramework f = "k8s")
  then g ← K8s.NewK8sGateway ReadFile Unmarshal dispatchTimeout (autoscalerFramework f) (autoscalerConfig f); Ok (GK8s g)
  else Panic ("unknown gateway framework " +:+ gatewayFramework f).

Definition gateway_SetUpWithManager (vars : BackendVars) (g : gateway) : res gateway :=
  match g with
  | GKnative g => g ← KnativeGateway.SetUpWithManager vars GrpcNewClient services g; Ok (GKnative g)
  | GK8s g => g ← K8s.SetUpWithManager emptyQueue deployments g; Ok (GK8s g)
  end.

(** What [main] creates before the manager starts, from validated flags. *)
Definition create (f : flags) : res (flags * BackendVars * gateway * ReplayClient) :=
  let vars := Use (backendFramework f) initial_backend_vars in
  g ← or_fatal ("Unable to create " +:+ gatewayFramework f +:+ " gateway: ") (new_gateway f);
  g ← or_fatal ("Unable to setup " +:+ gatewayFramework f +:+ " gateway with manager: ") (gateway_SetUpWithManager vars g);
  client ← or_fatal "Unable to create client: " (NewClient load Create (traceLoaderConfig f) (outputPath f));
  client ← or_fatal "Unable to setup client with manager: " (Replay.SetupWithManager deployments client);
  Ok (f, vars, g, client).
Definition set_up (f : flags) : res (flags * BackendVars * gateway * ReplayClient) :=
  f ← validateFlags f; create f.

(** [main] from its first line to the start of the gateway: the working
    directory [baseDir], whether it has a data directory, the manager's
    creation, the error its [Start] has ended with, if any, and the answer of
    [WaitForCacheSync]. *)
Definition main_start (baseDir : string) (chdir : res unit) (data_dir : res bool) (f : flags) (newManager : res unit)
    (manager_end : option string) (synced : bool) : res (flags * BackendVars * gateway * ReplayClient) :=
  _ ← or_fatal ("Cannot enter " +:+ baseDir +:+ ": ") chdir;
  _ ← match data_dir with
      | Ok true => Ok tt
      | _ => Fatal (baseDir +:+ " contains no data dir, consider running download.sh first")
      end;
  f ← validateFlags f;
  _ ← newManager;
  x ← create f;
  match manager_end with
  | Some e => Fatal ("Unable to run manager: " +:+ e)
  | None => if synced then Ok x else Fatal "Unable to sync manager cache"
  end.

Lemma main_start_set_up baseDir chdir data_dir f newManager manager_end synced x :
  main_start baseDir chdir data_dir f newManager manager_end synced = Ok x ->
  set_up f = Ok x /\ is_ok chdir = true /\ data_dir = Ok true /\ is_ok newManager = true /\ manager_end = None /\ synced = true.
Proof.
  unfold main_start, set_up. intros H. apply res_bind_ok in H as ([] & H1 & H). apply or_fatal_ok in H1 as ->.
  apply res_bind_ok in H as ([] & H2 & H). apply res_bind_ok in H as (f' & -> & H). apply res_bind_ok in H as ([] & -> & H).
  apply res_bind_ok in H as (y & Hy & H). cbn [mbind res_bind]. rewrite Hy.
  destruct data_dir as [[]|?|?|?], manager_end, synced; by simplify_eq.
Qed.
End SetUp.

Definition accepted_flags (f : flags) : Prop :=
  traceLoaderConfig f <> "" /\
  (gatewayFramework f = "knative" /\ backendFramework f ∈ [""; "grpc"] \/
   gatewayFramework f = "k8s" /\ (autoscalerFramework f = "one-time" \/ autoscalerConfig f <> "") /\
     backendFramework f ∈ [""; "grpc"; "fake"]).

Lemma validateFlags_ok f f' : validateFlags f = Ok f' ->
  accepted_flags f /\ traceLoaderConfig f' = traceLoaderConfig f /\ gatewayFramework f' = gatewayFramework f /\
  (gatewayFramework f = "knative" ->
     backendFramework f' = "grpc" /\ autoscalerFramework f' = "" /\ autoscalerConfig f' = "") /\
  (gatewayFramework f = "k8s" ->
     backendFramework f' ∈ ["grpc"; "fake"] /\ autoscalerFramework f' = autoscalerFramework f /\
     autoscalerConfig f' = autoscalerConfig f).
Proof.
  destruct f as [gf bf af ac tl op dt]. unfold validateFlags, accepted_flags. cbn.
  destruct (decide (tl = "")) as [|Ht]; [done|]. destruct (decide (gf = "knative")) as [->|Hk].
  - destruct (decide (bf = "")) as [->|]; [|destruct (decide (bf = "grpc")) as [->|]; [|done]]; intros [= <-]; cbn; set_solver.
  - destruct (decide (gf = "k8s")) as [->|]; [|done].
    destruct (decide (af = "one-time")) as [Ha|Ha], (decide (ac = "")) as [Hc|Hc];
      rewrite ?(bool_decide_eq_true_2 _ Ha), ?(bool_decide_eq_false_2 _ Ha), ?(bool_decide_eq_true_2 _ Hc),
        ?(bool_decide_eq_false_2 _ Hc); cbn; try done;
      (destruct (decide (bf = "")) as [->|]; [intros [= <-]; cbn; set_solver|];
       destruct (decide (bf = "grpc")) as [->|]; [intros [= <-]; cbn; set_solver|];
       destruct (decide (bf = "fake")) as [->|]; [intros [= <-]; cbn; set_solver|];
       rewrite !bool_decide_eq_false_2 by done; done).
Qed.

Lemma accepted_validate f : accepted_flags f -> exists f', validateFlags f = Ok f'.
Proof.
  destruct f as [gf bf af ac tl op dt]. unfold validateFlags, accepted_flags. cbn.
  intros [Ht H]. rewrite (decide_False (P := tl = "")) by done. destruct H as [[-> Hb]|(-> & Ha & Hb)]; cbn.
  - set_unfold in Hb. destruct Hb as [->|[->|[]]]; by eexists.
  - rewrite (proj2 (andb_false_iff _ _)).
    + set_unfold in Hb. destruct Hb as [->|[->|[->|[]]]]; by eexists.
    + destruct Ha as [->|Ha]; [by left|right; by apply bool_decide_eq_false_2].
Qed.

Lemma validateFlags_idempotent f f' : validateFlags f = Ok f' -> validateFlags f' = Ok f'.
Proof.
  destruct f as [gf bf af ac tl op dt]. unfold validateFlags. cbn.
  destruct (decide (tl = "")) as [|Ht]; [done|]. destruct (decide (gf = "knative")) as [->|Hk].
  - destruct (decide (bf = "")) as [->|]; [|destruct (decide (bf = "grpc")) as [->|]; [|done]]; intros [= <-]; cbn;
      by rewrite (decide_False (P := tl = "")).
  - destruct (decide (gf = "k8s")) as [->|]; [|done].
    destruct (negb _ && _) eqn:E; [done|]. destruct (decide (bf = "")) as [->|Hb].
    + intros [= <-]. cbn. by rewrite (decide_False (P := tl = "")), E by done.
    + destruct (_ || _) eqn:Eb; [|done]. intros [= <-]. cbn.
      rewrite (decide_False (P := tl = "")), E, (decide_False (P := "k8s" = "knative")), (decide_True (P := "k8s" = "k8s")) by done.
      by rewrite (decide_False (P := bf = "")), Eb by done.
Qed.

Section FlagProperties.
Context {B W Q M : Type} `{!TimedFloat64Buckets B} `{!TimeWindow W} `{!WorkQueue Q} `{!SharedMap executor_obj M}.
Context (emptyQueue : Q) (ReadFile : string -> res string) (Unmarshal : string -> res K8s.AutoscalerConfig)
  (load : string -> res (list TraceSpec)) (Create : string -> res unit) (GrpcNewClient : string -> res unit)
  (services : res (list (Object * string))).
Abbreviation set_up := (set_up (B := B) (W := W) (M := M) emptyQueue ReadFile Unmarshal load Create GrpcNewClient).

(** C32. What the flags of the trace experiment allow.  [validateFlags]
    accepts exactly the flags with a loader configuration and, for the
    Knative gateway, the gRPC backend or none; for the Kubernetes gateway, a
    known backend or none and an autoscaler configuration unless the
    autoscaler is one-time.  On accepted flags the result has a backend for
    which no executor panics (unless a gRPC connection does), the autoscaler
    options are cleared for Knative and kept for Kubernetes, and a second
    validation changes nothing.  Two kinds of accepted flags do not work all
    the same: a one-time autoscaler without configuration, which is the
    default, makes the set-up dereference a nil pointer and panic; and with
    an autoscaler name that does not exist the gateway that is set up has no
    autoscaler, so that its callback panics on the first request. *)
Theorem trace_flags f :
  ((exists f', validateFlags f = Ok f') <-> accepted_flags f) /\
  (forall f', validateFlags f = Ok f' ->
     gatewayFramework f' = gatewayFramework f /\
     (forall endpoint, (forall m, GrpcNewClient endpoint <> Panic m) -> forall m,
        NewBackend (Use (backendFramework f') initial_backend_vars) GrpcNewClient endpoint <> Panic m) /\
     (if decide (gatewayFramework f = "knative")
      then autoscalerFramework f' = "" /\ autoscalerConfig f' = ""
      else autoscalerFramework f' = autoscalerFramework f /\ autoscalerConfig f' = autoscalerConfig f) /\
     validateFlags f' = Ok f') /\
  (accepted_flags f -> gatewayFramework f = "k8s" -> autoscalerFramework f = "one-time" -> autoscalerConfig f = "" ->
     forall targets, set_up (Ok targets) services f = Panic K8s.nil_dereference) /\
  (accepted_flags f -> gatewayFramework f = "k8s" -> ~ K8s.valid_framework (autoscalerFramework f) ->
     forall targets f' vars g client, set_up targets services f = Ok (f', vars, GK8s g, client) ->
       owner (K8s.impl g) = None /\
       forall now req, K8s.onReqIn now (owner (K8s.impl g)) req = Panic K8s.nil_dereference).
Proof.
  split; [|split; [|split]].
  - split; [intros [f' H]; by apply validateFlags_ok in H as [H _]|apply accepted_validate].
  - intros f' H. pose proof (validateFlags_ok f f' H) as ([Hl Ha] & Hl' & Hg & Hk & H8).
    split; [done|]. split; [|split].
    + intros endpoint Hc m. unfold NewBackend, Use. cbn [framework].
      assert (backendFramework f' ∈ ["grpc"; "fake"]) as Hb.
      { destruct Ha as [[E _]|[E _]]; [|by apply H8]. destruct (Hk E) as [-> _]. set_solver. }
      set_unfold in Hb. destruct Hb as [->|[->|[]]]; cbn; [|done]. unfold newGrpcBackend.
      destruct (GrpcNewClient endpoint) as [[]|?|?|e]; try done. intros [= ->]. by apply (Hc m).
    + case_decide as E; [by apply Hk|]. destruct Ha as [[? _]|[E' _]]; [done|]. by apply H8.
    + by apply (validateFlags_idempotent f).
  - intros Ha Hg Hf Hc targets. destruct (accepted_validate f Ha) as [f' H].
    pose proof (validateFlags_ok f f' H) as (_ & _ & Hg' & _ & H8). destruct (H8 Hg) as (_ & Hf' & Hc').
    unfold TraceMain.set_up, create. rewrite H. cbn [mbind res_bind]. unfold new_gateway.
    rewrite Hg', Hg, Hf', Hf, Hc', Hc. rewrite decide_False, decide_True by done.
    unfold K8s.NewK8sGateway, K8s.NewAutoscalerConfigFrom. simpl. unfold K8s.SetUpWithManager. simpl. by destruct (foldl _ _ _).
  - intros Ha Hg Hv targets f' vars g client Hs. destruct (accepted_validate f Ha) as [f1 H].
    pose proof (validateFlags_ok f f1 H) as (_ & _ & Hg' & _ & H8). destruct (H8 Hg) as (_ & Hf' & Hc').
    enough (owner (K8s.impl g) = None) as -> by done.
    unfold TraceMain.set_up, create in Hs. rewrite H in Hs. cbn [mbind res_bind] in Hs. unfold new_gateway in Hs.
    rewrite Hg', Hg, Hf', Hc' in Hs. rewrite decide_False, decide_True in Hs by done.
    apply res_bind_ok in Hs as (g1 & H1 & Hs). apply res_bind_ok in Hs as (g2 & H2 & Hs).
    apply res_bind_ok in Hs as (c1 & H3 & Hs). apply res_bind_ok in Hs as (c2 & H4 & Hs). injection Hs as _ _ -> _.
    apply or_fatal_ok, res_bind_ok in H1 as (k & H1 & E1). injection E1 as <-.
    cbn [gateway_SetUpWithManager] in H2. apply or_fatal_ok, res_bind_ok in H2 as (k' & H2 & E2). injection E2 as ->.
    unfold K8s.NewK8sGateway in H1. apply res_bind_ok in H1 as (c0 & _ & H1). injection H1 as <-.
    unfold K8s.valid_framework in Hv. rewrite !decide_False in H2 by tauto.
    unfold K8s.SetUpWithManager in H2. cbn in H2. apply res_bind_ok in H2 as (items & _ & H2).
    destruct (K8s.register_all (B := B) (W := W) (Q := Q) (M := M) items (newGatewayImpl None) ∅) as (_ & _ & Ho & _).
    destruct (foldl _ _ _) as [i ds]. injection H2 as <-. exact Ho.
Qed.
End FlagProperties.

(** * The run *)

(** A goroutine of [worker.send]: how many invocations it has sent. *)
Record sender := mkSender { sender_worker : worker; senderID : nat; reqID : nat }.
Definition specs_left (s : sender) : list InvocationSpec :=
  drop (reqID s) (default [] (senderInvocations (sender_worker s) !! senderID s)).
Definition all_sent (ss : list sender) : Prop := Forall (fun s => specs_left s = []) ss.
#[export] Instance all_sent_dec ss : Decision (all_sent ss).
Proof. unfold all_sent. apply _. Defined.

(** [Client.Start]: a goroutine for each worker, which starts its senders. *)
Definition start_senders (start : time) (c : ReplayClient) : list sender :=
  concat ((fun kw => (fun i => mkSender (set_start start (snd kw)) i 0) <$> seq 0 (Z.to_nat (nSenders (snd kw))))
    <$> map_to_list (workers c)).

(** The main goroutine after the start of the client. *)
Inductive phase :=
| Running     (* select *)
| Grace       (* the 15 seconds after the last request *)
| Stopping    (* before cancel() *)
| Cancelled   (* the 5 seconds after it *)
| Closed      (* after Close, waiting for FinishRecv *)
| Finished.
#[export] Instance phase_eq_dec : EqDecision phase.
Proof. solve_decision. Defined.

Section Process.
Context {A Act : Type} (onReqIn : A -> Request -> res A) (onReqOut : A -> Response -> res A) (act : Act -> A -> option A).
Context {D DL : Type} `{!RequestDispatcher D DL} (vars : BackendVars).
Context (sampleOutputFactor : Z) (WriteFails : string -> bool).
(** What a reader still gets from an unbounded channel that is closed with
    some elements in it: those of the gateway's clients and the one from
    [recv] to [write]. *)
Context (kept_in : list Request -> list Request) (kept_out kept_writer : list Response -> list Response).

(** [toWriter] is the channel from [recv] to [write]; [file] the output file
    once it is closed, and with it [finishRecv]. *)
Record process := mkProcess {
  pipe : pipeline (A := A) (D := D);
  senders : list sender;
  finishSend : bool;
  main : phase;
  toWriter : list Response;
  recv_returned : bool;
  wr : writer;
  file : option (list string);
  signalled : bool
}.

Definition start_process (p : pipeline (A := A) (D := D)) (ss : list sender) : process :=
  mkProcess p ss false Running [] false (mkWriter 0 0 []) None false.

Definition set_pipe (x : pipeline) (p : process) : process :=
  mkProcess x (senders p) (finishSend p) (main p) (toWriter p) (recv_returned p) (wr p) (file p) (signalled p).
Definition set_main (x : phase) (p : process) : process :=
  mkProcess (pipe p) (senders p) (finishSend p) x (toWriter p) (recv_returned p) (wr p) (file p) (signalled p).

(** gatewayImpl.Close. *)
Definition Close (g : gatewayImpl A) : gatewayImpl A :=
  mkGateway (internalInputBuffers g) (internalOutputBuffers g) (kept_in <$> externalInputs g)
    (kept_out (externalOutput g)) (relays g) (owner g).
Definition close_pipe (p : pipeline (A := A) (D := D)) : pipeline := mkPipe (Close (gw p)) (pds p) (ctx_cancelled p).

Definition closed (p : process) : bool := bool_decide (main p = Closed).
Definition send_on_closed : string := "send on closed channel".

Inductive proc_label :=
| MSystem (l : Pipeline.label (Act := Act) (DL := DL))   (* gateway, dispatchers, autoscaler *)
| MSend (i : nat) (now : time)                (* the timer of a sender fires *)
| MFinishSend                                 (* wg.Wait() returns: close(finishSend) *)
| MSignal
| MSelectDone                                 (* <-ctx.Done() *)
| MSelectFinished                             (* <-client.FinishSend() *)
| MGraceOver
| MCancel
| MClose
| MRecv (now : time)
| MRecvEnd                                    (* the response channel is closed and empty: writerChan.Close() *)
| MWrite
| MWriteEnd
| MDone.                                      (* <-client.FinishRecv() *)

Notation pstep := (Pipeline.step (D := D) onReqIn onReqOut act vars).

(** A step of the system.  Once the external channels are closed a relay that
    still runs gets nil from an empty one and cannot send. *)
Definition system_step (p : process) (l : Pipeline.label) : option (res process) :=
  let go := x ← pstep (pipe p) l; Some (Ok (set_pipe x p)) in
  let g := gw (pipe p) in
  match l with
  | PSend _ _ | PClientRecv | PCancel => None
  | PRelayRequest key now =>
      if closed p then
        match relays g !! key, externalInputs g !! key with
        | Some _, Some [] => Some (Panic K8s.nil_dereference)
        | Some _, Some (req :: _) => if decide (Target req = key) then go else Some (Panic send_on_closed)
        | _, _ => None
        end
      else go
  | PRelayResponse key =>
      if closed p then
        match relays g !! key, internalOutputBuffers g !! key with
        | Some _, Some (r :: _) =>
            match onReqOut (owner g) r with Ok _ => Some (Panic send_on_closed) | _ => None end
        | _, _ => None
        end
      else go
  | _ => go
  end.

Definition send_step (p : process) (i : nat) (now : time) : option (res process) :=
  s ← senders p !! i;
  spec ← head (specs_left s);
  if closed p then Some (Panic send_on_closed)
  else
    let req := send_request (sender_worker s) (senderID s) (reqID s) spec now in
    x ← pstep (pipe p) (PSend (target (sender_worker s)) req);
    Some (Ok (mkProcess x (<[i := mkSender (sender_worker s) (senderID s) (S (reqID s))]> (senders p)) (finishSend p)
                (main p) (toWriter p) (recv_returned p) (wr p) (file p) (signalled p))).

Definition proc_step (p : process) (l : proc_label) : option (res process) :=
  let when (b : bool) (r : res process) : option (res process) := if b then Some r else None in
  if decide (main p = Finished) then None else
  match l with
  | MSystem l => system_step p l
  | MSend i now => send_step p i now
  | MFinishSend =>
      when (bool_decide (all_sent (senders p)) && negb (finishSend p))
        (Ok (mkProcess (pipe p) (senders p) true (main p) (toWriter p) (recv_returned p) (wr p) (file p) (signalled p)))
  | MSignal =>
      x ← pstep (pipe p) PCancel;
      Some (Ok (mkProcess x (senders p) (finishSend p) (main p) (toWriter p) (recv_returned p) (wr p) (file p) true))
  | MSelectDone => when (bool_decide (main p = Running) && ctx_cancelled (pipe p)) (Ok (set_main Stopping p))
  | MSelectFinished => when (bool_decide (main p = Running) && finishSend p) (Ok (set_main Grace p))
  | MGraceOver => when (bool_decide (main p = Grace)) (Ok (set_main Stopping p))
  | MCancel =>
      if decide (main p = Stopping)
      then x ← pstep (pipe p) PCancel; Some (Ok (set_main Cancelled (set_pipe x p))) else None
  | MClose =>
      when (bool_decide (main p = Cancelled)) (Ok (set_main Closed (set_pipe (close_pipe (pipe p)) p)))
  | MRecv now =>
      match externalOutput (gw (pipe p)) with
      | r :: _ =>
          x ← pstep (pipe p) PClientRecv;
          when (negb (recv_returned p))
            (Ok (mkProcess x (senders p) (finishSend p) (main p) (toWriter p ++ [recv_one now r]) (recv_returned p) (wr p)
                   (file p) (signalled p)))
      | [] => None
      end
  | MRecvEnd =>
      when (closed p && bool_decide (externalOutput (gw (pipe p)) = []) && negb (recv_returned p))
        (Ok (mkProcess (pipe p) (senders p) (finishSend p) (main p) (kept_writer (toWriter p)) true (wr p) (file p) (signalled p)))
  | MWrite =>
      match toWriter p, file p with
      | r :: rest, None =>
          Some (w ← write_one sampleOutputFactor WriteFails (wr p) r;
                Ok (mkProcess (pipe p) (senders p) (finishSend p) (main p) rest (recv_returned p) w (file p) (signalled p)))
      | _, _ => None
      end
  | MWriteEnd =>
      match toWriter p, file p with
      | [], None =>
          when (recv_returned p)
            (if WriteFails (write_summary (wr p)) then Panic "Failed to write request summary"
             else Ok (mkProcess (pipe p) (senders p) (finishSend p) (main p) [] (recv_returned p) (wr p)
                        (Some (output (wr p) ++ [write_summary (wr p)])) (signalled p)))
      | _, _ => None
      end
  | MDone => when (bool_decide (main p = Closed) && bool_decide (is_Some (file p))) (Ok (set_main Finished p))
  end.
Definition next (p : process) (l : proc_label) : option process :=
  match proc_step p l with Some (Ok p') => Some p' | _ => None end.

(** What the clients' side sees. *)
Definition proc_observe (p : process) (l : proc_label) : list (Request + Response) :=
  match l with
  | MSend i now =>
      match senders p !! i with
      | Some s =>
          match specs_left s with
          | spec :: _ => [inl (send_request (sender_worker s) (senderID s) (reqID s) spec now)]
          | [] => []
          end
      | None => []
      end
  | MRecv now => match externalOutput (gw (pipe p)) with r :: _ => [inr (recv_one now r)] | [] => [] end
  | _ => []
  end.
Definition all_received (h : list (Request + Response)) : list Response :=
  omap (fun o => match o with inr r => Some r | inl _ => None end) h.

(** ** What holds all along *)
Context `{!RequestDispatcherLaws D DL}.
Notation write_all := (res_foldl (write_one sampleOutputFactor WriteFails) (mkWriter 0 0 [])).

Lemma step_ctx p l x : l <> PCancel -> pstep p l = Some x -> ctx_cancelled x = ctx_cancelled p.
Proof.
  intros Hl H. destruct l as [key req|key now|key|key|key l|key t| |y| |key]; try done; unfold Pipeline.step in H; cbv zeta in H;
    repeat match type of H with
    | (_ ≫= _) = Some _ => apply bind_Some in H as (? & _ & H)
    | (if ?b then _ else _) = _ => destruct b eqn:?; [|done]
    | (match ?m with _ => _ end) = _ => destruct m; try done
    end; by simplify_eq/=.
Qed.

(** A system step that does not end the process is a step of the pipeline
    that no client sees. *)
Lemma system_step_ok p l p' : system_step p l = Some (Ok p') ->
  exists x, pstep (pipe p) l = Some x /\ p' = set_pipe x p /\ Pipeline.observe (pipe p) l = [] /\ l <> PCancel.
Proof.
  unfold system_step. cbv zeta. intros H.
  assert (forall o : option pipeline, (x ← o; Some (Ok (set_pipe x p))) = Some (Ok p') ->
    exists x, o = Some x /\ p' = set_pipe x p) as Hgo.
  { intros [x|] Ho; simplify_eq/=. by exists x. }
  destruct l; try done; repeat match type of H with
    | (_ ≫= _) = Some _ => fail 1
    | (if ?b then _ else _) = _ => destruct b; try done
    | (match ?m with _ => _ end) = _ => destruct m; try done
    end; apply Hgo in H as (y & Hy & ->); exists y; by split_and!.
Qed.

(** The responses that get to the writer when it has been given [written]:
    those received, but of the last ones only what their channel keeps. *)
Definition given (received written : list Response) : Prop :=
  exists before queued, received = before ++ queued /\ written = before ++ kept_writer queued.

Record shutdown_inv (p : process) (h : list (Request + Response)) : Prop := {
  inv_ok : pds_ok (pipe p);
  inv_conserved : main p <> Closed -> main p <> Finished -> forall i,
    count i (sent_ids h) = (in_flight i (pipe p) + count i (received_ids h))%nat;
  inv_written : exists done, write_all done = Ok (wr p) /\
    if recv_returned p then given (all_received h) (done ++ toWriter p) else all_received h = done ++ toWriter p;
  inv_file : forall lines, file p = Some lines -> toWriter p = [] /\ recv_returned p = true /\
    WriteFails (write_summary (wr p)) = false /\ lines = output (wr p) ++ [write_summary (wr p)];
  inv_recv : recv_returned p = true -> main p = Closed \/ main p = Finished;
  inv_finished : main p = Finished -> is_Some (file p);
  inv_send : finishSend p = true -> all_sent (senders p);
  inv_signal : signalled p = false ->
    (ctx_cancelled (pipe p) = true -> main p = Cancelled \/ main p = Closed \/ main p = Finished) /\
    (main p <> Running -> finishSend p = true)
}.

Lemma start_inv x ss : pds_ok x -> (forall i, in_flight i x = 0%nat) -> ctx_cancelled x = false ->
  shutdown_inv (start_process x ss) [].
Proof.
  intros Hok H0 Hc. split; cbn; try done.
  - intros _ _ i. by rewrite H0.
  - by exists [].
  - rewrite Hc. naive_solver.
Qed.

Lemma all_received_app h h' : all_received (h ++ h') = all_received h ++ all_received h'.
Proof. apply omap_app. Qed.

(** Replacing the pipeline by one after a step that clients do not see. *)
Lemma inv_set_pipe p h l x : shutdown_inv p h -> pstep (pipe p) l = Some x -> Pipeline.observe (pipe p) l = [] ->
  l <> PCancel -> shutdown_inv (set_pipe x p) h.
Proof.
  intros [I1 I2 I3 I4 I5 I6 I7 I8] Hx Ho Hl.
  assert (forall i, pds_ok x /\ in_flight i x = in_flight i (pipe p)) as Hc.
  { intros i. destruct (step_conserves onReqIn onReqOut act vars i _ _ _ I1 Hx) as [H1 H2]. split; [done|].
    rewrite Ho in H2. cbn in H2. lia. }
  split; cbn; try done.
  - apply (Hc "").
  - intros H1 H2 i. rewrite (proj2 (Hc i)). by apply I2.
  - rewrite (step_ctx _ _ _ Hl Hx). done.
Qed.

Lemma send_step_ok p i now p' : send_step p i now = Some (Ok p') ->
  exists s spec rest x, senders p !! i = Some s /\ specs_left s = spec :: rest /\ closed p = false /\
    pstep (pipe p) (PSend (target (sender_worker s)) (send_request (sender_worker s) (senderID s) (reqID s) spec now)) = Some x /\
    p' = mkProcess x (<[i := mkSender (sender_worker s) (senderID s) (S (reqID s))]> (senders p)) (finishSend p)
           (main p) (toWriter p) (recv_returned p) (wr p) (file p) (signalled p).
Proof.
  unfold send_step. intros H. apply bind_Some in H as (s & Es & H). apply bind_Some in H as (spec & Ehd & H).
  destruct (specs_left s) as [|sp rest] eqn:El; [done|]. injection Ehd as ->.
  destruct (closed p); [done|]. apply bind_Some in H as (x & Hx & H). simplify_eq.
  exists s, spec, rest, x. by split_and!.
Qed.

Ltac inv_when H := repeat match type of H with
  | (if ?b then Some _ else None) = _ => let E := fresh "E" in destruct b eqn:E; [|discriminate H]
  end.

(** A client's step: what it sees is kept along. *)
Lemma inv_client p h l x ss o tw : shutdown_inv p h -> pstep (pipe p) l = Some x -> l <> PCancel ->
  sent_ids o = sent_ids (Pipeline.observe (pipe p) l) -> received_ids o = received_ids (Pipeline.observe (pipe p) l) ->
  (finishSend p = true -> all_sent ss) -> tw = toWriter p ++ all_received o -> (recv_returned p = true -> all_received o = []) ->
  shutdown_inv (mkProcess x ss (finishSend p) (main p) tw (recv_returned p) (wr p) (file p) (signalled p)) (h ++ o).
Proof.
  intros [I1 I2 I3 I4 I5 I6 I7 I8] Hx Hl Hso Hro Hss -> Htw. split; cbn; try done.
  - by apply (step_conserves onReqIn onReqOut act vars "" _ _ _ I1 Hx).
  - intros H1 H2 i. destruct (step_conserves onReqIn onReqOut act vars i _ _ _ I1 Hx) as [_ Hc].
    specialize (I2 H1 H2 i). rewrite <- Hso, <- Hro in Hc. unfold sent_ids, received_ids in *.
    rewrite !omap_app, !count_app. lia.
  - destruct I3 as (dn & Hw & I3). exists dn. split; [done|]. rewrite all_received_app.
    destruct (recv_returned p); [by rewrite (Htw eq_refl), !app_nil_r|by rewrite I3, <- app_assoc].
  - intros lines Hf. destruct (I4 lines Hf) as (-> & Hr & ? & ?). by rewrite (Htw Hr).
  - assert (ctx_cancelled x = ctx_cancelled (pipe p)) as -> by (by eapply step_ctx; [|exact Hx]). exact I8.
Qed.

(** The main goroutine on its way to the end of the context. *)
Lemma inv_phase p h ph c : shutdown_inv p h -> main p <> Closed -> main p <> Finished ->
  (ph = Grace \/ ph = Stopping \/ ph = Cancelled) ->
  (signalled p = false -> (c = true -> ph = Cancelled) /\ finishSend p = true) ->
  shutdown_inv (set_main ph (set_pipe (mkPipe (gw (pipe p)) (pds (pipe p)) c) p)) h.
Proof.
  intros [I1 I2 I3 I4 I5 I6 I7 I8] H1 H2 Hph Hs. split; cbn; try done.
  - intros _ _. by apply I2.
  - intros Hr. by destruct (I5 Hr).
  - intros ->. by destruct Hph as [|[|]].
  - intros Hsg. destruct (Hs Hsg) as [Hc Hf]. split; [intros E; left; by apply Hc|done].
Qed.
Lemma set_pipe_same p : set_pipe (mkPipe (gw (pipe p)) (pds (pipe p)) (ctx_cancelled (pipe p))) p = p.
Proof. by destruct p as [[]]. Qed.
Lemma inv_select p h ph : shutdown_inv p h -> main p <> Closed -> main p <> Finished -> main p <> Cancelled ->
  ph = Grace \/ ph = Stopping -> (signalled p = false -> finishSend p = true) -> shutdown_inv (set_main ph p) h.
Proof.
  intros HI H1 H2 H3 Hph Hs. rewrite <- (set_pipe_same p) at 1. apply inv_phase; [done..|naive_solver|].
  intros Hsg. split; [|by apply Hs]. intros Hc. by destruct (proj1 (inv_signal _ _ HI Hsg) Hc) as [|[|]].
Qed.

Lemma inv_write p h r rest w : shutdown_inv p h -> toWriter p = r :: rest -> file p = None ->
  write_one sampleOutputFactor WriteFails (wr p) r = Ok w ->
  shutdown_inv (mkProcess (pipe p) (senders p) (finishSend p) (main p) rest (recv_returned p) w (file p) (signalled p)) h.
Proof.
  intros [I1 I2 I3 I4 I5 I6 I7 I8] Et Ef Hw. split; cbn; try done; [|by rewrite Ef].
  destruct I3 as (dn & Hdn & I3). exists (dn ++ [r]). rewrite (res_foldl_snoc _ _ _ _ _ Hdn). split; [done|].
  rewrite Et in I3. by rewrite <- app_assoc.
Qed.

Lemma inv_closing p h : shutdown_inv p h -> main p = Cancelled ->
  shutdown_inv (set_main Closed (set_pipe (close_pipe (pipe p)) p)) h.
Proof.
  intros [I1 I2 I3 I4 I5 I6 I7 I8] E. split; cbn; try done.
  - intros _. by left.
  - intros Hsg. split; [intros _; right; by left|intros _; apply (I8 Hsg); by rewrite E].
Qed.

(** The steps that only the client's own goroutines, the writer and the main
    goroutine see. *)
Lemma inv_finish_send p h : shutdown_inv p h -> all_sent (senders p) ->
  shutdown_inv (mkProcess (pipe p) (senders p) true (main p) (toWriter p) (recv_returned p) (wr p) (file p) (signalled p)) h.
Proof. intros [I1 I2 I3 I4 I5 I6 I7 I8] E. split; cbn; try done. intros Hsg. split; [by apply I8|done]. Qed.
Lemma inv_recv_end p h : shutdown_inv p h -> main p = Closed -> recv_returned p = false ->
  shutdown_inv (mkProcess (pipe p) (senders p) (finishSend p) (main p) (kept_writer (toWriter p)) true (wr p) (file p)
    (signalled p)) h.
Proof.
  intros [I1 I2 I3 I4 I5 I6 I7 I8] E Er. split; cbn; try done; [| |by left].
  - destruct I3 as (dn & Hdn & I3). rewrite Er in I3. exists dn. split; [done|]. by exists dn, (toWriter p).
  - intros lines Hf. destruct (I4 lines Hf) as (_ & ? & _). congruence.
Qed.
Lemma inv_write_end p h : shutdown_inv p h -> main p <> Finished -> toWriter p = [] -> recv_returned p = true ->
  WriteFails (write_summary (wr p)) = false ->
  shutdown_inv (mkProcess (pipe p) (senders p) (finishSend p) (main p) [] (recv_returned p) (wr p)
                  (Some (output (wr p) ++ [write_summary (wr p)])) (signalled p)) h.
Proof.
  intros [I1 I2 I3 I4 I5 I6 I7 I8] Hn Et Er Ew. split; cbn; try done; [by rewrite Et in I3|]. by intros lines [= <-].
Qed.
Lemma inv_done p h : shutdown_inv p h -> main p = Closed -> is_Some (file p) -> shutdown_inv (set_main Finished p) h.
Proof.
  intros [I1 I2 I3 I4 I5 I6 I7 I8] E Hf. split; cbn; try done.
  - intros _. by right.
  - intros Hsg. split; [intros _; right; by right|intros _; apply (I8 Hsg); by rewrite E].
Qed.

Lemma shutdown_inv_step p h l p' : shutdown_inv p h -> next p l = Some p' -> shutdown_inv p' (h ++ proc_observe p l).
Proof.
  intros HI Hn. unfold next in Hn. destruct (proc_step p l) as [[p1|e|e|e]|] eqn:Hs; simplify_eq.
  unfold proc_step in Hs. cbv zeta in Hs. destruct (decide (main p = Finished)) as [|Hnf]; [done|].
  destruct l as [l|i now| | | | | | | |now| | | | ]; cbn [proc_observe]; rewrite ?app_nil_r.
  - apply system_step_ok in Hs as (x & Hx & -> & Ho & Hl). by eapply inv_set_pipe.
  - apply send_step_ok in Hs as (s & spec & rest & x & Es & El & Hcl & Hx & ->). rewrite Es, El.
    eapply inv_client; try done; [|by rewrite app_nil_r].
    intros Hf. apply (inv_send _ _ HI) in Hf. unfold all_sent in Hf. rewrite Forall_lookup in Hf. by rewrite (Hf i s Es) in El.
  - inv_when Hs. injection Hs as <-. apply andb_true_iff in E as [E%bool_decide_eq_true _]. by apply inv_finish_send.
  - apply bind_Some in Hs as (x & Hx & Hs). simplify_eq. injection Hx as <-.
    destruct HI as [I1 I2 I3 I4 I5 I6 I7 I8]. by split.
  - inv_when Hs. injection Hs as <-. apply andb_true_iff in E as [E1%bool_decide_eq_true E2].
    apply inv_select; try congruence; [by right|]. intros Hsg.
    destruct (proj1 (inv_signal _ _ HI Hsg) E2) as [H|[H|H]]; congruence.
  - inv_when Hs. injection Hs as <-. apply andb_true_iff in E as [E1%bool_decide_eq_true E2].
    apply inv_select; try congruence. by left.
  - inv_when Hs. injection Hs as <-. apply bool_decide_eq_true in E. apply inv_select; try congruence; [by right|].
    intros Hsg. apply (inv_signal _ _ HI Hsg). congruence.
  - destruct (decide (main p = Stopping)) as [E|]; [|done]. apply bind_Some in Hs as (x & Hx & Hs). simplify_eq. injection Hx as <-.
    apply inv_phase; try congruence; [by right; right|]. intros Hsg. split; [done|]. apply (inv_signal _ _ HI Hsg). congruence.
  - inv_when Hs. injection Hs as <-. apply bool_decide_eq_true in E. by apply inv_closing.
  - destruct (externalOutput (gw (pipe p))) as [|r rest] eqn:Er; [done|]. apply bind_Some in Hs as (x & Hx & Hs).
    inv_when Hs. injection Hs as <-. apply negb_true_iff in E.
    eapply inv_client; try done; cbn [Pipeline.observe]; try (by rewrite Er); [by apply (inv_send _ _ HI)|congruence].
  - inv_when Hs. injection Hs as <-. apply andb_true_iff in E as [E1 E2]. apply andb_true_iff in E1 as [E1 _].
    apply bool_decide_eq_true in E1. apply negb_true_iff in E2. by apply inv_recv_end.
  - destruct (toWriter p) as [|r rest] eqn:Et; [done|]. destruct (file p) eqn:Ef; [done|].
    injection Hs as Hs. apply res_bind_ok in Hs as (w & Hw & Hs). injection Hs as <-.
    pose proof (inv_write p h r rest w HI Et Ef Hw) as Hi. by rewrite Ef in Hi.
  - destruct (toWriter p) as [|r rest] eqn:Et; [|done]. destruct (file p) eqn:Ef; [done|].
    destruct (recv_returned p) eqn:Er; [|done]. destruct (WriteFails _) eqn:Ew; [done|]. injection Hs as <-.
    pose proof (inv_write_end p h HI Hnf Et Er Ew) as Hi. by rewrite Er in Hi.
  - inv_when Hs. injection Hs as <-. apply andb_true_iff in E as [E1%bool_decide_eq_true E2%bool_decide_eq_true].
    by apply inv_done.
Qed.

Lemma run_inv x ss ls p : pds_ok x -> (forall i, in_flight i x = 0%nat) -> ctx_cancelled x = false ->
  run next (start_process x ss) ls = Some p -> shutdown_inv p (trace next proc_observe (start_process x ss) ls).
Proof.
  intros Hok H0 Hc Hr. change (trace next proc_observe (start_process x ss) ls) with ([] ++ trace next proc_observe (start_process x ss) ls).
  eapply (trace_invariant next proc_observe shutdown_inv); [|by apply start_inv|exact Hr].
  intros s h l s'. apply shutdown_inv_step.
Qed.

(** With the relays stopped and all requests sent, a closed gateway panics no
    more. *)
Lemma system_no_panic p l e : relays (gw (pipe p)) = ∅ -> system_step p l <> Some (Panic e).
Proof.
  intros Hrel Hs. unfold system_step in Hs. cbv zeta in Hs. rewrite Hrel in Hs.
  assert (forall o : option pipeline, (x ← o; Some (Ok (set_pipe x p))) <> Some (Panic e)) as Hgo by (intros [x|]; done).
  destruct l as [key req|key now|key|key|key l|key t| |x| |key]; try done; try (by apply Hgo in Hs);
    destruct (closed p); try (by apply Hgo in Hs); by rewrite lookup_empty in Hs.
Qed.
Lemma no_panic_closed p l e : main p = Closed -> relays (gw (pipe p)) = ∅ -> all_sent (senders p) ->
  sampleOutputFactor <> 0 -> (forall line, WriteFails line = false) -> proc_step p l <> Some (Panic e).
Proof.
  intros Hm Hrel Hall Hf Hw. unfold proc_step. cbv zeta. rewrite decide_False by congruence.
  assert (forall (b : bool) (p' : process), (if b then Some (Ok p') else None) <> Some (Panic e)) as Hwhen by (by intros []).
  destruct l as [l|i now| | | | | | | |now| | | | ]; try apply Hwhen.
  - by apply system_no_panic.
  - unfold send_step. destruct (senders p !! i) as [s|] eqn:Es; [|done]. cbn [mbind option_bind].
    unfold all_sent in Hall. rewrite Forall_lookup in Hall. by rewrite (Hall i s Es).
  - done.
  - by rewrite decide_False by congruence.
  - destruct (externalOutput (gw (pipe p))); [done|]. destruct (pstep (pipe p) PClientRecv); [|done]. apply Hwhen.
  - destruct (toWriter p) as [|r rest]; [done|]. destruct (file p); [done|].
    destruct (write_one_ok sampleOutputFactor WriteFails (wr p) r Hf Hw) as [w ->]. done.
  - destruct (toWriter p) as [|r rest]; [|done]. destruct (file p); [done|]. rewrite Hw. apply Hwhen.
Qed.

Lemma inv_file_written p h lines : shutdown_inv p h -> file p = Some lines ->
  exists written, given (all_received h) written /\ write sampleOutputFactor WriteFails (Some <$> written) = Ok lines.
Proof.
  intros HI Hf. destruct (inv_written _ _ HI) as (dn & Hw & Hg). destruct (inv_file _ _ HI lines Hf) as (Ht & Hr & Hs & ->).
  rewrite Hr, Ht, app_nil_r in Hg. exists dn. split; [done|].
  unfold write. rewrite until_nil_all, Hw. cbn [mbind res_bind]. by rewrite Hs.
Qed.

(** C10. How a run of the trace experiment ends.  Start the client against a
    gateway with nothing in flight and a context that is not done, and take
    any interleaving of senders, gateway, receiver, writer, signal and main
    goroutine.  Until the channels are closed every request id was sent as
    often as it is in flight or was received.  When main returns the output
    file has its last line, and a file with its last line is what [write]
    makes of the responses received, in their order, up to those that still
    waited for the writer when [recv] closed the channel between them: of
    these it has what that channel keeps for its reader when it is closed,
    which nothing in the client waits for, and all of them when the channel
    keeps everything.  Without a signal all requests
    have been sent when main leaves its select, so that no sender can meet a
    closed channel; after a signal nothing stops the senders, and one with an
    invocation left when the channels are closed panics.  Once all is sent
    and all relays have stopped, no step of relays, dispatchers, client or
    main goroutine after Close panics. *)
Theorem trace_run_shutdown x ss ls p :
  pds_ok x -> (forall i, in_flight i x = 0%nat) -> ctx_cancelled x = false ->
  run next (start_process x ss) ls = Some p ->
  let h := trace next proc_observe (start_process x ss) ls in
  (main p <> Closed -> main p <> Finished -> forall i,
     count i (sent_ids h) = (in_flight i (pipe p) + count i (received_ids h))%nat) /\
  (main p = Finished -> is_Some (file p)) /\
  (forall lines, file p = Some lines -> exists before queued, all_received h = before ++ queued /\
     write sampleOutputFactor WriteFails (Some <$> before ++ kept_writer queued) = Ok lines) /\
  (signalled p = false -> main p <> Running ->
     all_sent (senders p) /\ forall i now, proc_step p (MSend i now) = None) /\
  (main p = Closed ->
     (forall i s now, senders p !! i = Some s -> specs_left s <> [] ->
        proc_step p (MSend i now) = Some (Panic send_on_closed)) /\
     (relays (gw (pipe p)) = ∅ -> all_sent (senders p) ->
      sampleOutputFactor <> 0 -> (forall line, WriteFails line = false) ->
        forall l e, proc_step p l <> Some (Panic e))).
Proof.
  intros Hok H0 Hc Hr h. pose proof (run_inv x ss ls p Hok H0 Hc Hr) as HI. fold h in HI.
  assert (all_sent (senders p) -> forall i now, send_step p i now = None) as Hdone.
  { intros Hall i now. unfold send_step. destruct (senders p !! i) as [s|] eqn:Es; [|done]. cbn [mbind option_bind].
    unfold all_sent in Hall. rewrite Forall_lookup in Hall. by rewrite (Hall i s Es). }
  split; [apply HI|]. split; [apply HI|]. split; [|split].
  - intros lines Hf. destruct (inv_file_written p h lines HI Hf) as (w & (before & queued & Ha & ->) & Hw). by exists before, queued.
  - intros Hsg Hm. assert (all_sent (senders p)) as Hall by (by apply (inv_send _ _ HI), (inv_signal _ _ HI Hsg)).
    split; [done|]. intros i now. unfold proc_step. case_decide; [done|]. by apply Hdone.
  - intros Hm. split.
    + intros i s now Es Hl. unfold proc_step, send_step. rewrite Hm, Es. cbn. destruct (specs_left s); [done|]. cbn.
      unfold closed. by rewrite Hm.
    + intros Hrel Hall Hf Hw l e. by apply no_panic_closed.
Qed.

(** ** It can end *)
Section Completion.
Context (keys : gset string) (I : A -> Prop).
Hypothesis in_ok : forall a req, I a -> Target req ∈ keys -> exists a', onReqIn a req = Ok a' /\ I a'.
Hypothesis out_ok : forall a r, I a -> Target (Source r) ∈ keys -> exists a', onReqOut a r = Ok a' /\ I a'.
Hypothesis act_ok : forall x a a', I a -> act x a = Some a' -> I a'.
Hypothesis factor_ok : sampleOutputFactor <> 0.
Hypothesis no_fail : forall line, WriteFails line = false.
Hypothesis kept_nothing : kept_out [] = [].
Hypothesis writer_kept : forall l, kept_writer l `sublist_of` l.

(** A process that can go on: its gateway is live, its senders are for the
    registered targets, and the receiver waits. *)
Record going (p : process) : Prop := {
  going_live : live keys I (pipe p);
  going_senders : Forall (fun s => target (sender_worker s) ∈ keys) (senders p);
  going_recv : recv_returned p = false
}.
Definition total_left (ss : list sender) : nat := sum_list ((fun s => length (specs_left s)) <$> ss).

Lemma total_left_cons s ss : total_left (s :: ss) = (length (specs_left s) + total_left ss)%nat.
Proof. done. Qed.
Lemma total_left_insert ss i s s' : ss !! i = Some s ->
  (total_left (<[i := s']> ss) + length (specs_left s) = length (specs_left s') + total_left ss)%nat.
Proof.
  revert i. induction ss as [|a ss IH]; intros [|i] H; try done.
  - change (<[0%nat := s']> (a :: ss)) with (s' :: ss). rewrite !total_left_cons. injection H as ->. lia.
  - change (<[S i := s']> (a :: ss)) with (a :: <[i := s']> ss). rewrite !total_left_cons. specialize (IH i H). lia.
Qed.
Lemma specs_left_next w k n spec rest : specs_left (mkSender w k n) = spec :: rest -> specs_left (mkSender w k (S n)) = rest.
Proof.
  unfold specs_left. cbn [sender_worker senderID reqID]. intros H. rewrite <- Nat.add_1_r, <- drop_drop. by rewrite H.
Qed.

Lemma send_one p i s spec rest : going p -> main p = Running -> senders p !! i = Some s -> specs_left s = spec :: rest ->
  exists p', next p (MSend i 0) = Some p' /\ going p' /\ main p' = Running /\ finishSend p' = finishSend p /\
    signalled p' = signalled p /\ S (total_left (senders p')) = total_left (senders p).
Proof.
  intros [L S R] Hm Es El. assert (target (sender_worker s) ∈ keys) as Ht.
  { rewrite Forall_lookup in S. by apply (S i). }
  assert (is_Some (externalInputs (gw (pipe p)) !! target (sender_worker s))) as [q Eq]
    by (apply elem_of_dom; by rewrite (live_ext _ _ _ L)).
  set (req := send_request (sender_worker s) (senderID s) (reqID s) spec 0).
  assert (exists x, pstep (pipe p) (PSend (target (sender_worker s)) req) = Some x) as [x Hx].
  { unfold Pipeline.step. cbn [Gateway.step]. unfold RequestChan_send. rewrite Eq. cbn. by eexists. }
  unfold next, proc_step. cbv zeta. rewrite decide_False by congruence. unfold send_step. rewrite Es. cbn [mbind option_bind].
  rewrite El. cbn [head]. cbn [mbind option_bind]. unfold closed. rewrite bool_decide_false by congruence. fold req. rewrite Hx. cbn [mbind option_bind].
  eexists. split; [reflexivity|]. cbn. split; [split|split; [done|split; [done|split; [done|]]]]; cbn.
  - by eapply live_step; [..|exact L|exact Hx].
  - apply Forall_insert; [done|]. by cbn.
  - done.
  - pose proof (total_left_insert (senders p) i s (mkSender (sender_worker s) (senderID s) (Datatypes.S (reqID s))) Es) as Ht'.
    destruct s as [w k n]. cbn [sender_worker senderID reqID] in *.
    rewrite (specs_left_next w k n spec rest El), El in Ht'. simpl in Ht'. unfold total_left in *. lia.
Qed.

Lemma total_left_zero ss : total_left ss = 0%nat -> all_sent ss.
Proof.
  unfold all_sent. induction ss as [|s ss IH]; intros H; [by constructor|]. rewrite total_left_cons in H.
  constructor; [|apply IH; lia].
  apply length_zero_iff_nil. lia.
Qed.
Lemma total_left_all_sent ss : all_sent ss -> total_left ss = 0%nat.
Proof. induction 1 as [|s ss Hs _ IH]; [done|]. by rewrite total_left_cons, Hs, IH. Qed.
Lemma total_left_pos ss : (0 < total_left ss)%nat -> exists i s spec rest, ss !! i = Some s /\ specs_left s = spec :: rest.
Proof.
  induction ss as [|s ss IH]; intros H; [cbn in H; lia|]. rewrite total_left_cons in H. destruct (specs_left s) as [|spec rest] eqn:E.
  - destruct IH as (i & s' & spec & rest & Hi & Hs); [exact H|].
    by exists (S i), s', spec, rest.
  - by exists 0%nat, s, spec, rest.
Qed.

(** The states of a run without a signal, by what the main goroutine does. *)
Definition reaches (p : process) (ls : list proc_label) (p' : process) : Prop := run next p ls = Some p' /\ MSignal ∉ ls.
Lemma reaches_app p ls p1 ls' p2 : reaches p ls p1 -> reaches p1 ls' p2 -> reaches p (ls ++ ls') p2.
Proof. intros [H1 N1] [H2 N2]. split; [by rewrite run_app, H1|]. by rewrite not_elem_of_app. Qed.
Lemma reaches_one p l p' : next p l = Some p' -> l <> MSignal -> reaches p [l] p'.
Proof. intros H Hl. split; [cbn; by rewrite H|]. apply not_elem_of_cons. split; [congruence|apply not_elem_of_nil]. Qed.

Lemma send_all p : going p -> main p = Running ->
  exists ls p', reaches p ls p' /\ going p' /\ main p' = Running /\ finishSend p' = finishSend p /\ all_sent (senders p').
Proof.
  remember (total_left (senders p)) as n eqn:Hn. revert p Hn. induction n as [|n IH]; intros p Hn G Hm.
  - exists [], p. split; [by split; [|apply not_elem_of_nil]|]. split; [done|]. split; [done|]. split; [done|]. by apply total_left_zero.
  - destruct (total_left_pos (senders p)) as (i & s & spec & rest & Es & El); [lia|].
    destruct (send_one p i s spec rest G Hm Es El) as (p1 & Hs & G1 & Hm1 & Hf1 & _ & Ht).
    destruct (IH p1) as (ls & p2 & Hr & G2 & Hm2 & Hf2 & Ha); [lia|done|done|].
    exists (MSend i 0 :: ls), p2. split; [|by rewrite Hf2].
    apply (reaches_app p [MSend i 0] p1 ls p2); [by apply reaches_one|done].
Qed.

(** A step inside the gateway, as a step of the process. *)
Definition lift (l : Pipeline.label (Act := Act) (DL := DL)) : proc_label :=
  match l with PClientRecv => MRecv 0 | _ => MSystem l end.
Lemma lift_step p l x : Pipeline.internal l = true -> main p <> Closed -> main p <> Finished -> recv_returned p = false ->
  pstep (pipe p) l = Some x ->
  exists tw, next p (lift l) = Some (mkProcess x (senders p) (finishSend p) (main p) tw (recv_returned p) (wr p) (file p) (signalled p)).
Proof.
  intros Hi H1 H2 Hr Hx. unfold next, proc_step. cbv zeta. rewrite decide_False by done.
  destruct l; try done; cbn [lift]; try (unfold system_step; cbv zeta; unfold closed; rewrite ?bool_decide_false by done;
    rewrite Hx; cbn; by eexists).
  assert (exists r rest, externalOutput (gw (pipe p)) = r :: rest) as (r & rest & E).
  { unfold Pipeline.step in Hx. cbn [Gateway.step] in Hx. unfold ResponseChan_recv in Hx.
    destruct (externalOutput (gw (pipe p))) as [|r rest]; [done|by exists r, rest]. }
  rewrite E, Hx, Hr. cbn. by eexists.
Qed.
Lemma lift_run p ls x : Forall (fun l => Pipeline.internal l = true) ls -> main p <> Closed -> main p <> Finished ->
  recv_returned p = false -> run pstep (pipe p) ls = Some x ->
  exists tw, reaches p (lift <$> ls)
    (mkProcess x (senders p) (finishSend p) (main p) tw (recv_returned p) (wr p) (file p) (signalled p)).
Proof.
  intros Hls. revert p. induction Hls as [|l ls Hl Hls IH]; intros p H1 H2 Hr Hrun.
  - simpl in Hrun. injection Hrun as <-. exists (toWriter p). split; [by destruct p|apply not_elem_of_nil].
  - cbn [run] in Hrun. apply bind_Some in Hrun as (x1 & Hx & Hrun).
    destruct (lift_step p l x1 Hl H1 H2 Hr Hx) as [tw Hn].
    set (p1 := mkProcess x1 _ _ _ _ _ _ _ _) in Hn. destruct (IH p1 H1 H2 Hr Hrun) as [tw' Hr'].
    exists tw'. apply (reaches_app p [lift l] p1); [apply reaches_one; [done|by destruct l]|exact Hr'].
Qed.

(** Along a run without a signal: as long as main waits in its select the
    process can go on, and what is sent and left to send adds up. *)
Definition good_start (ss0 : list sender) (p : process) (h : list (Request + Response)) : Prop :=
  (main p = Running -> going p) /\ (length (sent_ids h) + total_left (senders p) = total_left ss0)%nat.

Lemma good_start_step ss0 p h l p' : l <> MSignal -> good_start ss0 p h -> next p l = Some p' ->
  good_start ss0 p' (h ++ proc_observe p l).
Proof.
  intros Hl [G T] Hn. unfold next in Hn. destruct (proc_step p l) as [[p1|e|e|e]|] eqn:Hs; simplify_eq.
  unfold proc_step in Hs. cbv zeta in Hs. destruct (decide (main p = Finished)) as [|Hnf]; [done|].
  destruct l as [l|i now| | | | | | | |now| | | | ]; cbn [proc_observe]; rewrite ?app_nil_r; try done;
    try (inv_when Hs; injection Hs as <-; by split).
  - apply system_step_ok in Hs as (x & Hx & -> & _ & Hc). split; [|done]. intros Hm. destruct (G Hm) as [L S R].
    split; cbn; [by eapply live_step; [..|exact L|exact Hx]|done|done].
  - apply send_step_ok in Hs as (s & spec & rest & x & Es & El & Hcl & Hx & ->). rewrite Es, El. split.
    + cbn. intros Hm. destruct (G Hm) as [L S R]. split; cbn; [by eapply live_step; [..|exact L|exact Hx]| |done].
      apply Forall_insert; [done|]. rewrite Forall_lookup in S. by apply (S i s).
    + unfold sent_ids in *. rewrite omap_app, length_app. cbn [senders].
      pose proof (total_left_insert (senders p) i s (mkSender (sender_worker s) (senderID s) (S (reqID s))) Es) as Ht.
      destruct s as [w k n]. cbn [sender_worker senderID reqID] in *.
      rewrite (specs_left_next w k n spec rest El), El in Ht. simpl in Ht |- *. unfold total_left in *. lia.
  - inv_when Hs. injection Hs as <-. split; [|done]. cbn. intros Hm. destruct (G Hm). by split.
  - destruct (decide (main p = Stopping)); [|done]. apply bind_Some in Hs as (x & Hx & Hs). simplify_eq. by split.
  - destruct (externalOutput (gw (pipe p))) as [|r rest] eqn:Er; [done|]. apply bind_Some in Hs as (x & Hx & Hs).
    inv_when Hs. injection Hs as <-. split; cbn.
    + intros Hm. destruct (G Hm) as [L S R]. split; cbn; [by eapply live_step; [..|exact L|exact Hx]|done|done].
    + unfold sent_ids in *. rewrite omap_app. cbn. by rewrite app_nil_r.
  - inv_when Hs. injection Hs as <-. split; [|done]. cbn. intros Hm. unfold closed in E.
    rewrite (bool_decide_false) in E by congruence. done.
  - destruct (toWriter p) as [|r rest]; [done|]. destruct (file p); [done|].
    injection Hs as Hs. apply res_bind_ok in Hs as (w & Hw & Hs). injection Hs as <-. split; [|done].
    cbn. intros Hm. destruct (G Hm). by split.
  - destruct (toWriter p) as [|r rest]; [|done]. destruct (file p); [done|].
    inv_when Hs. destruct (WriteFails _); [done|]. injection Hs as <-. split; [|done].
    cbn. intros Hm. destruct (G Hm) as [_ _ R]. congruence.
Qed.

Lemma good_start_run x ss ls p : live keys I x -> Forall (fun s => target (sender_worker s) ∈ keys) ss -> MSignal ∉ ls ->
  run next (start_process x ss) ls = Some p -> good_start ss p (trace next proc_observe (start_process x ss) ls).
Proof.
  intros L Hss Hn Hr. change (trace next proc_observe (start_process x ss) ls) with ([] ++ trace next proc_observe (start_process x ss) ls).
  assert (good_start ss (start_process x ss) []) as H0 by (split; [by split|done]).
  revert H0 Hn Hr. generalize (start_process x ss) as q, (@nil (Request + Response)) as h.
  induction ls as [|l ls IH]; intros q h H0 Hn Hr; cbn [run trace] in *; [simplify_eq; by rewrite app_nil_r|].
  apply not_elem_of_cons in Hn as [Hl Hn]. apply bind_Some in Hr as (q1 & Hq & Hr). rewrite Hq, (assoc_L (++)).
  apply IH; [by apply (good_start_step ss q h l q1)|done|done].
Qed.

(** ** The end of the run *)
Definition silent (l : proc_label) : bool := match l with MSend _ _ | MRecv _ => false | _ => true end.
Lemma silent_trace p ls : Forall (fun l => silent l = true) ls -> trace next proc_observe p ls = [].
Proof.
  intros H. revert p. induction H as [|l ls Hl _ IH]; intros p; [done|]. cbn [trace].
  destruct (next p l) as [p'|]; [|done]. rewrite IH. by destruct l.
Qed.

Lemma stop_relays p : main p = Cancelled -> ctx_cancelled (pipe p) = true -> pending (pipe p) = 0%nat ->
  exists ls x, reaches p ls (set_pipe x p) /\ Forall (fun l => silent l = true) ls /\ relays (gw x) = ∅ /\
    pending x = 0%nat.
Proof.
  remember (size (relays (gw (pipe p)))) as n eqn:Hn. revert p Hn. induction n as [|n IH]; intros p Hn Hm Hc Hp.
  - exists [], (pipe p). split; [split; [by destruct p|apply not_elem_of_nil]|]. split; [by constructor|].
    split; [by apply map_size_empty_inv|done].
  - destruct (map_choose (relays (gw (pipe p)))) as (key & v & Hv).
    { intros E. rewrite E, map_size_empty in Hn. discriminate Hn. }
    set (x := set_gw (set_relays (delete key (relays (gw (pipe p)))) (gw (pipe p))) (pipe p)).
    assert (next p (MSystem (PRelayStop key)) = Some (set_pipe x p)) as Hs.
    { unfold next, proc_step. cbv zeta. rewrite decide_False by congruence. cbn [system_step].
      unfold Pipeline.step. cbv zeta. by rewrite Hc, Hv. }
    destruct (IH (set_pipe x p)) as (ls & y & Hr & Hsl & Hrel & Hpe); [|done..|].
    { cbn. rewrite map_size_delete, Hv. lia. }
    exists (MSystem (PRelayStop key) :: ls), y. split; [|split; [by constructor|done]].
    apply (reaches_app p [MSystem (PRelayStop key)] (set_pipe x p)); [by apply reaches_one|exact Hr].
Qed.

Lemma write_rest p : main p = Closed -> file p = None ->
  exists w, reaches p (replicate (length (toWriter p)) MWrite)
    (mkProcess (pipe p) (senders p) (finishSend p) (main p) [] (recv_returned p) w None (signalled p)).
Proof.
  remember (toWriter p) as q eqn:Hq. revert p Hq. induction q as [|r q IH]; intros p Hq Hm Hf.
  - exists (wr p). split; [destruct p; simpl in *; by subst|apply not_elem_of_nil].
  - destruct (write_one_ok sampleOutputFactor WriteFails (wr p) r factor_ok no_fail) as [w Hw].
    set (p1 := mkProcess (pipe p) (senders p) (finishSend p) (main p) q (recv_returned p) w None (signalled p)).
    assert (next p MWrite = Some p1) as Hs.
    { unfold next, proc_step. cbv zeta. rewrite decide_False by congruence. by rewrite <- Hq, Hf, Hw. }
    destruct (IH p1 eq_refl Hm eq_refl) as [w' Hr]. exists w'.
    apply (reaches_app p [MWrite] p1 (replicate (length q) MWrite)); [by apply reaches_one|exact Hr].
Qed.

Lemma silent_inv p h ls p' : shutdown_inv p h -> reaches p ls p' -> Forall (fun l => silent l = true) ls -> shutdown_inv p' h.
Proof.
  intros HI [Hr _] Hs. rewrite <- (app_nil_r h), <- (silent_trace p ls Hs).
  eapply (trace_invariant next proc_observe shutdown_inv); [|exact HI|exact Hr]. intros s h' l s'. apply shutdown_inv_step.
Qed.

(** The writer has written everything before the receiver ends. *)
Lemma finish_closed p h : shutdown_inv p h ->
  main p = Closed -> externalOutput (gw (pipe p)) = [] -> recv_returned p = false -> file p = None ->
  exists ls p' lines, reaches p ls p' /\ Forall (fun l => silent l = true) ls /\ main p' = Finished /\
    pipe p' = pipe p /\ senders p' = senders p /\ file p' = Some lines /\
    write sampleOutputFactor WriteFails (Some <$> all_received h) = Ok lines.
Proof.
  intros HI Hm Ho Hr Hf. destruct (write_rest p Hm Hf) as [w R1]. set (p1 := mkProcess _ _ _ _ _ _ _ _ _) in R1.
  assert (Forall (fun l => silent l = true) (replicate (length (toWriter p)) MWrite)) as S1 by (by apply Forall_replicate).
  destruct (inv_written _ _ (silent_inv p h _ p1 HI R1 S1)) as (dn & Hdn & Hall). cbn in Hdn, Hall. rewrite Hr, app_nil_r in Hall.
  set (p2 := mkProcess (pipe p) (senders p) (finishSend p) (main p) [] true w None (signalled p)).
  assert (reaches p1 [MRecvEnd] p2) as R2.
  { apply reaches_one; [|done]. unfold next, proc_step. cbv zeta. rewrite decide_False by (cbn; congruence).
    unfold closed, p1. cbn. by rewrite Hr, Ho, bool_decide_true, (proj1 (sublist_nil_r _) (writer_kept [])) by done. }
  set (lines := output w ++ [write_summary w]).
  set (p3 := mkProcess (pipe p) (senders p) (finishSend p) (main p) [] true w (Some lines) (signalled p)).
  assert (reaches p2 [MWriteEnd] p3) as R3.
  { apply reaches_one; [|done]. unfold next, proc_step. cbv zeta. rewrite decide_False by (cbn; congruence).
    cbn. by rewrite no_fail. }
  assert (reaches p3 [MDone] (set_main Finished p3)) as R4.
  { apply reaches_one; [|done]. unfold next, proc_step. cbv zeta. rewrite decide_False by (cbn; congruence). cbn.
    rewrite (bool_decide_true (main p = Closed)) by done. done. }
  eexists _, _, lines. split; [exact (reaches_app _ _ _ _ _ R1 (reaches_app _ _ _ _ _ R2 (reaches_app _ _ _ _ _ R3 R4)))|].
  split; [apply Forall_app; split; [done|by repeat constructor]|]. split_and!; try done.
  unfold write. rewrite Hall, until_nil_all, Hdn. cbn [mbind res_bind]. by rewrite no_fail.
Qed.

(** From the last request to cancel(): the grace period answers everything. *)
Lemma drain p : going p -> main p = Running -> all_sent (senders p) ->
  exists ls p', reaches p ls p' /\ main p' = Cancelled /\ ctx_cancelled (pipe p') = true /\ pending (pipe p') = 0%nat /\
    senders p' = senders p /\ recv_returned p' = false /\ file p' = file p.
Proof.
  intros [L S R] Hm Hall.
  set (p1 := mkProcess (pipe p) (senders p) true (main p) (toWriter p) (recv_returned p) (wr p) (file p) (signalled p)).
  assert (exists ls, reaches p ls p1) as [ls1 R1].
  { destruct (finishSend p) eqn:Ef.
    - exists []. split; [subst p1; destruct p; simpl in *; by subst|apply not_elem_of_nil].
    - exists [MFinishSend]. apply reaches_one; [|done]. unfold next, proc_step. cbv zeta. rewrite decide_False by congruence.
      by rewrite bool_decide_true, Ef by done. }
  assert (reaches p1 [MSelectFinished] (set_main Grace p1)) as R2.
  { apply reaches_one; [|done]. unfold next, proc_step. cbv zeta. rewrite decide_False by (cbn; congruence).
    by rewrite bool_decide_true by done. }
  destruct (live_drains onReqIn onReqOut act vars keys I in_ok out_ok act_ok (pipe p) L) as (ls3 & x & Hi & Hr & Hp).
  destruct (lift_run (set_main Grace p1) ls3 x Hi) as [tw R3]; [done|done|exact R|exact Hr|].
  set (p3 := mkProcess x _ _ _ _ _ _ _ _) in R3.
  assert (reaches p3 [MGraceOver] (set_main Stopping p3)) as R4 by (by apply reaches_one).
  set (y := mkPipe (gw x) (pds x) true).
  assert (reaches (set_main Stopping p3) [MCancel] (set_main Cancelled (set_pipe y (set_main Stopping p3)))) as R5
    by (by apply reaches_one).
  eexists _, _. split; [exact (reaches_app _ _ _ _ _ R1 (reaches_app _ _ _ _ _ R2 (reaches_app _ _ _ _ _ R3
    (reaches_app _ _ _ _ _ R4 R5))))|]. by split_and!.
Qed.

(** From cancel() to the end. *)
Lemma end_of_run p h : shutdown_inv p h -> main p = Cancelled -> ctx_cancelled (pipe p) = true -> pending (pipe p) = 0%nat ->
  recv_returned p = false -> file p = None ->
  exists ls p' lines, reaches p ls p' /\ Forall (fun l => silent l = true) ls /\ main p' = Finished /\
    relays (gw (pipe p')) = ∅ /\ senders p' = senders p /\ file p' = Some lines /\
    write sampleOutputFactor WriteFails (Some <$> all_received h) = Ok lines.
Proof.
  intros HI Hm Hc Hp Hr Hf. destruct (stop_relays p Hm Hc Hp) as (ls1 & x & R1 & S1 & Hrel & Hpx).
  set (p2 := set_main Closed (set_pipe (close_pipe x) (set_pipe x p))).
  assert (reaches (set_pipe x p) [MClose] p2) as R2.
  { apply reaches_one; [|done]. unfold next, proc_step. cbv zeta. rewrite decide_False by (cbn; congruence).
    cbn. by rewrite bool_decide_true by done. }
  assert (externalOutput (gw x) = []) as Hx by (apply length_zero_iff_nil; unfold pending in Hpx; lia).
  assert (shutdown_inv p2 h) as I2.
  { apply (silent_inv p h (ls1 ++ [MClose])); [done|by eapply reaches_app|]. apply Forall_app. split; [done|by repeat constructor]. }
  destruct (finish_closed p2 h I2) as (ls3 & p3 & lines & R3 & S3 & Hm3 & Hp3 & Hs3 & Hl3 & Hw3); [done| |done|done|].
  { cbn. by rewrite Hx. }
  eexists _, p3, lines. split; [exact (reaches_app _ _ _ _ _ R1 (reaches_app _ _ _ _ _ R2 R3))|].
  split; [apply Forall_app; split; [done|by constructor]|]. split; [done|]. by rewrite Hp3, Hs3, Hl3.
Qed.

Lemma count_occ_count (i : string) l : count i l = count_occ String.eq_dec l i.
Proof.
  induction l as [|x l IH]; [done|]. unfold count in *. rewrite filter_cons. simpl. rewrite <- IH.
  destruct (String.eq_dec x i), (decide _); naive_solver.
Qed.
Lemma same_counts_length (l1 l2 : list string) : (forall i, count i l1 = count i l2) -> length l1 = length l2.
Proof.
  intros H. apply Permutation_length, (Permutation_count_occ String.eq_dec). intros i. by rewrite <- !count_occ_count.
Qed.
Lemma length_received_ids h : length (received_ids h) = length (all_received h).
Proof. induction h as [|[req|r] h IH]; [done|exact IH|]. cbn. f_equal. exact IH. Qed.

(** From any moment of the main goroutine's select before a signal, the run
    can end with every request sent and answered. *)
Lemma can_finish x ss ls p : live keys I x -> pending x = 0%nat ->
  Forall (fun s => target (sender_worker s) ∈ keys) ss -> run next (start_process x ss) ls = Some p -> MSignal ∉ ls ->
  main p = Running ->
  exists ls' p', reaches p ls' p' /\ main p' = Finished /\ relays (gw (pipe p')) = ∅ /\ all_sent (senders p') /\
    let h := trace next proc_observe (start_process x ss) (ls ++ ls') in
    (forall i, count i (received_ids h) = count i (sent_ids h)) /\
    length (all_received h) = total_left ss /\
    exists lines, file p' = Some lines /\ write sampleOutputFactor WriteFails (Some <$> all_received h) = Ok lines.
Proof.
  intros L H0 Hss Hr Hn Hm.
  assert (forall i (y : pipeline (A := A) (D := D)), pending y = 0%nat -> in_flight i y = 0%nat) as Hz
    by (intros i y Hy; pose proof (in_flight_pending i y); lia).
  assert (forall ls q, run next (start_process x ss) ls = Some q ->
    shutdown_inv q (trace next proc_observe (start_process x ss) ls)) as Hinv.
  { intros ls' q Hq. apply run_inv; [exact (live_pds_ok keys I x L)|intros i; by apply Hz|apply (live_ctx keys I x L)|exact Hq]. }
  destruct (proj1 (good_start_run x ss ls p L Hss Hn Hr) Hm) as [L1 S1 R1].
  destruct (send_all p) as (la & pa & Ra & Ga & Ma & _ & Aa); [by split|done|].
  destruct (drain pa Ga Ma Aa) as (lb & pb & Rb & Mb & Cb & Pb & Sb & Rvb & Fb).
  destruct (reaches_app _ _ _ _ _ Ra Rb) as [Rab Nab].
  assert (run next (start_process x ss) (ls ++ (la ++ lb)) = Some pb) as Hpb by (by rewrite run_app, Hr).
  pose proof (Hinv _ _ Hpb) as Ib.
  assert (file pb = None) as Fb'.
  { destruct (file pb) as [lines|] eqn:E; [|done]. destruct (inv_file _ _ Ib lines E) as (_ & E' & _). congruence. }
  destruct (end_of_run pb _ Ib Mb Cb Pb Rvb Fb') as (lc & pc & lines & Rc & Sc & Mc & Relc & Sec & Fc & Wc).
  exists ((la ++ lb) ++ lc), pc. split; [exact (reaches_app _ _ _ _ _ (reaches_app _ _ _ _ _ Ra Rb) Rc)|].
  split; [done|]. split; [done|]. split; [by rewrite Sec, Sb|].
  rewrite (assoc_L (++)), (trace_app _ _ _ _ _ _ Hpb), (silent_trace _ _ Sc), app_nil_r.
  set (h := trace next proc_observe (start_process x ss) (ls ++ la ++ lb)) in *. cbv zeta.
  assert (forall i, count i (received_ids h) = count i (sent_ids h)) as Hcounts.
  { intros i. pose proof (inv_conserved _ _ Ib ltac:(congruence) ltac:(congruence) i) as Hi. rewrite (Hz i _ Pb) in Hi. by rewrite Hi. }
  split; [exact Hcounts|]. split.
  - rewrite <- length_received_ids, (same_counts_length _ _ Hcounts).
    destruct (good_start_run x ss (ls ++ la ++ lb) pb L Hss) as [_ HT]; [by apply not_elem_of_app|done|].
    fold h in HT. rewrite (total_left_all_sent (senders pb)) in HT; [lia|by rewrite Sb].
  - by exists lines.
Qed.
End Completion.
End Process.

(** * The whole program with the Kubernetes gateway *)
Lemma total_left_concat sss : total_left (concat sss) = sum_list (total_left <$> sss).
Proof.
  induction sss as [|ss sss IH]; [done|]. cbn [concat]. change (sum_list (total_left <$> ss :: sss)) with
    (total_left ss + sum_list (total_left <$> sss))%nat. rewrite <- IH. unfold total_left.
  by rewrite fmap_app, sum_list_with_app.
Qed.
Lemma all_lookups {X} (l : list (list X)) : (fun i => default [] (l !! i)) <$> seq 0 (length l) = l.
Proof.
  apply list_eq. intros i. rewrite list_lookup_fmap. destruct (decide (i < length l)%nat) as [Hi|Hi].
  - rewrite lookup_seq_lt by done. destruct (lookup_lt_is_Some_2 l i Hi) as [x Hx]. cbn. by rewrite Hx.
  - rewrite !lookup_ge_None_2; [done|lia|rewrite length_seq; lia].
Qed.
Lemma length_concat_sum {X} (l : list (list X)) : length (concat l) = sum_list (length <$> l).
Proof. induction l as [|x l IH]; [done|]. cbn. by rewrite length_app, IH. Qed.
Lemma total_left_worker start w : wf_worker w ->
  total_left ((fun i => mkSender (set_start start w) i 0) <$> seq 0 (Z.to_nat (nSenders w))) =
  length (Invocations (trace_spec w)).
Proof.
  intros [Hn <-]. rewrite <- Hn, length_concat_sum. unfold total_left.
  rewrite <- (all_lookups (senderInvocations w)) at 2. by rewrite <- !list_fmap_compose.
Qed.

(** All invocations of the client's traces are left to send at first. *)
Lemma total_left_start start (c : ReplayClient) : (forall key w, workers c !! key = Some w -> wf_worker w) ->
  total_left (start_senders start c) =
    sum_list ((fun kw => length (Invocations (trace_spec (snd kw)))) <$> map_to_list (workers c)).
Proof.
  intros H. unfold start_senders. rewrite total_left_concat, <- list_fmap_compose. f_equal.
  apply list_fmap_ext. intros i [key w] Hi. cbn. apply total_left_worker, (H key), elem_of_map_to_list.
  by eapply list_elem_of_lookup_2.
Qed.

(** The client's senders are for the deployments it was set up with. *)
Lemma start_senders_targets (keys : gset string) targets traces client start :
  Replay.SetupWithManager (Ok targets) (mkClient traces ∅) = Ok client ->
  list_to_set (KeyFromObject <$> targets) ⊆ keys ->
  Forall (fun s => target (sender_worker s) ∈ keys) (start_senders start client).
Proof.
  intros Hcl Hk. pose proof (SetupWithManager_workers targets traces client Hcl) as Hwk.
  unfold start_senders. apply Forall_concat, Forall_fmap, Forall_forall. intros [key w] Hin%elem_of_map_to_list.
  cbn. apply Forall_fmap, Forall_forall. intros i _. cbn. destruct (Hwk key w Hin) as (Hkey & -> & _).
  by apply Hk, elem_of_list_to_set.
Qed.

Section ClientTrace.
Context {A Act : Type} (onReqIn : A -> Request -> res A) (onReqOut : A -> Response -> res A) (act : Act -> A -> option A).
Context {D DL : Type} `{!RequestDispatcher D DL} `{!RequestDispatcherLaws D DL} (vars : BackendVars).
Context (sampleOutputFactor : Z) (WriteFails : string -> bool)
  (kept_in : list Request -> list Request) (kept_out kept_writer : list Response -> list Response).
Context (keys : gset string) (I : A -> Prop).
Hypothesis in_ok : forall a req, I a -> Target req ∈ keys -> exists a', onReqIn a req = Ok a' /\ I a'.
Hypothesis out_ok : forall a r, I a -> Target (Source r) ∈ keys -> exists a', onReqOut a r = Ok a' /\ I a'.
Hypothesis act_ok : forall x a a', I a -> act x a = Some a' -> I a'.
Hypothesis factor_ok : sampleOutputFactor <> 0.
Hypothesis no_fail : forall line, WriteFails line = false.
Hypothesis kept_nothing : kept_out [] = [].
Hypothesis writer_kept : forall l, kept_writer l `sublist_of` l.

(** A client against any gateway that takes the requests for its targets. *)
Lemma client_completes x targets traces client start ls p :
  live keys I x -> pending x = 0%nat ->
  Replay.SetupWithManager (Ok targets) (mkClient traces ∅) = Ok client ->
  list_to_set (KeyFromObject <$> targets) ⊆ keys ->
  let next := next (D := D) onReqIn onReqOut act vars sampleOutputFactor WriteFails kept_in kept_out kept_writer in
  let p0 := start_process x (start_senders start client) in
  run next p0 ls = Some p -> MSignal ∉ ls -> main p = Running ->
  exists ls' p', run next p ls' = Some p' /\ main p' = Finished /\ relays (gw (pipe p')) = ∅ /\
    let h := trace next proc_observe p0 (ls ++ ls') in
    (forall i, count i (received_ids h) = count i (sent_ids h)) /\
    length (all_received h) =
      sum_list ((fun kw => length (Invocations (trace_spec (snd kw)))) <$> map_to_list (workers client)) /\
    exists lines, file p' = Some lines /\ write sampleOutputFactor WriteFails (Some <$> all_received h) = Ok lines.
Proof.
  intros L H0 Hcl Hk next p0 Hrun Hn Hm.
  destruct (can_finish onReqIn onReqOut act vars sampleOutputFactor WriteFails kept_in kept_out kept_writer
    _ _ in_ok out_ok act_ok factor_ok no_fail kept_nothing writer_kept x (start_senders start client) ls p L H0
    (start_senders_targets keys targets traces client start Hcl Hk) Hrun Hn Hm)
    as (ls' & p' & [Hr' _] & Hm' & Hrel & _ & Hcounts & Hlen & Hfile).
  exists ls', p'. split; [exact Hr'|]. split; [done|]. split; [done|]. split; [exact Hcounts|]. split; [|exact Hfile].
  etransitivity; [exact Hlen|]. apply total_left_start. intros key w Hkey.
  by apply (SetupWithManager_workers targets traces client Hcl key w Hkey).
Qed.
End ClientTrace.

Section K8sTrace.
Context {B W Q S M : Type} `{!TimedFloat64Buckets B} `{!TimeWindow W} `{!WorkQueue Q}
  `{!Client S} `{!PodLister S} `{!Scaler S} `{!SharedMap executor_obj M} `{!SharedMapLaws executor_obj M}.
Context (emptyQueue : Q) (ReadFile : string -> res string) (Unmarshal : string -> res K8s.AutoscalerConfig)
  (load : string -> res (list TraceSpec)) (Create : string -> res unit) (GrpcNewClient : string -> res unit)
  (services : res (list (Object * string))).
Context (sampleOutputFactor : Z) (WriteFails : string -> bool)
  (kept_in : list Request -> list Request) (kept_out kept_writer : list Response -> list Response).

(** A gateway that was set up with a configuration comes from [launch]. *)
Lemma set_up_launched f f' vars g client targets text c now :
  set_up (B := B) (W := W) (M := M) emptyQueue ReadFile Unmarshal load Create GrpcNewClient (Ok targets) services f =
    Ok (f', vars, GK8s g, client) ->
  gatewayFramework f = "k8s" -> autoscalerConfig f <> "" -> ReadFile (autoscalerConfig f) = Ok text ->
  Unmarshal text = Ok c -> K8s.configured (autoscalerFramework f) c ->
  (exists timeout a fn, K8s.autoscaler_Run (K8s.Start now g) = K8s.launched timeout targets now a fn /\
     K8s.accepting (list_to_set (KeyFromObject <$> targets)) (K8s.run_autoscaler a)) /\
  exists traces, Replay.SetupWithManager (Ok targets) (mkClient traces ∅) = Ok client.
Proof.
  intros Hs Hg Hp Hr Hu Hc. unfold set_up, create in Hs. apply res_bind_ok in Hs as (f1 & H & Hs).
  pose proof (validateFlags_ok f f1 H) as (_ & _ & Hg' & _ & H8). destruct (H8 Hg) as (_ & Hf' & Hc').
  apply res_bind_ok in Hs as (g1 & H1 & Hs). apply res_bind_ok in Hs as (g2 & H2 & Hs).
  apply res_bind_ok in Hs as (c1 & H3 & Hs). apply res_bind_ok in Hs as (c2 & H4 & Hs). injection Hs as _ _ -> ->.
  unfold new_gateway in H1. rewrite Hg', Hg, Hf', Hc' in H1. rewrite decide_False, decide_True in H1 by done.
  apply or_fatal_ok, res_bind_ok in H1 as (k & H1 & E1). injection E1 as <-.
  cbn [gateway_SetUpWithManager] in H2. apply or_fatal_ok, res_bind_ok in H2 as (k' & H2 & E2). injection E2 as ->.
  split.
  - set (timeout := int64 (dispatchTimeoutSeconds f1 * Second)) in *.
    destruct (K8s.launch_configured (M := M) ReadFile Unmarshal emptyQueue timeout targets now
      (autoscalerFramework f) (autoscalerConfig f) text c Hp Hr Hu Hc) as (a & fn & Hl & Ha).
    exists timeout, a, fn. split; [|exact Ha]. unfold K8s.launch, K8s.launching in Hl. rewrite H1 in Hl. cbn [mbind res_bind] in Hl.
    rewrite H2 in Hl. cbn [mbind res_bind] in Hl. by apply (inj Ok) in Hl.
  - apply or_fatal_ok, res_bind_ok in H3 as (traces & _ & H3). apply res_bind_ok in H3 as (? & _ & H3). injection H3 as <-.
    exists traces. by apply or_fatal_ok in H4.
Qed.

(** C6. The trace experiment can always end well.  Let the Kubernetes
    gateway and the client be set up from accepted flags with a readable
    configuration of the autoscaler, let the output file be writable, and
    start both, the client when the autoscaler's goroutine has begun, for which
    main sleeps.  Then from every moment at which main waits in its select and
    no signal has come, whatever senders, gateway, dispatchers, autoscaler,
    cluster and client have done so far, there is a continuation in which
    every invocation of every worker's trace is sent, every request is
    answered, all relays stop, and main returns with a complete output file,
    written from exactly one response per request. *)
Theorem trace_can_complete f f' vars g client targets text c w0 now start ls p :
  set_up (B := B) (W := W) (M := M) emptyQueue ReadFile Unmarshal load Create GrpcNewClient (Ok targets) services f =
    Ok (f', vars, GK8s g, client) ->
  gatewayFramework f = "k8s" -> autoscalerConfig f <> "" -> ReadFile (autoscalerConfig f) = Ok text ->
  Unmarshal text = Ok c -> K8s.configured (autoscalerFramework f) c ->
  sampleOutputFactor <> 0 -> (forall line, WriteFails line = false) -> kept_out [] = [] -> (forall l, kept_writer l `sublist_of` l) ->
  let next := next K8sRun.onReqIn K8sRun.onReqOut K8sRun.run_background vars sampleOutputFactor WriteFails kept_in kept_out kept_writer in
  let p0 := start_process (K8sRun.started (S := S) w0 now (K8s.autoscaler_Run (K8s.Start now g))) (start_senders start client) in
  run next p0 ls = Some p -> MSignal ∉ ls -> main p = Running ->
  exists ls' p', run next p ls' = Some p' /\ main p' = Finished /\ relays (gw (pipe p')) = ∅ /\
    let h := trace next proc_observe p0 (ls ++ ls') in
    (forall i, count i (received_ids h) = count i (sent_ids h)) /\
    length (all_received h) =
      sum_list ((fun kw => length (Invocations (trace_spec (snd kw)))) <$> map_to_list (workers client)) /\
    exists lines, file p' = Some lines /\ write sampleOutputFactor WriteFails (Some <$> all_received h) = Ok lines.
Proof.
  intros Hs Hg Hp Hr Hu Hc Hf Hw Hk Hkw next p0 Hrun Hn Hm.
  destruct (set_up_launched f f' vars g client targets text c now Hs Hg Hp Hr Hu Hc) as [(timeout & a & fn & Hl & Ha) [traces Hcl]].
  subst p0. rewrite Hl in *. destruct (K8sRun.launched_live (S := S) timeout targets now w0 a fn Ha) as [L H0].
  exact (client_completes _ _ _ vars _ _ kept_in _ _ _ _ (K8sRun.in_accepted _) (K8sRun.out_accepted _)
    (K8sRun.background_accepted _) Hf Hw Hk Hkw _ targets traces client start ls p L H0 Hcl ltac:(set_solver +) Hrun Hn Hm).
Qed.
End K8sTrace.

Section KnativeTrace.
Context {B W Q M : Type} `{!TimedFloat64Buckets B} `{!TimeWindow W} `{!WorkQueue Q} `{!SharedMap executor_obj M}.
Context (emptyQueue : Q) (ReadFile : string -> res string) (Unmarshal : string -> res K8s.AutoscalerConfig)
  (load : string -> res (list TraceSpec)) (Create : string -> res unit) (GrpcNewClient : string -> res unit).
Context (sampleOutputFactor : Z) (WriteFails : string -> bool)
  (kept_in : list Request -> list Request) (kept_out kept_writer : list Response -> list Response).
Abbreviation set_up := (set_up (B := B) (W := W) (M := M) emptyQueue ReadFile Unmarshal load Create GrpcNewClient).

(** A Knative gateway that was set up comes from [launch], with the gRPC
    backend. *)
Lemma set_up_knative f f' vars g client targets services now :
  set_up (Ok targets) (Ok services) f = Ok (f', vars, g, client) -> gatewayFramework f = "knative" ->
  vars = Use "grpc" initial_backend_vars /\
  (exists kg timeout, g = GKnative kg /\
     KnativeGateway.launch vars GrpcNewClient timeout services now = Ok (KnativeGateway.Start now kg)) /\
  exists traces, Replay.SetupWithManager (Ok targets) (mkClient traces ∅) = Ok client.
Proof.
  intros Hs Hg. unfold TraceMain.set_up, create in Hs. apply res_bind_ok in Hs as (f1 & H & Hs).
  pose proof (validateFlags_ok f f1 H) as (_ & _ & Hg' & Hk & _). destruct (Hk Hg) as (Hb & _).
  apply res_bind_ok in Hs as (g1 & H1 & Hs). apply res_bind_ok in Hs as (g2 & H2 & Hs).
  apply res_bind_ok in Hs as (c1 & H3 & Hs). apply res_bind_ok in Hs as (c2 & H4 & Hs). injection Hs as _ <- <- <-.
  rewrite Hb in *. split; [done|]. split.
  - unfold new_gateway in H1. rewrite Hg', Hg, decide_True in H1 by done. apply or_fatal_ok in H1. apply (inj Ok) in H1 as <-.
    cbn [gateway_SetUpWithManager] in H2. apply or_fatal_ok, res_bind_ok in H2 as (k & H2 & E2). injection E2 as <-.
    exists k, (int64 (dispatchTimeoutSeconds f1 * Second)). split; [done|]. unfold KnativeGateway.launch. by rewrite H2.
  - apply or_fatal_ok, res_bind_ok in H3 as (traces & _ & H3). apply res_bind_ok in H3 as (? & _ & H3). injection H3 as <-.
    exists traces. by apply or_fatal_ok in H4.
Qed.

(** The trace experiment against the Knative gateway can always end
    well.  Let gateway and client be set up from accepted flags, let every
    deployment of the trace have a service of the same key, let the output
    file be writable, and start both.  Then requests go out over gRPC, and
    from every moment at which main waits in its select and no signal has
    come, whatever senders, gateway, dispatchers and client have done so far,
    there is a continuation in which every invocation of every worker's trace
    is sent, every request is answered, all relays stop, and main returns with
    a complete output file, written from exactly one response per request. *)
Theorem knative_trace_can_complete f f' vars g client targets services now start ls p :
  set_up (Ok targets) (Ok services) f = Ok (f', vars, g, client) -> gatewayFramework f = "knative" ->
  list_to_set (KeyFromObject <$> targets) ⊆ KnativeGateway.service_keys services ->
  sampleOutputFactor <> 0 -> (forall line, WriteFails line = false) -> kept_out [] = [] -> (forall l, kept_writer l `sublist_of` l) ->
  exists kg, g = GKnative kg /\ Backend.framework vars = "grpc" /\
  let next := next (D := KnServiceDispatcher) KnativeGateway.onReqIn KnativeGateway.onReqOut KnativeRun.run_background vars sampleOutputFactor
                WriteFails kept_in kept_out kept_writer in
  let p0 := start_process (KnativeRun.started (KnativeGateway.Start now kg)) (start_senders start client) in
  (run next p0 ls = Some p -> MSignal ∉ ls -> main p = Running ->
   exists ls' p', run next p ls' = Some p' /\ main p' = Finished /\ relays (gw (pipe p')) = ∅ /\
    let h := trace next proc_observe p0 (ls ++ ls') in
    (forall i, count i (received_ids h) = count i (sent_ids h)) /\
    length (all_received h) =
      sum_list ((fun kw => length (Invocations (trace_spec (snd kw)))) <$> map_to_list (workers client)) /\
    exists lines, file p' = Some lines /\ write sampleOutputFactor WriteFails (Some <$> all_received h) = Ok lines).
Proof.
  intros Hs Hg Hk Hf Hw Hkept Hkw.
  destruct (set_up_knative f f' vars g client targets services now Hs Hg) as (-> & (kg & timeout & -> & Hl) & traces & Hcl).
  exists kg. split; [done|]. split; [done|]. intros next p0 Hrun Hn Hm.
  destruct (KnativeRun.knative_launched_live _ _ _ _ _ _ Hl) as [L H0].
  exact (client_completes _ _ _ _ _ _ kept_in _ _ _ _ (KnativeRun.knative_in_accepted _) (KnativeRun.knative_out_accepted _)
    KnativeRun.knative_background_accepted Hf Hw Hkept Hkw _ targets traces client start ls p L H0 Hcl Hk Hrun Hn Hm).
Qed.
End KnativeTrace.

(** * Witnesses *)
Module Demo.
#[local] Existing Instance Decider.Demo.last_buckets.
#[local] Existing Instance Decider.Demo.max_window.
#[local] Existing Instance MapServer.map_client.
#[local] Existing Instance Autoscaler.Demo.list_queue.
#[local] Existing Instance Autoscaler.Demo.two_pods.
Abbreviation demo_gateway := (gateway (B := list f64) (W := Z) (Q := list string) (M := gmap string executor_obj)).

Definition demo_set_up (f : flags) : res (flags * BackendVars * demo_gateway * ReplayClient) :=
  set_up [] (fun _ => Ok "{}") (fun _ => Ok (K8s.mkASConfig None None)) (fun _ => Ok [demo_trace]) (fun _ => Ok tt)
    (fun _ => Ok tt) (Ok Gateway.Demo.listed) (Ok []) f.
Definition demo_flags : flags := mkFlags "k8s" "" "one-time" "one-time.yaml" "config/loader.json" "trace.log" 15.

Lemma trace_flags_witness :
  accepted_flags default_flags /\ demo_set_up default_flags = Panic K8s.nil_dereference /\
  ~ accepted_flags (mkFlags "k8s" "fake" "kpa" "" "config/loader.json" "trace.log" 15).
Proof.
  assert (Hd : accepted_flags default_flags).
  { apply (trace_flags (B := list f64) (W := Z) (Q := list string) (M := gmap string executor_obj) []
      (fun _ => Ok "{}") (fun _ => Ok (K8s.mkASConfig None None)) (fun _ => Ok [demo_trace]) (fun _ => Ok tt)
      (fun _ => Ok tt) (Ok []) default_flags). exists default_flags. reflexivity. }
  split; [exact Hd|]. split.
  - apply (trace_flags (B := list f64) (W := Z) (Q := list string) (M := gmap string executor_obj) []
      (fun _ => Ok "{}") (fun _ => Ok (K8s.mkASConfig None None)) (fun _ => Ok [demo_trace]) (fun _ => Ok tt)
      (fun _ => Ok tt) (Ok []) default_flags); [exact Hd|reflexivity..].
  - intros [_ [[H _]|(_ & [H|H] & _)]]; [discriminate H|discriminate H|exact (H eq_refl)].
Defined.

Definition demo_k8s : K8s.k8sGateway (B := list f64) (W := Z) (Q := list string) (M := gmap string executor_obj) :=
  match demo_set_up demo_flags with Ok (_, _, GK8s g, _) => g | _ => K8s.mkK8s (newGatewayImpl None) 0 ∅ None end.
Definition demo_client : ReplayClient :=
  match demo_set_up demo_flags with Ok (_, _, _, c) => c | _ => mkClient [] ∅ end.
Definition demo_vars : BackendVars := Use "fake" initial_backend_vars.
Definition demo_next := next (D := PodDispatcher (gmap string executor_obj)) K8sRun.onReqIn K8sRun.onReqOut K8sRun.run_background demo_vars 1 (fun _ => false) id id id.
Definition demo_process :=
  start_process (K8sRun.started Autoscaler.Demo.broken 10 (K8s.autoscaler_Run (K8s.Start 10 demo_k8s))) (start_senders 1000 demo_client).

(** One request of the three is sent and accepted. *)
Definition first_steps : list (proc_label (Act := K8sRun.background (S := MapServer.server)) (DL := Dispatcher.label)) :=
  [MSend 0 2000; MSystem (PRelayRequest "default/f" 2001); MSystem (PReceive "default/f")].

Lemma trace_can_complete_witness :
  exists p ls' p' lines, run demo_next demo_process first_steps = Some p /\ run demo_next p ls' = Some p' /\
    main p' = Finished /\ file p' = Some lines /\
    length (all_received (trace demo_next proc_observe demo_process (first_steps ++ ls'))) = 3%nat.
Proof.
  destruct (run demo_next demo_process first_steps) as [p|] eqn:E; [|vm_compute in E; discriminate E].
  assert (Hm : main p = Running).
  { assert (H : (main <$> run demo_next demo_process first_steps) = Some Running) by (vm_compute; reflexivity).
    rewrite E in H. injection H as H. exact H. }
  destruct (trace_can_complete (B := list f64) (W := Z) (Q := list string) (S := MapServer.server)
    (M := gmap string executor_obj) [] (fun _ => Ok "{}") (fun _ => Ok (K8s.mkASConfig None None))
    (fun _ => Ok [demo_trace]) (fun _ => Ok tt) (fun _ => Ok tt) (Ok []) 1 (fun _ => false) id id id
    demo_flags (mkFlags "k8s" "fake" "one-time" "one-time.yaml" "config/loader.json" "trace.log" 15) demo_vars
    demo_k8s demo_client Gateway.Demo.listed "{}" (K8s.mkASConfig None None) Autoscaler.Demo.broken 10 1000 first_steps p)
    as (ls' & p' & Hr & Hm' & _ & _ & Hlen & lines & Hf & _);
    [vm_compute; reflexivity|reflexivity|discriminate|reflexivity|reflexivity|left; reflexivity|discriminate|
     reflexivity|reflexivity|reflexivity|exact E| |exact Hm|].
  { unfold first_steps. repeat (apply not_elem_of_cons; split; [discriminate|]). apply not_elem_of_nil. }
  exists p, ls', p', lines. split; [reflexivity|]. split; [exact Hr|]. split; [exact Hm'|]. split; [exact Hf|].
  etransitivity; [exact Hlen|]. vm_compute. reflexivity.
Defined.

Lemma demo_ready :
  let x := K8sRun.started Autoscaler.Demo.broken 10 (K8s.autoscaler_Run (K8s.Start 10 demo_k8s)) in
  pds_ok x /\ forall i, in_flight i x = 0%nat.
Proof.
  destruct (set_up_launched (B := list f64) (W := Z) (Q := list string) (M := gmap string executor_obj) []
    (fun _ => Ok "{}") (fun _ => Ok (K8s.mkASConfig None None)) (fun _ => Ok [demo_trace]) (fun _ => Ok tt) (fun _ => Ok tt)
    (Ok []) demo_flags (mkFlags "k8s" "fake" "one-time" "one-time.yaml" "config/loader.json" "trace.log" 15) demo_vars
    demo_k8s demo_client Gateway.Demo.listed "{}" (K8s.mkASConfig None None) 10) as [(timeout & a & fn & Hl & Ha) _];
    [vm_compute; reflexivity|reflexivity|discriminate|reflexivity|reflexivity|left; reflexivity|].
  rewrite Hl.
  destruct (K8sRun.launched_live (S := MapServer.server) timeout Gateway.Demo.listed 10 Autoscaler.Demo.broken a fn Ha) as [L H0].
  split; [exact (live_pds_ok _ _ _ L)|]. intros i.
  pose proof (in_flight_pending i (K8sRun.started Autoscaler.Demo.broken 10
    (K8s.launched (M := gmap string executor_obj) timeout Gateway.Demo.listed 10 a fn))). lia.
Qed.

(** A signal while two requests are left, and Close. *)
Definition signalled_steps : list (proc_label (Act := K8sRun.background (S := MapServer.server)) (DL := Dispatcher.label)) :=
  first_steps ++ [MSignal; MSelectDone; MCancel; MClose].
Lemma trace_run_shutdown_witness :
  exists p s, run demo_next demo_process signalled_steps = Some p /\ senders p !! 0%nat = Some s /\
    forall now, proc_step K8sRun.onReqIn K8sRun.onReqOut K8sRun.run_background demo_vars 1 (fun _ => false) id id id p
                  (MSend 0 now) = Some (Panic send_on_closed).
Proof.
  destruct (run demo_next demo_process signalled_steps) as [p|] eqn:E; [|vm_compute in E; discriminate E].
  assert (H : (main <$> run demo_next demo_process signalled_steps) = Some Closed) by (vm_compute; reflexivity).
  assert (H2 : ((fun p => length (specs_left p)) <$> (run demo_next demo_process signalled_steps ≫= fun p => senders p !! 0%nat))
    = Some 2%nat) by (vm_compute; reflexivity).
  rewrite E in H, H2. injection H as Hm. cbn [mbind option_bind] in H2.
  destruct (senders p !! 0%nat) as [s|] eqn:Es; [|discriminate H2]. injection H2 as Hl.
  exists p, s. split; [reflexivity|]. split; [exact Es|].
  destruct (trace_run_shutdown K8sRun.onReqIn K8sRun.onReqOut K8sRun.run_background demo_vars 1 (fun _ => false) id id id
    (K8sRun.started Autoscaler.Demo.broken 10 (K8s.autoscaler_Run (K8s.Start 10 demo_k8s))) (start_senders 1000 demo_client) signalled_steps p)
    as (_ & _ & _ & _ & Hc); [| |reflexivity|exact E|].
  - exact (proj1 demo_ready).
  - exact (proj2 demo_ready).
  - destruct (Hc Hm) as [Hp _]. intros now. apply (Hp 0%nat s now Es). intros Hn. rewrite Hn in Hl. discriminate Hl.
Defined.

(** The same trace against a Knative service. *)
Definition kn_flags : flags := mkFlags "knative" "" "kpa" "kpa.yaml" "config/loader.json" "trace.log" 15.
Definition kn_accepted : flags := mkFlags "knative" "grpc" "" "" "config/loader.json" "trace.log" 15.
Definition kn_set_up : res (flags * BackendVars * demo_gateway * ReplayClient) :=
  set_up [] (fun _ => Ok "{}") (fun _ => Ok (K8s.mkASConfig None None)) (fun _ => Ok [demo_trace]) (fun _ => Ok tt)
    (fun _ => Ok tt) (Ok Gateway.Demo.listed) (Ok Pipeline.Demo.kn_services) kn_flags.
Definition kn_gateway : KnativeGateway.knativeGateway :=
  match kn_set_up with Ok (_, _, GKnative g, _) => g | _ => KnativeGateway.NewKnativeGateway 0 end.
Definition kn_client : ReplayClient := match kn_set_up with Ok (_, _, _, c) => c | _ => mkClient [] ∅ end.
Definition kn_next := next (D := KnServiceDispatcher) KnativeGateway.onReqIn KnativeGateway.onReqOut KnativeRun.run_background
  Pipeline.Demo.kn_vars 1 (fun _ => false) id id id.
Definition kn_process := start_process (KnativeRun.started (KnativeGateway.Start 10 kn_gateway)) (start_senders 1000 kn_client).
Definition kn_first_steps : list (proc_label (Act := Empty_set) (DL := kn_label)) :=
  [MSend 0 2000; MSystem (PRelayRequest "default/f" 2001); MSystem (PReceive "default/f");
   MSystem (PDispatch "default/f" (KnStart 0 2002))].

Lemma knative_trace_can_complete_witness :
  exists p ls' p' lines, run kn_next kn_process kn_first_steps = Some p /\ run kn_next p ls' = Some p' /\
    main p' = Finished /\ file p' = Some lines /\
    length (all_received (trace kn_next proc_observe kn_process (kn_first_steps ++ ls'))) = 3%nat.
Proof.
  destruct (run kn_next kn_process kn_first_steps) as [p|] eqn:E; [|vm_compute in E; discriminate E].
  assert (Hm : main p = Running).
  { assert (H : (main <$> run kn_next kn_process kn_first_steps) = Some Running) by (vm_compute; reflexivity).
    rewrite E in H. injection H as H. exact H. }
  destruct (knative_trace_can_complete (B := list f64) (W := Z) (Q := list string) (M := gmap string executor_obj)
    [] (fun _ => Ok "{}") (fun _ => Ok (K8s.mkASConfig None None))
    (fun _ => Ok [demo_trace]) (fun _ => Ok tt) (fun _ => Ok tt) 1 (fun _ => false) id id id
    kn_flags kn_accepted Pipeline.Demo.kn_vars (GKnative kn_gateway) kn_client Gateway.Demo.listed Pipeline.Demo.kn_services
    10 1000 kn_first_steps p) as (kg & Ekg & _ & H);
    [vm_compute; reflexivity|reflexivity| |discriminate|reflexivity|reflexivity|reflexivity|].
  { intros k Hk. vm_compute in Hk |- *. exact Hk. }
  assert (Ek : kn_gateway = kg) by exact (f_equal (fun x => match x with GKnative g => g | _ => kn_gateway end) Ekg).
  subst kg.
  destruct (H E) as (ls' & p' & Hr & Hm' & _ & _ & Hlen & lines & Hf & _); [|exact Hm|].
  { unfold kn_first_steps. repeat (apply not_elem_of_cons; split; [discriminate|]). apply not_elem_of_nil. }
  exists p, ls', p', lines. split; [reflexivity|]. split; [exact Hr|]. split; [exact Hm'|]. split; [exact Hf|].
  etransitivity; [exact Hlen|]. vm_compute. reflexivity.
Defined.
End Demo.
