(* ===== verification/FairTrace.v ===== *)
(** The trace experiment under fairness: in every behaviour in which the
    senders' timers fire, the main goroutine, the receiver and the writer are
    scheduled and no panic ends the process, main returns with a complete
    output file; and every request has been answered, if the grace period was
    long enough. *)
From S2P Require Import Prelude Fair F64 KdUtil Workload Handler Backend Metric Decider Scaler Autoscaler Dispatcher Ksvc Dispatch Gateway Pipeline Replay TraceMain.
Import Selection Types Conversion.

(** How many phases the main goroutine has left. *)
Definition phase_left (m : phase) : nat :=
  match m with Running => 5 | Grace => 4 | Stopping => 3 | Cancelled => 2 | Closed => 1 | Finished => 0 end.

Section FairTrace.
Context {A Act : Type} (onReqIn : A -> Request -> res A) (onReqOut : A -> Response -> res A) (act : Act -> A -> option A).
Context {D DL : Type} `{!RequestDispatcher D DL} (vars : BackendVars).
Context (sampleOutputFactor : Z) (WriteFails : string -> bool).
Context (kept_in : list Request -> list Request) (kept_out kept_writer : list Response -> list Response).
Abbreviation pstep := (@step A Act onReqIn onReqOut act D DL _ vars).
Abbreviation pnext := (@TraceMain.next A Act onReqIn onReqOut act D DL _ vars sampleOutputFactor WriteFails kept_in kept_out kept_writer).
Abbreviation psystem := (@system_step A Act onReqIn onReqOut act D DL _ vars).
Abbreviation plabel := (proc_label (Act := Act) (DL := DL)).
Implicit Types p : process (A := A) (D := D).

(** ** The tasks *)
Definition sends (i : nat) (l : plabel) : Prop := exists now, l = MSend i now.
Definition main_goes_on (l : plabel) : Prop :=
  match l with MSelectDone | MSelectFinished | MGraceOver | MCancel | MClose | MDone => True | _ => False end.
Definition receives (l : plabel) : Prop := exists now, l = MRecv now.
(** Timers fire, and every goroutine of the client and main are scheduled. *)
Definition process_fair (b : behaviour pnext) : Prop :=
  (forall i, weakly_fair _ (sends i) b) /\ weakly_fair _ (fun l => l = MFinishSend) b /\
  weakly_fair _ main_goes_on b /\ weakly_fair _ receives b /\ weakly_fair _ (fun l => l = MRecvEnd) b /\
  weakly_fair _ (fun l => l = MWrite) b /\ weakly_fair _ (fun l => l = MWriteEnd) b.

(** ** What a step does *)
Lemma next_proc_step p l p' : pnext p l = Some p' ->
  proc_step onReqIn onReqOut act vars sampleOutputFactor WriteFails kept_in kept_out kept_writer p l = Some (Ok p') /\ main p <> Finished.
Proof.
  unfold TraceMain.next. destruct (proc_step _ _ _ _ _ _ _ _ _ p l) as [[p1|e|e|e]|] eqn:E; try done. intros [= <-].
  split; [done|]. intros Hf. unfold proc_step in E. by rewrite decide_True in E.
Qed.
Definition with_pipe (x : pipeline (A := A) (D := D)) (tw : list Response) (ret sg : bool) p : process :=
  mkProcess x (senders p) (finishSend p) (main p) tw ret (wr p) (file p) sg.
Definition cancelled (x : pipeline (A := A) (D := D)) : pipeline := mkPipe (gw x) (pds x) true.
(** What a step needs and makes, by its label. *)
Definition effect p (l : plabel) p' : Prop :=
  match l with
  | MSystem l => psystem p l = Some (Ok p')
  | MSend i now => send_step onReqIn onReqOut act vars p i now = Some (Ok p')
  | MFinishSend => all_sent (senders p) /\
      p' = mkProcess (pipe p) (senders p) true (main p) (toWriter p) (recv_returned p) (wr p) (file p) (signalled p)
  | MSignal => p' = with_pipe (cancelled (pipe p)) (toWriter p) (recv_returned p) true p
  | MSelectDone => main p = Running /\ ctx_cancelled (pipe p) = true /\ p' = set_main Stopping p
  | MSelectFinished => main p = Running /\ finishSend p = true /\ p' = set_main Grace p
  | MGraceOver => main p = Grace /\ p' = set_main Stopping p
  | MCancel => main p = Stopping /\ p' = set_main Cancelled (set_pipe (cancelled (pipe p)) p)
  | MClose => main p = Cancelled /\ p' = set_main Closed (set_pipe (close_pipe kept_in kept_out (pipe p)) p)
  | MRecv now => exists r rest x, externalOutput (gw (pipe p)) = r :: rest /\ pstep (pipe p) PClientRecv = Some x /\
      recv_returned p = false /\ p' = with_pipe x (toWriter p ++ [recv_one now r]) false (signalled p) p
  | MRecvEnd => main p = Closed /\ externalOutput (gw (pipe p)) = [] /\ recv_returned p = false /\
      p' = with_pipe (pipe p) (kept_writer (toWriter p)) true (signalled p) p
  | MWrite => exists r rest w, toWriter p = r :: rest /\ file p = None /\
      p' = mkProcess (pipe p) (senders p) (finishSend p) (main p) rest (recv_returned p) w None (signalled p)
  | MWriteEnd => exists lines, toWriter p = [] /\ file p = None /\ recv_returned p = true /\
      p' = mkProcess (pipe p) (senders p) (finishSend p) (main p) [] true (wr p) (Some lines) (signalled p)
  | MDone => main p = Closed /\ is_Some (file p) /\ p' = set_main Finished p
  end.
Lemma next_effect p l p' : pnext p l = Some p' -> main p <> Finished /\ effect p l p'.
Proof.
  intros [Hs Hm]%next_proc_step. split; [done|]. unfold proc_step in Hs. rewrite decide_False in Hs by done. cbv zeta in Hs.
  destruct l as [l|i now| | | | | | | |now| | | | ]; cbn [effect]; try done;
    repeat match goal with
    | H : (if ?b then _ else _) = _ |- _ => let E := fresh "E" in destruct b eqn:E; [|done]
    | H : _ && _ = true |- _ => apply andb_true_iff in H as [? ?]
    | H : bool_decide _ = true |- _ => apply bool_decide_eq_true in H
    | H : negb _ = true |- _ => apply negb_true_iff in H
    | H : closed p = true |- _ => unfold closed in H
    end; try (by simplify_eq/=).
  - destruct (externalOutput (gw (pipe p))) as [|r rest] eqn:Er; [done|]. apply bind_Some in Hs as (x & Hx & Hs).
    destruct (recv_returned p) eqn:Er'; [done|]. cbn in Hs. simplify_eq/=. by exists r, rest, x.
  - destruct (toWriter p) as [|r rest] eqn:Et; [done|]. destruct (file p) eqn:Ef; [done|].
    injection Hs as Hs. apply res_bind_ok in Hs as (w & Hw & Hs). injection Hs as <-. by exists r, rest, w.
  - destruct (toWriter p) as [|r rest] eqn:Et; [|done]. destruct (file p) eqn:Ef; [done|].
    destruct (recv_returned p); [|done]. destruct (WriteFails _); [done|]. injection Hs as <-. by eexists.
Qed.

Lemma system_effect p l p' : psystem p l = Some (Ok p') -> exists x, p' = set_pipe x p /\ pstep (pipe p) l = Some x /\
  Pipeline.observe (pipe p) l = [] /\ l <> PCancel /\
  (main p = Closed -> externalOutput (gw x) = externalOutput (gw (pipe p))).
Proof.
  intros Hs. destruct (system_step_ok _ _ _ _ p l p' Hs) as (x & Hx & -> & Ho & Hl). exists x. split_and!; try done.
  intros Hm. unfold system_step, closed in Hs. rewrite bool_decide_true in Hs by done. cbv zeta in Hs.
  destruct l as [key req|key now|key|key|key l|key t| |y| |key]; try done.
  - destruct (relays (gw (pipe p)) !! key) as [v|] eqn:Ev; [|done].
    destruct (externalInputs (gw (pipe p)) !! key) as [[|req rest]|] eqn:E; try done. case_decide as Ht; [|done].
    cbn [step Gateway.step] in Hx. unfold relay_request in Hx. rewrite Ev, E in Hx.
    destruct (internalInputBuffers (gw (pipe p)) !! key); [|done]. rewrite decide_True in Hx by done.
    destruct (onReqIn (owner (gw (pipe p))) req); simplify_eq/=. done.
  - destruct (relays (gw (pipe p)) !! key) as [v|]; [|done]. destruct (internalOutputBuffers (gw (pipe p)) !! key) as [[|r rest]|]; try done.
    by destruct (onReqOut (owner (gw (pipe p))) r).
  - cbn [step] in Hx. apply bind_Some in Hx as (d & _ & Hx). apply bind_Some in Hx as ([req g] & Hr & Hx).
    apply bind_Some in Hx as (d' & _ & Hx). unfold dispatcher_recv in Hr.
    destruct (internalInputBuffers (gw (pipe p)) !! key) as [[|]|]; simplify_eq/=. done.
  - cbn [step] in Hx. apply bind_Some in Hx as (d & _ & Hx). apply bind_Some in Hx as (d' & _ & Hx). by simplify_eq/=.
  - cbn [step] in Hx. apply bind_Some in Hx as (d & _ & Hx). apply bind_Some in Hx as ([r d'] & _ & Hx).
    apply bind_Some in Hx as (g & Hr & Hx). unfold dispatcher_send in Hr.
    destruct (internalOutputBuffers (gw (pipe p)) !! key); simplify_eq/=. done.
  - cbn [step] in Hx. apply bind_Some in Hx as (a & _ & Hx). by simplify_eq/=.
  - cbn [step] in Hx. destruct (ctx_cancelled (pipe p)); [|done]. destruct (relays (gw (pipe p)) !! key); by simplify_eq/=.
Qed.

(** The main goroutine moves by its own labels, and forward. *)
Lemma main_effect p l p' : pnext p l = Some p' ->
  ~ main_goes_on l /\ main p' = main p \/ (phase_left (main p') < phase_left (main p))%nat.
Proof.
  intros [_ He]%next_effect. destruct l as [l|i now| | | | | | | |now| | | | ]; cbn [effect] in He;
    try (left; split; [by intros []|]).
  - apply system_effect in He as (x & -> & _). done.
  - apply send_step_ok in He as (s & spec & rest & x & _ & _ & _ & _ & ->). done.
  - by destruct He as [_ ->].
  - by subst.
  - right. destruct He as (-> & _ & ->). simpl. lia.
  - right. destruct He as (-> & _ & ->). simpl. lia.
  - right. destruct He as (-> & ->). simpl. lia.
  - right. destruct He as (-> & ->). simpl. lia.
  - right. destruct He as (-> & ->). simpl. lia.
  - by destruct He as (r & rest & x & _ & _ & _ & ->).
  - by destruct He as (_ & _ & _ & ->).
  - by destruct He as (r & rest & w & _ & _ & ->).
  - by destruct He as (lines & _ & _ & _ & ->).
  - right. destruct He as (-> & _ & ->). simpl. lia.
Qed.

(** Senders only send, and nothing is unsent or forgotten. *)
Lemma senders_effect p l p' : pnext p l = Some p' ->
  (forall i, ~ sends i l) /\ senders p' = senders p /\ sent_ids (proc_observe p l) = [] \/
  (exists i now, l = MSend i now) /\ length (sent_ids (proc_observe p l)) = 1%nat /\
    S (total_left (senders p')) = total_left (senders p).
Proof.
  intros [_ He]%next_effect. destruct l as [l|i now| | | | | | | |now| | | | ]; cbn [effect] in He.
  2: { right. apply send_step_ok in He as (s & spec & rest & x & Es & El & _ & _ & ->). split; [by eexists _, _|].
    cbn [proc_observe]. rewrite Es, El. split; [done|]. cbn [senders].
    pose proof (total_left_insert (senders p) i s (mkSender (sender_worker s) (senderID s) (Datatypes.S (reqID s))) Es) as Ht'.
    destruct s as [w k n]. cbn [sender_worker senderID reqID] in *.
    rewrite (specs_left_next w k n spec rest El), El in Ht'. simpl in Ht'. unfold total_left in *. lia. }
  all: left; split; [by intros i [? ?]|].
  - by apply system_effect in He as (x & -> & _).
  - by destruct He as [_ ->].
  - by subst.
  - by destruct He as (_ & _ & ->).
  - by destruct He as (_ & _ & ->).
  - by destruct He as (_ & ->).
  - by destruct He as (_ & ->).
  - by destruct He as (_ & ->).
  - destruct He as (r & rest & x & Er & _ & _ & ->). cbn [proc_observe]. by rewrite Er.
  - by destruct He as (_ & _ & _ & ->).
  - by destruct He as (r & rest & w & _ & _ & ->).
  - by destruct He as (lines & _ & _ & _ & ->).
  - by destruct He as (_ & _ & ->).
Qed.

(** The end of the context and of the sends is for good. *)
Lemma flags_effect p l p' : pnext p l = Some p' ->
  (finishSend p = true -> finishSend p' = true) /\ (ctx_cancelled (pipe p) = true -> ctx_cancelled (pipe p') = true) /\
  (signalled p = true -> signalled p' = true).
Proof.
  intros [_ He]%next_effect. destruct l as [l|i now| | | | | | | |now| | | | ]; cbn [effect] in He.
  - apply system_effect in He as (x & -> & Hx & _ & Hl & _). cbn. by rewrite (step_ctx _ _ _ _ _ l x Hl Hx).
  - apply send_step_ok in He as (s & spec & rest & x & _ & _ & _ & Hx & ->). cbn.
    assert (ctx_cancelled x = ctx_cancelled (pipe p)) as -> by (by eapply step_ctx; [|exact Hx]). done.
  - by destruct He as [_ ->].
  - by subst.
  - by destruct He as (_ & _ & ->).
  - by destruct He as (_ & _ & ->).
  - by destruct He as (_ & ->).
  - by destruct He as (_ & ->).
  - by destruct He as (_ & ->).
  - destruct He as (r & rest & x & Er & Hx & _ & ->). cbn.
    assert (ctx_cancelled x = ctx_cancelled (pipe p)) as -> by (by eapply step_ctx; [|exact Hx]). done.
  - by destruct He as (_ & _ & _ & ->).
  - by destruct He as (r & rest & w & _ & _ & ->).
  - by destruct He as (lines & _ & _ & _ & ->).
  - by destruct He as (_ & _ & ->).
Qed.

(** * The end of every fair behaviour *)
Context `{!RequestDispatcherLaws D DL}.
Context (keys : gset string) (I : A -> Prop).
Hypothesis in_ok : forall a req, I a -> Target req ∈ keys -> exists a', onReqIn a req = Ok a' /\ I a'.
Hypothesis out_ok : forall a r, I a -> Target (Source r) ∈ keys -> exists a', onReqOut a r = Ok a' /\ I a'.
Hypothesis act_ok : forall x a a', I a -> act x a = Some a' -> I a'.
Hypothesis factor_ok : sampleOutputFactor <> 0.
Hypothesis no_fail : forall line, WriteFails line = false.
Hypothesis writer_kept : forall l, kept_writer l `sublist_of` l.

(** While main waits in its select and the context lasts, the senders can
    send. *)
Definition can_send p : Prop := main p = Running -> ctx_cancelled (pipe p) = false -> going keys I p.
Lemma can_send_step p l p' : pnext p l = Some p' -> can_send p -> can_send p'.
Proof.
  intros Hn Hg Hm Hc.
  assert (main p = Running) as Hm0.
  { destruct (main_effect p l p' Hn) as [[_ <-]|H]; [done|]. rewrite Hm in H. destruct (main p); simpl in H; lia. }
  assert (ctx_cancelled (pipe p) = false) as Hc0.
  { apply not_true_iff_false. intros E. apply (flags_effect p l p' Hn) in E. congruence. }
  assert (l <> MSignal) as Hl.
  { intros ->. apply next_effect in Hn as [_ He]. cbn in He. subst p'. cbn in Hc. done. }
  destruct (good_start_step onReqIn onReqOut act vars sampleOutputFactor WriteFails kept_in kept_out kept_writer keys I in_ok out_ok act_ok
    (senders p) p [] l p' Hl) as [H _]; [|exact Hn|by apply H].
  split; [intros _; by apply Hg|done].
Qed.

Section Behaviour.
Context (b : behaviour pnext).
Hypothesis b_fair : process_fair b.
Hypothesis b_send : can_send (state_at b 0).
Implicit Types n k : nat.
Abbreviation at_ n := (state_at b n).

Lemma b_can_send n : can_send (at_ n).
Proof. revert n. apply behaviour_invariant; [|done]. intros n l p' _ H Hn. exact (can_send_step _ l p' Hn H). Qed.

(** What a step of the process keeps, a moment keeps. *)
Lemma next_moment (P Q : process (A := A) (D := D) -> Prop) n :
  (forall l p', pnext (at_ n) l = Some p' -> P (at_ n) -> P p' \/ Q p') -> P (at_ n) -> P (at_ (S n)) \/ Q (at_ (S n)).
Proof.
  intros H HP. destruct (label_at b n) as [l|] eqn:E.
  - apply (H l); [|done]. by apply behaviour_step.
  - left. by rewrite (behaviour_stutter _ b n E).
Qed.

(** A phase that main can always leave. *)
Lemma phase_leads m (P : process (A := A) (D := D) -> Prop) :
  (forall p l p', pnext p l = Some p' -> P p -> P p') ->
  (forall p, main p = m -> P p -> enabled pnext main_goes_on p) ->
  leads (fun n => main (at_ n) = m /\ P (at_ n)) (fun n => (phase_left (main (at_ n)) < phase_left m)%nat).
Proof.
  intros HP He. apply (weak_leads _ b main_goes_on).
  - apply b_fair.
  - intros n. apply (next_moment (fun p => main p = m /\ P p) (fun p => (phase_left (main p) < phase_left m)%nat)).
    intros l p' Hn [<- HPn]. destruct (main_effect _ l p' Hn) as [[_ ->]|H]; [left|by right]. split; [done|]. exact (HP (at_ n) l p' Hn HPn).
  - intros n [Hm HPn]. by apply He.
  - intros n l [<- _] E Hl. pose proof (behaviour_step _ b n l E) as Hn. by destruct (main_effect _ l _ Hn) as [[? _]|H].
Qed.

Lemma goes_on_enabled p l p' : pnext p l = Some p' -> main_goes_on l -> enabled pnext main_goes_on p.
Proof. intros H Hl. by exists l, p'. Qed.
Lemma select_enabled p : main p = Running -> ctx_cancelled (pipe p) = true \/ finishSend p = true -> enabled pnext main_goes_on p.
Proof.
  intros Hm [H|H]; [apply (goes_on_enabled p MSelectDone (set_main Stopping p))|apply (goes_on_enabled p MSelectFinished (set_main Grace p))];
    try done; unfold TraceMain.next, proc_step; rewrite decide_False by congruence; by rewrite bool_decide_true, H by done.
Qed.
Lemma later_enabled p : (2 <= phase_left (main p) <= 4)%nat -> enabled pnext main_goes_on p.
Proof.
  intros H.
  assert (main p = Grace \/ main p = Stopping \/ main p = Cancelled) as Hm by (destruct (main p); simpl in H; first [lia|auto]).
  destruct Hm as [Hm|[Hm|Hm]].
  - apply (goes_on_enabled p MGraceOver (set_main Stopping p)); [|done].
    unfold TraceMain.next, proc_step. rewrite decide_False by congruence. by rewrite bool_decide_true.
  - apply (goes_on_enabled p MCancel (set_main Cancelled (set_pipe (cancelled (pipe p)) p))); [|done].
    unfold TraceMain.next, proc_step. rewrite decide_False by congruence. by rewrite decide_True.
  - apply (goes_on_enabled p MClose (set_main Closed (set_pipe (close_pipe kept_in kept_out (pipe p)) p))); [|done].
    unfold TraceMain.next, proc_step. rewrite decide_False by congruence. by rewrite bool_decide_true.
Qed.

Lemma finish_enabled p : main p <> Finished -> all_sent (senders p) -> finishSend p = false ->
  enabled pnext (fun l => l = MFinishSend) p.
Proof.
  intros Hm Ha Hf. eexists MFinishSend, _. split; [done|]. unfold TraceMain.next, proc_step. rewrite decide_False by done.
  rewrite bool_decide_true by done. by rewrite Hf.
Qed.

(** Main leaves its select. *)
Definition selecting p : Prop := main p = Running /\ (ctx_cancelled (pipe p) = true \/ finishSend p = true).
Definition left_select p : Prop := main p <> Running.
Lemma select_leads : leads (fun n => selecting (at_ n)) (fun n => left_select (at_ n)).
Proof.
  eapply leads_trans; [apply (phase_leads Running (fun p => ctx_cancelled (pipe p) = true \/ finishSend p = true))|].
  - intros p l p' Hn H. destruct (flags_effect p l p' Hn) as (? & ? & _). tauto.
  - apply select_enabled.
  - apply leads_impl. intros n H E. rewrite E in H. simpl in H. lia.
Qed.

(** What becomes of the state while main waits: it goes on, or some sender
    sent, or main can go on. *)
Definition waiting_with (ss : list sender) p : Prop :=
  main p = Running /\ ctx_cancelled (pipe p) = false /\ finishSend p = false /\ senders p = ss.
Definition advanced (ss : list sender) p : Prop :=
  left_select p \/ selecting p \/ (total_left (senders p) < total_left ss)%nat.
Lemma select_step ss p l p' : pnext p l = Some p' -> waiting_with ss p -> (waiting_with ss p' /\ l <> MFinishSend /\ forall i, ~ sends i l) \/ advanced ss p'.
Proof.
  intros Hn (Hm & Hc & Hf & <-). unfold advanced, left_select, selecting, waiting_with.
  destruct (decide (main p' = Running)) as [Hm'|]; [|right; by left].
  destruct (ctx_cancelled (pipe p')) eqn:Hc'; [right; right; left; by auto|].
  destruct (finishSend p') eqn:Hf'; [right; right; left; by auto|].
  destruct (senders_effect p l p' Hn) as [(Hl & -> & _)|(_ & _ & Ht)]; [|right; right; right; lia].
  left. split_and!; try done. intros ->. apply next_effect in Hn as [_ [_ ->]]. done.
Qed.
Lemma senders_lead ss : leads (fun n => waiting_with ss (at_ n)) (fun n => advanced ss (at_ n)).
Proof.
  assert (forall T : plabel -> Prop, weakly_fair _ T b -> (forall l, T l -> l = MFinishSend \/ exists i, sends i l) ->
    (forall n, waiting_with ss (at_ n) -> enabled pnext T (at_ n)) ->
    leads (fun n => waiting_with ss (at_ n)) (fun n => advanced ss (at_ n))) as Hrule.
  { intros T Hf HT He. apply (weak_leads _ b T); [done| | |].
    - intros n. apply (next_moment (waiting_with ss) (advanced ss)). intros l p' Hn Hw.
      destruct (select_step ss _ l p' Hn Hw) as [[? _]|?]; auto.
    - exact He.
    - intros n l Hw E Hl. destruct (select_step ss _ l _ (behaviour_step _ b n l E) Hw) as [(_ & H1 & H2)|?]; [|done].
      destruct (HT l Hl) as [->|[i Hi]]; [done|by destruct (H2 i)]. }
  destruct b_fair as (Hsend & Hfin & _). destruct (decide (total_left ss = 0%nat)) as [Hz|Hz].
  - apply (Hrule (fun l => l = MFinishSend)); [done|by left|]. intros n (Hm & _ & Hf & Hs).
    apply finish_enabled; [congruence|rewrite Hs; by apply total_left_zero|done].
  - destruct (total_left_pos ss) as (i & s & spec & rest & Es & El); [lia|].
    apply (Hrule (sends i)); [done|by eauto|]. intros n (Hm & Hc & _ & Hs).
    destruct (send_one onReqIn onReqOut act vars sampleOutputFactor WriteFails kept_in kept_out kept_writer keys I in_ok out_ok act_ok
      (at_ n) i s spec rest (b_can_send n Hm Hc) Hm) as (p' & Hn & _); [by rewrite Hs|done|].
    exists (MSend i 0), p'. split; [by eexists|done].
Qed.
Lemma select_left : leads (fun n => main (at_ n) = Running) (fun n => left_select (at_ n)).
Proof.
  assert (forall k, leads (fun n => total_left (senders (at_ n)) = k) (fun n => left_select (at_ n) \/ selecting (at_ n))) as Hk.
  { apply leads_rank. intros k n Hk.
    assert (left_select (at_ n) \/ selecting (at_ n) \/ waiting_with (senders (at_ n)) (at_ n)) as H.
    { unfold left_select, selecting, waiting_with. destruct (decide (main (at_ n) = Running)); [|by left].
      destruct (ctx_cancelled (pipe (at_ n))), (finishSend (at_ n)); auto 7. }
    destruct H as [H|[H|H]]; [exists n; auto|exists n; auto|].
    destruct (senders_lead _ n H) as (m & Hm & [Ha|[Ha|Ha]]); exists m; (split; [done|]); [auto|auto|].
    right. eexists. split; [|reflexivity]. lia. }
  intros n _. destruct (Hk _ n eq_refl) as (m & Hm & [H|H]); [by exists m|].
  destruct (select_leads m H) as (m' & Hm' & H'). exists m'. split; [lia|done].
Qed.

(** ... and gets to Close. *)
Lemma leaves_leads : leads (fun n => left_select (at_ n)) (fun n => (phase_left (main (at_ n)) <= 1)%nat).
Proof.
  assert (forall k, leads (fun n => phase_left (main (at_ n)) = k /\ (k <= 4)%nat) (fun n => (phase_left (main (at_ n)) <= 1)%nat)) as Hk.
  { apply (leads_rank (fun k n => phase_left (main (at_ n)) = k /\ (k <= 4)%nat)). intros k n [Hp Hle].
    destruct (decide (k <= 1)%nat); [exists n; split; [lia|left; lia]|].
    destruct (phase_leads (main (at_ n)) (fun _ => True)) with n as (m & Hm & H); [done| |done|].
    - intros p Hm _. apply later_enabled. rewrite Hm. lia.
    - exists m. split; [done|]. right. exists (phase_left (main (at_ m))). lia. }
  intros n H. apply (Hk (phase_left (main (at_ n))) n). split; [reflexivity|]. unfold left_select in H. destruct (main (at_ n)); simpl; first [done|lia].
Qed.

(** After Close the receiver, the writer and main each have a finite number of
    steps left, and one of them can always take the next. *)
Definition closing_left p : nat :=
  match file p with
  | Some _ => 0
  | None => (if recv_returned p then 1 else 2 + 2 * length (externalOutput (gw (pipe p)))) + length (toWriter p)
  end%nat.
Definition client_state p := (file p, recv_returned p, toWriter p, externalOutput (gw (pipe p))).
Definition client_label (l : plabel) : bool :=
  match l with MRecv _ | MRecvEnd | MWrite | MWriteEnd | MDone => true | _ => false end.
Definition file_last p : Prop := is_Some (file p) -> recv_returned p = true.
Definition closing p : Prop := main p = Closed /\ file_last p.

Lemma closing_step p l p' : pnext p l = Some p' -> closing p ->
  main p' = Finished \/ closing p' /\
    ((closing_left p' < closing_left p)%nat \/ client_label l = false /\ client_state p' = client_state p).
Proof.
  intros Hn [Hm Hfl]. destruct (next_effect p l p' Hn) as [_ He]. unfold closing, closing_left, file_last, client_state in *.
  destruct l as [l|i now| | | | | | | |now| | | | ]; cbn [effect] in He.
  - apply system_effect in He as (x & -> & _ & _ & _ & Ho). right. split; [done|]. right. cbn. by rewrite Ho.
  - apply send_step_ok in He as (s & spec & rest & x & _ & _ & Hc & _). unfold closed in Hc. by rewrite bool_decide_true in Hc.
  - destruct He as [_ ->]. right. split; [done|]. by right.
  - subst. right. split; [done|]. by right.
  - destruct He as (? & _). congruence.
  - destruct He as (? & _). congruence.
  - destruct He as (? & _). congruence.
  - destruct He as (? & _). congruence.
  - destruct He as (? & _). congruence.
  - destruct He as (r & rest & x & Er & Hx & Hret & ->). right. cbn in Hx. unfold ResponseChan_recv in Hx. rewrite Er in Hx.
    cbn in Hx. simplify_eq/=. destruct (file p) as [f|]; [by rewrite Hfl in Hret by eauto|]. split; [split; [done|by intros [? ?]]|].
    left. rewrite Hret, Er, length_app. simpl. lia.
  - destruct He as (_ & Er & Hret & ->). right. cbn. destruct (file p) as [f|]; [by rewrite Hfl in Hret by eauto|].
    split; [done|]. left. rewrite Hret, Er.
    pose proof (sublist_length _ _ (writer_kept (toWriter p))). simpl. lia.
  - destruct He as (r & rest & w & Et & Hf & ->). right. cbn. split; [split; [done|by intros [? ?]]|]. left. rewrite Hf, Et. simpl. lia.
  - destruct He as (lines & Et & Hf & Hret & ->). right. cbn. split; [done|]. left. rewrite Hf, Hret, Et. simpl. lia.
  - left. by destruct He as (_ & _ & ->).
Qed.

(** The next step of the client. *)
Definition client_task (st : option (list string) * bool * list Response * list Response) : plabel -> Prop :=
  match st with
  | (Some _, _, _, _) => main_goes_on
  | (None, true, [], _) => fun l => l = MWriteEnd
  | (None, true, _ :: _, _) => fun l => l = MWrite
  | (None, false, _, []) => fun l => l = MRecvEnd
  | (None, false, _, _ :: _) => receives
  end.
Lemma client_task_fair st : weakly_fair _ (client_task st) b.
Proof. destruct b_fair as (_ & _ & ? & ? & ? & ? & ?). destruct st as [[[[f|] []] [|r q]] [|r' q']]; done. Qed.
Lemma client_task_enabled p : main p = Closed -> enabled pnext (client_task (client_state p)) p.
Proof.
  intros Hm. unfold client_state. destruct (file p) as [f|] eqn:Ef; [|destruct (recv_returned p) eqn:Er;
    [destruct (toWriter p) as [|r q] eqn:Et|destruct (externalOutput (gw (pipe p))) as [|r q] eqn:Eo]].
  - exists MDone, (set_main Finished p). split; [done|]. unfold TraceMain.next, proc_step. rewrite decide_False by congruence.
    rewrite bool_decide_true by done. by rewrite bool_decide_true by (rewrite Ef; by eexists).
  - eexists MWriteEnd, _. split; [done|]. unfold TraceMain.next, proc_step. rewrite decide_False by congruence.
    rewrite Et, Ef, Er, no_fail. reflexivity.
  - destruct (write_one_ok sampleOutputFactor WriteFails (wr p) r factor_ok no_fail) as [w Hw].
    eexists MWrite, _. split; [done|]. unfold TraceMain.next, proc_step. rewrite decide_False by congruence.
    rewrite Et, Ef, Hw. reflexivity.
  - eexists MRecvEnd, _. split; [done|]. unfold TraceMain.next, proc_step. rewrite decide_False by congruence.
    unfold closed. rewrite !bool_decide_true, Er by done. reflexivity.
  - eexists (MRecv 0), _. split; [by eexists|]. unfold TraceMain.next, proc_step. rewrite decide_False by congruence. rewrite Eo.
    cbn [step Gateway.step]. unfold ResponseChan_recv. rewrite Eo. cbn. rewrite Er. reflexivity.
Qed.
Lemma client_task_label p l p' : closing p -> pnext p l = Some p' -> client_task (client_state p) l -> client_label l = true.
Proof.
  intros [Hm _] Hn Hl. unfold client_state in Hl.
  destruct (file p); [|destruct (recv_returned p); [destruct (toWriter p)|destruct (externalOutput (gw (pipe p)))]]; simpl in Hl;
    try (by subst); [|by destruct Hl as [? ->]].
  apply next_effect in Hn as [_ He]. destruct l; try done; cbn in He; destruct He; congruence.
Qed.

Lemma closing_leads : leads (fun n => closing (at_ n)) (fun n => main (at_ n) = Finished).
Proof.
  assert (forall k, leads (fun n => closing (at_ n) /\ closing_left (at_ n) = k) (fun n => main (at_ n) = Finished)) as Hk.
  { apply (leads_rank (fun k n => closing (at_ n) /\ closing_left (at_ n) = k)). intros k n0 [Hc0 Hk0].
    set (st := client_state (at_ n0)).
    set (Q := fun p => main p = Finished \/ exists j, (j < k)%nat /\ closing p /\ closing_left p = j).
    set (P := fun p => closing p /\ client_state p = st).
    assert (forall p, P p -> closing_left p = k) as HPk.
    { intros p [_ Hp]. rewrite <- Hk0. unfold closing_left. unfold st, client_state in Hp. injection Hp as -> -> -> ->. done. }
    assert (forall p l p', pnext p l = Some p' -> P p -> P p' /\ client_label l = false \/ Q p') as Hstep.
    { intros p l p' Hn Hp. pose proof (HPk p Hp) as Hpk. destruct Hp as [Hc Hs].
      destruct (closing_step p l p' Hn Hc) as [Hf|[Hc' [Hlt|[Hl Hs']]]]; [right; by left|right; right|left].
      - exists (closing_left p'). split; [lia|done].
      - split; [split; [done|congruence]|done]. }
    apply (weak_leads _ b (client_task st) (fun n => P (at_ n)) (fun n => Q (at_ n))); [apply client_task_fair| | | |by split].
    - intros n. apply (next_moment P Q). intros l p' Hn Hp. destruct (Hstep _ l p' Hn Hp) as [[? _]|?]; auto.
    - intros n [[Hm _] <-]. by apply client_task_enabled.
    - intros n l Hp E Hl. pose proof (behaviour_step _ b n l E) as Hn. destruct (Hstep _ l _ Hn Hp) as [[_ Hcl]|?]; [|done].
      destruct Hp as [Hc Hs]. rewrite <- Hs in Hl. by rewrite (client_task_label _ l _ Hc Hn Hl) in Hcl. }
  intros n H. by apply (Hk (closing_left (at_ n)) n).
Qed.

(** Main returns. *)
Lemma ends : (forall n, file_last (at_ n)) -> exists n, main (at_ n) = Finished.
Proof.
  intros Hfl.
  assert (exists n, left_select (at_ n)) as [n Hn].
  { destruct (decide (main (at_ 0) = Running)) as [H|H]; [|by exists 0%nat].
    destruct (select_left 0%nat H) as (n & _ & Hn). by exists n. }
  destruct (leaves_leads n Hn) as (m & _ & Hm).
  assert (main (at_ m) = Closed \/ main (at_ m) = Finished) as [H|H] by (destruct (main (at_ m)); simpl in Hm; first [lia|auto]).
  - destruct (closing_leads m) as (k & _ & Hk); [by split|]. by exists k.
  - by exists m.
Qed.
End Behaviour.

(** ** What has been sent and received at the end *)
Hypothesis kept_nothing : kept_out [] = [].
Section Started.
Context (b : behaviour pnext) (x : pipeline (A := A) (D := D)) (ss : list sender).
Hypothesis started : state_at b 0 = start_process x ss.
Hypothesis x_live : live keys I x.
Hypothesis x_idle : pending x = 0%nat.
Hypothesis ss_keys : Forall (fun s => target (sender_worker s) ∈ keys) ss.
Implicit Types n k : nat.
Abbreviation at_ n := (state_at b n).
Abbreviation seen n := (history _ proc_observe b n).
Abbreviation inv := (shutdown_inv sampleOutputFactor WriteFails kept_writer).

Lemma seen_inv n : inv (at_ n) (seen n).
Proof.
  unfold history. rewrite started.
  apply (run_inv onReqIn onReqOut act vars sampleOutputFactor WriteFails kept_in kept_out kept_writer x ss).
  - by apply (live_pds_ok keys I).
  - intros i. pose proof (in_flight_pending i x). lia.
  - by apply (live_ctx keys I).
  - rewrite <- started. apply labels_before_run.
Qed.
Lemma seen_total n : (length (sent_ids (seen n)) + total_left (senders (at_ n)) = total_left ss)%nat.
Proof.
  induction n as [|n IH]; [by rewrite started|]. rewrite history_next. destruct (label_at b n) as [l|] eqn:E.
  - unfold sent_ids in *. rewrite omap_app, length_app.
    destruct (senders_effect _ l _ (behaviour_step _ b n l E)) as [(_ & Hs & Ho)|(_ & Ho & Ht)].
    + unfold sent_ids in Ho. rewrite Ho, Hs. simpl. lia.
    + unfold sent_ids in Ho. rewrite Ho. lia.
  - rewrite app_nil_r, (behaviour_stutter _ b n E). exact IH.
Qed.
Lemma started_can_send : can_send (at_ 0).
Proof. rewrite started. intros _ _. by split. Qed.

(** The grace period was long enough: when it is over everything has been
    received. *)
Definition patient : Prop := forall n, label_at b n = Some MGraceOver -> forall i, in_flight i (pipe (at_ n)) = 0%nat.

Definition settled p (h : list (Request + Response)) : Prop :=
  (phase_left (main p) <= 3)%nat -> signalled p = false ->
  all_sent (senders p) /\ externalOutput (gw (pipe p)) = [] /\
  (main p <> Closed -> main p <> Finished -> forall i, in_flight i (pipe p) = 0%nat) /\
  forall i, count i (received_ids h) = count i (sent_ids h).

Lemma idle_output (y : pipeline (A := A) (D := D)) : (forall i, in_flight i y = 0%nat) -> externalOutput (gw y) = [].
Proof.
  intros H. destruct (externalOutput (gw y)) as [|r rest] eqn:E; [done|]. specialize (H (answer_id r)).
  unfold in_flight, in_gateway in H. rewrite E in H. simpl in H. rewrite count_cons, decide_True in H by done. lia.
Qed.

Lemma settled_step p h l p' : inv p h -> pnext p l = Some p' ->
  (l = MGraceOver -> forall i, in_flight i (pipe p) = 0%nat) -> settled p h -> settled p' (h ++ proc_observe p l).
Proof.
  intros HI Hn Hp Hset Hph' Hsg'.
  assert (signalled p = false) as Hsg.
  { apply not_true_iff_false. intros E. apply (flags_effect p l p' Hn) in E. congruence. }
  destruct (next_effect p l p' Hn) as [Hnf He].
  destruct (decide (phase_left (main p) <= 3)%nat) as [Hph|Hph].
  - destruct (Hset Hph Hsg) as (Hall & Ho & Hfl & Hc). unfold settled in *.
    destruct l as [l|i now| | | | | | | |now| | | | ]; cbn [effect] in He; cbn [proc_observe]; rewrite ?app_nil_r.
    + apply system_effect in He as (y & -> & Hy & Hob & Hl & Hcl). split; [done|]. cbn.
      assert (main p <> Closed -> forall i, in_flight i y = 0%nat) as Hy0.
      { intros Hm i. destruct (step_conserves onReqIn onReqOut act vars i _ _ _ (inv_ok _ _ _ _ _ HI) Hy) as [_ H].
        rewrite Hob, (Hfl Hm Hnf i) in H. cbn in H. lia. }
      split; [|split; [by auto|done]]. destruct (decide (main p = Closed)) as [Hm|Hm]; [by rewrite (Hcl Hm)|].
      by apply idle_output, Hy0.
    + apply send_step_ok in He as (s & spec & rest & y & Es & El & _). unfold all_sent in Hall.
      rewrite Forall_lookup in Hall. by rewrite (Hall i s Es) in El.
    + destruct He as [_ ->]. by split.
    + subst. cbn in Hsg'. done.
    + destruct He as (Hm & _). rewrite Hm in Hph. simpl in Hph. lia.
    + destruct He as (Hm & _). rewrite Hm in Hph. simpl in Hph. lia.
    + destruct He as (Hm & _). rewrite Hm in Hph. simpl in Hph. lia.
    + destruct He as (Hm & ->). split; [done|]. cbn. split; [done|]. split; [|done]. intros _ _. apply Hfl; congruence.
    + destruct He as (Hm & ->). split; [done|]. cbn. rewrite Ho. split; [done|]. by split.
    + destruct He as (r & rest & y & Er & _). congruence.
    + destruct He as (_ & _ & _ & ->). by split.
    + destruct He as (r & rest & w & _ & _ & ->). by split.
    + destruct He as (lines & _ & _ & _ & ->). by split.
    + destruct He as (Hm & _ & ->). split; [done|]. split; [done|]. by split.
  - assert (l = MGraceOver /\ main p = Grace) as [-> Hm].
    { destruct (main_effect p l p' Hn) as [[_ Hm]|Hlt]; [by rewrite Hm in Hph'|].
      destruct l as [l|i now| | | | | | | |now| | | | ]; cbn [effect] in He.
      - apply system_effect in He as (y & -> & _). cbn in *. lia.
      - apply send_step_ok in He as (s & spec & rest & y & _ & _ & _ & _ & ->). cbn in *. lia.
      - destruct He as [_ ->]. cbn in *. lia.
      - subst. cbn in *. lia.
      - destruct He as (Hm & Hc & _). destruct (proj1 (inv_signal _ _ _ _ _ HI Hsg) Hc) as [?|[?|?]]; congruence.
      - destruct He as (Hm & _ & ->). cbn in *. lia.
      - by destruct He as [? _].
      - destruct He as (Hm & _). rewrite Hm in Hph. simpl in Hph. lia.
      - destruct He as (Hm & _). rewrite Hm in Hph. simpl in Hph. lia.
      - destruct He as (r & rest & y & _ & _ & _ & ->). cbn in *. lia.
      - destruct He as (Hm & _). rewrite Hm in Hph. simpl in Hph. lia.
      - destruct He as (r & rest & w & _ & _ & ->). cbn in *. lia.
      - destruct He as (lines & _ & _ & _ & ->). cbn in *. lia.
      - destruct He as (Hm & _). rewrite Hm in Hph. simpl in Hph. lia. }
    destruct He as [_ ->]. specialize (Hp eq_refl). cbn [proc_observe]. rewrite app_nil_r. cbn. split_and!.
    + apply (inv_send _ _ _ _ _ HI), (inv_signal _ _ _ _ _ HI Hsg). congruence.
    + by apply idle_output.
    + done.
    + intros i. pose proof (inv_conserved _ _ _ _ _ HI ltac:(congruence) ltac:(congruence) i). rewrite Hp in *. lia.
Qed.
Lemma seen_settled : patient -> forall n, settled (at_ n) (seen n).
Proof.
  intros Hp n. induction n as [|n IH].
  - rewrite started. intros H. simpl in H. lia.
  - rewrite history_next. destruct (label_at b n) as [l|] eqn:E.
    + apply (settled_step _ _ l); [apply seen_inv|by apply behaviour_step| |done]. intros ->. by apply Hp.
    + rewrite app_nil_r, (behaviour_stutter _ b n E). exact IH.
Qed.

(** The run ends with a complete file; all is sent unless there was a signal,
    and all of it is answered if the grace period was long enough. *)
Lemma process_ends : process_fair b ->
  exists n lines, main (at_ n) = Finished /\ file (at_ n) = Some lines /\
    (exists before queued, all_received (seen n) = before ++ queued /\
       write sampleOutputFactor WriteFails (Some <$> before ++ kept_writer queued) = Ok lines) /\
    (signalled (at_ n) = false -> length (sent_ids (seen n)) = total_left ss /\
       (patient -> forall i, count i (received_ids (seen n)) = count i (sent_ids (seen n)))).
Proof.
  intros Hf. destruct (ends b Hf started_can_send) as [n Hn].
  { intros n [f Ef]. by destruct (inv_file _ _ _ _ _ (seen_inv n) f Ef) as (_ & ? & _). }
  destruct (inv_finished _ _ _ _ _ (seen_inv n) Hn) as [lines Hl]. exists n, lines.
  split; [done|]. split; [done|]. split.
  { destruct (inv_file_written _ _ _ _ _ lines (seen_inv n) Hl) as (w & (before & queued & Ha & ->) & Hw). by exists before, queued. }
  intros Hsg. split.
  - pose proof (seen_total n) as Ht.
    rewrite (total_left_all_sent (senders (at_ n))) in Ht; [lia|].
    apply (inv_send _ _ _ _ _ (seen_inv n)), (inv_signal _ _ _ _ _ (seen_inv n) Hsg). congruence.
  - intros Hp. apply (seen_settled Hp n); [rewrite Hn; simpl; lia|done].
Qed.
End Started.
End FairTrace.

Section FairClient.
Context {A Act : Type} (onReqIn : A -> Request -> res A) (onReqOut : A -> Response -> res A) (act : Act -> A -> option A).
Context {D DL : Type} `{!RequestDispatcher D DL} `{!RequestDispatcherLaws D DL} (vars : BackendVars).
Context (sampleOutputFactor : Z) (WriteFails : string -> bool)
  (kept_in : list Request -> list Request) (kept_out kept_writer : list Response -> list Response).
Context (keys : gset string) (I : A -> Prop).
Hypothesis in_ok : forall a req, I a -> Target req ∈ keys -> exists a', onReqIn a req = Ok a' /\ I a'.
Hypothesis out_ok : forall a r, I a -> Target (Source r) ∈ keys -> exists a', onReqOut a r = Ok a' /\ I a'.
Hypothesis act_ok : forall x a a', I a -> act x a = Some a' -> I a'.
Hypothesis factor_ok : sampleOutputFactor <> 0.
Hypothesis no_fail : forall line, WriteFails line = false.
Hypothesis kept_nothing : kept_out [] = [].
Hypothesis writer_kept : forall l, kept_writer l `sublist_of` l.
Abbreviation cnext := (@TraceMain.next A Act onReqIn onReqOut act D DL _ vars sampleOutputFactor WriteFails kept_in kept_out kept_writer).
Abbreviation cfair := (process_fair onReqIn onReqOut act vars sampleOutputFactor WriteFails kept_in kept_out kept_writer).

Lemma finished_disabled (p : process (A := A) (D := D)) (T : proc_label -> Prop) : main p = Finished -> ~ enabled cnext T p.
Proof. intros Hm (l & p' & _ & Hn). by destruct (next_effect _ _ _ _ _ _ _ _ _ p l p' Hn). Qed.

(** A client against any gateway that takes the requests for its targets:
    every fair behaviour ends, and every run before a signal can be continued
    to a fair one. *)
Lemma client_ends x targets traces client start :
  live keys I x -> pending x = 0%nat ->
  Replay.SetupWithManager (Ok targets) (mkClient traces ∅) = Ok client ->
  list_to_set (KeyFromObject <$> targets) ⊆ keys ->
  let p0 := start_process x (start_senders start client) in
  (forall b : behaviour cnext, state_at b 0 = p0 -> cfair b ->
     exists n lines, main (state_at b n) = Finished /\ file (state_at b n) = Some lines /\
       let h := history cnext proc_observe b n in
       (exists before queued, all_received h = before ++ queued /\
          write sampleOutputFactor WriteFails (Some <$> before ++ kept_writer queued) = Ok lines) /\
       (signalled (state_at b n) = false ->
        length (sent_ids h) =
          sum_list ((fun kw => length (Invocations (trace_spec (snd kw)))) <$> map_to_list (workers client)) /\
        ((forall k, label_at b k = Some MGraceOver -> forall i, in_flight i (pipe (state_at b k)) = 0%nat) ->
         forall i, count i (received_ids h) = count i (sent_ids h)))) /\
  (forall ls p, run cnext p0 ls = Some p -> MSignal ∉ ls -> main p = Running ->
     exists b : behaviour cnext, state_at b 0 = p0 /\ cfair b /\ forall n, (n < length ls)%nat -> label_at b n = ls !! n).
Proof.
  intros L H0 Hcl Hk p0.
  assert (total_left (start_senders start client) =
    sum_list ((fun kw => length (Invocations (trace_spec (snd kw)))) <$> map_to_list (workers client))) as Htotal.
  { apply total_left_start. intros key w Hkey. by apply (SetupWithManager_workers targets traces client Hcl key w Hkey). }
  split.
  - intros b Hb Hf.
    destruct (process_ends onReqIn onReqOut act vars sampleOutputFactor WriteFails kept_in kept_out kept_writer keys I in_ok out_ok act_ok
      factor_ok no_fail writer_kept kept_nothing b x (start_senders start client) Hb L H0
      (start_senders_targets keys targets traces client start Hcl Hk) Hf) as (n & lines & Hm & Hl & Hw & Hs).
    exists n, lines. split; [done|]. split; [done|]. split; [done|]. intros Hsg. destruct (Hs Hsg) as [H1 H2].
    split; [|exact H2]. by rewrite H1.
  - intros ls p Hr Hn Hm.
    destruct (client_completes onReqIn onReqOut act vars sampleOutputFactor WriteFails kept_in kept_out kept_writer keys I in_ok out_ok act_ok
      factor_ok no_fail kept_nothing writer_kept x targets traces client start ls p L H0 Hcl Hk Hr Hn Hm) as (ls' & p' & Hr' & Hm' & _).
    assert (run cnext p0 (ls ++ ls') = Some p') as Hrun by (by rewrite run_app, Hr).
    exists (finite_behaviour cnext p0 (ls ++ ls') p' Hrun). split; [apply finite_behaviour_start|]. split.
    + split_and!; intros; apply finite_weakly_fair; by apply finished_disabled.
    + intros n Hlt. simpl. by apply lookup_app_l.
Qed.
End FairClient.

Section FairRuns.
Context {B W Q S M : Type} `{!TimedFloat64Buckets B} `{!TimeWindow W} `{!WorkQueue Q}
  `{!Client S} `{!PodLister S} `{!Scaler S} `{!SharedMap executor_obj M} `{!SharedMapLaws executor_obj M}.
Context (emptyQueue : Q) (ReadFile : string -> res string) (Unmarshal : string -> res K8s.AutoscalerConfig)
  (load : string -> res (list TraceSpec)) (Create : string -> res unit) (GrpcNewClient : string -> res unit).
Context (sampleOutputFactor : Z) (WriteFails : string -> bool)
  (kept_in : list Request -> list Request) (kept_out kept_writer : list Response -> list Response).
Abbreviation set_up := (set_up (B := B) (W := W) (M := M) emptyQueue ReadFile Unmarshal load Create GrpcNewClient).

(** C3. Every fair run of the trace experiment ends.  Let the Kubernetes
    gateway and the client be set up from accepted flags with a readable
    configuration of the autoscaler, let the output file be writable, and
    start both, the client when the autoscaler's goroutine has begun, for which
    main sleeps.  Then in every infinite behaviour of senders, gateway,
    dispatchers, autoscaler, cluster, signals and client that no panic ends
    and in which the senders' timers fire and the goroutines of client and
    main are scheduled, main returns, with the output file that [write]
    makes of the responses received, in their order; of those that still
    waited for the writer when the receiver closed the channel between them
    it has what that channel keeps for its reader, so that it has all
    responses when the channel keeps everything.  If there was no signal,
    every invocation of every worker's trace has been sent; and if moreover
    nothing is in flight when the grace period is over, every request has been
    answered.  Every run in which main still waits in its select and no signal
    has come can be continued to such a behaviour. *)
Theorem trace_run_ends services f f' vars g client targets text c w0 now start :
  set_up (Ok targets) services f = Ok (f', vars, GK8s g, client) ->
  gatewayFramework f = "k8s" -> autoscalerConfig f <> "" -> ReadFile (autoscalerConfig f) = Ok text ->
  Unmarshal text = Ok c -> K8s.configured (autoscalerFramework f) c ->
  sampleOutputFactor <> 0 -> (forall line, WriteFails line = false) -> kept_out [] = [] -> (forall l, kept_writer l `sublist_of` l) ->
  let next := next K8sRun.onReqIn K8sRun.onReqOut K8sRun.run_background vars sampleOutputFactor WriteFails kept_in kept_out kept_writer in
  let fair := process_fair K8sRun.onReqIn K8sRun.onReqOut K8sRun.run_background vars sampleOutputFactor WriteFails kept_in kept_out kept_writer in
  let p0 := start_process (K8sRun.started (S := S) w0 now (K8s.autoscaler_Run (K8s.Start now g))) (start_senders start client) in
  (forall b : behaviour next, state_at b 0 = p0 -> fair b ->
     exists n lines, main (state_at b n) = Finished /\ file (state_at b n) = Some lines /\
       let h := history next proc_observe b n in
       (exists before queued, all_received h = before ++ queued /\
          write sampleOutputFactor WriteFails (Some <$> before ++ kept_writer queued) = Ok lines) /\
       (signalled (state_at b n) = false ->
        length (sent_ids h) =
          sum_list ((fun kw => length (Invocations (trace_spec (snd kw)))) <$> map_to_list (workers client)) /\
        ((forall k, label_at b k = Some MGraceOver -> forall i, in_flight i (pipe (state_at b k)) = 0%nat) ->
         forall i, count i (received_ids h) = count i (sent_ids h)))) /\
  (forall ls p, run next p0 ls = Some p -> MSignal ∉ ls -> main p = Running ->
     exists b : behaviour next, state_at b 0 = p0 /\ fair b /\ forall n, (n < length ls)%nat -> label_at b n = ls !! n).
Proof.
  intros Hs Hg Hp Hr Hu Hc Hf Hw Hk Hkw next fair p0.
  destruct (set_up_launched emptyQueue ReadFile Unmarshal load Create GrpcNewClient services f f' vars g client targets text c now
    Hs Hg Hp Hr Hu Hc) as [(timeout & a & fn & Hl & Ha) [traces Hcl]].
  subst p0. rewrite Hl. destruct (K8sRun.launched_live (S := S) timeout targets now w0 a fn Ha) as [L H0].
  exact (client_ends _ _ _ vars _ _ kept_in _ _ _ _ (K8sRun.in_accepted _) (K8sRun.out_accepted _)
    (K8sRun.background_accepted _) Hf Hw Hk Hkw _ targets traces client start L H0 Hcl ltac:(set_solver +)).
Qed.

(** The same of the experiment against the Knative gateway, when every
    deployment of the trace has a service of the same key. *)
Theorem knative_trace_run_ends f f' vars g client targets services now start :
  set_up (Ok targets) (Ok services) f = Ok (f', vars, g, client) -> gatewayFramework f = "knative" ->
  list_to_set (KeyFromObject <$> targets) ⊆ KnativeGateway.service_keys services ->
  sampleOutputFactor <> 0 -> (forall line, WriteFails line = false) -> kept_out [] = [] -> (forall l, kept_writer l `sublist_of` l) ->
  let next := next (D := KnServiceDispatcher) KnativeGateway.onReqIn KnativeGateway.onReqOut KnativeRun.run_background vars sampleOutputFactor
                WriteFails kept_in kept_out kept_writer in
  let fair := process_fair (D := KnServiceDispatcher) KnativeGateway.onReqIn KnativeGateway.onReqOut KnativeRun.run_background vars
                sampleOutputFactor WriteFails kept_in kept_out kept_writer in
  exists kg, g = GKnative kg /\
  forall b : behaviour next, state_at b 0 = start_process (KnativeRun.started (KnativeGateway.Start now kg)) (start_senders start client) ->
    fair b ->
    exists n lines, main (state_at b n) = Finished /\ file (state_at b n) = Some lines /\
      let h := history next proc_observe b n in
      (exists before queued, all_received h = before ++ queued /\
         write sampleOutputFactor WriteFails (Some <$> before ++ kept_writer queued) = Ok lines) /\
      (signalled (state_at b n) = false ->
       length (sent_ids h) =
         sum_list ((fun kw => length (Invocations (trace_spec (snd kw)))) <$> map_to_list (workers client)) /\
       ((forall k, label_at b k = Some MGraceOver -> forall i, in_flight i (pipe (state_at b k)) = 0%nat) ->
        forall i, count i (received_ids h) = count i (sent_ids h))).
Proof.
  intros Hs Hg Hk Hf Hw Hkept Hkw next fair.
  destruct (set_up_knative emptyQueue ReadFile Unmarshal load Create GrpcNewClient f f' vars g client targets services now Hs Hg)
    as (-> & (kg & timeout & -> & Hl) & traces & Hcl).
  exists kg. split; [done|].
  destruct (KnativeRun.knative_launched_live _ _ _ _ _ _ Hl) as [L H0].
  exact (proj1 (client_ends _ _ _ _ _ _ kept_in _ _ _ _ (KnativeRun.knative_in_accepted _) (KnativeRun.knative_out_accepted _)
    KnativeRun.knative_background_accepted Hf Hw Hkept Hkw _ targets traces client start L H0 Hcl Hk)).
Qed.
End FairRuns.

(** * Witness: the run of [TraceMain.Demo] *)
Module FairTraceDemo.
#[local] Existing Instance Decider.Demo.last_buckets.
#[local] Existing Instance Decider.Demo.max_window.
#[local] Existing Instance MapServer.map_client.
#[local] Existing Instance Autoscaler.Demo.list_queue.
#[local] Existing Instance Autoscaler.Demo.two_pods.

Lemma trace_run_ends_witness :
  exists (b : behaviour TraceMain.Demo.demo_next) n lines,
    state_at b 0 = TraceMain.Demo.demo_process /\ label_at b 0 = Some (MSend 0 2000) /\
    main (state_at b n) = Finished /\ file (state_at b n) = Some lines.
Proof.
  destruct (trace_run_ends (B := list f64) (W := Z) (Q := list string) (S := MapServer.server)
    (M := gmap string executor_obj) [] (fun _ => Ok "{}") (fun _ => Ok (K8s.mkASConfig None None))
    (fun _ => Ok [demo_trace]) (fun _ => Ok tt) (fun _ => Ok tt) 1 (fun _ => false) id id id (Ok [])
    TraceMain.Demo.demo_flags (mkFlags "k8s" "fake" "one-time" "one-time.yaml" "config/loader.json" "trace.log" 15)
    TraceMain.Demo.demo_vars TraceMain.Demo.demo_k8s TraceMain.Demo.demo_client Gateway.Demo.listed "{}"
    (K8s.mkASConfig None None) Autoscaler.Demo.broken 10 1000) as [Hends Hext];
    [vm_compute; reflexivity|reflexivity|discriminate|reflexivity|reflexivity|left; reflexivity|discriminate|
     reflexivity|reflexivity|reflexivity|].
  destruct (run TraceMain.Demo.demo_next TraceMain.Demo.demo_process TraceMain.Demo.first_steps) as [p|] eqn:E;
    [|vm_compute in E; discriminate E].
  assert (Hm : main p = Running).
  { assert (H : (main <$> run TraceMain.Demo.demo_next TraceMain.Demo.demo_process TraceMain.Demo.first_steps) = Some Running)
      by (vm_compute; reflexivity).
    rewrite E in H. injection H as H. exact H. }
  destruct (Hext TraceMain.Demo.first_steps p E) as (b & Hb & Hf & Hl); [|exact Hm|].
  { unfold TraceMain.Demo.first_steps. repeat (apply not_elem_of_cons; split; [discriminate|]). apply not_elem_of_nil. }
  destruct (Hends b Hb Hf) as (n & lines & Hn & Hfile & _).
  exists b, n, lines. split; [exact Hb|]. split; [|split; [exact Hn|exact Hfile]].
  rewrite Hl; [reflexivity|]. apply Nat.ltb_lt. vm_compute. reflexivity.
Defined.
End FairTraceDemo.
